(* ===== verification/_CoqProject ===== *)
-Q . S2P
Prelude.v
Types.v
Interfaces.v
SocketAddr.v
DemoInet.v
SocketAddrSpec.v
World.v
Demo.v
Socket.v
UDPSocket.v
TCPAsynch.v
TCPStream.v
TCPListener.v
Dispatch.v
Shape.v
System.v
DemoRuns.v
Lifetimes.v
Guards.v
Events.v
Callbacks.v
Constructors.v
Forwarding.v
IrqMask.v
Safety.v
Teardown.v
Text.v
Harness.v
Host.v
KeyExchange.v
Headers.v
Classes.v
Alive.v
Owned.v
Delivery.v
Counters.v
DemoEcho.v
Network.v
Opening.v
EchoTCP.v
EchoTCPSpec.v
TCPDialogue.v
TCPSession.v
EchoUDP.v
EchoUDPSpec.v
UDPDialogue.v
UDPSession.v
