(* ===== verification/Prelude.v ===== *)
(** * The mbed C++ socket classes: a verification development

    ** The program

    The sources under [src/source/v0] and [src/sockets/v0] are an object-oriented,
    asynchronous interface to a network stack.  [Socket] (Socket.cpp) wraps a C
    [struct socket] and the stack's table of functions; [UDPSocket] (UDPSocket.cpp),
    [TCPAsynch] (TCPAsynch.cpp), [TCPStream] (TCPStream.cpp) and [TCPListener]
    (TCPListener.cpp) derive from it, and [SocketAddr] (SocketAddr.cpp) holds an IP
    address.  A program constructs an object for a stack, opens it, and calls methods
    that test their guards and make one call through the table.  The stack answers
    later, in interrupt context: it stores an event in the struct and calls the thunk of
    the object, [Socket::_nvEventHandler], which dispatches to the [_eventHandler] of the
    object's class; that posts the user's handler, bound to the object, to the scheduler
    [minar].  [TCPAsynch] counts its objects in a static and keeps the stack's periodic
    task registered while there are any.

    The headers are versioned: [sockets/X.h] brings version 0 into the namespace of the
    current version, and [mbed-net-sockets] keeps the old names.  The programs under
    [src/test] are clients: each allocates one object that embeds a socket, hands its
    methods to the socket as handlers, and runs from the scheduler.

    The stack ([sal]), the scheduler ([minar]), the thunks and the C++ run time are other
    packages.  They are classes of operations (Interfaces.v) on which every definition is
    parametric; what a theorem needs of them is a class of laws beside them
    ([MinarLaws], [RuntimeLaws], [SALOk], and the laws of [Inet] in SocketAddr.v).
    Demo.v and DemoInet.v give instances that satisfy the laws; the theorems are applied
    to them at concrete runs.

    ** The files

    - Prelude.v: pointers and unsigned wrap-around, the state-and-fault monad [M] in
      which methods are written, its total-correctness and relational rules, tactics, and
      lemmas on finite maps.  A fault is undefined behaviour of the code, or [operator new]
      failing.
    - Types.v, Interfaces.v: the types of the abstraction layer, and the interfaces.
    - World.v: the classes' data members as records, objects in a heap by address with
      their virtual table pointer, the statics of [TCPAsynch], the interrupt mask; calls
      through the table of a stack ([call_api], [query_api]).
    - SocketAddr.v, Socket.v, UDPSocket.v, TCPAsynch.v, TCPStream.v, TCPListener.v: one
      definition per constructor, destructor and method, of the same name (with the class
      as prefix where two classes share one).  Methods take the address of the object
      first.  Contents of storage that the code leaves uninitialised are arguments [raw].
    - Dispatch.v: the virtual tables and the virtual destructor.  Constructors and
      destructors set the table pointer class by class, as C++ does.
    - Shape.v: which parts of the state ordinary methods leave alone.
    - System.v: public calls as data, [exec], and programs as a transition system: calls,
      interrupts, progress of the stack and dispatch of callbacks, in any order.
    - Headers.v: every header as its include guard and the list of what it includes and
      declares, with the preprocessor's search and guards as a function.  Classes.v: the
      class declarations as data, with C++'s lookup, hiding, access and overriding.
    - Harness.v: the state of a test program (the library's state, its client, its global
      buffer, the tasks it posted), assertions, and its steps.  EchoTCP.v, EchoUDP.v: the
      two echo clients, one definition per method ([src/test/echo-tcp-client/main.cpp],
      [src/test/echo-udp-client/main.cpp]).  Alive.v: rules for programs that own one
      client, proved from the theorems about the library; Owned.v: what such a program has
      to satisfy to own its objects ([Owner]); Delivery.v: clients whose socket is open,
      and the way of an event to the client's method.
    - KeyExchange.v: the test functions of both programs up to the creation of the client,
      with the board's drivers and the console to the host as parameters, and the callbacks
      of the host test that answer; Text.v: the decimal texts they exchange.
    - Host.v: the handlers of the servers on the host ([src/test/host_tests]).  Network.v:
      what the dialogues assume of the stack as a network, and stacks that provide it.
      Opening.v: the library's calls from a closed socket to a question to the resolver;
      Counters.v: the counters of the test framework.
    - Demo.v, DemoInet.v, DemoRuns.v, DemoEcho.v: the instances and runs of them.

    ** The theorems

    - Safety.v: a program that follows [allowed] never faults, whatever it calls and
      whatever events arrive, but for lack of memory; an open socket always has a stack.
    - Lifetimes.v: in every reachable state the count of TCP objects is exact and the
      periodic task is registered once, under [_tick_handle], only while one is alive;
      every step refines an abstract machine of a set and a flag; construction and
      destruction cancel out; the two outcomes of [accept].
    - Events.v: an interrupt posts exactly the callback of a delivery table, with the
      handler set at that moment.  Callbacks.v: pending callbacks have their handlers
      set, except error callbacks; what [error_check] and a failing [destroy] leave
      behind.
    - Guards.v: what unopened sockets, missing stacks and NULL addresses return, without
      any effect; and the calls that lack such a guard.
    - Forwarding.v: a call that passes its guards is exactly one call through the table.
    - Constructors.v: the objects that constructors and [accept] build, when the periodic
      task starts, and when it never does.
    - SocketAddrSpec.v: round trips of texts and addresses, and the result codes.
    - IrqMask.v: assignments of handlers as sequences of word stores interleaved with
      interrupts: atomic in the setters of [Socket], torn in the methods that do not mask.

    - Headers.v: processing includes always ends; the public headers can be included in
      any order and number and declare every class once, its bases first; the deprecated
      headers of version 0 name files that do not exist.  Classes.v: the calls a program
      can make are the accessible members, and the virtual tables of Dispatch.v are the
      final overriders.
    - Teardown.v: the destructors statement by statement: events may arrive between any
      two statements, and what they post.
    - EchoTCPSpec.v, EchoUDPSpec.v: under any sequence of events each client owns one
      socket until it terminates and nothing afterwards; the TCP client's handlers
      complete while it is alive, and what a handler does that is dispatched later;
      acknowledgements are counted exactly; the UDP client terminates with its hundredth
      echo, not earlier.
    - TCPDialogue.v, UDPDialogue.v: the clients together with their hosts, on a network
      that may cut and interleave but loses nothing.  Every TCP dialogue ends with
      success; the UDP dialogue goes well for ninety-nine rounds and its end depends on
      uninitialised storage.
    - TCPSession.v, UDPSession.v: the tests from their test functions to their ends.  The
      TCP client asks for and connects to the address and port that its host's server is
      bound to, and its test always passes, on a board, a stack and a network that work;
      the UDP test passes exactly if uninitialised storage happens to contain a zero.

    ** Bounds

    The library has no loops over unbounded data, so its definitions need no fuel.
    [include] (Headers.v) takes the nesting it may reach as fuel: for any set of guarded
    headers the number of guards plus one is enough, and seven for those of the
    repository.  The number of rounds of the UDP client is bounded by its 32-bit counter;
    a dialogue of the TCP client has at most 96 steps, one for each of its 32 bytes sent,
    echoed and acknowledged, and the whole test a hundred after the creation of the
    client; the UDP test has at most 203.  The digits of a number take its binary length as
    fuel ([str], Text.v).  [size_t] has at least 16 bits where that matters.
    [_TCPSockets] wraps at the width of [uintptr_t] and the theorems show it
    never does, because objects have distinct addresses below that bound; the interval of
    the periodic task is taken modulo 2^32 and a count of sent bytes modulo 2^16, as the
    types of the code do.

    ** What is not modelled

    Calls are atomic steps: a stack that calls a socket's handler from within one of its
    own functions, or changes a struct between calls, is not modelled (interrupts do
    happen between any two calls, Teardown.v has them between the statements of a
    destructor, and IrqMask.v treats the one place where the code masks them).  Copies of
    socket objects, which the classes do not forbid, are not modelled: what copying a
    thunk does is another package's.  Events while an object is constructed do not occur:
    the stack learns of a socket when it is opened or accepted, and by then the
    constructors of its bases have run.  Of the test programs, what [printf] prints,
    [eth.disconnect] and the end of the suite ([greentea_teardown]) are left out; of the
    host, the polling of its sockets, the threads of the servers and the teardown.  The
    build description and the documentation have no behaviour. *)
From stdpp Require Import base gmap list strings.
From Stdlib Require Import ZArith Lia.

(** ** Machine integers *)

(** A pointer is the integer of its address; [NULL] is address 0. *)
Abbreviation ptr := Z (only parsing).
Definition NULL : ptr := 0%Z.

(** [wrap w x] is [x] converted to an unsigned integer of [w] bits. *)
Definition wrap (w x : Z) : Z := (x mod 2 ^ w)%Z.
Definition u16 : Z → Z := wrap 16.
Definition u32 : Z → Z := wrap 32.

(** ** The state-and-fault monad *)

(** What undefined behaviour or an abort of the C++ runtime looks like. *)
Inductive fault :=
| NullDereference          (* a member of a struct or object at NULL is accessed *)
| NullCall                 (* a NULL function pointer is called *)
| DeadObject (p : ptr)     (* an object that is not alive is accessed *)
| StorageInUse (p : ptr)   (* an object is constructed over a live one *)
| OutOfMemory              (* operator new finds no storage *)
| OutOfBounds              (* an array is accessed outside its bounds *)
| InactiveMember.          (* a union member that is not active is read *)

Inductive outcome (A : Type) :=
| Done (a : A)
| Fault (f : fault).
Arguments Done {A} a.
Arguments Fault {A} f.

Definition M (W A : Type) : Type := W → outcome (A * W).

#[export] Instance M_ret W : MRet (M W) := λ A a w, Done (a, w).
#[export] Instance M_bind W : MBind (M W) := λ A B k m w,
  match m w with
  | Done (a, w') => k a w'
  | Fault f => Fault f
  end.

Definition gets {W A} (f : W → A) : M W A := λ w, Done (f w, w).
Definition modify {W} (f : W → W) : M W unit := λ w, Done (tt, f w).
Definition raise {W A} (f : fault) : M W A := λ _, Fault f.


(** The result of a computation, and the state it leaves, when it does not fault. *)
Definition returns {W A} (m : M W A) (w : W) (a : A) (w' : W) : Prop :=
  m w = Done (a, w').

(** The state after a run (the state before it, should it fault). *)
Definition after {W A} (m : M W A) (w : W) : W :=
  match m w with
  | Done (_, w') => w'
  | Fault _ => w
  end.

(** The value a run returns, if it completes. *)
Definition result {W A} (m : M W A) (w : W) : option A :=
  match m w with
  | Done (a, _) => Some a
  | Fault _ => None
  end.

Lemma result_Done {W A} (m : M W A) w a : result m w = Some a → m w = Done (a, after m w).
Proof. unfold result, after. by destruct (m w) as [[? ?]|]; intros [= ->]. Qed.

(** Total correctness: [m] run from [w] does not fault and its result satisfies [Q]. *)
Definition wp {W A} (m : M W A) (Q : A → W → Prop) (w : W) : Prop :=
  match m w with
  | Done (a, w') => Q a w'
  | Fault _ => False
  end.

(** Every completed run of [m] is a step of the relation [R]. *)
Definition moves {W A} (R : W → W → Prop) (m : M W A) : Prop :=
  ∀ w a w', m w = Done (a, w') → R w w'.

(** ** Lemmas on the monad *)

Section monad.
Context {W : Type}.

Lemma bind_Done {A B} (m : M W A) (k : A → M W B) w b w' :
  (m ≫= k) w = Done (b, w') ↔
  ∃ a w1, m w = Done (a, w1) ∧ k a w1 = Done (b, w').
Proof.
  unfold mbind, M_bind. destruct (m w) as [[a w1]|f]; split.
  - eauto.
  - intros (? & ? & [= <- <-] & ?). done.
  - done.
  - intros (? & ? & ? & ?). done.
Qed.

Lemma bind_run {A B} (m : M W A) (k : A → M W B) w a w1 :
  m w = Done (a, w1) → (m ≫= k) w = k a w1.
Proof. unfold mbind, M_bind. by intros ->. Qed.

Lemma bind_fault {A B} (m : M W A) (k : A → M W B) w f :
  m w = Fault f → (m ≫= k) w = Fault f.
Proof. unfold mbind, M_bind. by intros ->. Qed.

Lemma ret_Done {A} (a b : A) (w w' : W) :
  (mret a : M W A) w = Done (b, w') ↔ b = a ∧ w' = w.
Proof. unfold mret, M_ret. split; [by intros [= -> ->] | by intros [-> ->]]. Qed.

Lemma wp_ret {A} (a : A) (Q : A → W → Prop) w : Q a w → wp (mret a) Q w.
Proof. done. Qed.

Lemma wp_bind {A B} (m : M W A) (k : A → M W B) Q w :
  wp m (λ a w', wp (k a) Q w') w → wp (m ≫= k) Q w.
Proof. unfold wp, mbind, M_bind. by destruct (m w) as [[]|]. Qed.

Lemma wp_mono {A} (m : M W A) (P Q : A → W → Prop) w :
  wp m P w → (∀ a w', P a w' → Q a w') → wp m Q w.
Proof. unfold wp. destruct (m w) as [[]|]; eauto. Qed.

Lemma wp_returns {A} (m : M W A) Q w :
  wp m Q w ↔ ∃ a w', returns m w a w' ∧ Q a w'.
Proof.
  unfold wp, returns. destruct (m w) as [[a w']|f]; split.
  - eauto.
  - by intros (? & ? & [= <- <-] & ?).
  - done.
  - by intros (? & ? & ? & _).
Qed.

Lemma moves_ret R `{!Reflexive R} {A} (a : A) : moves (W:=W) R (mret a).
Proof. intros w b w' [= _ ->]. reflexivity. Qed.

Lemma moves_gets R `{!Reflexive R} {A} (f : W → A) : moves R (gets f).
Proof. intros w b w' [= _ ->]. reflexivity. Qed.

Lemma moves_raise R {A} (f : fault) : moves (W:=W) (A:=A) R (raise f).
Proof. done. Qed.

Lemma moves_modify (R : W → W → Prop) (f : W → W) : (∀ w, R w (f w)) → moves R (modify f).
Proof. by intros H w b w' [= _ <-]. Qed.

Lemma moves_bind R `{!Transitive R} {A B} (m : M W A) (k : A → M W B) :
  moves R m → (∀ a, moves R (k a)) → moves R (m ≫= k).
Proof.
  intros Hm Hk w b w' (a & w1 & H1 & H2)%bind_Done.
  transitivity w1; [eapply Hm | eapply Hk]; eauto.
Qed.

Lemma moves_weaken {A} (R R' : W → W → Prop) (m : M W A) :
  moves R m → (∀ w w', R w w' → R' w w') → moves R' m.
Proof. intros Hm H w a w' E. eapply H, Hm, E. Qed.
End monad.

Create HintDb moves discriminated.
#[export] Hint Resolve moves_ret moves_gets moves_raise moves_bind : moves.

(** Split a [moves] goal along the binds and branches of the program. *)
Ltac solve_moves :=
  repeat lazymatch goal with
  | |- moves _ (_ ≫= _) => apply moves_bind; [apply _ | | intro]
  | |- moves _ (mret _) => apply moves_ret; apply _
  | |- moves _ (gets _) => apply moves_gets; apply _
  | |- moves _ (raise _) => apply moves_raise
  | |- moves _ (match ?x with _ => _ end) => destruct x eqn:?
  | |- moves _ _ => solve [eauto with moves typeclass_instances]
  end.

(** Invert a completed run [H] of a monadic program into the runs of its parts. *)
Ltac inv_run H :=
  repeat first
  [ let a := fresh "r" in let w := fresh "w" in
    let H1 := fresh "Hrun" in
    apply bind_Done in H as (a & w & H1 & H); try inv_run H1
  | apply ret_Done in H as [-> ->]
  | progress simplify_eq/= ].

(** Close an equation between closed terms by running both sides. *)
Ltac run_refl :=
  intros; lazymatch goal with |- _ = ?b => vm_cast_no_check (eq_refl b) end.

(** A computed option that is there, without its contents being compared. *)
Lemma default_there {A} (d : A) (x : option A) :
  match x with Some _ => true | None => false end = true → x = Some (default d x).
Proof. by destruct x. Qed.

(** Run [m] from [w] on a concrete input: the goal is [m w = Done (a, after m w)]. *)
Tactic Notation "run_after" uconstr(m) uconstr(w) :=
  simple refine (result_Done m w _ _); run_refl.

(** ** Lemmas on machine integers *)

Section integers.
Open Scope Z_scope.

Lemma wrap_range w x : 0 ≤ w → 0 ≤ wrap w x < 2 ^ w.
Proof. intros. apply Z.mod_pos_bound. by apply Z.pow_pos_nonneg. Qed.

Lemma wrap_small w x : 0 ≤ x < 2 ^ w → wrap w x = x.
Proof. apply Z.mod_small. Qed.

Lemma wrap_idem w x : wrap w (wrap w x) = wrap w x.
Proof. unfold wrap. apply Zmod_mod. Qed.

Lemma wrap_add_l w x y : wrap w (wrap w x + y) = wrap w (x + y).
Proof. unfold wrap. apply Zplus_mod_idemp_l. Qed.

Lemma wrap_sub_l w x y : wrap w (wrap w x - y) = wrap w (x - y).
Proof. unfold wrap. apply Zminus_mod_idemp_l. Qed.
End integers.

(** ** Lemmas on finite maps and sets *)

Section maps.
Context {A : Type} (P : A → Prop) `{!∀ x, Decision (P x)}.

(** The sub-map of the values that satisfy [P]. *)
Definition mfilter (m : gmap Z A) : gmap Z A := filter (λ kv, P kv.2) m.

Lemma mfilter_lookup m k x : mfilter m !! k = Some x ↔ m !! k = Some x ∧ P x.
Proof. unfold mfilter. rewrite map_lookup_filter_Some. done. Qed.

Lemma mfilter_insert_same m k x y :
  m !! k = Some y → (P x ↔ P y) → dom (mfilter (<[k:=x]> m)) = dom (mfilter m).
Proof.
  intros Hk HP. apply set_eq. intros i. rewrite !elem_of_dom.
  unfold is_Some. setoid_rewrite mfilter_lookup.
  destruct (decide (i = k)) as [->|Hne].
  - rewrite lookup_insert_eq. naive_solver.
  - by rewrite lookup_insert_ne.
Qed.

Lemma mfilter_insert_new m k x :
  m !! k = None → P x → dom (mfilter (<[k:=x]> m)) = {[k]} ∪ dom (mfilter m).
Proof.
  intros Hk HP. unfold mfilter. rewrite map_filter_insert_True by done.
  by rewrite dom_insert_L.
Qed.

Lemma mfilter_insert_out m k x :
  m !! k = None → ¬ P x → dom (mfilter (<[k:=x]> m)) = dom (mfilter m).
Proof.
  intros Hk HP. apply set_eq. intros i. rewrite !elem_of_dom.
  unfold is_Some. setoid_rewrite mfilter_lookup.
  destruct (decide (i = k)) as [->|Hne].
  - rewrite lookup_insert_eq. naive_solver.
  - by rewrite lookup_insert_ne.
Qed.

Lemma mfilter_delete m k : dom (mfilter (delete k m)) = dom (mfilter m) ∖ {[k]}.
Proof. unfold mfilter. by rewrite map_filter_delete, dom_delete_L. Qed.

Lemma mfilter_dom_subset m : dom (mfilter m) ⊆ dom m.
Proof. apply dom_filter_subseteq. Qed.
End maps.

(** A set of non-null addresses below [n] has fewer than [n] elements. *)
Lemma size_addresses_lt (X : gset Z) (n : Z) :
  (0 < n)%Z → (∀ p, p ∈ X → (0 < p < n)%Z) → (Z.of_nat (size X) < n)%Z.
Proof.
  intros Hn HX.
  assert (X ⊆ list_to_set (seqZ 1 (n - 1))) as Hsub.
  { intros p Hp. apply elem_of_list_to_set, elem_of_seqZ. specialize (HX p Hp). lia. }
  apply subseteq_size in Hsub.
  rewrite size_list_to_set, length_seqZ in Hsub by apply NoDup_seqZ. lia.
Qed.
