(* ===== verification/Types.v ===== *)
(** * Types of the socket abstraction layer that the classes are written against

    [sal/socket_types.h] and [sal/socket_api.h] are not part of this repository.
    This file states the types the classes use of them: the enumerators and
    struct members named by the sources of [src/source/v0] and
    [src/sockets/v0], with one extra constructor per enumeration for the values
    the sources never name. *)
From S2P Require Import Prelude.
From stdpp Require Import base gmap list strings.
From Stdlib Require Import ZArith.

(** [socket_error_t], with the codes the sources and their documentation name. *)
Inductive socket_error_t :=
| SOCKET_ERROR_NONE
| SOCKET_ERROR_UNKNOWN
| SOCKET_ERROR_UNIMPLEMENTED
| SOCKET_ERROR_NULL_PTR
| SOCKET_ERROR_CLOSED
| SOCKET_ERROR_BAD_STACK
| SOCKET_ERROR_BAD_FAMILY
| SOCKET_ERROR_BAD_ADDRESS
| SOCKET_ERROR_BAD_ARGUMENT
| SOCKET_ERROR_NOT_BOUND
| SOCKET_ERROR_NO_CONNECTION
| SOCKET_ERROR_OTHER (code : Z).

#[export] Instance socket_error_eq_dec : EqDecision socket_error_t.
Proof. solve_decision. Defined.

Inductive socket_address_family_t :=
| SOCKET_AF_INET4
| SOCKET_AF_INET6
| SOCKET_AF_OTHER (code : Z).

#[export] Instance socket_af_eq_dec : EqDecision socket_address_family_t.
Proof. solve_decision. Defined.

Inductive socket_proto_family_t :=
| SOCKET_STREAM
| SOCKET_DGRAM
| SOCKET_PF_OTHER (code : Z).

#[export] Instance socket_pf_eq_dec : EqDecision socket_proto_family_t.
Proof. solve_decision. Defined.

Inductive socket_proto_level_t :=
| SOCKET_PROTO_LEVEL_TCP
| SOCKET_PROTO_LEVEL_OTHER (code : Z).

Inductive socket_option_type_t :=
| SOCKET_OPT_NAGLE
| SOCKET_OPT_OTHER (code : Z).

(** [const char *]: [None] is the NULL pointer. *)
Abbreviation cstring := (option string) (only parsing).

(** [struct socket_addr]: the 16 bytes of its member [ipv6be], an array of four
    32-bit words in network order; word [i] is bytes [4i .. 4i+3]. *)
Record socket_addr := mk_socket_addr { ipv6be : list Z }.

#[export] Instance socket_addr_eq_dec : EqDecision socket_addr.
Proof. solve_decision. Defined.

(** [event_flag_t]: the type of an event. *)
Inductive event_flag_t :=
| SOCKET_EVENT_NONE
| SOCKET_EVENT_ERROR
| SOCKET_EVENT_RX_DONE
| SOCKET_EVENT_TX_DONE
| SOCKET_EVENT_RX_ERROR
| SOCKET_EVENT_TX_ERROR
| SOCKET_EVENT_CONNECT
| SOCKET_EVENT_DISCONNECT
| SOCKET_EVENT_DNS
| SOCKET_EVENT_ACCEPT
| SOCKET_EVENT_OTHER (code : Z).

(** The union [i] of [struct socket_event], by its active member. *)
Inductive socket_event_info :=
| info_e (e : socket_error_t)                         (* i.e *)
| info_t (sentbytes : Z)                              (* i.t.sentbytes *)
| info_d (addr : socket_addr) (domain : cstring)      (* i.d.addr, i.d.domain *)
| info_a (newimpl : ptr)                              (* i.a.newimpl *)
| info_none.

Record socket_event := mk_socket_event {
  ev_event : event_flag_t;
  ev_i : socket_event_info
}.

(** [struct socket]; [sk_event] is a pointer, NULL being [None]. *)
Record socket := mk_socket {
  sk_event : option socket_event;
  sk_handler : ptr;
  sk_impl : ptr;
  sk_api : ptr;
  sk_stack : Z;
  sk_family : socket_proto_family_t
}.

(** Assignments to one member of a [struct socket]. *)
Definition set_sk_event (e : option socket_event) (s : socket) : socket :=
  mk_socket e (sk_handler s) (sk_impl s) (sk_api s) (sk_stack s) (sk_family s).
Definition set_sk_handler (h : ptr) (s : socket) : socket :=
  mk_socket (sk_event s) h (sk_impl s) (sk_api s) (sk_stack s) (sk_family s).
Definition set_sk_impl (p : ptr) (s : socket) : socket :=
  mk_socket (sk_event s) (sk_handler s) p (sk_api s) (sk_stack s) (sk_family s).
Definition set_sk_api (p : ptr) (s : socket) : socket :=
  mk_socket (sk_event s) (sk_handler s) (sk_impl s) p (sk_stack s) (sk_family s).
Definition set_sk_stack (n : Z) (s : socket) : socket :=
  mk_socket (sk_event s) (sk_handler s) (sk_impl s) (sk_api s) n (sk_family s).
Definition set_sk_family (f : socket_proto_family_t) (s : socket) : socket :=
  mk_socket (sk_event s) (sk_handler s) (sk_impl s) (sk_api s) (sk_stack s) f.

(** [mbed::util::FunctionPointer1..3]: [None] is a pointer built from NULL, the
    one whose conversion to [bool] is false; [Some f] is the user function [f]. *)
Definition FunctionPointer : Type := option Z.

(** What the classes hand to the scheduler: a handler with its arguments bound,
    [this] first. *)
Inductive callback :=
| CbDNS (f : FunctionPointer) (this : ptr) (addr : socket_addr) (domain : cstring)
| CbError (f : FunctionPointer) (this : ptr) (err : socket_error_t)
| CbReadable (f : FunctionPointer) (this : ptr)
| CbSent (f : FunctionPointer) (this : ptr) (nbytes : Z)
| CbConnect (f : FunctionPointer) (this : ptr)
| CbDisconnect (f : FunctionPointer) (this : ptr)
| CbIncoming (f : FunctionPointer) (this : ptr) (impl : ptr).

(** The function and the object a callback is bound to. *)
Definition cb_fun (c : callback) : FunctionPointer :=
  match c with
  | CbDNS f _ _ _ | CbError f _ _ | CbReadable f _ | CbSent f _ _
  | CbConnect f _ | CbDisconnect f _ | CbIncoming f _ _ => f
  end.
Definition cb_this (c : callback) : ptr :=
  match c with
  | CbDNS _ p _ _ | CbError _ p _ | CbReadable _ p | CbSent _ p _
  | CbConnect _ p | CbDisconnect _ p | CbIncoming _ p _ => p
  end.
Definition is_error_cb (c : callback) : bool :=
  match c with CbError _ _ _ => true | _ => false end.
