(* ===== verification/Interfaces.v ===== *)
(** * Interfaces of the code the classes call

    The network stack ([sal]), the scheduler ([minar]), the thunks of
    [mbed-drivers] and the C++ run time are other packages.  Each is a class of
    operations here; what the theorems rely on of their documented behaviour is
    a separate class of laws. *)
From S2P Require Import Prelude Types.
From stdpp Require Import base gmap list strings.
From Stdlib Require Import ZArith Lia.

(** ** The network stack *)

(** A function of a stack that takes [struct socket *]: it may change the struct
    and the state of the stack. *)
Definition api_call (S R : Type) : Type := socket → S → R * socket * S.

(** A function of a stack that takes [const struct socket *]. *)
Definition api_query (S R : Type) : Type := socket → S → R * S.

(** [struct socket_api]: a table of function pointers, [None] being NULL.  A
    pointer argument is an [option] when NULL can be passed; an argument the
    function writes through appears again in its result. *)
Record socket_api (S : Type) := mk_socket_api {
  api_create : option (socket_address_family_t → socket_proto_family_t → ptr →
                       api_call S socket_error_t);
  api_destroy : option (api_call S socket_error_t);
  api_close : option (api_call S socket_error_t);
  api_periodic_interval : option (api_call S Z);
  api_periodic_task : option (api_call S ptr);
  api_resolve : option (cstring → api_call S socket_error_t);
  api_str2addr : option (socket_addr → cstring →
                         api_call S (socket_error_t * socket_addr));
  api_bind : option (socket_addr → Z → api_call S socket_error_t);
  api_connect : option (socket_addr → Z → api_call S socket_error_t);
  api_accept : option (ptr → api_call S socket_error_t);
  api_start_listen : option (Z → api_call S socket_error_t);
  api_stop_listen : option (api_call S socket_error_t);
  api_recv : option (option (list Z) → option Z →
                     api_call S (socket_error_t * option (list Z) * option Z));
  api_recv_from : option (option (list Z) → option Z → socket_addr → option Z →
                     api_call S (socket_error_t * option (list Z) * option Z *
                                 socket_addr * option Z));
  api_send : option (option (list Z) → Z → api_call S socket_error_t);
  api_send_to : option (option (list Z) → Z → socket_addr → Z →
                        api_call S socket_error_t);
  api_is_connected : option (api_query S bool);
  api_get_local_addr : option (socket_addr → api_query S (socket_error_t * socket_addr));
  api_get_local_port : option (option Z → api_query S (socket_error_t * option Z));
  api_get_remote_addr : option (socket_addr → api_query S (socket_error_t * socket_addr));
  api_get_remote_port : option (option Z → api_query S (socket_error_t * option Z));
  api_set_option : option (socket_proto_level_t → socket_option_type_t → ptr → Z →
                           api_call S socket_error_t)
}.
Arguments api_create {S} _.
Arguments api_destroy {S} _.
Arguments api_close {S} _.
Arguments api_periodic_interval {S} _.
Arguments api_periodic_task {S} _.
Arguments api_resolve {S} _.
Arguments api_str2addr {S} _.
Arguments api_bind {S} _.
Arguments api_connect {S} _.
Arguments api_accept {S} _.
Arguments api_start_listen {S} _.
Arguments api_stop_listen {S} _.
Arguments api_recv {S} _.
Arguments api_recv_from {S} _.
Arguments api_send {S} _.
Arguments api_send_to {S} _.
Arguments api_is_connected {S} _.
Arguments api_get_local_addr {S} _.
Arguments api_get_local_port {S} _.
Arguments api_get_remote_addr {S} _.
Arguments api_get_remote_port {S} _.
Arguments api_set_option {S} _.

(** The stack layer: its state, the registry of stacks, the table found at an api
    pointer, and the free function [socket_accept] (listener, new socket, handler),
    which may change both structs. *)
Class SAL := {
  sal_state : Type;
  socket_get_api : Z → sal_state → ptr;
  api_at : ptr → socket_api sal_state;
  socket_accept : socket → socket → ptr → sal_state →
                  socket_error_t * socket * socket * sal_state
}.

(** ** The scheduler *)

(** [minar::Scheduler]: one-shot callbacks, periodic callbacks with a handle, and
    the conversion of milliseconds to ticks.  [pending] and [periodic] observe the
    one-shot callbacks not yet dispatched and the registered periodic tasks
    (function, period and tolerance, by handle); no operation reads them. *)
Class Minar := {
  minar_state : Type;
  postCallback : callback → minar_state → minar_state;
  postPeriodic : ptr → Z → Z → minar_state → ptr * minar_state;
  cancelCallback : ptr → minar_state → minar_state;
  milliseconds : Z → Z;
  pending : minar_state → list callback;
  periodic : minar_state → gmap Z (ptr * Z * Z)
}.

(** The scheduler as its documentation describes it: a posted callback is pending
    until it is dispatched, a periodic one stays registered under its (non-null,
    unused) handle until it is cancelled. *)
Class MinarLaws (MN : Minar) : Prop := {
  pending_post c s : pending (postCallback c s) ≡ₚ c :: pending s;
  periodic_post c s : periodic (postCallback c s) = periodic s;
  pending_postPeriodic f p t s : pending (postPeriodic f p t s).2 = pending s;
  postPeriodic_fresh f p t s :
    (postPeriodic f p t s).1 ≠ NULL ∧ periodic s !! (postPeriodic f p t s).1 = None;
  periodic_postPeriodic f p t s :
    periodic (postPeriodic f p t s).2 =
      <[(postPeriodic f p t s).1 := (f, p, t)]> (periodic s);
  pending_cancel h s : pending (cancelCallback h s) = pending s;
  periodic_cancel h s : periodic (cancelCallback h s) = delete h (periodic s)
}.

(** ** The C++ run time *)

(** The width of [uintptr_t], the address of the thunk in an object at a given
    address, and [operator new] for the addresses in use. *)
Class Runtime := {
  uintptr_width : Z;
  CThunk_entry : ptr → ptr;
  operator_new : gset Z → option ptr
}.

Class RuntimeLaws (RT : Runtime) : Prop := {
  width_pos : (0 < uintptr_width)%Z;
  new_range X p : operator_new X = Some p → (0 < p < 2 ^ uintptr_width)%Z;
  new_fresh X p : operator_new X = Some p → p ∉ X
}.
