(* ===== verification/SocketAddr.v ===== *)
(** * SocketAddr: the container of IP addresses

    [src/sockets/v0/SocketAddr.h] and [src/source/v0/SocketAddr.cpp].  The text
    conversions [inet_pton] and [inet_ntop] and the two address helpers belong to
    the abstraction layer: they are the operations of the class [Inet]. *)
From S2P Require Import Prelude Types.
From stdpp Require Import base gmap list strings.
From Stdlib Require Import ZArith Lia Ascii.

(** [class SocketAddr] *)
Record SocketAddr := mk_SocketAddr { _addr : socket_addr }.

#[export] Instance SocketAddr_eq_dec : EqDecision SocketAddr.
Proof. solve_decision. Defined.

(** The string a character buffer holds: its characters up to the first NUL. *)
Fixpoint c_str (buf : list ascii) : string :=
  match buf with
  | [] => EmptyString
  | c :: buf => if decide (c = "000"%char) then EmptyString else String c (c_str buf)
  end.

(** [inet_pton(af, src, dst)] gives its return code and the bytes at [dst] after the
    call; [inet_ntop(af, src, dst, size)] gives whether it returned a non-null
    pointer, and the buffer after the call. *)
Class Inet := {
  inet_pton : socket_address_family_t → cstring → list Z → Z * list Z;
  inet_ntop : socket_address_family_t → list Z → list ascii → Z → bool * list ascii;
  socket_addr_copy : socket_addr → socket_addr → socket_addr;
  socket_addr_is_ipv4 : socket_addr → bool
}.

Section SocketAddr.
Context {IN : Inet}.

Definition getAddr (a : SocketAddr) : socket_addr := _addr a.

(** [setAddr] of a [const struct socket_addr *]: copied into the storage. *)
Definition setAddr (a : SocketAddr) (addr : socket_addr) : SocketAddr :=
  mk_SocketAddr (socket_addr_copy (_addr a) addr).

(** [setAddr] of a [const SocketAddr *]. *)
Definition setAddr_SocketAddr (a addr : SocketAddr) : SocketAddr :=
  setAddr a (getAddr addr).

(** [setAddr] of an address family and a [const char *]: parsed into the storage. *)
Definition setAddr_str (a : SocketAddr) (af : socket_address_family_t) (addr : cstring)
    : socket_error_t * SocketAddr :=
  let '(rc, bytes) := inet_pton af addr (ipv6be (_addr a)) in
  let a' := mk_SocketAddr (mk_socket_addr bytes) in
  if decide (rc = 1%Z) then (SOCKET_ERROR_NONE, a')
  else if decide (rc = 0%Z) then (SOCKET_ERROR_BAD_ADDRESS, a')
  else if decide (rc = (-1)%Z) then (SOCKET_ERROR_BAD_ARGUMENT, a')
  else (SOCKET_ERROR_UNKNOWN, a').

(** [getAddrSize()]: [sizeof(_addr.ipv6be)], four 32-bit words. *)
Definition getAddrSize (a : SocketAddr) : Z := 16.

Definition is_v4 (a : SocketAddr) : bool := socket_addr_is_ipv4 (_addr a).

(** The bytes from [&_addr.ipv6be[i]] to the end of the struct. *)
Definition ipv6be_from (a : SocketAddr) (i : nat) : list Z := drop (4 * i) (ipv6be (_addr a)).

(** [fmtIPv4(char *buf, size_t size)]: the return value, and the buffer after. *)
Definition fmtIPv4 (a : SocketAddr) (buf : option (list ascii)) (size : Z)
    : Z * option (list ascii) :=
  if is_v4 a then
    match buf with
    | None => (-1, None)%Z
    | Some b =>
      let '(ptr, b') := inet_ntop SOCKET_AF_INET4 (ipv6be_from a 3) b size in
      (if ptr then 0%Z else (-1)%Z, Some b')
    end
  else ((-1)%Z, buf).

(** [fmtIPv6(char *buf, size_t size)] *)
Definition fmtIPv6 (a : SocketAddr) (buf : option (list ascii)) (size : Z)
    : Z * option (list ascii) :=
  match buf with
  | None => (-1, None)%Z
  | Some b =>
    let '(ptr, b') := inet_ntop SOCKET_AF_INET6 (ipv6be_from a 0) b size in
    (if ptr then 0%Z else (-1)%Z, Some b')
  end.

(** [fmtIPv4(char (&buf)[N])] and [fmtIPv6(char (&buf)[N])]: the size is that of the
    array. *)
Definition fmtIPv4_array (a : SocketAddr) (buf : list ascii) : Z * option (list ascii) :=
  fmtIPv4 a (Some buf) (Z.of_nat (length buf)).
Definition fmtIPv6_array (a : SocketAddr) (buf : list ascii) : Z * option (list ascii) :=
  fmtIPv6 a (Some buf) (Z.of_nat (length buf)).
End SocketAddr.

(** ** The documented behaviour of the text conversions *)

(** An address is a struct of 16 bytes. *)
Definition bytes_ok (l : list Z) : Prop := Forall (λ b, 0 ≤ b < 256)%Z l.
Definition addr_ok (a : SocketAddr) : Prop :=
  length (ipv6be (_addr a)) = 16 ∧ bytes_ok (ipv6be (_addr a)).

(** The first 12 bytes of the range [::ffff:0:0/96] of IPv4-mapped addresses. *)
Definition v4_prefix : list Z := replicate 10 0%Z ++ [255; 255]%Z.

(** The mapped address of four bytes, and the all-zero address. *)
Definition mapped (b : list Z) : SocketAddr := mk_SocketAddr (mk_socket_addr (v4_prefix ++ b)).
Definition zero_addr : SocketAddr := mk_SocketAddr (mk_socket_addr (replicate 16 0%Z)).

(** Copying replaces the destination; the IPv4 test is the test of the prefix. *)
Class AddrLaws (IN : Inet) : Prop := {
  addr_copy_spec d s : socket_addr_copy d s = s;
  is_ipv4_spec a : socket_addr_is_ipv4 a = bool_decide (take 12 (ipv6be a) = v4_prefix)
}.

(** Printing an IPv6 address into a buffer of 46 characters or more succeeds, and
    [inet_pton] reads the text back, writing the 16 bytes at its destination. *)
Class Inet6Laws (IN : Inet) : Prop :=
  ntop6_pton6 b buf size dst :
    length b = 16 → bytes_ok b → (46 ≤ size)%Z → (size ≤ Z.of_nat (length buf))%Z →
    length dst = 16 →
    ∃ buf', inet_ntop SOCKET_AF_INET6 b buf size = (true, buf') ∧
            inet_pton SOCKET_AF_INET6 (Some (c_str buf')) dst = (1%Z, b).

(** Printing four bytes as a dotted quad into 16 characters or more succeeds. *)
Class Inet4Print (IN : Inet) (text : list Z → string) : Prop :=
  ntop4_text b buf size :
    length b = 4 → bytes_ok b → (16 ≤ size)%Z → (size ≤ Z.of_nat (length buf))%Z →
    ∃ buf', inet_ntop SOCKET_AF_INET4 b buf size = (true, buf') ∧ c_str buf' = text b.

(** POSIX [inet_pton] on [AF_INET] writes the four bytes of a [struct in_addr] at its
    destination. *)
Class Inet4Posix (IN : Inet) (text : list Z → string) : Prop :=
  pton4_posix b dst :
    length b = 4 → bytes_ok b → length dst = 16 →
    inet_pton SOCKET_AF_INET4 (Some (text b)) dst = (1%Z, b ++ drop 4 dst).

(** An [inet_pton] that writes the IPv4-mapped form instead. *)
Class Inet4Mapped (IN : Inet) (text : list Z → string) : Prop :=
  pton4_mapped b dst :
    length b = 4 → bytes_ok b → length dst = 16 →
    inet_pton SOCKET_AF_INET4 (Some (text b)) dst = (1%Z, v4_prefix ++ b).

(** ** Theorems *)

Section theorems.
Context {IN : Inet}.

(** Formatting is refused, without writing to the buffer, exactly outside the
    IPv4-mapped range; a NULL buffer is refused by both formatters. *)
Lemma fmtIPv4_refuses a buf size :
  is_v4 a = false → fmtIPv4 a buf size = ((-1)%Z, buf).
Proof. unfold fmtIPv4. by intros ->. Qed.

Lemma fmt_null a size : fmtIPv4 a None size = ((-1)%Z, None) ∧ fmtIPv6 a None size = ((-1)%Z, None).
Proof. unfold fmtIPv4. by destruct (is_v4 a). Qed.

Lemma is_v4_mapped `{!AddrLaws IN} b : is_v4 (mapped b) = true.
Proof.
  unfold is_v4. rewrite is_ipv4_spec. by apply bool_decide_eq_true_2.
Qed.

Lemma fmtIPv6_ok `{!Inet6Laws IN} a buf size dst :
  addr_ok a → (46 ≤ size ≤ Z.of_nat (length buf))%Z → length dst = 16 →
  ∃ buf', fmtIPv6 a (Some buf) size = (0%Z, Some buf') ∧
          inet_pton SOCKET_AF_INET6 (Some (c_str buf')) dst = (1%Z, ipv6be (_addr a)).
Proof.
  intros [Hl Hb] Hs Hd.
  destruct (ntop6_pton6 (ipv6be (_addr a)) buf size dst) as (buf' & Hn & Hp); try done; try lia.
  exists buf'. unfold fmtIPv6, ipv6be_from. rewrite drop_0, Hn. done.
Qed.

Lemma fmtIPv4_ok `{!AddrLaws IN} text `{!Inet4Print IN text} b buf size :
  length b = 4 → bytes_ok b → (16 ≤ size ≤ Z.of_nat (length buf))%Z →
  ∃ buf', fmtIPv4 (mapped b) (Some buf) size = (0%Z, Some buf') ∧ c_str buf' = text b.
Proof.
  intros Hl Hb Hs.
  destruct (ntop4_text b buf size) as (buf' & Hn & Ht); try done; try lia.
  exists buf'. unfold fmtIPv4, ipv6be_from. rewrite is_v4_mapped.
  change (drop (4 * 3) (ipv6be (_addr (mapped b)))) with b. by rewrite Hn.
Qed.
End theorems.
