(* ===== verification/DemoInet.v ===== *)
(** * Concrete text conversions of addresses

    Dotted quads and uncompressed colon-separated addresses, printed and parsed.
    Two instances of [Inet] differ in where [inet_pton] stores an IPv4 address:
    [inet_posix] at the start of its destination, [inet_mapped] in mapped form. *)
From S2P Require Import Prelude Types SocketAddr.
From stdpp Require Import base gmap list strings.
From Stdlib Require Import ZArith Lia Ascii.
Open Scope Z_scope.

Definition digit (d : Z) : ascii :=
  ascii_of_nat (Z.to_nat (if d <? 10 then 48 + d else 87 + d)).
Definition undigit (c : ascii) : Z :=
  let n := Z.of_nat (nat_of_ascii c) in if n <? 58 then n - 48 else n - 87.

(** A byte in decimal, without leading zeros, and in hexadecimal, two digits. *)
Definition dec (b : Z) : list ascii :=
  if b <? 10 then [digit b]
  else if b <? 100 then [digit (b / 10); digit (b mod 10)]
  else [digit (b / 100); digit (b / 10 mod 10); digit (b mod 10)].
Definition hex (b : Z) : list ascii := [digit (b / 16); digit (b mod 16)].

Definition undec (l : list ascii) : Z := fold_left (λ n c, 10 * n + undigit c) l 0.

(** Fields separated by [sep]. *)
Fixpoint fields (sep : ascii) (l : list ascii) : list (list ascii) :=
  match l with
  | [] => [[]]
  | c :: l =>
    if decide (c = sep) then [] :: fields sep l
    else match fields sep l with f :: fs => (c :: f) :: fs | [] => [[c]] end
  end.

Fixpoint joined (sep : ascii) (fs : list (list ascii)) : list ascii :=
  match fs with
  | [] => []
  | [f] => f
  | f :: fs => f ++ sep :: joined sep fs
  end.

Definition quad (b : list Z) : list ascii := joined "." (dec <$> b).
Definition unquad (l : list ascii) : list Z := undec <$> fields "." l.

Fixpoint groups (b : list Z) : list (list ascii) :=
  match b with
  | x :: y :: b => (hex x ++ hex y) :: groups b
  | _ => []
  end.
Definition ungroup (f : list ascii) : list Z :=
  match f with
  | [c1; c2; c3; c4] => [16 * undigit c1 + undigit c2; 16 * undigit c3 + undigit c4]
  | _ => []
  end.
Definition colons (b : list Z) : list ascii := joined ":" (groups b).
Definition uncolons (l : list ascii) : list Z := mjoin (ungroup <$> fields ":" l).

Fixpoint chars (s : string) : list ascii :=
  match s with EmptyString => [] | String c s => c :: chars s end.

(** Text into a buffer, with its terminator, if it fits. *)
Definition fill (text buf : list ascii) (size : Z) : bool * list ascii :=
  if decide (Z.of_nat (length text) < size)
  then (true, text ++ "000"%char :: drop (S (length text)) buf) else (false, buf).

Definition demo_pton (m : bool) (af : socket_address_family_t) (s : cstring) (dst : list Z)
    : Z * list Z :=
  match af, s with
  | SOCKET_AF_INET4, Some s =>
    let b := unquad (chars s) in
    if decide (length b = 4%nat) then (1, if m then v4_prefix ++ b else b ++ drop 4 dst)
    else (0, dst)
  | SOCKET_AF_INET6, Some s =>
    let b := uncolons (chars s) in
    if decide (length b = 16%nat) then (1, b) else (0, dst)
  | _, _ => (-1, dst)
  end.

Definition demo_ntop (af : socket_address_family_t) (b : list Z) (buf : list ascii) (size : Z)
    : bool * list ascii :=
  match af with
  | SOCKET_AF_INET4 => fill (quad b) buf size
  | SOCKET_AF_INET6 => fill (colons b) buf size
  | _ => (false, buf)
  end.

Definition demo_inet (m : bool) : Inet := {|
  inet_pton := demo_pton m;
  inet_ntop := demo_ntop;
  socket_addr_copy _ s := s;
  socket_addr_is_ipv4 a := bool_decide (take 12 (ipv6be a) = v4_prefix)
|}.
Definition inet_posix : Inet := demo_inet false.
Definition inet_mapped : Inet := demo_inet true.
Definition quad_string (b : list Z) : string := c_str (quad b).

(** ** The laws hold of the instances *)

(** A field has no separator and no terminator in it. *)
Definition clean (l : list ascii) : bool :=
  forallb (λ c, bool_decide (c ≠ "."%char) && bool_decide (c ≠ ":"%char) &&
                bool_decide (c ≠ "000"%char)) l.

Lemma byte_cases (P : Z → bool) :
  forallb P (seqZ 0 256) = true → ∀ b, 0 ≤ b < 256 → P b = true.
Proof.
  intros H b Hb. rewrite forallb_forall in H. apply H.
  apply list_elem_of_In, elem_of_seqZ. lia.
Qed.

Lemma dec_ok b : 0 ≤ b < 256 → (clean (dec b) && (undec (dec b) =? b) &&
  (Z.of_nat (length (dec b)) <=? 3)) = true.
Proof. revert b. apply byte_cases. vm_compute. reflexivity. Qed.

Lemma hex_ok b : 0 ≤ b < 256 → (clean (hex b) &&
  (16 * undigit (digit (b / 16)) + undigit (digit (b mod 16)) =? b)) = true.
Proof. revert b. apply byte_cases. vm_compute. reflexivity. Qed.

Lemma clean_app a b : clean (a ++ b) = clean a && clean b.
Proof. unfold clean. apply forallb_app. Qed.

Lemma fields_clean sep l rest :
  (sep = "."%char ∨ sep = ":"%char) → clean l = true →
  fields sep (l ++ sep :: rest) = l :: fields sep rest ∧ fields sep l = [l].
Proof.
  intros Hs. induction l as [|c l IH]; simpl.
  - rewrite decide_True by done. done.
  - rewrite !andb_true_iff, !bool_decide_eq_true. intros [[[H1 H2] H3] [IH1 IH2]%IH].
    rewrite !decide_False by (intros ->; destruct Hs; congruence).
    by rewrite IH1, IH2.
Qed.

Lemma fields_joined sep fs :
  (sep = "."%char ∨ sep = ":"%char) → fs ≠ [] → Forall (λ f, clean f = true) fs →
  fields sep (joined sep fs) = fs.
Proof.
  intros Hs Hne H. induction H as [|f fs Hf Hfs IH]; [done|].
  destruct fs as [|g fs]; [by apply fields_clean|].
  change (joined sep (f :: g :: fs)) with (f ++ sep :: joined sep (g :: fs)).
  destruct (fields_clean sep f (joined sep (g :: fs))) as [E _]; [done..|].
  rewrite E. f_equal. by apply IH.
Qed.

Definition no_nul (l : list ascii) : Prop := Forall (λ c, c ≠ "000"%char) l.

Lemma clean_no_nul l : clean l = true → no_nul l.
Proof.
  unfold clean, no_nul. rewrite forallb_forall, Forall_forall. intros H c Hc.
  apply list_elem_of_In, H in Hc. rewrite !andb_true_iff, !bool_decide_eq_true in Hc. tauto.
Qed.

Lemma joined_no_nul sep fs :
  sep ≠ "000"%char → Forall (λ f, clean f = true) fs → no_nul (joined sep fs).
Proof.
  intros Hs H. induction H as [|f fs Hf%clean_no_nul Hfs IH]; [constructor|].
  destruct fs as [|g fs]; [done|]. change (joined sep (f :: g :: fs)) with (f ++ sep :: joined sep (g :: fs)).
  apply Forall_app. split; [done|].
  by constructor.
Qed.

Lemma chars_c_str l rest : no_nul l → chars (c_str (l ++ "000"%char :: rest)) = l.
Proof. induction 1 as [|c l Hc Hl IH]; simpl; [done|]. rewrite decide_False by done. simpl. by rewrite IH. Qed.

Lemma c_str_terminated l rest : no_nul l → c_str (l ++ "000"%char :: rest) = c_str l.
Proof. induction 1 as [|c l Hc Hl IH]; simpl; [done|]. rewrite !decide_False by done. by rewrite IH. Qed.

Lemma chars_c_str_all l : no_nul l → chars (c_str l) = l.
Proof. induction 1 as [|c l Hc Hl IH]; simpl; [done|]. rewrite decide_False by done. simpl. by rewrite IH. Qed.

Lemma quad_clean b : bytes_ok b → Forall (λ f, clean f = true) (dec <$> b).
Proof.
  intros H. apply Forall_fmap. eapply Forall_impl; [exact H|]. intros x Hx%dec_ok. simpl.
  rewrite !andb_true_iff in Hx. tauto.
Qed.

Lemma unquad_quad b : length b = 4%nat → bytes_ok b → unquad (quad b) = b.
Proof.
  intros Hl H. unfold unquad, quad.
  rewrite fields_joined; [|by left| by destruct b | by apply quad_clean].
  rewrite <- list_fmap_compose. rewrite <- (list_fmap_id b) at 2. apply list_fmap_ext.
  intros i x Hx. simpl. eapply Forall_lookup_1 in H; [|done]. apply dec_ok in H.
  rewrite !andb_true_iff, Z.eqb_eq in H. unfold id. tauto.
Qed.

Lemma quad_length b : length b = 4%nat → bytes_ok b → (length (quad b) < 16)%nat.
Proof.
  intros Hl H. destruct b as [|x1 [|x2 [|x3 [|x4 [|]]]]]; try done.
  inversion_clear H as [|? ? H1 K1]. inversion_clear K1 as [|? ? H2 K2].
  inversion_clear K2 as [|? ? H3 K3]. inversion_clear K3 as [|? ? H4 _].
  apply dec_ok in H1, H2, H3, H4. rewrite !andb_true_iff, !Z.leb_le in *.
  unfold quad. simpl. rewrite !length_app. simpl. rewrite !length_app. simpl.
  rewrite !length_app. simpl. lia.
Qed.

(** Printing into a large enough buffer gives the text back. *)
Lemma fill_ok text buf size :
  no_nul text → Z.of_nat (length text) < size →
  ∃ buf', fill text buf size = (true, buf') ∧ c_str buf' = c_str text ∧
          chars (c_str buf') = text.
Proof.
  intros Hn Hs. unfold fill. rewrite decide_True by done. eexists. split; [done|].
  split; [by apply c_str_terminated | by apply chars_c_str].
Qed.

Lemma quad_no_nul b : bytes_ok b → no_nul (quad b).
Proof. intros H. apply joined_no_nul; [done | by apply quad_clean]. Qed.

#[export] Instance demo_addr_laws m : AddrLaws (demo_inet m).
Proof. by split. Qed.

#[export] Instance demo_print4 m : Inet4Print (demo_inet m) quad_string.
Proof.
  intros b buf size Hl Hb Hs _. pose proof (quad_length b Hl Hb).
  destruct (fill_ok (quad b) buf size) as (buf' & H1 & H2 & _); [by apply quad_no_nul | lia |].
  exists buf'. done.
Qed.

Lemma demo_pton4 m b dst :
  length b = 4%nat → bytes_ok b →
  demo_pton m SOCKET_AF_INET4 (Some (quad_string b)) dst =
    (1, if m then v4_prefix ++ b else b ++ drop 4 dst).
Proof.
  intros Hl Hb. unfold demo_pton, quad_string.
  rewrite chars_c_str_all, unquad_quad by (done || by apply quad_no_nul).
  by rewrite decide_True.
Qed.

#[export] Instance demo_posix4 : Inet4Posix inet_posix quad_string.
Proof. intros b dst Hl Hb _. by apply (demo_pton4 false). Qed.

#[export] Instance demo_mapped4 : Inet4Mapped inet_mapped quad_string.
Proof. intros b dst Hl Hb _. by apply (demo_pton4 true). Qed.

Lemma groups_clean n b :
  length b = (2 * n)%nat → bytes_ok b →
  Forall (λ f, clean f = true) (groups b) ∧ mjoin (ungroup <$> groups b) = b ∧
  length (groups b) = n ∧ Forall (λ f, length f = 4%nat) (groups b).
Proof.
  revert b. induction n as [|n IH]; intros b Hl H.
  { destruct b; [|simpl in Hl; lia]. split_and!; constructor. }
  destruct b as [|x [|y b]]; simpl in Hl; try lia.
  apply Forall_cons in H as [Hx H]. apply Forall_cons in H as [Hy H].
  destruct (IH b) as (I1 & I2 & I3 & I4); [lia | done |].
  apply hex_ok in Hx, Hy. rewrite !andb_true_iff, !Z.eqb_eq in Hx, Hy.
  destruct Hx as [Hx1 Hx2], Hy as [Hy1 Hy2].
  change (groups (x :: y :: b)) with ((hex x ++ hex y) :: groups b). split_and!.
  - constructor; [by rewrite clean_app, Hx1, Hy1 | done].
  - simpl. rewrite Hx2, Hy2. f_equal. f_equal. exact I2.
  - simpl. by rewrite I3.
  - by constructor.
Qed.

Lemma joined_length sep fs :
  Forall (λ f, length f = 4%nat) fs → (length (joined sep fs) <= 5 * length fs)%nat.
Proof.
  induction 1 as [|f fs Hf Hfs IH]; simpl; [lia|].
  destruct fs as [|g fs]; [lia|]. rewrite length_app. simpl length in *. lia.
Qed.

#[export] Instance demo_inet6 m : Inet6Laws (demo_inet m).
Proof.
  intros b buf size dst Hl Hb Hs _ _.
  destruct (groups_clean 8 b) as (G1 & G2 & G3 & G4); [done..|].
  pose proof (joined_length ":"%char _ G4).
  assert (no_nul (colons b)) as Hn by by apply joined_no_nul.
  destruct (fill_ok (colons b) buf size) as (buf' & H1 & _ & H2); [done| unfold colons; lia |].
  exists buf'. split; [done|]. simpl. rewrite H2. unfold uncolons, colons.
  rewrite fields_joined; [| by right | by destruct (groups b) | done].
  rewrite G2. by rewrite decide_True.
Qed.
