(* ===== verification/SocketAddrSpec.v ===== *)
(** * SocketAddr: parsing, formatting and their round trips *)
From S2P Require Import Prelude Types SocketAddr DemoInet.
From stdpp Require Import base gmap list strings.
From Stdlib Require Import ZArith Lia Ascii.

Section SocketAddrSpec.
Context {IN : Inet}.




(** [setAddr] from text maps the return codes of [inet_pton] to error codes one to
    one (1 to none, 0 to bad address, -1 to bad argument, anything else to unknown) and
    keeps what [inet_pton] stored. *)
Lemma setAddr_error_codes a af s :
  let rc := (inet_pton af s (ipv6be (_addr a))).1 in
  let err := (setAddr_str a af s).1 in
  (err = SOCKET_ERROR_NONE ↔ rc = 1%Z) ∧
  (err = SOCKET_ERROR_BAD_ADDRESS ↔ rc = 0%Z) ∧
  (err = SOCKET_ERROR_BAD_ARGUMENT ↔ rc = (-1)%Z) ∧
  (err = SOCKET_ERROR_UNKNOWN ↔ rc ∉ [1; 0; -1]%Z) ∧
  ipv6be (_addr (setAddr_str a af s).2) = (inet_pton af s (ipv6be (_addr a))).2.
Proof.
  unfold setAddr_str. destruct (inet_pton af s _) as [rc bytes]. simpl.
  repeat case_decide; subst; simpl; repeat split; try done; set_solver.
Qed.

(** The formatters return 0 exactly when [inet_ntop] was called and returned a
    buffer: [fmtIPv4] refuses addresses outside the mapped range and NULL, [fmtIPv6] only
    NULL, and a refusal leaves the buffer as it was. *)
Lemma fmt_refusals a buf size :
  ((fmtIPv4 a buf size).1 = 0%Z ↔
     ∃ b, is_v4 a = true ∧ buf = Some b ∧
          (inet_ntop SOCKET_AF_INET4 (ipv6be_from a 3) b size).1 = true) ∧
  ((fmtIPv6 a buf size).1 = 0%Z ↔
     ∃ b, buf = Some b ∧ (inet_ntop SOCKET_AF_INET6 (ipv6be_from a 0) b size).1 = true) ∧
  (is_v4 a = false → fmtIPv4 a buf size = ((-1)%Z, buf)).
Proof.
  assert (∀ p : bool, (if p then 0 else -1)%Z = 0%Z ↔ p = true) as Hz by by intros [].
  split_and!; [| |apply fmtIPv4_refuses].
  - unfold fmtIPv4. destruct (is_v4 a) eqn:Hv; [|split; [done | by intros (? & ? & _)]].
    destruct buf as [b|]; [|split; [done | by intros (? & _ & ? & _)]].
    destruct (inet_ntop _ _ b size) as [p b'] eqn:E. simpl. rewrite Hz. split.
    + intros ->. exists b. by rewrite E.
    + intros (? & _ & [= <-] & H). by rewrite E in H.
  - unfold fmtIPv6. destruct buf as [b|]; [|split; [done | by intros (? & ? & _)]].
    destruct (inet_ntop _ _ b size) as [p b'] eqn:E. simpl. rewrite Hz. split.
    + intros ->. exists b. by rewrite E.
    + intros (? & [= <-] & H). by rewrite E in H.
Qed.
End SocketAddrSpec.

(** ** The theorems at concrete addresses *)

Definition demo_v6 : SocketAddr := mk_SocketAddr (mk_socket_addr (seqZ 1 16)).
Definition demo_buf (n : nat) : list ascii := replicate n "?"%char.

Lemma demo_v6_ok : addr_ok demo_v6.
Proof. split; [reflexivity|]. unfold bytes_ok. simpl. repeat constructor; lia. Qed.

Lemma bytes_127 : bytes_ok [127; 0; 0; 1]%Z.
Proof. unfold bytes_ok. repeat constructor; lia. Qed.



