(* ===== verification/World.v ===== *)
(** * Objects, statics and the shared state of a program that uses the classes

    An object of one of the classes lives at an address of [heap].  Its record
    holds the members each class of the hierarchy declares and the virtual table
    pointer, which constructors and destructors change as C++ does. *)
From S2P Require Import Prelude Types Interfaces.
From stdpp Require Import base gmap list strings.
From Stdlib Require Import ZArith Lia.

(** The classes of the hierarchy, as values of an object's table pointer. *)
Inductive cls := CSocket | CUDPSocket | CTCPAsynch | CTCPStream | CTCPListener.

#[export] Instance cls_eq_dec : EqDecision cls.
Proof. solve_decision. Defined.

(** The data members of class [Socket] ([_irq], the thunk, is [CThunk_entry]). *)
Record Socket := mk_Socket {
  _onDNS : FunctionPointer;
  _onError : FunctionPointer;
  _onReadable : FunctionPointer;
  _onSent : FunctionPointer;
  _socket : socket;
  _event : option socket_event
}.

(** The data members [TCPStream] and [TCPListener] add; [UDPSocket] and
    [TCPAsynch] add none. *)
Record TCPStream := mk_TCPStream {
  _onConnect : FunctionPointer;
  _onDisconnect : FunctionPointer
}.
Record TCPListener := mk_TCPListener {
  _onIncoming : FunctionPointer
}.

(** An object: table pointer and members.  The members of classes that are not
    bases of the object's class stand for storage that is never accessed. *)
Record object := mk_object {
  vptr : cls;
  o_Socket : Socket;
  o_TCPStream : TCPStream;
  o_TCPListener : TCPListener
}.

(** Assignments to one member. *)
Definition set_vptr (c : cls) (o : object) : object :=
  mk_object c (o_Socket o) (o_TCPStream o) (o_TCPListener o).
Definition on_Socket (f : Socket → Socket) (o : object) : object :=
  mk_object (vptr o) (f (o_Socket o)) (o_TCPStream o) (o_TCPListener o).
Definition on_TCPStream (f : TCPStream → TCPStream) (o : object) : object :=
  mk_object (vptr o) (o_Socket o) (f (o_TCPStream o)) (o_TCPListener o).
Definition on_TCPListener (f : TCPListener → TCPListener) (o : object) : object :=
  mk_object (vptr o) (o_Socket o) (o_TCPStream o) (f (o_TCPListener o)).
Definition set_onDNS (h : FunctionPointer) (s : Socket) : Socket :=
  mk_Socket h (_onError s) (_onReadable s) (_onSent s) (_socket s) (_event s).
Definition set_onError (h : FunctionPointer) (s : Socket) : Socket :=
  mk_Socket (_onDNS s) h (_onReadable s) (_onSent s) (_socket s) (_event s).
Definition set_onReadable (h : FunctionPointer) (s : Socket) : Socket :=
  mk_Socket (_onDNS s) (_onError s) h (_onSent s) (_socket s) (_event s).
Definition set_onSent (h : FunctionPointer) (s : Socket) : Socket :=
  mk_Socket (_onDNS s) (_onError s) (_onReadable s) h (_socket s) (_event s).
Definition on_socket (f : socket → socket) (s : Socket) : Socket :=
  mk_Socket (_onDNS s) (_onError s) (_onReadable s) (_onSent s) (f (_socket s)) (_event s).
Definition set_event (e : option socket_event) (s : Socket) : Socket :=
  mk_Socket (_onDNS s) (_onError s) (_onReadable s) (_onSent s) (_socket s) e.
Definition set_onConnect (h : FunctionPointer) (s : TCPStream) : TCPStream :=
  mk_TCPStream h (_onDisconnect s).
Definition set_onDisconnect (h : FunctionPointer) (s : TCPStream) : TCPStream :=
  mk_TCPStream (_onConnect s) h.

(** The [struct socket] of an object. *)
Definition sock_of (o : object) : socket := _socket (o_Socket o).

Section world.
Context {SA : SAL} {MN : Minar} {RT : Runtime}.

(** The live objects, the static members of [TCPAsynch], the interrupt mask, the
    scheduler and the network stack. *)
Record world := mk_world {
  heap : gmap Z object;
  _TCPSockets : Z;
  _tick_handle : ptr;
  irq_enabled : bool;
  sched : minar_state;
  stack : sal_state
}.

Definition set_heap (h : gmap Z object) (w : world) : world :=
  mk_world h (_TCPSockets w) (_tick_handle w) (irq_enabled w) (sched w) (stack w).
Definition set_TCPSockets (n : Z) (w : world) : world :=
  mk_world (heap w) n (_tick_handle w) (irq_enabled w) (sched w) (stack w).
Definition set_tick_handle (h : ptr) (w : world) : world :=
  mk_world (heap w) (_TCPSockets w) h (irq_enabled w) (sched w) (stack w).
Definition set_irq (b : bool) (w : world) : world :=
  mk_world (heap w) (_TCPSockets w) (_tick_handle w) b (sched w) (stack w).
Definition set_sched (s : minar_state) (w : world) : world :=
  mk_world (heap w) (_TCPSockets w) (_tick_handle w) (irq_enabled w) s (stack w).
Definition set_stack (s : sal_state) (w : world) : world :=
  mk_world (heap w) (_TCPSockets w) (_tick_handle w) (irq_enabled w) (sched w) s.

(** ** Access to objects *)

Definition get_obj (this : ptr) : M world object := λ w,
  match heap w !! this with
  | Some o => Done (o, w)
  | None => Fault (DeadObject this)
  end.

Definition put_obj (this : ptr) (o : object) : M world unit :=
  modify (λ w, set_heap (<[this := o]> (heap w)) w).

Definition upd_obj (this : ptr) (f : object → object) : M world unit :=
  o ← get_obj this; put_obj this (f o).

(** The [struct socket] member of the object at [this]. *)
Definition get_socket (this : ptr) : M world socket :=
  o ← get_obj this; mret (sock_of o).

(** Storage for an object becomes available at [this], with contents [raw]. *)
Definition place (this : ptr) (raw : object) : M world unit := λ w,
  match heap w !! this with
  | Some _ => Fault (StorageInUse this)
  | None => Done (tt, set_heap (<[this := raw]> (heap w)) w)
  end.

(** The storage at [this] is given back. *)
Definition release (this : ptr) : M world unit :=
  modify (λ w, set_heap (delete this (heap w)) w).

(** [new]: storage from [operator new], with indeterminate contents [raw]. *)
Definition new_storage (raw : object) : M world ptr := λ w,
  match operator_new (dom (heap w)) with
  | Some p => (place p raw ;; mret p) w
  | None => Fault OutOfMemory
  end.

(** ** Calls out of the classes *)

(** [minar::Scheduler::postCallback(cb)] *)
Definition post (c : callback) : M world unit :=
  modify (λ w, set_sched (postCallback c (sched w)) w).

(** [__disable_irq()] and [__enable_irq()] *)
Definition disable_irq : M world unit := modify (set_irq false).
Definition enable_irq : M world unit := modify (set_irq true).

(** [api->fn]: the api pointer and then the function pointer are dereferenced. *)
Definition load_api {F} (api : ptr) (fn : socket_api sal_state → option F) : M world F :=
  if decide (api = NULL) then raise NullDereference
  else match fn (api_at api) with
       | Some f => mret f
       | None => raise NullCall
       end.

(** [_socket.api->fn(&_socket, ...)] in a method of the object at [this]. *)
Definition call_api {R} (this : ptr)
    (fn : socket_api sal_state → option (api_call sal_state R)) : M world R :=
  s ← get_socket this;
  f ← load_api (sk_api s) fn;
  S ← gets stack;
  let '(r, s', S') := f s S in
  upd_obj this (on_Socket (on_socket (λ _, s')));;
  modify (set_stack S');;
  mret r.

(** The same in a [const] method, where [&_socket] points to a constant. *)
Definition query_api {R} (this : ptr)
    (fn : socket_api sal_state → option (api_query sal_state R)) : M world R :=
  s ← get_socket this;
  f ← load_api (sk_api s) fn;
  S ← gets stack;
  let '(r, S') := f s S in
  modify (set_stack S');;
  mret r.
End world.

(** Partial application of the arguments of a table entry. *)
Definition arg1 {S A R} (fn : S → option (A → R)) (a : A) (t : S) : option R :=
  (λ f, f a) <$> fn t.
Definition arg2 {S A B R} (fn : S → option (A → B → R)) (a : A) (b : B) (t : S) : option R :=
  (λ f, f a b) <$> fn t.
Definition arg3 {S A B C R} (fn : S → option (A → B → C → R)) (a : A) (b : B) (c : C) (t : S)
    : option R :=
  (λ f, f a b c) <$> fn t.
Definition arg4 {S A B C D R} (fn : S → option (A → B → C → D → R))
    (a : A) (b : B) (c : C) (d : D) (t : S) : option R :=
  (λ f, f a b c d) <$> fn t.

(** ** Running the primitives *)

Section run.
Context {SA : SAL} {MN : Minar} {RT : Runtime}.

Lemma get_obj_run this o (w : world) :
  heap w !! this = Some o → get_obj this w = Done (o, w).
Proof. unfold get_obj. by intros ->. Qed.

Lemma get_obj_bind {A} this o (w : world) (k : object → M world A) :
  heap w !! this = Some o → (get_obj this ≫= k) w = k o w.
Proof. intros H. by apply bind_run, get_obj_run. Qed.

Lemma get_socket_bind {A} this o (w : world) (k : socket → M world A) :
  heap w !! this = Some o → (get_socket this ≫= k) w = k (sock_of o) w.
Proof.
  intros H. apply bind_run. unfold get_socket. by rewrite (get_obj_bind this o).
Qed.

Lemma upd_obj_run this o f (w : world) :
  heap w !! this = Some o →
  upd_obj this f w = Done (tt, set_heap (<[this := f o]> (heap w)) w).
Proof. intros H. unfold upd_obj. by rewrite (get_obj_bind this o). Qed.

Lemma upd_obj_bind {A} this o f (w : world) (k : unit → M world A) :
  heap w !! this = Some o →
  (upd_obj this f ≫= k) w = k tt (set_heap (<[this := f o]> (heap w)) w).
Proof. intros H. by apply bind_run, upd_obj_run. Qed.

Lemma load_api_run {F} api (fn : socket_api sal_state → option F) f (w : world) :
  api ≠ NULL → fn (api_at api) = Some f → load_api api fn w = Done (f, w).
Proof. intros Ha Hf. unfold load_api. rewrite decide_False by done. by rewrite Hf. Qed.

(** A call through the table: the struct and the stack are what the function returns. *)
Lemma call_api_run {R} this o (fn : socket_api sal_state → option (api_call sal_state R))
    f r s' S' (w : world) :
  heap w !! this = Some o → sk_api (sock_of o) ≠ NULL →
  fn (api_at (sk_api (sock_of o))) = Some f → f (sock_of o) (stack w) = (r, s', S') →
  call_api this fn w =
    Done (r, set_stack S' (set_heap (<[this := on_Socket (on_socket (λ _, s')) o]> (heap w)) w)).
Proof.
  intros Ho Ha Hf Hr. unfold call_api. rewrite (get_socket_bind this o) by done.
  rewrite (bind_run _ _ _ f w) by by apply load_api_run.
  rewrite (bind_run _ _ _ (stack w) w) by done. rewrite Hr.
  by rewrite (upd_obj_bind this o).
Qed.

Lemma query_api_run {R} this o (fn : socket_api sal_state → option (api_query sal_state R))
    f r S' (w : world) :
  heap w !! this = Some o → sk_api (sock_of o) ≠ NULL →
  fn (api_at (sk_api (sock_of o))) = Some f → f (sock_of o) (stack w) = (r, S') →
  query_api this fn w = Done (r, set_stack S' w).
Proof.
  intros Ho Ha Hf Hr. unfold query_api. rewrite (get_socket_bind this o) by done.
  rewrite (bind_run _ _ _ f w) by by apply load_api_run.
  rewrite (bind_run _ _ _ (stack w) w) by done. by rewrite Hr.
Qed.

Lemma call_api_null {R} this o (fn : socket_api sal_state → option (api_call sal_state R)) (w : world) :
  heap w !! this = Some o → sk_api (sock_of o) = NULL →
  call_api this fn w = Fault NullDereference.
Proof.
  intros Ho Ha. unfold call_api. rewrite (get_socket_bind this o) by done.
  apply bind_fault. unfold load_api. by rewrite decide_True.
Qed.
End run.
