(* ===== verification/Demo.v ===== *)
(** * Concrete instances of the interfaces

    A small network stack, a scheduler with a queue and a map, and a run time
    that hands out addresses upwards.  They make the definitions executable on
    concrete inputs and show that the laws the theorems assume can hold; no
    theorem about the classes depends on them. *)
From S2P Require Import Prelude Types Interfaces SocketAddr World.
From stdpp Require Import base gmap list strings.
From Stdlib Require Import ZArith Lia.

(** ** The stack: one registered stack, a log of the functions called *)

Record demo_state := mk_demo {
  next_impl : Z;          (* the next socket implementation to allocate *)
  refusing : bool;        (* functions fail without effect *)
  calls : list string     (* the functions called, the latest first *)
}.

Definition demo_log (f : string) (S : demo_state) : demo_state :=
  mk_demo (next_impl S) (refusing S) (f :: calls S).

Definition DEMO_FAILURE : socket_error_t := SOCKET_ERROR_OTHER 7.

(** A function that logs its name and fails when the stack is refusing. *)
Definition demo_call (f : string) : api_call demo_state socket_error_t := λ s S,
  (if refusing S then DEMO_FAILURE else SOCKET_ERROR_NONE, s, demo_log f S).

(** A function with a further result, given for success and for failure. *)
Definition demo_with {A} (f : string) (ok failed : A) : api_call demo_state (socket_error_t * A) :=
  λ s S, let '(e, s', S') := demo_call f s S in ((e, if refusing S then failed else ok), s', S').

Definition demo_create (h : ptr) : api_call demo_state socket_error_t := λ s S,
  if refusing S then demo_call "create" s S
  else (SOCKET_ERROR_NONE, set_sk_handler h (set_sk_impl (next_impl S) s),
        demo_log "create" (mk_demo (next_impl S + 1) false (calls S))).

Definition demo_loopback : socket_addr := mk_socket_addr (v4_prefix ++ [127; 0; 0; 1]%Z).

Definition demo_query {A} (a : A) : api_query demo_state A := λ _ S, (a, S).

Definition demo_api : socket_api demo_state := {|
  api_create := Some (λ af pf h, demo_create h);
  api_destroy := Some (demo_call "destroy");
  api_close := Some (demo_call "close");
  api_periodic_interval := Some (λ s S, (250%Z, s, S));
  api_periodic_task := Some (λ s S, (9000%Z, s, S));
  api_resolve := Some (λ a, demo_call "resolve");
  api_str2addr := Some (λ d a, demo_with "str2addr" demo_loopback d);
  api_bind := Some (λ a p, demo_call "bind");
  api_connect := Some (λ a p, demo_call "connect");
  api_accept := Some (λ h, demo_call "accept");
  api_start_listen := Some (λ n, demo_call "start_listen");
  api_stop_listen := Some (demo_call "stop_listen");
  api_recv := Some (λ b l s S,
    let '(e, s', S') := demo_call "recv" s S in ((e, b, if refusing S then l else Some 0%Z), s', S'));
  api_recv_from := Some (λ b l a p s S,
    let '(e, s', S') := demo_call "recv_from" s S in
    if refusing S then ((e, b, l, a, p), s', S')
    else ((e, b, Some 0%Z, demo_loopback, Some 7%Z), s', S'));
  api_send := Some (λ b l, demo_call "send");
  api_send_to := Some (λ b l a p, demo_call "send_to");
  api_is_connected := Some (demo_query true);
  api_get_local_addr := Some (λ a, demo_query (SOCKET_ERROR_NONE, demo_loopback));
  api_get_local_port := Some (λ p, demo_query (SOCKET_ERROR_NONE, Some 80%Z));
  api_get_remote_addr := Some (λ a, demo_query (SOCKET_ERROR_NO_CONNECTION, a));
  api_get_remote_port := Some (λ p, demo_query (SOCKET_ERROR_NO_CONNECTION, p));
  api_set_option := Some (λ l o p n, demo_call (if decide (p = NULL) then "nagle off" else "nagle on"))
|}.

(** Stack 1 is registered; its table is at address 4096. *)
#[export] Instance demo_sal : SAL := {|
  sal_state := demo_state;
  socket_get_api id _ := if decide (id = 1%Z) then 4096%Z else NULL;
  api_at _ := demo_api;
  socket_accept l s h S :=
    let '(e, s', S') := demo_call "socket_accept" s S in (e, l, set_sk_handler h s', S')
|}.

(** ** Fresh addresses *)

Definition above (X : gset Z) : Z := foldr Z.max 0%Z (elements X).

Lemma above_ge (X : gset Z) x : x ∈ X → (x ≤ above X)%Z.
Proof.
  rewrite <- elem_of_elements. unfold above.
  induction 1 as [|x y l _ IH]; simpl; lia.
Qed.

Lemma above_nonneg (X : gset Z) : (0 ≤ above X)%Z.
Proof. unfold above. induction (elements X); simpl; lia. Qed.

(** ** The scheduler *)

Record demo_minar_state := mk_demo_minar {
  queue : list callback;
  tasks : gmap Z (ptr * Z * Z)
}.

#[export] Instance demo_minar : Minar := {|
  minar_state := demo_minar_state;
  postCallback c s := mk_demo_minar (queue s ++ [c]) (tasks s);
  postPeriodic f p t s :=
    let h := (above (dom (tasks s)) + 1)%Z in
    (h, mk_demo_minar (queue s) (<[h := (f, p, t)]> (tasks s)));
  cancelCallback h s := mk_demo_minar (queue s) (delete h (tasks s));
  milliseconds n := n;
  pending := queue;
  periodic := tasks
|}.

#[export] Instance demo_minar_laws : MinarLaws demo_minar.
Proof.
  split; try done.
  - intros c s. simpl. by rewrite Permutation_app_comm.
  - intros f p t s. simpl. pose proof (above_nonneg (dom (tasks s))). split; [unfold NULL; lia|].
    apply not_elem_of_dom. intros H1%above_ge. lia.
Qed.

(** ** The run time: 32-bit pointers, thunks at offset 8 *)

#[export] Instance demo_runtime : Runtime := {|
  uintptr_width := 32;
  CThunk_entry p := (p + 8)%Z;
  operator_new X :=
    let p := (above X + 64)%Z in if decide (p < 2 ^ 32)%Z then Some p else None
|}.

#[export] Instance demo_runtime_laws : RuntimeLaws demo_runtime.
Proof.
  split; simpl; [done| |]; intros X p; pose proof (above_nonneg X); case_decide; try done.
  - intros [= <-]. lia.
  - intros [= <-] H1%above_ge. lia.
Qed.

(** ** An empty program, and storage full of leftovers *)

Definition demo_world (refuse : bool) : world :=
  mk_world ∅ 0 NULL true (mk_demo_minar [] ∅) (mk_demo 100 refuse []).

Definition raw_socket : socket := mk_socket None 170 170 170 170 (SOCKET_PF_OTHER 170).
Definition raw_object : object :=
  mk_object CSocket (mk_Socket (Some 170%Z) (Some 170%Z) (Some 170%Z) (Some 170%Z) raw_socket None)
    (mk_TCPStream (Some 170%Z) (Some 170%Z)) (mk_TCPListener (Some 170%Z)).
Definition raw_addr : socket_addr := mk_socket_addr (replicate 16 170%Z).
