(* ===== verification/Socket.v ===== *)
(** * Socket: the base class

    [src/sockets/v0/Socket.h] and [src/source/v0/Socket.cpp].  Methods take the
    address of the object first.  A pointer argument that can be NULL is an
    [option]; what a method writes through a pointer is part of its result;
    storage the code leaves uninitialised is an argument [raw]. *)
From S2P Require Import Prelude Types Interfaces SocketAddr World.
From stdpp Require Import base gmap list strings.
From Stdlib Require Import ZArith Lia.

(** [if (handler)]: the conversion of a function pointer to [bool]. *)
Definition is_set (h : FunctionPointer) : bool :=
  match h with Some _ => true | None => false end.

Section Socket.
Context {SA : SAL} {MN : Minar} {RT : Runtime} {IN : Inet}.

(** The virtual methods that a derived class overrides, called on the object at an
    address: the table is found through the object's pointer. *)
Class VTable := {
  v_open : ptr → socket_address_family_t → socket_proto_family_t → M world socket_error_t;
  v_eventHandler : ptr → socket_event → M world unit
}.

(** [Socket::Socket(const socket_stack_t stack)] *)
Definition Socket_ctor (this : ptr) (stack_id : Z) : M world unit :=
  upd_obj this (set_vptr CSocket);;
  upd_obj this (on_Socket (λ s,
    set_event None (set_onSent None (set_onReadable None (set_onError None (set_onDNS None s))))));;
  upd_obj this (on_Socket (on_socket (λ k,
    set_sk_stack stack_id (set_sk_impl NULL (set_sk_handler (CThunk_entry this) k)))));;
  S ← gets stack;
  upd_obj this (on_Socket (on_socket (set_sk_api (socket_get_api stack_id S)))).

(** [Socket::error_check] *)
Definition error_check (this : ptr) (err : socket_error_t) : M world bool :=
  if decide (err = SOCKET_ERROR_NONE) then mret false
  else
    o ← get_obj this;
    post (CbError (_onError (o_Socket o)) this err);;
    mret true.

(** [Socket::~Socket()] *)
Definition Socket_dtor (this : ptr) : M world unit :=
  upd_obj this (set_vptr CSocket);;
  s ← get_socket this;
  if decide (sk_api s ≠ NULL) then
    match api_destroy (api_at (sk_api s)) with
    | Some _ =>
      err ← call_api this api_destroy;
      error_check this err;;
      mret tt
    | None => mret tt
    end
  else mret tt.

(** [Socket::open] *)
Definition Socket_open (this : ptr) (af : socket_address_family_t) (pf : socket_proto_family_t)
    : M world socket_error_t :=
  s ← get_socket this;
  if decide (sk_api s = NULL) then mret SOCKET_ERROR_BAD_STACK
  else call_api this (arg3 api_create af pf (CThunk_entry this)).

(** The members of the union of an event; reading one that is not active faults. *)
Definition ev_e (ev : socket_event) : M world socket_error_t :=
  match ev_i ev with info_e e => mret e | _ => raise InactiveMember end.
Definition ev_sentbytes (ev : socket_event) : M world Z :=
  match ev_i ev with info_t n => mret n | _ => raise InactiveMember end.
Definition ev_d (ev : socket_event) : M world (socket_addr * cstring) :=
  match ev_i ev with info_d a n => mret (a, n) | _ => raise InactiveMember end.
Definition ev_newimpl (ev : socket_event) : M world ptr :=
  match ev_i ev with info_a p => mret p | _ => raise InactiveMember end.

(** [Socket::_eventHandler] *)
Definition Socket_eventHandler (this : ptr) (ev : socket_event) : M world unit :=
  o ← get_obj this;
  let s := o_Socket o in
  match ev_event ev with
  | SOCKET_EVENT_RX_ERROR | SOCKET_EVENT_TX_ERROR | SOCKET_EVENT_ERROR =>
    if is_set (_onError s) then e ← ev_e ev; post (CbError (_onError s) this e) else mret tt
  | SOCKET_EVENT_RX_DONE =>
    if is_set (_onReadable s) then post (CbReadable (_onReadable s) this) else mret tt
  | SOCKET_EVENT_TX_DONE =>
    if is_set (_onSent s)
    then n ← ev_sentbytes ev; post (CbSent (_onSent s) this (u16 n)) else mret tt
  | SOCKET_EVENT_DNS =>
    if is_set (_onDNS s)
    then d ← ev_d ev; post (CbDNS (_onDNS s) this d.1 d.2) else mret tt
  | SOCKET_EVENT_CONNECT | SOCKET_EVENT_DISCONNECT | SOCKET_EVENT_ACCEPT
  | SOCKET_EVENT_NONE | SOCKET_EVENT_OTHER _ => mret tt
  end.

(** [Socket::setOnError], [Socket::setOnReadable], [Socket::setOnSent] *)
Definition setOnError (this : ptr) (h : FunctionPointer) : M world unit :=
  disable_irq;; upd_obj this (on_Socket (set_onError h));; enable_irq.
Definition setOnReadable (this : ptr) (h : FunctionPointer) : M world unit :=
  disable_irq;; upd_obj this (on_Socket (set_onReadable h));; enable_irq.
Definition setOnSent (this : ptr) (h : FunctionPointer) : M world unit :=
  disable_irq;; upd_obj this (on_Socket (set_onSent h));; enable_irq.

(** [Socket::_nvEventHandler], the function the thunk calls *)
Definition nvEventHandler `{VT : !VTable} (this : ptr) : M world unit :=
  s ← get_socket this;
  upd_obj this (on_Socket (set_event (sk_event s)));;
  o ← get_obj this;
  match _event (o_Socket o) with
  | Some ev => v_eventHandler this ev
  | None => raise NullDereference
  end;;
  upd_obj this (on_Socket (set_event None)).

(** [Socket::resolve] *)
Definition resolve (this : ptr) (address : cstring) (onDNS : FunctionPointer)
    : M world socket_error_t :=
  s ← get_socket this;
  if decide (sk_impl s = NULL) then mret SOCKET_ERROR_NULL_PTR
  else if decide (sk_handler s = NULL) then mret SOCKET_ERROR_CLOSED
  else
    upd_obj this (on_Socket (set_onDNS onDNS));;
    call_api this (arg1 api_resolve address).

(** [Socket::bind] of a [const SocketAddr *]; [open] is a virtual call *)
Definition bind `{VT : !VTable} (this : ptr) (addr : option SocketAddr) (port : Z)
    : M world socket_error_t :=
  match addr with
  | None => mret SOCKET_ERROR_NULL_PTR
  | Some a =>
    s ← get_socket this;
    err ← (if decide (sk_impl s = NULL)
           then v_open this SOCKET_AF_INET4 (sk_family s)
           else mret SOCKET_ERROR_NONE);
    if decide (err = SOCKET_ERROR_NONE)
    then call_api this (arg2 api_bind (getAddr a) port)
    else mret err
  end.

(** [Socket::bind] of a [const char *]; [raw] is the contents of the local
    [tmp] *)
Definition bind_str `{VT : !VTable} (this : ptr) (addr : cstring) (port : Z) (raw : SocketAddr)
    : M world socket_error_t :=
  s ← get_socket this;
  if decide (sk_impl s = NULL) then mret SOCKET_ERROR_NULL_PTR
  else
    r ← call_api this (arg2 api_str2addr (getAddr raw) addr);
    if decide (r.1 = SOCKET_ERROR_NONE)
    then bind this (Some (mk_SocketAddr r.2)) port
    else mret r.1.

(** [Socket::close] *)
Definition close (this : ptr) : M world socket_error_t :=
  s ← get_socket this;
  if decide (sk_impl s = NULL) then mret SOCKET_ERROR_NULL_PTR
  else call_api this api_close.

(** [Socket::recv]: the error, the buffer and the length after the call *)
Definition recv (this : ptr) (buf : option (list Z)) (len : option Z)
    : M world (socket_error_t * option (list Z) * option Z) :=
  s ← get_socket this;
  if decide (sk_impl s = NULL) then mret (SOCKET_ERROR_NULL_PTR, buf, len)
  else call_api this (arg2 api_recv buf len).

(** [Socket::recv_from]; [raw] is the contents of the local [addr] *)
Definition recv_from (this : ptr) (buf : option (list Z)) (len : option Z)
    (remote_addr : option SocketAddr) (remote_port : option Z) (raw : socket_addr)
    : M world (socket_error_t * option (list Z) * option Z * option SocketAddr * option Z) :=
  s ← get_socket this;
  match decide (sk_impl s = NULL), remote_addr with
  | left _, _ | _, None => mret (SOCKET_ERROR_NULL_PTR, buf, len, remote_addr, remote_port)
  | right _, Some ra =>
    r ← call_api this (arg4 api_recv_from buf len raw remote_port);
    let '(err, buf', len', addr, port') := r in
    mret (err, buf', len', Some (setAddr ra addr), port')
  end.

(** [Socket::send] *)
Definition send (this : ptr) (buf : option (list Z)) (len : Z) : M world socket_error_t :=
  s ← get_socket this;
  if decide (sk_impl s = NULL) then mret SOCKET_ERROR_NULL_PTR
  else call_api this (arg2 api_send buf len).

(** [Socket::send_to] *)
Definition send_to (this : ptr) (buf : option (list Z)) (len : Z)
    (remote_addr : option SocketAddr) (remote_port : Z) : M world socket_error_t :=
  s ← get_socket this;
  match decide (sk_impl s = NULL), remote_addr with
  | left _, _ | _, None => mret SOCKET_ERROR_NULL_PTR
  | right _, Some ra => call_api this (arg4 api_send_to buf len (getAddr ra) remote_port)
  end.

(** [Socket::isConnected] *)
Definition isConnected (this : ptr) : M world bool :=
  s ← get_socket this;
  if decide (sk_impl s = NULL) then mret false
  else query_api this api_is_connected.

(** [Socket::getLocalAddr] and [Socket::getRemoteAddr] *)
Definition getLocalAddr (this : ptr) (addr : option SocketAddr)
    : M world (socket_error_t * option SocketAddr) :=
  s ← get_socket this;
  match decide (sk_impl s = NULL), addr with
  | left _, _ | _, None => mret (SOCKET_ERROR_NULL_PTR, addr)
  | right _, Some a =>
    r ← query_api this (arg1 api_get_local_addr (getAddr a));
    mret (r.1, Some (mk_SocketAddr r.2))
  end.
Definition getRemoteAddr (this : ptr) (addr : option SocketAddr)
    : M world (socket_error_t * option SocketAddr) :=
  s ← get_socket this;
  match decide (sk_impl s = NULL), addr with
  | left _, _ | _, None => mret (SOCKET_ERROR_NULL_PTR, addr)
  | right _, Some a =>
    r ← query_api this (arg1 api_get_remote_addr (getAddr a));
    mret (r.1, Some (mk_SocketAddr r.2))
  end.

(** [Socket::getLocalPort] and [Socket::getRemotePort] *)
Definition getLocalPort (this : ptr) (port : option Z) : M world (socket_error_t * option Z) :=
  s ← get_socket this;
  if decide (sk_impl s = NULL) then mret (SOCKET_ERROR_NULL_PTR, port)
  else query_api this (arg1 api_get_local_port port).
Definition getRemotePort (this : ptr) (port : option Z) : M world (socket_error_t * option Z) :=
  s ← get_socket this;
  if decide (sk_impl s = NULL) then mret (SOCKET_ERROR_NULL_PTR, port)
  else query_api this (arg1 api_get_remote_port port).
End Socket.

(** ** Running the setters *)

Section setters.
Context {SA : SAL} {MN : Minar} {RT : Runtime} {IN : Inet}.

(** The world after one of the three setters: the object is updated, and interrupts are
    enabled whether or not they were before. *)
Definition handler_set (this : ptr) (o : object) (w : world) : world :=
  set_irq true (set_heap (<[this := o]> (heap w)) w).

Lemma setOnError_run this o h (w : world) :
  heap w !! this = Some o →
  setOnError this h w = Done (tt, handler_set this (on_Socket (set_onError h) o) w).
Proof.
  intros Ho. unfold setOnError. rewrite (bind_run _ _ _ tt (set_irq false w)) by done.
  by rewrite (upd_obj_bind _ o).
Qed.

Lemma setOnReadable_run this o h (w : world) :
  heap w !! this = Some o →
  setOnReadable this h w = Done (tt, handler_set this (on_Socket (set_onReadable h) o) w).
Proof.
  intros Ho. unfold setOnReadable. rewrite (bind_run _ _ _ tt (set_irq false w)) by done.
  by rewrite (upd_obj_bind _ o).
Qed.

Lemma setOnSent_run this o h (w : world) :
  heap w !! this = Some o →
  setOnSent this h w = Done (tt, handler_set this (on_Socket (set_onSent h) o) w).
Proof.
  intros Ho. unfold setOnSent. rewrite (bind_run _ _ _ tt (set_irq false w)) by done.
  by rewrite (upd_obj_bind _ o).
Qed.
End setters.
