(* ===== verification/UDPSocket.v ===== *)
(** * UDPSocket

    [src/sockets/v0/UDPSocket.h] and [src/source/v0/UDPSocket.cpp]. *)
From S2P Require Import Prelude Types Interfaces SocketAddr World Socket.
From stdpp Require Import base gmap list strings.
From Stdlib Require Import ZArith Lia.

Section UDPSocket.
Context {SA : SAL} {MN : Minar} {RT : Runtime} {IN : Inet}.

(** [UDPSocket::UDPSocket(socket_stack_t stack)] *)
Definition UDPSocket_ctor (this : ptr) (stack_id : Z) : M world unit :=
  Socket_ctor this stack_id;;
  upd_obj this (set_vptr CUDPSocket);;
  upd_obj this (on_Socket (on_socket (set_sk_family SOCKET_DGRAM))).

(** [UDPSocket::~UDPSocket()], followed by the destructor of its base *)
Definition UDPSocket_dtor (this : ptr) : M world unit :=
  upd_obj this (set_vptr CUDPSocket);;
  Socket_dtor this.

(** [UDPSocket::open(const socket_address_family_t af)], inline in the header *)
Definition UDPSocket_open (this : ptr) (af : socket_address_family_t) : M world socket_error_t :=
  Socket_open this af SOCKET_DGRAM.

(** [UDPSocket::open(af, pf)], the private override *)
Definition UDPSocket_open_override (this : ptr) (af : socket_address_family_t)
    (pf : socket_proto_family_t) : M world socket_error_t :=
  mret SOCKET_ERROR_UNIMPLEMENTED.

(** [UDPSocket::connect]; [address->getAddr()] needs a non-null [address] *)
Definition UDPSocket_connect (this : ptr) (address : option SocketAddr) (port : Z)
    : M world socket_error_t :=
  s ← get_socket this;
  if decide (sk_api s = NULL) then mret SOCKET_ERROR_BAD_STACK
  else
    match address with
    | Some a => call_api this (arg2 api_connect (getAddr a) port)
    | None => raise NullDereference
    end.
End UDPSocket.
