(* ===== verification/TCPAsynch.v ===== *)
(** * TCPAsynch: what the TCP classes share

    [src/sockets/v0/TCPAsynch.h] and [src/source/v0/TCPAsynch.cpp].  The class
    counts its live objects in the static [_TCPSockets] and keeps one periodic
    task of the network stack registered with the scheduler, under the static
    [_tick_handle], while there are any. *)
From S2P Require Import Prelude Types Interfaces SocketAddr World Socket.
From stdpp Require Import base gmap list strings.
From Stdlib Require Import ZArith Lia.

Section TCPAsynch.
Context {SA : SAL} {MN : Minar} {RT : Runtime} {IN : Inet}.

(** [minar::Scheduler::postCallback(f).period(p).tolerance(t).getHandle()] *)
Definition post_periodic (f : ptr) (p t : Z) : M world ptr := λ w,
  let '(h, s) := postPeriodic f p t (sched w) in Done (h, set_sched s w).

(** [minar::Scheduler::cancelCallback(h)] *)
Definition cancel_callback (h : ptr) : M world unit :=
  modify (λ w, set_sched (cancelCallback h (sched w)) w).

(** The start of the periodic task in the constructor. *)
Definition start_tick (this : ptr) : M world unit :=
  s ← get_socket this;
  if decide (sk_api s ≠ NULL) then
    interval ← call_api this api_periodic_interval;
    let timeout := u32 interval in
    f ← call_api this api_periodic_task;
    h ← post_periodic f (milliseconds timeout) (timeout / 2)%Z;
    modify (set_tick_handle h)
  else mret tt.

(** [TCPAsynch::TCPAsynch(const socket_stack_t stack)] *)
Definition TCPAsynch_ctor (this : ptr) (stack_id : Z) : M world unit :=
  Socket_ctor this stack_id;;
  upd_obj this (set_vptr CTCPAsynch);;
  upd_obj this (on_Socket (on_socket (set_sk_family SOCKET_STREAM)));;
  n ← gets _TCPSockets;
  (if decide (n = 0%Z) then start_tick this else mret tt);;
  modify (λ w, set_TCPSockets (wrap uintptr_width (_TCPSockets w + 1)) w).

(** [TCPAsynch::open(const socket_address_family_t af)] *)
Definition TCPAsynch_open (this : ptr) (af : socket_address_family_t) : M world socket_error_t :=
  Socket_open this af SOCKET_STREAM.

(** [TCPAsynch::open(af, pf)], the private override *)
Definition TCPAsynch_open_override (this : ptr) (af : socket_address_family_t)
    (pf : socket_proto_family_t) : M world socket_error_t :=
  mret SOCKET_ERROR_UNIMPLEMENTED.

(** [TCPAsynch::~TCPAsynch()], followed by the destructor of its base *)
Definition TCPAsynch_dtor (this : ptr) : M world unit :=
  upd_obj this (set_vptr CTCPAsynch);;
  modify (λ w, set_TCPSockets (wrap uintptr_width (_TCPSockets w - 1)) w);;
  n ← gets _TCPSockets;
  h ← gets _tick_handle;
  (if decide (n = 0%Z ∧ h ≠ NULL)
   then cancel_callback h;; modify (set_tick_handle NULL)
   else mret tt);;
  Socket_dtor this.
End TCPAsynch.
