(* ===== verification/TCPStream.v ===== *)
(** * TCPStream: a connected TCP socket

    [src/sockets/v0/TCPStream.h] and [src/source/v0/TCPStream.cpp]. *)
From S2P Require Import Prelude Types Interfaces SocketAddr World Socket TCPAsynch.
From stdpp Require Import base gmap list strings.
From Stdlib Require Import ZArith Lia.

Section TCPStream.
Context {SA : SAL} {MN : Minar} {RT : Runtime} {IN : Inet}.

(** The part all constructors share: the base, and NULL for both handlers. *)
Definition TCPStream_init (this : ptr) (stack_id : Z) : M world unit :=
  TCPAsynch_ctor this stack_id;;
  upd_obj this (set_vptr CTCPStream);;
  upd_obj this (on_TCPStream (λ s, set_onDisconnect None (set_onConnect None s))).

(** [TCPStream::TCPStream(const socket_stack_t stack)] *)
Definition TCPStream_ctor (this : ptr) (stack_id : Z) : M world unit :=
  TCPStream_init this stack_id.

(** [_socket.family = sock->family; _socket.impl = sock->impl;] *)
Definition adopt (this : ptr) (sock : socket) : M world unit :=
  upd_obj this (on_Socket (on_socket (set_sk_family (sk_family sock))));;
  upd_obj this (on_Socket (on_socket (set_sk_impl (sk_impl sock)))).

(** [TCPStream::TCPStream(const struct socket *sock)], deprecated *)
Definition TCPStream_ctor_sock (this : ptr) (sock : socket) : M world unit :=
  TCPStream_init this (sk_stack sock);;
  adopt this sock;;
  err ← call_api this (arg1 api_accept (CThunk_entry this));
  error_check this err;;
  mret tt.

(** [TCPStream::TCPStream(struct socket *listener, const struct socket *sock,
    socket_error_t &err)]; [listener] is the address of the object whose
    [struct socket] is passed, the result is what is stored in [err] *)
Definition TCPStream_ctor_accept (this : ptr) (listener : ptr) (sock : socket)
    : M world socket_error_t :=
  TCPStream_init this (sk_stack sock);;
  adopt this sock;;
  l ← get_socket listener;
  s ← get_socket this;
  S ← gets stack;
  let '(err, l', s', S') := socket_accept l s (CThunk_entry this) S in
  upd_obj listener (on_Socket (on_socket (λ _, l')));;
  upd_obj this (on_Socket (on_socket (λ _, s')));;
  modify (set_stack S');;
  mret err.

(** [TCPStream::~TCPStream()], followed by the destructors of its bases *)
Definition TCPStream_dtor (this : ptr) : M world unit :=
  upd_obj this (set_vptr CTCPStream);;
  TCPAsynch_dtor this.

(** [TCPStream::connect]; [address] is a reference *)
Definition TCPStream_connect (this : ptr) (address : SocketAddr) (port : Z)
    (onConnect : FunctionPointer) : M world socket_error_t :=
  s ← get_socket this;
  if decide (sk_api s = NULL) then mret SOCKET_ERROR_BAD_STACK
  else
    upd_obj this (on_TCPStream (set_onConnect onConnect));;
    call_api this (arg2 api_connect (getAddr address) port).

(** [TCPStream::setOnDisconnect], inline in the header *)
Definition setOnDisconnect (this : ptr) (h : FunctionPointer) : M world unit :=
  upd_obj this (on_TCPStream (set_onDisconnect h)).

(** [TCPStream::_eventHandler] *)
Definition TCPStream_eventHandler (this : ptr) (ev : socket_event) : M world unit :=
  o ← get_obj this;
  let t := o_TCPStream o in
  match ev_event ev with
  | SOCKET_EVENT_CONNECT =>
    if is_set (_onConnect t) then post (CbConnect (_onConnect t) this) else mret tt
  | SOCKET_EVENT_DISCONNECT =>
    if is_set (_onDisconnect t) then post (CbDisconnect (_onDisconnect t) this) else mret tt
  | _ => Socket_eventHandler this ev
  end.

(** [TCPStream::setNagle] *)
Definition setNagle (this : ptr) (enable : bool) : M world unit :=
  let enable_ptr := if enable then 1%Z else NULL in
  call_api this (arg4 api_set_option SOCKET_PROTO_LEVEL_TCP SOCKET_OPT_NAGLE enable_ptr 0%Z);;
  mret tt.
End TCPStream.
