(* ===== verification/TCPListener.v ===== *)
(** * TCPListener: a listening TCP socket

    [src/sockets/v0/TCPListener.h] and [src/source/v0/TCPListener.cpp]. *)
From S2P Require Import Prelude Types Interfaces SocketAddr World Socket TCPAsynch TCPStream.
From stdpp Require Import base gmap list strings.
From Stdlib Require Import ZArith Lia.

Section TCPListener.
Context {SA : SAL} {MN : Minar} {RT : Runtime} {IN : Inet}.

(** [TCPListener::TCPListener(const socket_stack_t stack)] *)
Definition TCPListener_ctor (this : ptr) (stack_id : Z) : M world unit :=
  TCPAsynch_ctor this stack_id;;
  upd_obj this (set_vptr CTCPListener);;
  upd_obj this (on_TCPListener (λ _, mk_TCPListener None)).

(** [TCPListener::start_listening] *)
Definition start_listening (this : ptr) (listenHandler : FunctionPointer) (backlog : Z)
    : M world socket_error_t :=
  s ← get_socket this;
  if decide (sk_api s = NULL) then mret SOCKET_ERROR_BAD_STACK
  else
    upd_obj this (on_TCPListener (λ _, mk_TCPListener listenHandler));;
    call_api this (arg1 api_start_listen backlog).

(** [TCPListener::stop_listening] *)
Definition stop_listening (this : ptr) : M world socket_error_t :=
  s ← get_socket this;
  if decide (sk_api s = NULL) then mret SOCKET_ERROR_BAD_STACK
  else call_api this api_stop_listen.

(** [TCPListener::~TCPListener()], followed by the destructors of its bases *)
Definition TCPListener_dtor (this : ptr) : M world unit :=
  upd_obj this (set_vptr CTCPListener);;
  stop_listening this;;
  TCPAsynch_dtor this.

(** The local [new_socket] of [accept]: a copy of the listener's struct. *)
Definition accept_socket (s : socket) (new_impl : ptr) : socket :=
  set_sk_family (sk_family s) (set_sk_stack (sk_stack s) (set_sk_impl new_impl s)).

(** [TCPListener::accept]; [raw] is the contents of the storage [new] returns *)
Definition accept (this : ptr) (new_impl : ptr) (raw : object) : M world ptr :=
  s ← get_socket this;
  stream ← new_storage raw;
  err ← TCPStream_ctor_accept stream this (accept_socket s new_impl);
  if decide (err ≠ SOCKET_ERROR_NONE) then
    TCPStream_dtor stream;;
    release stream;;
    mret NULL
  else mret stream.

(** [TCPListener::reject]; [raw] is the contents of the local [s] *)
Definition reject (this : ptr) (impl : ptr) (raw : socket) : M world unit :=
  k ← get_socket this;
  let s := set_sk_family (sk_family k) (set_sk_api (sk_api k)
             (set_sk_stack (sk_stack k) (set_sk_impl impl raw))) in
  f ← load_api (sk_api s) api_close;
  S ← gets stack;
  let '(_, _, S') := f s S in
  modify (set_stack S').

(** [TCPListener::_eventHandler] *)
Definition TCPListener_eventHandler (this : ptr) (ev : socket_event) : M world unit :=
  o ← get_obj this;
  let s := o_Socket o in
  let l := o_TCPListener o in
  match ev_event ev with
  | SOCKET_EVENT_RX_ERROR | SOCKET_EVENT_TX_ERROR | SOCKET_EVENT_ERROR =>
    if is_set (_onError s) then e ← ev_e ev; post (CbError (_onError s) this e) else mret tt
  | SOCKET_EVENT_RX_DONE | SOCKET_EVENT_TX_DONE
  | SOCKET_EVENT_CONNECT | SOCKET_EVENT_DISCONNECT =>
    if is_set (_onError s)
    then post (CbError (_onError s) this SOCKET_ERROR_UNIMPLEMENTED) else mret tt
  | SOCKET_EVENT_DNS =>
    if is_set (_onDNS s)
    then d ← ev_d ev; post (CbDNS (_onDNS s) this d.1 d.2) else mret tt
  | SOCKET_EVENT_ACCEPT =>
    if is_set (_onIncoming l)
    then p ← ev_newimpl ev; post (CbIncoming (_onIncoming l) this p) else mret tt
  | SOCKET_EVENT_NONE | SOCKET_EVENT_OTHER _ => mret tt
  end.
End TCPListener.
