(* ===== verification/Dispatch.v ===== *)
(** * Virtual dispatch

    The table of each class: which override of [open] and of [_eventHandler] a
    virtual call reaches, and the virtual destructor. *)
From S2P Require Import Prelude Types Interfaces SocketAddr World Socket UDPSocket TCPAsynch.
From S2P Require Import TCPStream TCPListener.
From stdpp Require Import base gmap list strings.
From Stdlib Require Import ZArith Lia.

Section Dispatch.
Context {SA : SAL} {MN : Minar} {RT : Runtime} {IN : Inet}.

(** [open(af, pf)] as a virtual call on an object of class [c]. *)
Definition open_of (c : cls) (this : ptr) (af : socket_address_family_t)
    (pf : socket_proto_family_t) : M world socket_error_t :=
  match c with
  | CSocket => Socket_open this af pf
  | CUDPSocket => UDPSocket_open_override this af pf
  | CTCPAsynch | CTCPStream | CTCPListener => TCPAsynch_open_override this af pf
  end.

(** [_eventHandler(ev)] as a virtual call on an object of class [c]. *)
Definition eventHandler_of (c : cls) (this : ptr) (ev : socket_event) : M world unit :=
  match c with
  | CSocket | CUDPSocket | CTCPAsynch => Socket_eventHandler this ev
  | CTCPStream => TCPStream_eventHandler this ev
  | CTCPListener => TCPListener_eventHandler this ev
  end.

(** A virtual call reads the table pointer of the object. *)
#[export] Instance vtable : VTable := {|
  v_open this af pf := o ← get_obj this; open_of (vptr o) this af pf;
  v_eventHandler this ev := o ← get_obj this; eventHandler_of (vptr o) this ev
|}.

(** The destructor of an object of class [c] (the destructor of [Socket] is virtual),
    and the end of the object's storage. *)
Definition dtor_of (c : cls) (this : ptr) : M world unit :=
  match c with
  | CSocket => Socket_dtor this
  | CUDPSocket => UDPSocket_dtor this
  | CTCPAsynch => TCPAsynch_dtor this
  | CTCPStream => TCPStream_dtor this
  | CTCPListener => TCPListener_dtor this
  end.
Definition delete_object (this : ptr) : M world unit :=
  o ← get_obj this; dtor_of (vptr o) this;; release this.
End Dispatch.
