(* ===== verification/Shape.v ===== *)
(** * What the methods leave alone

    A relation on worlds is [Framed] when it holds of every step an ordinary method
    is made of: assignments to members, the interrupt mask, the stack, callbacks
    posted for a handler that is set (or for an error).  Every ordinary method is
    then a step of every framed relation; the lemmas are the hint database [moves].

    The shape of a world is the class of each live object; its ticks are the
    statics of [TCPAsynch] with the periodic tasks of the scheduler.  Ordinary
    methods change neither ([quiet]); constructors and destructors retag one
    object ([retags]) and move the ticks up or down. *)
From S2P Require Import Prelude Types Interfaces SocketAddr World Socket UDPSocket TCPAsynch.
From S2P Require Import TCPStream TCPListener Dispatch.
From stdpp Require Import base gmap list strings.
From Stdlib Require Import ZArith Lia.

(** ** Ordinary methods are steps of every framed relation *)

Section Framed.
Context {SA : SAL} {MN : Minar} {RT : Runtime} {IN : Inet}.

Class Framed (R : world → world → Prop) : Prop := {
  framed_pre :: PreOrder R;
  framed_upd this f : (∀ o, vptr (f o) = vptr o) → moves R (upd_obj this f);
  framed_irq b : moves R (modify (set_irq b));
  framed_stack S : moves R (modify (set_stack S));
  framed_post c : is_error_cb c = true ∨ is_set (cb_fun c) = true → moves R (post c)
}.

Context (R : world → world → Prop) `{HR : !Framed R}.

Lemma framed_get_obj this : moves R (get_obj this).
Proof. intros w o w'. unfold get_obj. destruct (heap w !! this); by intros [= _ ->]. Qed.

Lemma framed_disable_irq : moves R disable_irq.
Proof. apply framed_irq. Qed.

Lemma framed_enable_irq : moves R enable_irq.
Proof. apply framed_irq. Qed.

Lemma framed_load_api {F} api (fn : socket_api sal_state → option F) :
  moves R (load_api api fn).
Proof. unfold load_api. case_decide; [done|]. destruct (fn (api_at api)); solve_moves. Qed.
End Framed.

#[export] Hint Resolve framed_get_obj framed_disable_irq framed_enable_irq framed_stack
  framed_load_api : moves.
#[export] Hint Extern 2 (moves _ (upd_obj _ _)) =>
  apply framed_upd; reflexivity : moves.
#[export] Hint Extern 2 (moves _ (post _)) =>
  apply framed_post; simpl; auto : moves.

Section framed_calls.
Context {SA : SAL} {MN : Minar} {RT : Runtime} {IN : Inet} (R : world → world → Prop) `{HR : !Framed R}.

Lemma framed_get_socket this : moves R (get_socket this).
Proof. unfold get_socket. solve_moves. Qed.
#[local] Hint Resolve framed_get_socket : moves.

Lemma framed_call_api {A} this (fn : socket_api sal_state → option (api_call sal_state A)) :
  moves R (call_api this fn).
Proof. unfold call_api. solve_moves. Qed.

Lemma framed_query_api {A} this (fn : socket_api sal_state → option (api_query sal_state A)) :
  moves R (query_api this fn).
Proof. unfold query_api. solve_moves. Qed.
End framed_calls.

#[export] Hint Resolve framed_get_socket framed_call_api framed_query_api : moves.

Section framed_methods.
Context {SA : SAL} {MN : Minar} {RT : Runtime} {IN : Inet} (R : world → world → Prop) `{HR : !Framed R}.

Lemma framed_error_check this err : moves R (error_check this err).
Proof. unfold error_check. solve_moves. Qed.

Lemma framed_Socket_open this af pf : moves R (Socket_open this af pf).
Proof. unfold Socket_open. solve_moves. Qed.
#[local] Hint Resolve framed_error_check framed_Socket_open : moves.

Lemma framed_open_of c this af pf : moves R (open_of c this af pf).
Proof.
  destruct c; simpl; unfold UDPSocket_open_override, TCPAsynch_open_override; solve_moves.
Qed.

Lemma framed_Socket_eventHandler this ev : moves R (Socket_eventHandler this ev).
Proof.
  unfold Socket_eventHandler, ev_e, ev_sentbytes, ev_d. solve_moves.
Qed.
#[local] Hint Resolve framed_open_of framed_Socket_eventHandler : moves.

Lemma framed_eventHandler_of c this ev : moves R (eventHandler_of c this ev).
Proof.
  destruct c; simpl; unfold TCPStream_eventHandler, TCPListener_eventHandler, ev_e, ev_d, ev_newimpl;
    solve_moves.
Qed.
#[local] Hint Resolve framed_eventHandler_of : moves.

Lemma framed_v_open this af pf : moves R (v_open this af pf).
Proof. simpl. solve_moves. Qed.

Lemma framed_v_eventHandler this ev : moves R (v_eventHandler this ev).
Proof. simpl. solve_moves. Qed.
#[local] Hint Resolve framed_v_open framed_v_eventHandler : moves.

Lemma framed_nvEventHandler this : moves R (nvEventHandler this).
Proof. unfold nvEventHandler. solve_moves. Qed.

Lemma framed_setOnError this h : moves R (setOnError this h).
Proof. unfold setOnError. solve_moves. Qed.

Lemma framed_setOnReadable this h : moves R (setOnReadable this h).
Proof. unfold setOnReadable. solve_moves. Qed.

Lemma framed_setOnSent this h : moves R (setOnSent this h).
Proof. unfold setOnSent. solve_moves. Qed.

Lemma framed_resolve this a h : moves R (resolve this a h).
Proof. unfold resolve. solve_moves. Qed.

Lemma framed_bind this a p : moves R (bind this a p).
Proof. unfold bind. solve_moves. Qed.
#[local] Hint Resolve framed_bind : moves.

Lemma framed_bind_str this a p raw : moves R (bind_str this a p raw).
Proof. unfold bind_str. solve_moves. Qed.

Lemma framed_close this : moves R (close this).
Proof. unfold close. solve_moves. Qed.

Lemma framed_recv this b l : moves R (recv this b l).
Proof. unfold recv. solve_moves. Qed.

Lemma framed_recv_from this b l a p raw : moves R (recv_from this b l a p raw).
Proof. unfold recv_from. solve_moves. Qed.

Lemma framed_send this b l : moves R (send this b l).
Proof. unfold send. solve_moves. Qed.

Lemma framed_send_to this b l a p : moves R (send_to this b l a p).
Proof. unfold send_to. solve_moves. Qed.

Lemma framed_isConnected this : moves R (isConnected this).
Proof. unfold isConnected. solve_moves. Qed.

Lemma framed_getLocalAddr this a : moves R (getLocalAddr this a).
Proof. unfold getLocalAddr. solve_moves. Qed.

Lemma framed_getRemoteAddr this a : moves R (getRemoteAddr this a).
Proof. unfold getRemoteAddr. solve_moves. Qed.

Lemma framed_getLocalPort this p : moves R (getLocalPort this p).
Proof. unfold getLocalPort. solve_moves. Qed.

Lemma framed_getRemotePort this p : moves R (getRemotePort this p).
Proof. unfold getRemotePort. solve_moves. Qed.

Lemma framed_UDPSocket_open this af : moves R (UDPSocket_open this af).
Proof. unfold UDPSocket_open. solve_moves. Qed.

Lemma framed_UDPSocket_connect this a p : moves R (UDPSocket_connect this a p).
Proof. unfold UDPSocket_connect. solve_moves. Qed.

Lemma framed_TCPAsynch_open this af : moves R (TCPAsynch_open this af).
Proof. unfold TCPAsynch_open. solve_moves. Qed.

Lemma framed_TCPStream_connect this a p h : moves R (TCPStream_connect this a p h).
Proof. unfold TCPStream_connect. solve_moves. Qed.

Lemma framed_setOnDisconnect this h : moves R (setOnDisconnect this h).
Proof. unfold setOnDisconnect. solve_moves. Qed.

Lemma framed_setNagle this b : moves R (setNagle this b).
Proof. unfold setNagle. solve_moves. Qed.

Lemma framed_start_listening this h n : moves R (start_listening this h n).
Proof. unfold start_listening. solve_moves. Qed.

Lemma framed_stop_listening this : moves R (stop_listening this).
Proof. unfold stop_listening. solve_moves. Qed.

Lemma framed_reject this p raw : moves R (reject this p raw).
Proof. unfold reject. solve_moves. Qed.

Lemma framed_adopt this s : moves R (adopt this s).
Proof. unfold adopt. solve_moves. Qed.
End framed_methods.

#[export] Hint Resolve framed_error_check framed_Socket_open framed_nvEventHandler
  framed_setOnError framed_setOnReadable framed_setOnSent framed_resolve framed_bind
  framed_bind_str framed_close framed_recv framed_recv_from framed_send framed_send_to
  framed_isConnected framed_getLocalAddr framed_getRemoteAddr framed_getLocalPort
  framed_getRemotePort framed_UDPSocket_open framed_UDPSocket_connect framed_TCPAsynch_open
  framed_TCPStream_connect framed_setOnDisconnect framed_setNagle framed_start_listening
  framed_stop_listening framed_reject framed_adopt : moves.


(** ** Shapes and ticks *)

Section Shape.
Context {SA : SAL} {MN : Minar} {RT : Runtime} {IN : Inet}.

Definition shape (w : world) : gmap Z cls := vptr <$> heap w.
Definition ticks (w : world) : Z * ptr * gmap Z (ptr * Z * Z) :=
  (_TCPSockets w, _tick_handle w, periodic (sched w)).

Definition quiet (w w' : world) : Prop := shape w' = shape w ∧ ticks w' = ticks w.
Definition retags (this : ptr) (c : cls) (w w' : world) : Prop :=
  shape w' = <[this := c]> (shape w) ∧ ticks w' = ticks w.

#[global] Instance quiet_preorder : PreOrder quiet.
Proof.
  split; [by intros w|]. intros w1 w2 w3 [H1 H2] [H3 H4].
  split; congruence.
Qed.

Lemma shape_lookup w p c : shape w !! p = Some c ↔ ∃ o, heap w !! p = Some o ∧ vptr o = c.
Proof. unfold shape. rewrite lookup_fmap, fmap_Some.
  split; intros (o & ? & ?); exists o; auto.
Qed.

Lemma shape_dom w : dom (shape w) = dom (heap w).
Proof. apply dom_fmap_L. Qed.

Lemma quiet_retags this c w w1 w2 : retags this c w w1 → quiet w1 w2 → retags this c w w2.
Proof. intros [H1 H2] [H3 H4]. split; congruence. Qed.

Lemma retags_retags this c c' w w1 w2 :
  retags this c w w1 → retags this c' w1 w2 → retags this c' w w2.
Proof.
  intros [H1 H2] [H3 H4].
  split; [by rewrite H3, H1, insert_insert_eq | by rewrite H4].
Qed.

(** ** The primitives *)

Lemma quiet_shape_same w w' : shape w' = shape w → ticks w' = ticks w → quiet w w'.
Proof. done. Qed.

Lemma upd_obj_Done this f w u w' :
  upd_obj this f w = Done (u, w') →
  ∃ o, heap w !! this = Some o ∧ w' = set_heap (<[this := f o]> (heap w)) w.
Proof.
  unfold upd_obj, get_obj, put_obj, modify, mbind, M_bind.
  destruct (heap w !! this) as [o|]; [|done]. intros [= _ <-]. eauto.
Qed.

Lemma new_storage_Done raw w p w' :
  new_storage raw w = Done (p, w') →
  operator_new (dom (heap w)) = Some p ∧ heap w !! p = None ∧
  w' = set_heap (<[p := raw]> (heap w)) w.
Proof.
  unfold new_storage. destruct (operator_new _) as [q|]; [|done].
  intros (? & w1 & H1 & [-> ->]%ret_Done)%bind_Done. revert H1. unfold place.
  destruct (heap w !! q) eqn:E; [done|]. intros [= <-]. auto.
Qed.

Lemma quiet_upd this f : (∀ o, vptr (f o) = vptr o) → moves quiet (upd_obj this f).
Proof.
  intros Hf w u w' (o & Ho & ->)%upd_obj_Done. split; [|done].
  unfold shape; simpl. rewrite fmap_insert, insert_id; [done|].
  by rewrite lookup_fmap, Ho, Hf.
Qed.

Lemma retags_upd this c w u w' : upd_obj this (set_vptr c) w = Done (u, w') → retags this c w w'.
Proof.
  intros (o & Ho & ->)%upd_obj_Done. split; [|done].
  unfold shape; simpl. by rewrite fmap_insert.
Qed.

#[global] Instance quiet_framed `{!MinarLaws MN} : Framed quiet.
Proof.
  split; [apply _ | | | |].
  - intros. by apply quiet_upd.
  - intros b. by apply moves_modify.
  - intros S. by apply moves_modify.
  - intros c _. apply moves_modify. intros w. split; [done|]. unfold ticks; simpl.
    by rewrite periodic_post.
Qed.
End Shape.

(** ** Constructors and destructors *)

Section lifetimes.
Context {SA : SAL} {MN : Minar} {RT : Runtime} {IN : Inet}.

(** The statics when a TCP object is constructed: the count is incremented, and
    when it was zero a periodic task may have been registered under a new handle. *)
Definition tick_up (t t' : Z * ptr * gmap Z (ptr * Z * Z)) : Prop :=
  let '(n, h, P) := t in
  let '(n', h', P') := t' in
  n' = wrap uintptr_width (n + 1) ∧
  ((h' = h ∧ P' = P) ∨
   (n = 0%Z ∧ h' ≠ NULL ∧ P !! h' = None ∧ ∃ e, P' = <[h' := e]> P)).

(** The statics when one is destroyed: the count is decremented, and when it
    becomes zero the task is cancelled and its handle forgotten. *)
Definition tick_down (t t' : Z * ptr * gmap Z (ptr * Z * Z)) : Prop :=
  let '(n, h, P) := t in
  let '(n', h', P') := t' in
  n' = wrap uintptr_width (n - 1) ∧
  (if decide (n' = 0%Z ∧ h ≠ NULL) then h' = NULL ∧ P' = delete h P else h' = h ∧ P' = P).

Definition ups (this : ptr) (c : cls) (w w' : world) : Prop :=
  shape w' = <[this := c]> (shape w) ∧ tick_up (ticks w) (ticks w').
Definition downs (this : ptr) (c : cls) (w w' : world) : Prop :=
  shape w' = <[this := c]> (shape w) ∧ tick_down (ticks w) (ticks w').

Lemma ups_retags this c c' w w1 w2 : ups this c w w1 → retags this c' w1 w2 → ups this c' w w2.
Proof.
  intros [H1 H2] [H3 H4].
  split; [by rewrite H3, H1, insert_insert_eq | by rewrite H4].
Qed.

Lemma ups_quiet this c w w1 w2 : ups this c w w1 → quiet w1 w2 → ups this c w w2.
Proof. intros [H1 H2] [H3 H4]. split; [by rewrite H3 | by rewrite H4]. Qed.

Lemma retags_downs this c c' w w1 w2 :
  retags this c w w1 → downs this c' w1 w2 → downs this c' w w2.
Proof.
  intros [H1 H2] [H3 H4].
  split; [by rewrite H3, H1, insert_insert_eq | by rewrite <- H2].
Qed.

Lemma downs_retags this c c' w w1 w2 :
  downs this c w w1 → retags this c' w1 w2 → downs this c' w w2.
Proof.
  intros [H1 H2] [H3 H4].
  split; [by rewrite H3, H1, insert_insert_eq | by rewrite H4].
Qed.

Lemma moves_seq {A B} (R1 R2 R : world → world → Prop) (m : M world A) (k : A → M world B) :
  moves R1 m → (∀ a, moves R2 (k a)) →
  (∀ w w1 w2, R1 w w1 → R2 w1 w2 → R w w2) → moves R (m ≫= k).
Proof.
  intros Hm Hk HR w b w' (a & w1 & H1 & H2)%bind_Done. eapply HR; [eapply Hm | eapply Hk]; eauto.
Qed.

Lemma moves_retags_upd this c : moves (retags this c) (upd_obj this (set_vptr c)).
Proof. intros w u w'. apply retags_upd. Qed.

Context `{ML : !MinarLaws MN}.

Lemma retags_Socket_ctor this st : moves (retags this CSocket) (Socket_ctor this st).
Proof.
  unfold Socket_ctor.
  eapply moves_seq; [apply moves_retags_upd | | apply quiet_retags]. intros _. solve_moves.
Qed.

Lemma retags_Socket_dtor this : moves (retags this CSocket) (Socket_dtor this).
Proof.
  unfold Socket_dtor.
  eapply moves_seq; [apply moves_retags_upd | | apply quiet_retags]. intros _. solve_moves.
Qed.

Lemma retags_UDPSocket_ctor this st : moves (retags this CUDPSocket) (UDPSocket_ctor this st).
Proof.
  unfold UDPSocket_ctor.
  eapply moves_seq; [apply retags_Socket_ctor | intros _ | apply retags_retags].
  eapply moves_seq; [apply moves_retags_upd | | apply quiet_retags]. intros _. solve_moves.
Qed.

Lemma retags_UDPSocket_dtor this : moves (retags this CSocket) (UDPSocket_dtor this).
Proof.
  unfold UDPSocket_dtor.
  eapply moves_seq; [apply moves_retags_upd | intros _ | apply retags_retags].
  apply retags_Socket_dtor.
Qed.

(** [start_tick] leaves the shape and the count; the handle it stores is new. *)
Definition tick_started (w w' : world) : Prop :=
  shape w' = shape w ∧ _TCPSockets w' = _TCPSockets w ∧
  ((_tick_handle w' = _tick_handle w ∧ periodic (sched w') = periodic (sched w)) ∨
   (_tick_handle w' ≠ NULL ∧ periodic (sched w) !! _tick_handle w' = None ∧
    ∃ e, periodic (sched w') = <[_tick_handle w' := e]> (periodic (sched w)))).

Lemma quiet_tick_started w w1 w2 : quiet w w1 → tick_started w1 w2 → tick_started w w2.
Proof.
  unfold tick_started, quiet, ticks. intros [E1 [= E2 E3 E4]] Hs. by rewrite <- E1, <- E2, <- E3, <- E4.
Qed.

Lemma start_tick_started this : moves tick_started (start_tick this).
Proof.
  unfold start_tick.
  eapply moves_seq; [apply (framed_get_socket quiet) | intros s | apply quiet_tick_started].
  case_decide; [|by intros w u w' [-> ->]%ret_Done; split_and!; auto].
  eapply moves_seq; [apply (framed_call_api quiet) | intros i | apply quiet_tick_started].
  eapply moves_seq; [apply (framed_call_api quiet) | intros f | apply quiet_tick_started].
  intros w u w' (h & w1 & H1 & H2)%bind_Done. injection H2 as _ <-.
  unfold post_periodic in H1.
  pose proof (postPeriodic_fresh f (milliseconds (u32 i)) (u32 i / 2) (sched w)) as [Hn Hf].
  pose proof (periodic_postPeriodic f (milliseconds (u32 i)) (u32 i / 2) (sched w)) as Hp.
  destruct (postPeriodic _ _ _ (sched w)) as [h1 s1]. injection H1 as -> <-.
  split_and!; [done..|]. right. simpl in *. eauto.
Qed.

Lemma ups_TCPAsynch_ctor this st : moves (ups this CTCPAsynch) (TCPAsynch_ctor this st).
Proof.
  unfold TCPAsynch_ctor. intros w u w' H.
  apply bind_Done in H as (? & w1 & H1%retags_Socket_ctor & H).
  apply bind_Done in H as (? & w2 & H2%retags_upd & H).
  apply bind_Done in H as (? & w3 & H3%quiet_upd & H); [|done].
  pose proof (quiet_retags _ _ _ _ _ (retags_retags _ _ _ _ _ _ H1 H2) H3) as [Hs Ht].
  apply bind_Done in H as (n & w4 & [= <- <-] & H).
  apply bind_Done in H as (? & w5 & H5 & [= _ <-]).
  assert (tick_started w3 w5 ∧ (_TCPSockets w3 ≠ 0%Z → w5 = w3)) as [(Hs5 & Hn5 & Hd) Hne].
  { case_decide.
    - split; [eapply start_tick_started; eauto | done].
    - apply ret_Done in H5 as [_ ->]. split; [split_and!; auto | done]. }
  split; [by unfold shape in *; simpl; rewrite Hs5|].
  rewrite <- Ht. unfold ticks, tick_up; simpl. rewrite Hn5. split; [done|].
  destruct (decide (_TCPSockets w3 = 0%Z)) as [Hz|Hz].
  - destruct Hd as [[-> ->]|(? & ? & ?)]; auto.
  - rewrite (Hne Hz). auto.
Qed.

Lemma ups_TCPStream_init this st : moves (ups this CTCPStream) (TCPStream_init this st).
Proof.
  unfold TCPStream_init.
  eapply moves_seq; [apply ups_TCPAsynch_ctor | intros _ | apply ups_retags].
  eapply moves_seq; [apply moves_retags_upd | | apply quiet_retags]. intros _. solve_moves.
Qed.

Lemma ups_TCPListener_ctor this st : moves (ups this CTCPListener) (TCPListener_ctor this st).
Proof.
  unfold TCPListener_ctor.
  eapply moves_seq; [apply ups_TCPAsynch_ctor | intros _ | apply ups_retags].
  eapply moves_seq; [apply moves_retags_upd | | apply quiet_retags]. intros _. solve_moves.
Qed.

Lemma ups_TCPStream_ctor_sock this s : moves (ups this CTCPStream) (TCPStream_ctor_sock this s).
Proof.
  unfold TCPStream_ctor_sock.
  eapply moves_seq; [apply ups_TCPStream_init | | apply ups_quiet]. intros _. solve_moves.
Qed.

Lemma ups_TCPStream_ctor_accept this l s :
  moves (ups this CTCPStream) (TCPStream_ctor_accept this l s).
Proof.
  unfold TCPStream_ctor_accept.
  eapply moves_seq; [apply ups_TCPStream_init | | apply ups_quiet]. intros _. solve_moves.
Qed.

Lemma downs_TCPAsynch_dtor this : moves (downs this CSocket) (TCPAsynch_dtor this).
Proof.
  unfold TCPAsynch_dtor.
  eapply moves_seq; [apply moves_retags_upd | intros _ | apply retags_downs].
  intros w u w' H.
  apply bind_Done in H as (? & w1 & [= _ <-] & H).
  apply bind_Done in H as (n & w2 & [= <- <-] & H).
  apply bind_Done in H as (h & w3 & [= <- <-] & H).
  apply bind_Done in H as (? & w4 & H4 & [Hs Ht]%retags_Socket_dtor).
  unfold downs. rewrite Hs, Ht. simpl in H4. unfold ticks, tick_down. case_decide.
  - apply bind_Done in H4 as (? & w5 & [= _ <-] & [= _ <-]). simpl.
    rewrite decide_True by done. by rewrite periodic_cancel.
  - apply ret_Done in H4 as [_ ->]. simpl. by rewrite decide_False.
Qed.

Lemma downs_TCPStream_dtor this : moves (downs this CSocket) (TCPStream_dtor this).
Proof.
  unfold TCPStream_dtor.
  eapply moves_seq; [apply moves_retags_upd | intros _ | apply retags_downs].
  apply downs_TCPAsynch_dtor.
Qed.

Lemma downs_TCPListener_dtor this : moves (downs this CSocket) (TCPListener_dtor this).
Proof.
  unfold TCPListener_dtor.
  eapply moves_seq; [apply moves_retags_upd | intros _ | apply retags_downs].
  eapply moves_seq; [apply (framed_stop_listening quiet) | intros _ |].
  - apply downs_TCPAsynch_dtor.
  - intros w w1 w2 [H1 H2] [H3 H4]. split; [by rewrite H3, H1 | by rewrite <- H2].
Qed.
End lifetimes.
