(* ===== verification/System.v ===== *)
(** * Programs that use the classes, as a transition system

    A state is a world.  The program calls public methods, constructs and
    destroys objects; the network stack raises events on sockets, in interrupt
    context, and makes progress on its own; the scheduler dispatches pending
    callbacks.  Calls are atomic steps: the only code that interrupts them posts
    callbacks (see [IrqMask] for assignments of handlers, which are not atomic). *)
From S2P Require Import Prelude Types Interfaces SocketAddr World Socket UDPSocket TCPAsynch.
From S2P Require Import TCPStream TCPListener Dispatch Shape.
From stdpp Require Import base gmap list strings.
From Stdlib Require Import ZArith Lia.

(** Calls of public members.  [raw] arguments are the contents of storage the code
    does not initialise. *)
Inductive call :=
| NewUDPSocket (raw : object) (stack_id : Z)
| NewTCPStream (raw : object) (stack_id : Z)
| NewTCPStreamSock (raw : object) (sock : socket)
| NewTCPStreamAccept (raw : object) (listener : ptr) (sock : socket)
| NewTCPListener (raw : object) (stack_id : Z)
| DeleteObject (this : ptr)
| UdpOpen (this : ptr) (af : socket_address_family_t)
| TcpOpen (this : ptr) (af : socket_address_family_t)
| Resolve (this : ptr) (address : cstring) (onDNS : FunctionPointer)
| Bind (this : ptr) (addr : option SocketAddr) (port : Z)
| BindStr (this : ptr) (addr : cstring) (port : Z) (raw : SocketAddr)
| SetOnError (this : ptr) (h : FunctionPointer)
| SetOnReadable (this : ptr) (h : FunctionPointer)
| SetOnSent (this : ptr) (h : FunctionPointer)
| ErrorCheck (this : ptr) (err : socket_error_t)
| Close (this : ptr)
| Recv (this : ptr) (buf : option (list Z)) (len : option Z)
| RecvFrom (this : ptr) (buf : option (list Z)) (len : option Z)
    (remote_addr : option SocketAddr) (remote_port : option Z) (raw : socket_addr)
| Send (this : ptr) (buf : option (list Z)) (len : Z)
| SendTo (this : ptr) (buf : option (list Z)) (len : Z)
    (remote_addr : option SocketAddr) (remote_port : Z)
| IsConnected (this : ptr)
| GetLocalAddr (this : ptr) (addr : option SocketAddr)
| GetLocalPort (this : ptr) (port : option Z)
| GetRemoteAddr (this : ptr) (addr : option SocketAddr)
| GetRemotePort (this : ptr) (port : option Z)
| UdpConnect (this : ptr) (address : option SocketAddr) (port : Z)
| TcpConnect (this : ptr) (address : SocketAddr) (port : Z) (onConnect : FunctionPointer)
| SetOnDisconnect (this : ptr) (h : FunctionPointer)
| SetNagle (this : ptr) (enable : bool)
| StartListening (this : ptr) (listenHandler : FunctionPointer) (backlog : Z)
| StopListening (this : ptr)
| Accept (this : ptr) (new_impl : ptr) (raw : object)
| Reject (this : ptr) (new_impl : ptr) (raw : socket).

(** What a call returns: nothing, an address, an error code, a truth value, or an
    error code with the values stored through the pointer arguments. *)
Inductive ret :=
| RUnit
| RPtr (p : ptr)
| RErr (e : socket_error_t)
| RBool (b : bool)
| RRecv (e : socket_error_t) (buf : option (list Z)) (len : option Z)
| RRecvFrom (e : socket_error_t) (buf : option (list Z)) (len : option Z)
    (addr : option SocketAddr) (port : option Z)
| RAddr (e : socket_error_t) (addr : option SocketAddr)
| RPort (e : socket_error_t) (port : option Z).

Section System.
Context {SA : SAL} {MN : Minar} {RT : Runtime} {IN : Inet}.

Definition returning {A} (f : A → ret) (m : M world A) : M world ret := x ← m; mret (f x).

(** [new C(...)]: storage, then the constructor. *)
Definition new_object {A} (raw : object) (ctor : ptr → M world A) : M world ret :=
  p ← new_storage raw; ctor p;; mret (RPtr p).

Definition exec (c : call) : M world ret :=
  match c with
  | NewUDPSocket raw st => new_object raw (λ p, UDPSocket_ctor p st)
  | NewTCPStream raw st => new_object raw (λ p, TCPStream_ctor p st)
  | NewTCPStreamSock raw s => new_object raw (λ p, TCPStream_ctor_sock p s)
  | NewTCPStreamAccept raw l s => new_object raw (λ p, TCPStream_ctor_accept p l s)
  | NewTCPListener raw st => new_object raw (λ p, TCPListener_ctor p st)
  | DeleteObject p => returning (λ _, RUnit) (delete_object p)
  | UdpOpen p af => returning RErr (UDPSocket_open p af)
  | TcpOpen p af => returning RErr (TCPAsynch_open p af)
  | Resolve p a h => returning RErr (resolve p a h)
  | Bind p a n => returning RErr (bind p a n)
  | BindStr p a n raw => returning RErr (bind_str p a n raw)
  | SetOnError p h => returning (λ _, RUnit) (setOnError p h)
  | SetOnReadable p h => returning (λ _, RUnit) (setOnReadable p h)
  | SetOnSent p h => returning (λ _, RUnit) (setOnSent p h)
  | ErrorCheck p e => returning RBool (error_check p e)
  | Close p => returning RErr (close p)
  | Recv p b l => returning (λ r, RRecv r.1.1 r.1.2 r.2) (recv p b l)
  | RecvFrom p b l a n raw =>
    returning (λ r, RRecvFrom r.1.1.1.1 r.1.1.1.2 r.1.1.2 r.1.2 r.2) (recv_from p b l a n raw)
  | Send p b l => returning RErr (send p b l)
  | SendTo p b l a n => returning RErr (send_to p b l a n)
  | IsConnected p => returning RBool (isConnected p)
  | GetLocalAddr p a => returning (λ r, RAddr r.1 r.2) (getLocalAddr p a)
  | GetLocalPort p n => returning (λ r, RPort r.1 r.2) (getLocalPort p n)
  | GetRemoteAddr p a => returning (λ r, RAddr r.1 r.2) (getRemoteAddr p a)
  | GetRemotePort p n => returning (λ r, RPort r.1 r.2) (getRemotePort p n)
  | UdpConnect p a n => returning RErr (UDPSocket_connect p a n)
  | TcpConnect p a n h => returning RErr (TCPStream_connect p a n h)
  | SetOnDisconnect p h => returning (λ _, RUnit) (setOnDisconnect p h)
  | SetNagle p b => returning (λ _, RUnit) (setNagle p b)
  | StartListening p h n => returning RErr (start_listening p h n)
  | StopListening p => returning RErr (stop_listening p)
  | Accept p i raw => returning RPtr (accept p i raw)
  | Reject p i raw => returning (λ _, RUnit) (reject p i raw)
  end.

(** The receiver of a method call and the classes that have the method; a call
    type-checks when the receiver is an object of one of them. *)
Definition receiver (c : call) : option (ptr * list cls) :=
  match c with
  | NewUDPSocket _ _ | NewTCPStream _ _ | NewTCPStreamSock _ _ | NewTCPListener _ _ => None
  | NewTCPStreamAccept _ p _ => Some (p, [CTCPStream; CTCPListener; CUDPSocket])
  | UdpOpen p _ | UdpConnect p _ _ => Some (p, [CUDPSocket])
  | TcpOpen p _ => Some (p, [CTCPStream; CTCPListener])
  | TcpConnect p _ _ _ | SetOnDisconnect p _ | SetNagle p _ => Some (p, [CTCPStream])
  | StartListening p _ _ | StopListening p | Accept p _ _ | Reject p _ _ =>
    Some (p, [CTCPListener])
  | DeleteObject p | Resolve p _ _ | Bind p _ _ | BindStr p _ _ _ | SetOnError p _
  | SetOnReadable p _ | SetOnSent p _ | ErrorCheck p _ | Close p | Recv p _ _
  | RecvFrom p _ _ _ _ _ | Send p _ _ | SendTo p _ _ _ _ | IsConnected p
  | GetLocalAddr p _ | GetLocalPort p _ | GetRemoteAddr p _ | GetRemotePort p _ =>
    Some (p, [CTCPStream; CTCPListener; CUDPSocket])
  end.
Definition well_typed (c : call) (w : world) : bool :=
  match receiver c with
  | None => true
  | Some (p, cs) => match shape w !! p with Some k => bool_decide (k ∈ cs) | None => false end
  end.

(** The stack raises [ev] on the socket at [this]: it stores the event in the
    [struct socket] and calls the handler, which is the thunk of the object. *)
Definition interrupt (this : ptr) (ev : socket_event) : M world unit :=
  upd_obj this (on_Socket (on_socket (set_sk_event (Some ev))));;
  nvEventHandler this.

Inductive step : world → world → Prop :=
| step_call c r w w' :
    well_typed c w = true → exec c w = Done (r, w') → step w w'
| step_interrupt this ev w w' :
    irq_enabled w = true → interrupt this ev w = Done (tt, w') → step w w'
| step_stack S' w :
    step w (set_stack S' w)
| step_dispatch c s' w :
    pending (sched w) ≡ₚ c :: pending s' → periodic s' = periodic (sched w) →
    step w (set_sched s' w).

(** A program starts without sockets: the statics of [TCPAsynch] have their initial
    values. *)
Definition initial (w : world) : Prop :=
  heap w = ∅ ∧ _TCPSockets w = 0%Z ∧ _tick_handle w = NULL ∧
  pending (sched w) = [] ∧ periodic (sched w) = ∅.

Inductive reachable : world → Prop :=
| reachable_init w : initial w → reachable w
| reachable_step w w' : reachable w → step w w' → reachable w'.

Lemma returning_run {A} (f : A → ret) (m : M world A) w a w' r :
  m w = Done (a, w') → r = f a → returning f m w = Done (r, w').
Proof. intros H ->. unfold returning. by rewrite (bind_run _ _ _ a w'). Qed.

Lemma returning_fault {A} (f : A → ret) (m : M world A) w e :
  m w = Fault e → returning f m w = Fault e.
Proof. apply bind_fault. Qed.

(** Run a list of calls, each of which type-checks and completes. *)
Fixpoint runs (cs : list call) (w : world) : option world :=
  match cs with
  | [] => Some w
  | c :: cs =>
    if well_typed c w
    then match exec c w with Done (_, w') => runs cs w' | Fault _ => None end
    else None
  end.

Lemma runs_reachable cs w w' : reachable w → runs cs w = Some w' → reachable w'.
Proof.
  revert w. induction cs as [|c cs IH]; simpl; intros w Hw; [by intros [= <-]|].
  destruct (well_typed c w) eqn:Ht; [|done]. destruct (exec c w) as [[r w1]|] eqn:He; [|done].
  apply IH. eapply reachable_step; [done|]. by eapply step_call.
Qed.
End System.
