(* ===== verification/DemoRuns.v ===== *)
(** * Runs of the concrete instances

    Worlds reached by calls from the empty program of [Demo], for the examples
    that instantiate the theorems. *)
From S2P Require Import Prelude Types Interfaces SocketAddr DemoInet World Demo Socket.
From S2P Require Import UDPSocket TCPAsynch TCPStream TCPListener Dispatch Shape System.
From stdpp Require Import base gmap list strings.
From Stdlib Require Import ZArith Lia.

#[export] Existing Instance inet_posix.

(** The world after the calls [cs]; [refuse] makes the stack refuse everything. *)
Definition demo_after (refuse : bool) (cs : list call) : world :=
  default (demo_world refuse) (runs cs (demo_world refuse)).

Lemma demo_initial refuse : initial (demo_world refuse).
Proof. done. Qed.

Lemma demo_reachable refuse cs : reachable (demo_after refuse cs).
Proof.
  unfold demo_after. destruct (runs cs (demo_world refuse)) as [w|] eqn:E; simpl.
  - eapply runs_reachable, E. by apply reachable_init, demo_initial.
  - by apply reachable_init, demo_initial.
Qed.

(** The first and the second object get the addresses 64 and 128. *)
Definition demo_first : ptr := 64.
Definition demo_second : ptr := 128.
