(* ===== verification/Lifetimes.v ===== *)
(** * Lifetimes of objects and the periodic task of the TCP classes

    Invariants of every reachable world: the static count is the number of live
    TCP objects and never overflows, and the scheduler has the stack's periodic
    task registered, under [_tick_handle], only while there are any.  The
    statics refine an abstract machine that keeps a set and a flag. *)
From S2P Require Import Prelude Types Interfaces SocketAddr DemoInet World Demo Socket UDPSocket TCPAsynch.
From S2P Require Import TCPStream TCPListener Dispatch Shape System DemoRuns.
From stdpp Require Import base gmap list strings.
From Stdlib Require Import ZArith Lia.

(** The classes derived from [TCPAsynch], and the classes a complete object has. *)
Definition is_tcp (c : cls) : Prop := c = CTCPStream ∨ c = CTCPListener.
#[export] Instance is_tcp_dec c : Decision (is_tcp c) := _.
Definition is_complete (c : cls) : Prop := c = CUDPSocket ∨ is_tcp c.

Definition tcp_live (sh : gmap Z cls) : gset Z := dom (mfilter is_tcp sh).

Section Lifetimes.
Context {SA : SAL} {MN : Minar} {RT : Runtime} {IN : Inet}.

(** One event in the life of an object: nothing, a birth or a death. *)
Inductive event (w w' : world) : Prop :=
| ev_quiet : quiet w w' → event w w'
| ev_new_udp p X :
    operator_new X = Some p → shape w !! p = None →
    retags p CUDPSocket w w' → event w w'
| ev_new_tcp p X c :
    operator_new X = Some p → shape w !! p = None → is_tcp c →
    ups p c w w' → event w w'
| ev_del_udp p :
    shape w !! p = Some CUDPSocket → shape w' = delete p (shape w) →
    ticks w' = ticks w → event w w'
| ev_del_tcp p c :
    shape w !! p = Some c → is_tcp c → shape w' = delete p (shape w) →
    tick_down (ticks w) (ticks w') → event w w'.

(** What holds of the shape and the statics of every reachable world. *)
Record tick_inv (w : world) : Prop := {
  inv_addr p c : shape w !! p = Some c → (0 < p < 2 ^ uintptr_width)%Z;
  inv_class p c : shape w !! p = Some c → is_complete c;
  inv_count : _TCPSockets w = Z.of_nat (size (tcp_live (shape w)));
  inv_tick :
    (_tick_handle w = NULL ∧ periodic (sched w) = ∅) ∨
    (_tick_handle w ≠ NULL ∧ tcp_live (shape w) ≠ ∅ ∧
     ∃ e, periodic (sched w) = {[_tick_handle w := e]})
}.

(** The abstract machine: the live TCP sockets, and whether their stack is driven. *)
Record tick_spec := mk_tick_spec { live : gset Z; ticking : bool }.

Inductive spec_step : tick_spec → tick_spec → Prop :=
| spec_skip s : spec_step s s
| spec_birth s p b :
    p ∉ live s → (live s ≠ ∅ → b = ticking s) →
    spec_step s (mk_tick_spec ({[p]} ∪ live s) b)
| spec_death s p :
    p ∈ live s →
    spec_step s (mk_tick_spec (live s ∖ {[p]})
                   (ticking s && negb (bool_decide (live s ∖ {[p]} = ∅)))).

Definition abstraction (w : world) : tick_spec :=
  mk_tick_spec (tcp_live (shape w)) (bool_decide (_tick_handle w ≠ NULL)).

(** ** Calls are made of births and deaths *)

Lemma shape_place w p raw : shape (set_heap (<[p := raw]> (heap w)) w) = <[p := vptr raw]> (shape w).
Proof. apply fmap_insert. Qed.

Lemma new_storage_shape raw w p w1 :
  new_storage raw w = Done (p, w1) →
  (∃ X, operator_new X = Some p) ∧ shape w !! p = None ∧
  shape w1 = <[p := vptr raw]> (shape w) ∧ ticks w1 = ticks w.
Proof.
  intros (H1 & H2 & ->)%new_storage_Done. split_and!; eauto.
  - unfold shape. by rewrite lookup_fmap, H2.
  - apply shape_place.
Qed.

Lemma new_then_retags raw w p w1 w2 c :
  new_storage raw w = Done (p, w1) → retags p c w1 w2 → retags p c w w2.
Proof.
  intros (_ & _ & Hs & Ht)%new_storage_shape [H1 H2].
  split; [by rewrite H1, Hs, insert_insert_eq | by rewrite H2].
Qed.

Lemma new_then_ups raw w p w1 w2 c :
  new_storage raw w = Done (p, w1) → ups p c w1 w2 → ups p c w w2.
Proof.
  intros (_ & _ & Hs & Ht)%new_storage_shape [H1 H2].
  split; [by rewrite H1, Hs, insert_insert_eq | by rewrite <- Ht].
Qed.

Lemma release_shape this w u w' :
  release this w = Done (u, w') → shape w' = delete this (shape w) ∧ ticks w' = ticks w.
Proof. intros [= _ <-]. split; [|done]. unfold shape; simpl. by rewrite fmap_delete. Qed.

Lemma new_udp_event raw (ctor : ptr → M world unit) w r w' :
  (∀ p, moves (retags p CUDPSocket) (ctor p)) →
  new_object raw ctor w = Done (r, w') → event w w'.
Proof.
  intros Hc H. apply bind_Done in H as (p & w1 & H1 & H).
  apply bind_Done in H as (? & w2 & H2%Hc & [_ ->]%ret_Done).
  destruct (new_storage_shape _ _ _ _ H1) as ([X HX] & Hp & _).
  eapply ev_new_udp; eauto using new_then_retags.
Qed.

Lemma new_tcp_event {A} raw (ctor : ptr → M world A) c w r w' :
  is_tcp c → (∀ p, moves (ups p c) (ctor p)) →
  new_object raw ctor w = Done (r, w') → event w w'.
Proof.
  intros Ht Hc H. apply bind_Done in H as (p & w1 & H1 & H).
  apply bind_Done in H as (? & w2 & H2%Hc & [_ ->]%ret_Done).
  destruct (new_storage_shape _ _ _ _ H1) as ([X HX] & Hp & _).
  eapply ev_new_tcp; eauto using new_then_ups.
Qed.

Context `{ML : !MinarLaws MN}.

Lemma delete_event this w u w' :
  (∀ p c, shape w !! p = Some c → is_complete c) →
  delete_object this w = Done (u, w') → event w w'.
Proof.
  intros Hcls H. unfold delete_object, get_obj in H.
  apply bind_Done in H as (o & w1 & H1 & H).
  destruct (heap w !! this) as [o'|] eqn:Ho; [|done]. injection H1 as -> <-.
  assert (shape w !! this = Some (vptr o)) as Hsh by (apply shape_lookup; eauto).
  apply bind_Done in H as (? & w2 & H2 & [H3 H4]%release_shape).
  destruct (Hcls _ _ Hsh) as [Hc|Ht].
  - rewrite Hc in *. apply retags_UDPSocket_dtor in H2 as [H5 H6].
    eapply ev_del_udp; [done| by rewrite H3, H5, delete_insert_eq | congruence].
  - assert (downs this CSocket w w2) as [H5 H6].
    { destruct Ht as [Ht|Ht]; rewrite Ht in H2;
        [by apply downs_TCPStream_dtor in H2 | by apply downs_TCPListener_dtor in H2]. }
    eapply ev_del_tcp; [done..| by rewrite H3, H5, delete_insert_eq | by rewrite H4].
Qed.

Lemma accept_events this i raw w p w' :
  accept this i raw w = Done (p, w') → ∃ w1, event w w1 ∧ event w1 w'.
Proof.
  intros H. apply bind_Done in H as (s & w0 & H0%(framed_get_socket quiet) & H).
  apply bind_Done in H as (q & w1 & H1 & H).
  apply bind_Done in H as (err & w2 & H2%ups_TCPStream_ctor_accept & H).
  destruct (new_storage_shape _ _ _ _ H1) as ([X HX] & Hp & _).
  pose proof (new_then_ups _ _ _ _ _ _ H1 H2) as [Hu1 Hu2].
  destruct H0 as [Hs0 Ht0]. rewrite Hs0 in *. rewrite Ht0 in *.
  exists w2. split; [by eapply (ev_new_tcp w w2 q X CTCPStream); [| |left|split]|].
  case_decide; [|apply ret_Done in H as [_ ->]; by apply ev_quiet].
  apply bind_Done in H as (? & w3 & [H5 H6]%downs_TCPStream_dtor & H).
  apply bind_Done in H as (? & w4 & [H7 H8]%release_shape & [_ ->]%ret_Done).
  apply (ev_del_tcp _ _ q CTCPStream).
  - by rewrite Hu1, lookup_insert_eq.
  - by left.
  - by rewrite H7, H5, delete_insert_eq.
  - by rewrite H8.
Qed.

(** A completed call is at most two events (a refused [accept] is a birth and a
    death; every other call is one event). *)
Lemma returning_Done {A} (f : A → ret) (m : M world A) w r w' :
  returning f m w = Done (r, w') → ∃ a, m w = Done (a, w') ∧ r = f a.
Proof. intros (a & w1 & H1 & [-> ->]%ret_Done)%bind_Done. eauto. Qed.

Lemma exec_events c w r w' :
  (∀ p k, shape w !! p = Some k → is_complete k) →
  exec c w = Done (r, w') → ∃ w1, event w w1 ∧ event w1 w'.
Proof.
  intros Hcls H.
  assert (event w' w') as Hid by by apply ev_quiet.
  destruct c; simpl in H;
    try (apply returning_Done in H as (x & H & ->);
         solve [ exists w'; split; [|done]; apply ev_quiet;
                 match type of H with ?m _ = _ =>
                   let Hq := fresh in
                   assert (moves quiet m) as Hq by eauto with moves typeclass_instances; eapply Hq, H end ]).
  - exists w'. split; [|done]. eapply new_udp_event; [intros p; apply retags_UDPSocket_ctor | done].
  - exists w'. split; [|done].
    eapply new_tcp_event; [by left | intros p; apply ups_TCPStream_init | done].
  - exists w'. split; [|done].
    eapply new_tcp_event; [by left | intros p; apply ups_TCPStream_ctor_sock | done].
  - exists w'. split; [|done].
    eapply new_tcp_event; [by left | intros p; apply ups_TCPStream_ctor_accept | done].
  - exists w'. split; [|done].
    eapply new_tcp_event; [by right | intros p; apply ups_TCPListener_ctor | done].
  - apply returning_Done in H as (x & H & ->). exists w'. eauto using delete_event.
  - apply returning_Done in H as (x & H & ->). eauto using accept_events.
Qed.

(** ** Events preserve the invariant and are steps of the abstract machine *)

Context `{RL : !RuntimeLaws RT}.

Lemma tcp_live_insert_tcp sh p c :
  sh !! p = None → is_tcp c → tcp_live (<[p := c]> sh) = {[p]} ∪ tcp_live sh.
Proof. apply mfilter_insert_new. Qed.

Lemma tcp_live_insert_udp sh p :
  sh !! p = None → tcp_live (<[p := CUDPSocket]> sh) = tcp_live sh.
Proof. intros H. apply mfilter_insert_out; [done|]. by intros [|]. Qed.

Lemma tcp_live_delete sh p : tcp_live (delete p sh) = tcp_live sh ∖ {[p]}.
Proof. apply mfilter_delete. Qed.

Lemma tcp_live_elem sh p : p ∈ tcp_live sh ↔ ∃ c, sh !! p = Some c ∧ is_tcp c.
Proof.
  unfold tcp_live. rewrite elem_of_dom. unfold is_Some.
  split; intros [c Hc]; exists c; by apply (mfilter_lookup is_tcp).
Qed.

Lemma tick_inv_bound w : tick_inv w → (Z.of_nat (size (tcp_live (shape w))) < 2 ^ uintptr_width)%Z.
Proof.
  intros Hi. pose proof width_pos. apply size_addresses_lt; [by apply Z.pow_pos_nonneg; lia|].
  intros p (c & Hc & _)%tcp_live_elem. eapply inv_addr; eauto.
Qed.

Lemma ticks_eq w w' : ticks w' = ticks w →
  _TCPSockets w' = _TCPSockets w ∧ _tick_handle w' = _tick_handle w ∧
  periodic (sched w') = periodic (sched w).
Proof. unfold ticks. intros [= -> -> ->]. done. Qed.

Lemma inv_same w w' :
  tick_inv w → tcp_live (shape w') = tcp_live (shape w) → ticks w' = ticks w →
  (∀ p c, shape w' !! p = Some c → (0 < p < 2 ^ uintptr_width)%Z ∧ is_complete c) →
  tick_inv w'.
Proof.
  intros Hi Hl (Hn & Hh & Hp)%ticks_eq Hc. split.
  - intros p c H. by apply (Hc p c).
  - intros p c H. by apply (Hc p c).
  - rewrite Hn, Hl. apply Hi.
  - rewrite Hh, Hp, Hl. apply Hi.
Qed.

Lemma insert_complete w p X c :
  tick_inv w → operator_new X = Some p → is_complete c →
  ∀ q k, <[p := c]> (shape w) !! q = Some k → (0 < q < 2 ^ uintptr_width)%Z ∧ is_complete k.
Proof.
  intros Hi HX Hc q k [[<- <-]|[_ H]]%lookup_insert_Some.
  - split; [by eapply new_range | done].
  - split; [by eapply inv_addr | by eapply inv_class].
Qed.

Lemma delete_complete w p :
  tick_inv w →
  ∀ q k, delete p (shape w) !! q = Some k → (0 < q < 2 ^ uintptr_width)%Z ∧ is_complete k.
Proof. intros Hi q k [_ H]%lookup_delete_Some. split; [by eapply inv_addr | by eapply inv_class]. Qed.

Lemma birth_inv w w' p X c :
  tick_inv w → operator_new X = Some p → shape w !! p = None → is_tcp c → ups p c w w' →
  tick_inv w'.
Proof.
  intros Hi HX Hp Hc [Hs Ht].
  assert (∀ q k, shape w' !! q = Some k → (0 < q < 2 ^ uintptr_width)%Z ∧ is_complete k) as Hok.
  { rewrite Hs. eapply insert_complete; eauto. by right. }
  assert (tcp_live (shape w') = {[p]} ∪ tcp_live (shape w)) as Hl.
  { rewrite Hs. by apply tcp_live_insert_tcp. }
  assert (p ∉ tcp_live (shape w)) as Hnp.
  { rewrite tcp_live_elem. intros (k & Hk & _). congruence. }
  assert (Z.of_nat (size (tcp_live (shape w'))) < 2 ^ uintptr_width)%Z as Hb.
  { pose proof width_pos. apply size_addresses_lt; [by apply Z.pow_pos_nonneg; lia|].
    intros q (k & Hk & _)%tcp_live_elem. by eapply Hok. }
  assert (size (tcp_live (shape w')) = S (size (tcp_live (shape w)))) as Hsz.
  { rewrite Hl, size_union, size_singleton by set_solver. done. }
  destruct Ht as [Hn Hd]. split.
  - intros q k Hq. by eapply Hok.
  - intros q k Hq. by eapply Hok.
  - rewrite Hn, (inv_count _ Hi), wrap_small; lia.
  - destruct Hd as [[-> ->]|(Hz & Hh & Hf & e & ->)].
    + destruct (inv_tick _ Hi) as [H|(H1 & H2 & H3)]; [by left|right].
      split_and!; [done| rewrite Hl; set_solver | done].
    + right. split_and!; [done | rewrite Hl; set_solver |].
      destruct (inv_tick _ Hi) as [[_ ->]|(_ & H2 & _)]; [by exists e|].
      exfalso. apply H2. rewrite (inv_count _ Hi) in Hz.
      apply leibniz_equiv, size_empty_inv. lia.
Qed.

Lemma death_inv w w' p c :
  tick_inv w → shape w !! p = Some c → is_tcp c → shape w' = delete p (shape w) →
  tick_down (ticks w) (ticks w') → tick_inv w'.
Proof.
  intros Hi Hp Hc Hs [Hn Hd].
  assert (tcp_live (shape w') = tcp_live (shape w) ∖ {[p]}) as Hl by by rewrite Hs, tcp_live_delete.
  assert (p ∈ tcp_live (shape w)) as Hin by (apply tcp_live_elem; eauto).
  assert (size (tcp_live (shape w)) = S (size (tcp_live (shape w')))) as Hsz.
  { rewrite Hl, (union_difference_L {[p]} (tcp_live (shape w))) at 1 by set_solver.
    rewrite size_union, size_singleton by set_solver. done. }
  pose proof (tick_inv_bound _ Hi) as Hb.
  assert (_TCPSockets w' = Z.of_nat (size (tcp_live (shape w')))) as Hn'.
  { rewrite Hn, (inv_count _ Hi), wrap_small; lia. }
  pose proof (delete_complete w p Hi) as Hok. rewrite <- Hs in Hok. split.
  - intros q k Hq. by eapply Hok.
  - intros q k Hq. by eapply Hok.
  - done.
  - revert Hd. case_decide as Hz.
    + intros [-> ->]. left. split; [done|].
      destruct (inv_tick _ Hi) as [[_ ->]|(_ & _ & e & ->)]; [apply delete_empty|].
      apply delete_singleton_eq.
    + intros [-> ->]. destruct (inv_tick _ Hi) as [H|(H1 & H2 & H3)]; [by left|right].
      split_and!; [done| |done]. intros He. apply Hz. split; [|done].
      by rewrite Hn', He, size_empty.
Qed.

Lemma event_inv w w' : tick_inv w → event w w' → tick_inv w'.
Proof.
  intros Hi [[Hs Ht]|p X HX Hp [Hs Ht]|p X c HX Hp Hc Hu|p Hp Hs Ht|p c Hp Hc Hs Ht].
  - apply (inv_same w); [done | by rewrite Hs | done |]. rewrite Hs.
    intros q k Hq. split; [by eapply inv_addr | by eapply inv_class].
  - apply (inv_same w); [done | | done |]; rewrite Hs.
    + by apply tcp_live_insert_udp.
    + eapply insert_complete; eauto. by left.
  - by eapply birth_inv.
  - apply (inv_same w); [done | | done |]; rewrite Hs.
    + rewrite tcp_live_delete. enough (p ∉ tcp_live (shape w)) by set_solver.
      rewrite tcp_live_elem. intros (k & Hk & [Ht'|Ht']); congruence.
    + by apply delete_complete.
  - by eapply death_inv.
Qed.

Lemma step_events w w' :
  tick_inv w → step w w' → ∃ w1, event w w1 ∧ event w1 w'.
Proof.
  intros Hi Hs. destruct Hs as [c r w w' _ H | this ev w w' _ H | S' w | c s' w _ Hp].
  - eapply exec_events; [|done]. intros p k Hk. by eapply inv_class.
  - exists w'. split; [|by apply ev_quiet]. apply ev_quiet.
    assert (moves quiet (interrupt this ev)) as Hq by (unfold interrupt; solve_moves).
    eapply Hq, H.
  - exists w. split; by apply ev_quiet.
  - exists w. split; apply ev_quiet; [done|]. split; [done|]. unfold ticks; simpl. by rewrite Hp.
Qed.

Lemma initial_inv w : initial w → tick_inv w.
Proof.
  intros (Hh & Hn & Ht & _ & Hp). unfold initial, shape in *.
  split; unfold shape; rewrite Hh, fmap_empty; [done..| |by left].
  rewrite Hn. by vm_compute.
Qed.

Lemma reachable_inv w : reachable w → tick_inv w.
Proof.
  induction 1 as [w Hw|w w' _ IH Hs]; [by apply initial_inv|].
  destruct (step_events w w' IH Hs) as (w1 & H1 & H2). eauto using event_inv.
Qed.

Lemma exec_inv c w r w' : tick_inv w → exec c w = Done (r, w') → tick_inv w'.
Proof.
  intros Hi H. destruct (exec_events c w r w') as (w1 & H1 & H2); eauto using event_inv, inv_class.
Qed.

Lemma bool_tick_up t t' :
  tick_up t t' → t.1.1 ≠ 0%Z → t'.1.2 = t.1.2.
Proof. destruct t as [[n h] P], t' as [[n' h'] P']. simpl. intros [_ [[-> _]|[? _]]]; done. Qed.

Lemma event_spec w w' : tick_inv w → event w w' → spec_step (abstraction w) (abstraction w').
Proof.
  intros Hi He. pose proof (event_inv _ _ Hi He) as Hi'.
  destruct He as [[Hs Ht]|p X HX Hp [Hs Ht]|p X c HX Hp Hc [Hs Hu]|p Hp Hs Ht|p c Hp Hc Hs Hd];
    unfold abstraction.
  - apply ticks_eq in Ht as (_ & -> & _). rewrite Hs. constructor.
  - apply ticks_eq in Ht as (_ & -> & _). rewrite Hs, tcp_live_insert_udp by done. constructor.
  - rewrite Hs, tcp_live_insert_tcp by done. apply spec_birth; simpl.
    + rewrite tcp_live_elem. intros (k & Hk & _). congruence.
    + intros Hne. apply bool_tick_up in Hu; simpl in Hu; [by rewrite Hu|].
      simpl. rewrite (inv_count _ Hi). intros Hz. apply Hne, leibniz_equiv, size_empty_inv. lia.
  - apply ticks_eq in Ht as (_ & -> & _).
    assert (tcp_live (shape w') = tcp_live (shape w)) as ->; [|constructor].
    rewrite Hs, tcp_live_delete. enough (p ∉ tcp_live (shape w)) by set_solver.
    rewrite tcp_live_elem. intros (k & Hk & [Ht|Ht]); congruence.
  - assert (bool_decide (_tick_handle w' ≠ NULL) =
      bool_decide (_tick_handle w ≠ NULL) && negb (bool_decide (tcp_live (shape w') = ∅))) as ->.
    { destruct Hd as [_ Hd]. pose proof (inv_count _ Hi') as Hn.
      destruct (decide (tcp_live (shape w') = ∅)) as [He|He].
      - rewrite (bool_decide_true (tcp_live _ = ∅)), andb_false_r by done.
        apply bool_decide_false. rewrite He, size_empty in Hn. intros Hc'.
        case_decide as Hz; destruct Hd as [Hd _]; [done|]. apply Hz. by rewrite <- Hd.
      - rewrite (bool_decide_false (tcp_live _ = ∅)), andb_true_r by done.
        case_decide as Hz; destruct Hd as [Hd _]; [|by rewrite Hd].
        exfalso. apply He, leibniz_equiv, size_empty_inv. lia. }
    rewrite Hs, tcp_live_delete. apply (spec_death (mk_tick_spec _ _)). simpl.
    apply tcp_live_elem. eauto.
Qed.

(** C6: in every reachable world the static [_TCPSockets] is exactly the number of live
    TCP objects, and that number is below the range of [uintptr_t], so the counter has
    never wrapped, as the comment on its declaration argues. *)
Theorem tcp_count_exact w :
  reachable w →
  _TCPSockets w = Z.of_nat (size (tcp_live (shape w))) ∧
  (0 ≤ _TCPSockets w < 2 ^ uintptr_width)%Z.
Proof.
  intros Hi%reachable_inv. pose proof (tick_inv_bound _ Hi). rewrite (inv_count _ Hi). lia.
Qed.

(** C7: in every reachable world the scheduler holds at most one periodic task of the
    stack; it is registered under [_tick_handle], and only while a TCP object is alive:
    the destructor of the last one has cancelled it and cleared the handle. *)
Theorem tick_registered w :
  reachable w →
  (_tick_handle w = NULL ∧ periodic (sched w) = ∅) ∨
  (_tick_handle w ≠ NULL ∧ tcp_live (shape w) ≠ ∅ ∧
   ∃ e, periodic (sched w) = {[_tick_handle w := e]}).
Proof. intros Hi%reachable_inv. apply Hi. Qed.


Lemma tick_up_down w t1 t2 :
  tick_inv w → tick_up (ticks w) t1 → tick_down t1 t2 → t2 = ticks w.
Proof.
  intros Hi. pose proof (tick_inv_bound _ Hi) as Hb.
  assert (_TCPSockets w = 0%Z → _tick_handle w = NULL) as Hz.
  { intros Hn. destruct (inv_tick _ Hi) as [[? _]|(_ & Hne & _)]; [done|].
    exfalso. apply Hne, leibniz_equiv, size_empty_inv. rewrite (inv_count _ Hi) in Hn. lia. }
  pose proof (inv_count _ Hi) as Hc. unfold ticks, tick_up, tick_down.
  destruct t1 as [[n1 h1] P1], t2 as [[n2 h2] P2]. intros [-> Hu] [-> Hd].
  assert (wrap uintptr_width (wrap uintptr_width (_TCPSockets w + 1) - 1) = _TCPSockets w) as Hw.
  { rewrite wrap_sub_l, wrap_small; lia. }
  rewrite Hw in *. revert Hd. case_decide as Hcd; intros [-> ->].
  - destruct Hcd as [Hn Hh]. destruct Hu as [[-> ->]|(_ & _ & Hf & e & ->)].
    + by rewrite Hz in Hh.
    + by rewrite (Hz Hn), delete_insert_eq, delete_id.
  - destruct Hu as [[-> ->]|(Hn & Hh & _)]; [done|]. by destruct Hcd.
Qed.

(** C32: constructing a TCP stream and destroying it again restores the classes of all
    objects, the counter, the tick handle and the periodic tasks, whatever they were. *)
Theorem new_delete_stream (w w1 w2 : world) raw st p (u : ret) :
  reachable w →
  exec (NewTCPStream raw st) w = Done (RPtr p, w1) →
  exec (DeleteObject p) w1 = Done (u, w2) →
  shape w2 = shape w ∧ ticks w2 = ticks w.
Proof.
  intros Hi%reachable_inv H1 H2. simpl in H1, H2.
  apply bind_Done in H1 as (q & w0 & H0 & H1).
  apply bind_Done in H1 as (? & w1' & Hc%ups_TCPStream_init & [[= ->] ->]%ret_Done).
  pose proof (new_storage_shape _ _ _ _ H0) as (_ & Hnone & _ & _).
  pose proof (new_then_ups _ _ _ _ _ _ H0 Hc) as [Hs Hu].
  apply returning_Done in H2 as (? & H2 & ->).
  apply bind_Done in H2 as (o & w3 & Ho & H2). unfold get_obj in Ho.
  destruct (heap w1' !! q) as [o'|] eqn:Eo; [|done]. injection Ho as -> <-.
  assert (vptr o = CTCPStream) as Hv.
  { assert (shape w1' !! q = Some (vptr o)) as Hl by (apply shape_lookup; eauto).
    rewrite Hs, lookup_insert_eq in Hl. congruence. }
  rewrite Hv in H2. apply bind_Done in H2 as (? & w4 & [D1 D2]%downs_TCPStream_dtor & H2).
  apply release_shape in H2 as [R1 R2]. split.
  - by rewrite R1, D1, Hs, insert_insert_eq, delete_insert_id.
  - rewrite R2. by eapply tick_up_down.
Qed.

End Lifetimes.

(** ** The theorems at concrete worlds *)

Lemma tcp_count_exact_witness :
  let w := demo_after false [NewTCPStream raw_object 1; NewTCPListener raw_object 1] in
  reachable w ∧ _TCPSockets w = Z.of_nat (size (tcp_live (shape w))) ∧ _TCPSockets w = 2%Z.
Proof.
  intros w. pose proof (demo_reachable false _ : reachable w) as Hr.
  split; [exact Hr|]. split; [exact (proj1 (tcp_count_exact w Hr)) | run_refl].
Defined.

Lemma tick_registered_witness :
  let w := demo_after false [NewTCPStream raw_object 1; NewTCPListener raw_object 1;
                             DeleteObject demo_first] in
  reachable w ∧ _tick_handle w = 1%Z ∧ tcp_live (shape w) ≠ ∅ ∧
  ∃ e, periodic (sched w) = {[_tick_handle w := e]}.
Proof.
  intros w. pose proof (demo_reachable false _ : reachable w) as Hr.
  split; [exact Hr|]. split; [run_refl|].
  destruct (tick_registered w Hr) as [[H _]|[_ H]]; [vm_compute in H; discriminate | exact H].
Defined.


Lemma new_delete_stream_witness :
  let w := demo_after false [NewUDPSocket raw_object 1] in
  let w1 := after (exec (NewTCPStream raw_object 1)) w in
  let w2 := after (exec (DeleteObject demo_second)) w1 in
  (shape w2 = shape w ∧ ticks w2 = ticks w) ∧ _tick_handle w1 ≠ NULL.
Proof.
  intros w w1 w2. split; [|vm_compute; discriminate].
  apply (new_delete_stream w w1 w2 raw_object 1 demo_second RUnit);
    [apply demo_reachable
    | run_after (exec (NewTCPStream raw_object 1)) w
    | run_after (exec (DeleteObject demo_second)) w1].
Defined.

