(* ===== verification/Guards.v ===== *)
(** * Refusals: calls on sockets that are not open or have no stack

    The headers document what each method returns before the socket is opened and
    when there is no network stack.  The two tables below are those results; the
    theorems say that the methods return them and change nothing, and list the
    calls that have no such guard. *)
From S2P Require Import Prelude Types Interfaces SocketAddr DemoInet World Demo Socket.
From S2P Require Import UDPSocket TCPAsynch TCPStream TCPListener Dispatch Shape System DemoRuns.
From stdpp Require Import base gmap list strings.
From Stdlib Require Import ZArith Lia.

(** What a call returns on a socket whose [impl] is NULL, by the documentation of
    [Socket]: [SOCKET_ERROR_NULL_PTR] "if the socket has not been opened". *)
Definition unopened_result (c : call) : option ret :=
  match c with
  | Resolve _ _ _ | BindStr _ _ _ _ | Close _ | Send _ _ _ | SendTo _ _ _ _ _ =>
    Some (RErr SOCKET_ERROR_NULL_PTR)
  | Recv _ buf len => Some (RRecv SOCKET_ERROR_NULL_PTR buf len)
  | RecvFrom _ buf len addr port _ => Some (RRecvFrom SOCKET_ERROR_NULL_PTR buf len addr port)
  | IsConnected _ => Some (RBool false)
  | GetLocalAddr _ addr | GetRemoteAddr _ addr => Some (RAddr SOCKET_ERROR_NULL_PTR addr)
  | GetLocalPort _ port | GetRemotePort _ port => Some (RPort SOCKET_ERROR_NULL_PTR port)
  | _ => None
  end.

(** What a call returns on a socket whose stack has no api. *)
Definition no_stack_result (c : call) : option ret :=
  match c with
  | UdpOpen _ _ | TcpOpen _ _ | UdpConnect _ _ _ | TcpConnect _ _ _ _
  | StartListening _ _ _ | StopListening _ => Some (RErr SOCKET_ERROR_BAD_STACK)
  | _ => None
  end.

(** Calls with a NULL address argument that the method tests itself. *)
Definition null_address_result (c : call) : option ret :=
  match c with
  | Bind _ None _ | SendTo _ _ _ None _ => Some (RErr SOCKET_ERROR_NULL_PTR)
  | RecvFrom _ buf len None port _ => Some (RRecvFrom SOCKET_ERROR_NULL_PTR buf len None port)
  | GetLocalAddr _ None | GetRemoteAddr _ None => Some (RAddr SOCKET_ERROR_NULL_PTR None)
  | _ => None
  end.

Section Guards.
Context {SA : SAL} {MN : Minar} {RT : Runtime} {IN : Inet}.

(** The object a call is made on. *)
Definition on_object (c : call) (o : object) (w : world) : Prop :=
  ∃ p cs, receiver c = Some (p, cs) ∧ heap w !! p = Some o.

(** C13: on a socket that has not been opened, every method that the documentation
    says refuses with [SOCKET_ERROR_NULL_PTR] does so (and [isConnected] is false), and
    the call has no effect at all: not on the objects, the stack, the scheduler, nor on
    the buffers passed. *)
Theorem unopened_refused c o r (w : world) :
  on_object c o w → sk_impl (sock_of o) = NULL → unopened_result c = Some r →
  exec c w = Done (r, w).
Proof.
  intros (p & cs & Hp & Ho) Hi Hr.
  destruct c; simplify_eq/=; (eapply returning_run;
    [ unfold resolve, bind_str, close, recv, recv_from, send, send_to, isConnected,
        getLocalAddr, getRemoteAddr, getLocalPort, getRemotePort;
      rewrite (get_socket_bind _ o), Hi by done; reflexivity
    | reflexivity ]).
Qed.

(** C33: on a socket whose network stack is not registered, [open], [connect],
    [start_listening] and [stop_listening] return [SOCKET_ERROR_BAD_STACK] without any
    effect; in particular no handler is replaced. *)
Theorem no_stack_refused c o r (w : world) :
  on_object c o w → sk_api (sock_of o) = NULL → no_stack_result c = Some r →
  exec c w = Done (r, w).
Proof.
  intros (p & cs & Hp & Ho) Hi Hr.
  destruct c; simplify_eq/=; (eapply returning_run;
    [ unfold UDPSocket_open, TCPAsynch_open, Socket_open, UDPSocket_connect, TCPStream_connect,
        start_listening, stop_listening;
      rewrite (get_socket_bind _ o), Hi by done; reflexivity
    | reflexivity ]).
Qed.

(** The methods that take the address of a [SocketAddr] and test it refuse NULL with
    [SOCKET_ERROR_NULL_PTR] and without effect, whether or not the socket is open. *)
Lemma null_address_refused c o r (w : world) :
  on_object c o w → null_address_result c = Some r → exec c w = Done (r, w).
Proof.
  intros (p & cs & Hp & Ho) Hr.
  destruct c; simplify_eq/=; repeat case_match; simplify_eq/=; (eapply returning_run;
    [ unfold bind, recv_from, send_to, getLocalAddr, getRemoteAddr;
      try rewrite (get_socket_bind _ o) by done; try case_decide; reflexivity
    | reflexivity ]).
Qed.

(** C14: [bind] with a [SocketAddr] on a socket that has not been opened means to open it
    first, but its virtual call of [open] reaches the private override of the derived
    class: for every class that can be instantiated it returns
    [SOCKET_ERROR_UNIMPLEMENTED] and neither opens nor binds anything. *)
Theorem bind_unopened_unimplemented p o a port (w : world) :
  heap w !! p = Some o → sk_impl (sock_of o) = NULL → vptr o ≠ CSocket →
  exec (Bind p (Some a) port) w = Done (RErr SOCKET_ERROR_UNIMPLEMENTED, w).
Proof.
  intros Ho Hi Hv. eapply returning_run; [|reflexivity].
  unfold bind. rewrite (get_socket_bind _ o) by done. rewrite decide_True by done.
  rewrite (bind_run _ _ _ SOCKET_ERROR_UNIMPLEMENTED w); [done|]. simpl.
  rewrite (get_obj_bind _ o) by done. by destruct (vptr o).
Qed.

(** C40: three methods lack the guards of their neighbours: [UDPSocket::connect] with a
    NULL address dereferences it, where the documentation promises an error code, and on a
    socket whose stack is not registered [setNagle] and [reject] dereference the NULL api. *)
Theorem unguarded_faults p o (w : world) :
  heap w !! p = Some o →
  (sk_api (sock_of o) ≠ NULL →
     ∀ port, exec (UdpConnect p None port) w = Fault NullDereference) ∧
  (sk_api (sock_of o) = NULL →
     (∀ b, exec (SetNagle p b) w = Fault NullDereference) ∧
     (∀ i raw, exec (Reject p i raw) w = Fault NullDereference)).
Proof.
  intros Ho. split.
  - intros Ha port. apply returning_fault. unfold UDPSocket_connect.
    rewrite (get_socket_bind _ o) by done. by rewrite decide_False.
  - intros Ha. split.
    + intros b. apply returning_fault, bind_fault. by eapply call_api_null.
    + intros i raw. apply returning_fault. unfold reject.
      rewrite (get_socket_bind _ o) by done. simpl. apply bind_fault. unfold load_api.
      by rewrite decide_True.
Qed.
End Guards.

(** ** The theorems at concrete worlds *)

Definition demo_udp : world := demo_after false [NewUDPSocket raw_object 1].
Definition demo_udp_no_stack : world := demo_after false [NewUDPSocket raw_object 2].
Definition demo_stream : world := demo_after false [NewTCPStream raw_object 1].
Definition demo_stream_no_stack : world := demo_after false [NewTCPStream raw_object 2].

(** The object at the first address of a world. *)
Definition first_object (w : world) : object := default raw_object (heap w !! demo_first).

Lemma unopened_refused_witness :
  exec (Recv demo_first (Some [1; 2]%Z) (Some 2%Z)) demo_udp =
    Done (RRecv SOCKET_ERROR_NULL_PTR (Some [1; 2]%Z) (Some 2%Z), demo_udp).
Proof.
  apply (unopened_refused (Recv demo_first (Some [1; 2]%Z) (Some 2%Z)) (first_object demo_udp)).
  - exists demo_first, [CTCPStream; CTCPListener; CUDPSocket]. split; run_refl.
  - run_refl.
  - run_refl.
Defined.

Lemma no_stack_refused_witness :
  exec (UdpOpen demo_first SOCKET_AF_INET4) demo_udp_no_stack =
    Done (RErr SOCKET_ERROR_BAD_STACK, demo_udp_no_stack).
Proof.
  apply (no_stack_refused (UdpOpen demo_first SOCKET_AF_INET4) (first_object demo_udp_no_stack)).
  - exists demo_first, [CUDPSocket]. split; run_refl.
  - run_refl.
  - run_refl.
Defined.

Lemma null_address_refused_witness :
  exec (Bind demo_first None 80) demo_stream =
    Done (RErr SOCKET_ERROR_NULL_PTR, demo_stream).
Proof.
  apply (null_address_refused (Bind demo_first None 80) (first_object demo_stream)).
  - exists demo_first, [CTCPStream; CTCPListener; CUDPSocket]. split; run_refl.
  - run_refl.
Defined.

Lemma bind_unopened_unimplemented_witness :
  exec (Bind demo_first (Some zero_addr) 80) demo_stream =
    Done (RErr SOCKET_ERROR_UNIMPLEMENTED, demo_stream).
Proof.
  apply (bind_unopened_unimplemented demo_first (first_object demo_stream)).
  - run_refl.
  - run_refl.
  - vm_compute. discriminate.
Defined.

Lemma unguarded_faults_witness :
  exec (UdpConnect demo_first None 80) demo_udp = Fault NullDereference ∧
  exec (SetNagle demo_first true) demo_stream_no_stack = Fault NullDereference.
Proof.
  split.
  - apply (unguarded_faults demo_first (first_object demo_udp)); [run_refl | vm_compute; discriminate].
  - apply (unguarded_faults demo_first (first_object demo_stream_no_stack)); run_refl.
Defined.
