(* ===== verification/Events.v ===== *)
(** * Delivery of events

    What an interrupt does on an object, by the class its table pointer names: which callback is posted,
    bound to which handler.  [delivery] is the specification, a table; the theorems
    say that the interrupt path ([_nvEventHandler], the virtual dispatch and the
    handlers of the classes) implements it and does nothing else. *)
From S2P Require Import Prelude Types Interfaces SocketAddr DemoInet World Demo Socket.
From S2P Require Import UDPSocket TCPAsynch TCPStream TCPListener Dispatch Shape System DemoRuns.
From stdpp Require Import base gmap list strings.
From Stdlib Require Import ZArith Lia.

(** A well-formed event has the member of its union active that its type calls for. *)
Definition event_wf (ev : socket_event) : bool :=
  match ev_event ev, ev_i ev with
  | (SOCKET_EVENT_ERROR | SOCKET_EVENT_RX_ERROR | SOCKET_EVENT_TX_ERROR), info_e _ => true
  | (SOCKET_EVENT_ERROR | SOCKET_EVENT_RX_ERROR | SOCKET_EVENT_TX_ERROR), _ => false
  | SOCKET_EVENT_TX_DONE, info_t _ => true
  | SOCKET_EVENT_TX_DONE, _ => false
  | SOCKET_EVENT_DNS, info_d _ _ => true
  | SOCKET_EVENT_DNS, _ => false
  | SOCKET_EVENT_ACCEPT, info_a _ => true
  | SOCKET_EVENT_ACCEPT, _ => false
  | _, _ => true
  end.

(** The kinds of notification an event can be for the user. *)
Inductive notice :=
| NError (e : socket_error_t)
| NReadable
| NSent (n : Z)
| NDNS (addr : socket_addr) (domain : cstring)
| NConnect
| NDisconnect
| NIncoming (impl : ptr).

(** What an event means to an object of class [c]: nothing, or a notice. *)
Definition meaning (c : cls) (ev : socket_event) : option notice :=
  match ev_event ev, ev_i ev with
  | (SOCKET_EVENT_ERROR | SOCKET_EVENT_RX_ERROR | SOCKET_EVENT_TX_ERROR), info_e e => Some (NError e)
  | SOCKET_EVENT_DNS, info_d a n => Some (NDNS a n)
  | SOCKET_EVENT_RX_DONE, _ =>
    Some (if decide (c = CTCPListener) then NError SOCKET_ERROR_UNIMPLEMENTED else NReadable)
  | SOCKET_EVENT_TX_DONE, info_t n =>
    Some (if decide (c = CTCPListener) then NError SOCKET_ERROR_UNIMPLEMENTED else NSent (u16 n))
  | SOCKET_EVENT_CONNECT, _ =>
    if decide (c = CTCPListener) then Some (NError SOCKET_ERROR_UNIMPLEMENTED)
    else if decide (c = CTCPStream) then Some NConnect else None
  | SOCKET_EVENT_DISCONNECT, _ =>
    if decide (c = CTCPListener) then Some (NError SOCKET_ERROR_UNIMPLEMENTED)
    else if decide (c = CTCPStream) then Some NDisconnect else None
  | SOCKET_EVENT_ACCEPT, info_a p => if decide (c = CTCPListener) then Some (NIncoming p) else None
  | _, _ => None
  end.

(** The handler of an object for a notice, and the callback that delivers it. *)
Definition handler_for (o : object) (n : notice) : FunctionPointer :=
  match n with
  | NError _ => _onError (o_Socket o)
  | NReadable => _onReadable (o_Socket o)
  | NSent _ => _onSent (o_Socket o)
  | NDNS _ _ => _onDNS (o_Socket o)
  | NConnect => _onConnect (o_TCPStream o)
  | NDisconnect => _onDisconnect (o_TCPStream o)
  | NIncoming _ => _onIncoming (o_TCPListener o)
  end.
Definition callback_for (o : object) (this : ptr) (n : notice) : callback :=
  match n with
  | NError e => CbError (handler_for o n) this e
  | NReadable => CbReadable (handler_for o n) this
  | NSent k => CbSent (handler_for o n) this k
  | NDNS a d => CbDNS (handler_for o n) this a d
  | NConnect => CbConnect (handler_for o n) this
  | NDisconnect => CbDisconnect (handler_for o n) this
  | NIncoming p => CbIncoming (handler_for o n) this p
  end.

(** The specification: the callback an event on an object must post, if any.  An event
    without a handler is dropped. *)
Definition delivery (o : object) (this : ptr) (ev : socket_event) : option callback :=
  match meaning (vptr o) ev with
  | Some n => if is_set (handler_for o n) then Some (callback_for o this n) else None
  | None => None
  end.

Section Events.
Context {SA : SAL} {MN : Minar} {RT : Runtime} {IN : Inet}.

(** The scheduler after an optional callback is posted. *)
Definition posted (c : option callback) (w : world) : world :=
  match c with Some c => set_sched (postCallback c (sched w)) w | None => w end.

(** The members an interrupt writes: the event in the struct, and [_event], cleared. *)
Definition after_event (ev : socket_event) (o : object) : object :=
  on_Socket (λ s, set_event None (on_socket (set_sk_event (Some ev)) s)) o.

Lemma Socket_eventHandler_posts this o ev (w : world) :
  heap w !! this = Some o → event_wf ev = true → vptr o ≠ CTCPStream → vptr o ≠ CTCPListener →
  Socket_eventHandler this ev w = Done (tt, posted (delivery o this ev) w).
Proof.
  intros Ho Hw H1 H2. unfold Socket_eventHandler. rewrite (get_obj_bind _ o) by done.
  unfold delivery, meaning. destruct ev as [[] []]; try done; simpl;
    rewrite ?decide_False by done; simpl; try done; by destruct (is_set _).
Qed.

Lemma TCPStream_eventHandler_posts this o ev (w : world) :
  heap w !! this = Some o → event_wf ev = true → vptr o = CTCPStream →
  TCPStream_eventHandler this ev w = Done (tt, posted (delivery o this ev) w).
Proof.
  intros Ho Hw Hv. unfold TCPStream_eventHandler. rewrite (get_obj_bind _ o) by done.
  unfold delivery, meaning, Socket_eventHandler. rewrite Hv.
  destruct ev as [[] []]; try done; simpl; try rewrite (get_obj_bind _ o) by done; simpl;
    try done; by destruct (is_set _).
Qed.

Lemma TCPListener_eventHandler_posts this o ev (w : world) :
  heap w !! this = Some o → event_wf ev = true → vptr o = CTCPListener →
  TCPListener_eventHandler this ev w = Done (tt, posted (delivery o this ev) w).
Proof.
  intros Ho Hw Hv. unfold TCPListener_eventHandler. rewrite (get_obj_bind _ o) by done.
  unfold delivery, meaning. rewrite Hv. destruct ev as [[] []]; try done; simpl;
    by destruct (is_set _).
Qed.

(** The virtual call reaches the handler of the object's class. *)
Lemma v_eventHandler_posts this o ev (w : world) :
  heap w !! this = Some o → event_wf ev = true →
  v_eventHandler this ev w = Done (tt, posted (delivery o this ev) w).
Proof.
  intros Ho Hw. simpl. rewrite (get_obj_bind _ o) by done.
  destruct (vptr o) eqn:Hv; simpl;
    eauto using TCPStream_eventHandler_posts, TCPListener_eventHandler_posts;
    apply Socket_eventHandler_posts; by rewrite ?Hv.
Qed.

Lemma posted_heap c (w : world) : heap (posted c w) = heap w.
Proof. by destruct c. Qed.

Lemma posted_set_heap c h (w : world) : posted c (set_heap h w) = set_heap h (posted c w).
Proof. by destruct c. Qed.

Lemma delivery_event o this ev f :
  (∀ s, _onDNS (f s) = _onDNS s ∧ _onError (f s) = _onError s ∧
        _onReadable (f s) = _onReadable s ∧ _onSent (f s) = _onSent s) →
  delivery (on_Socket f o) this ev = delivery o this ev.
Proof.
  intros Hf. unfold delivery. change (vptr (on_Socket f o)) with (vptr o).
  destruct (Hf (o_Socket o)) as (H1 & H2 & H3 & H4).
  destruct (meaning (vptr o) ev) as [[]|]; simpl; by rewrite ?H1, ?H2, ?H3, ?H4.
Qed.

(** An interrupt, run to its end. *)
Lemma interrupt_run this o ev (w : world) :
  heap w !! this = Some o → event_wf ev = true →
  interrupt this ev w =
    Done (tt, posted (delivery o this ev)
                (set_heap (<[this := after_event ev o]> (heap w)) w)).
Proof.
  intros Ho Hw. unfold interrupt. rewrite (upd_obj_bind _ o) by done.
  set (o1 := on_Socket (on_socket (set_sk_event (Some ev))) o).
  unfold nvEventHandler. rewrite (get_socket_bind _ o1) by (simpl; by simplify_map_eq).
  rewrite (upd_obj_bind _ o1) by (simpl; by simplify_map_eq).
  set (o2 := on_Socket (set_event (sk_event (sock_of o1))) o1).
  rewrite (get_obj_bind _ o2) by (simpl; by simplify_map_eq).
  change (_event (o_Socket o2)) with (Some ev). cbv iota beta.
  erewrite bind_run; [|apply (v_eventHandler_posts _ o2); [simpl; by simplify_map_eq | done..]].
  rewrite (upd_obj_run _ o2) by (rewrite posted_heap; simpl; by simplify_map_eq).
  unfold o2, o1. rewrite !delivery_event by done.
  f_equal. f_equal. rewrite !posted_heap, !posted_set_heap. simpl.
  rewrite !insert_insert_eq. by destruct (delivery o this ev).
Qed.

(** C9: an interrupt for a well-formed event on an object completes, posts exactly the
    callback that the specification [delivery] gives for the class its table pointer
    names (also that of a base, while it is constructed or destroyed), the event and the
    handlers set at that moment (none when the handler is not set), and changes nothing
    else but the event members of the object. *)
Theorem interrupt_delivers this o ev (w : world) :
  heap w !! this = Some o → event_wf ev = true →
  interrupt this ev w =
    Done (tt, posted (delivery o this ev)
                (set_heap (<[this := after_event ev o]> (heap w)) w)).
Proof. apply interrupt_run. Qed.

(** A posted callback keeps the handler that was set when the event arrived: the
    handlers installed afterwards are used for later events only. *)
Lemma handler_snapshot `{ML : !MinarLaws MN} this o ev c h (w : world) :
  heap w !! this = Some o → event_wf ev = true → delivery o this ev = Some c →
  wp (interrupt this ev;; setOnError this h;; setOnReadable this h;; setOnSent this h)
     (λ _ w', pending (sched w') ≡ₚ c :: pending (sched w) ∧
              ∃ o', heap w' !! this = Some o' ∧
                    _onError (o_Socket o') = h ∧ _onReadable (o_Socket o') = h ∧
                    _onSent (o_Socket o') = h) w.
Proof.
  intros Ho Hw Hd. unfold wp.
  rewrite (bind_run _ _ _ _ _ (interrupt_run _ _ _ _ Ho Hw)), Hd.
  erewrite bind_run by (apply setOnError_run; simpl; apply lookup_insert_eq).
  erewrite bind_run by (apply setOnReadable_run; simpl; apply lookup_insert_eq).
  erewrite setOnSent_run by (simpl; apply lookup_insert_eq).
  split; [apply pending_post|]. eexists. split; [simpl; apply lookup_insert_eq | done].
Qed.
End Events.

(** ** The theorems at concrete worlds *)

Definition demo_dns_stream : world :=
  demo_after false [NewTCPStream raw_object 1; SetOnReadable demo_first (Some 5%Z);
                    SetOnDisconnect demo_first (Some 6%Z)].
Definition demo_dns_object : object :=
  default raw_object (heap demo_dns_stream !! demo_first).
Definition demo_disconnect : socket_event := mk_socket_event SOCKET_EVENT_DISCONNECT info_none.

Lemma interrupt_delivers_witness :
  interrupt demo_first demo_disconnect demo_dns_stream =
    Done (tt, posted (Some (CbDisconnect (Some 6%Z) demo_first))
                (set_heap (<[demo_first := after_event demo_disconnect demo_dns_object]>
                             (heap demo_dns_stream)) demo_dns_stream)).
Proof.
  replace (Some (CbDisconnect (Some 6%Z) demo_first))
    with (delivery demo_dns_object demo_first demo_disconnect) by run_refl.
  apply interrupt_delivers; run_refl.
Defined.

Lemma handler_snapshot_witness :
  wp (interrupt demo_first demo_disconnect;; setOnError demo_first (Some 9%Z);;
      setOnReadable demo_first (Some 9%Z);; setOnSent demo_first (Some 9%Z))
     (λ _ w', pending (sched w') ≡ₚ [CbDisconnect (Some 6%Z) demo_first] ∧
              ∃ o', heap w' !! demo_first = Some o' ∧
                    _onError (o_Socket o') = Some 9%Z ∧ _onReadable (o_Socket o') = Some 9%Z ∧
                    _onSent (o_Socket o') = Some 9%Z) demo_dns_stream.
Proof.
  assert (pending (sched demo_dns_stream) = []) as Hq by run_refl.
  rewrite <- Hq.
  apply (handler_snapshot demo_first demo_dns_object demo_disconnect
           (CbDisconnect (Some 6%Z) demo_first));
    run_refl.
Defined.
