(* ===== verification/Callbacks.v ===== *)
(** * Callbacks: which handlers and which objects they are bound to

    The event handlers test a handler before posting it; [error_check] does not.
    Neither cancels what it has posted when the object goes away. *)
From S2P Require Import Prelude Types Interfaces SocketAddr DemoInet World Demo Socket.
From S2P Require Import UDPSocket TCPAsynch TCPStream TCPListener Dispatch Shape System DemoRuns.
From stdpp Require Import base gmap list strings.
From Stdlib Require Import ZArith Lia.

Section Callbacks.
Context {SA : SAL} {MN : Minar} {RT : Runtime} {IN : Inet}.

(** Callbacks that a step adds are errors, or have their handler set. *)
Definition posts_set (w w' : world) : Prop :=
  ∀ c, c ∈ pending (sched w') →
       c ∈ pending (sched w) ∨ is_error_cb c = true ∨ is_set (cb_fun c) = true.

#[global] Instance posts_set_preorder : PreOrder posts_set.
Proof.
  split.
  - intros w c Hc. by left.
  - intros w1 w2 w3 H1 H2 c [Hc|Hc]%H2; [by apply H1 | by right].
Qed.

Lemma posts_same_sched w w' : sched w' = sched w → posts_set w w'.
Proof. intros Hs c. rewrite Hs. by left. Qed.

Lemma posts_upd this f : moves posts_set (upd_obj this f).
Proof. intros w u w' (o & _ & ->)%upd_obj_Done. by apply posts_same_sched. Qed.

Context `{ML : !MinarLaws MN}.

#[global] Instance posts_set_framed : Framed posts_set.
Proof.
  split; [apply _ | | | |].
  - intros. apply posts_upd.
  - intros b. apply moves_modify. intros w. by apply posts_same_sched.
  - intros S. apply moves_modify. intros w. by apply posts_same_sched.
  - intros c Hc. apply moves_modify. intros w c'. simpl. rewrite pending_post.
    intros [->|Hc']%elem_of_cons; [by right | by left].
Qed.
#[local] Hint Resolve posts_upd : moves.

Lemma posts_set_handle h : moves posts_set (modify (set_tick_handle h)).
Proof. apply moves_modify. intros w. by apply posts_same_sched. Qed.

Lemma posts_set_count f : moves posts_set (modify (λ w, set_TCPSockets (f w) w)).
Proof. apply moves_modify. intros w. by apply posts_same_sched. Qed.

Lemma posts_post_periodic f p t : moves posts_set (post_periodic f p t).
Proof.
  intros w h w'. unfold post_periodic. pose proof (pending_postPeriodic f p t (sched w)) as Hp.
  destruct (postPeriodic f p t (sched w)) as [h' s]. intros [= _ <-] c. simpl in *. rewrite Hp. by left.
Qed.

Lemma posts_cancel h : moves posts_set (cancel_callback h).
Proof. apply moves_modify. intros w c. simpl. rewrite pending_cancel. by left. Qed.

Lemma posts_new_storage raw : moves posts_set (new_storage raw).
Proof. intros w p w' (_ & _ & ->)%new_storage_Done. by apply posts_same_sched. Qed.

Lemma posts_release p : moves posts_set (release p).
Proof. apply moves_modify. intros w. by apply posts_same_sched. Qed.
#[local] Hint Resolve posts_set_handle posts_set_count posts_post_periodic posts_cancel
  posts_new_storage posts_release : moves.

Lemma posts_Socket_ctor this st : moves posts_set (Socket_ctor this st).
Proof. unfold Socket_ctor. solve_moves. Qed.

Lemma posts_Socket_dtor this : moves posts_set (Socket_dtor this).
Proof. unfold Socket_dtor. solve_moves. Qed.

Lemma posts_start_tick this : moves posts_set (start_tick this).
Proof. unfold start_tick. solve_moves. Qed.
#[local] Hint Resolve posts_Socket_ctor posts_Socket_dtor posts_start_tick : moves.

Lemma posts_TCPAsynch_ctor this st : moves posts_set (TCPAsynch_ctor this st).
Proof. unfold TCPAsynch_ctor. solve_moves. Qed.

Lemma posts_TCPAsynch_dtor this : moves posts_set (TCPAsynch_dtor this).
Proof. unfold TCPAsynch_dtor. solve_moves. Qed.
#[local] Hint Resolve posts_TCPAsynch_ctor posts_TCPAsynch_dtor : moves.

Lemma posts_TCPStream_init this st : moves posts_set (TCPStream_init this st).
Proof. unfold TCPStream_init. solve_moves. Qed.
#[local] Hint Resolve posts_TCPStream_init : moves.

Lemma posts_TCPStream_ctor_accept this l s : moves posts_set (TCPStream_ctor_accept this l s).
Proof. unfold TCPStream_ctor_accept. solve_moves. Qed.

Lemma posts_dtor_of c this : moves posts_set (dtor_of c this).
Proof.
  destruct c; simpl; unfold UDPSocket_dtor, TCPStream_dtor, TCPListener_dtor; solve_moves.
Qed.
#[local] Hint Resolve posts_TCPStream_ctor_accept posts_dtor_of : moves.

Lemma posts_exec c : moves posts_set (exec c).
Proof.
  destruct c; simpl; unfold returning, new_object, UDPSocket_ctor, TCPStream_ctor,
    TCPStream_ctor_sock, TCPListener_ctor, delete_object, accept, TCPStream_dtor; solve_moves.
Qed.

Lemma posts_interrupt this ev : moves posts_set (interrupt this ev).
Proof. unfold interrupt. solve_moves. Qed.

(** C30: in every reachable world, every pending callback is an error callback or has a
    handler: the data, sent, DNS, connect, disconnect and incoming callbacks are never
    posted with a handler that is not set. *)
Theorem pending_handlers_set w c :
  reachable w → c ∈ pending (sched w) →
  is_error_cb c = true ∨ is_set (cb_fun c) = true.
Proof.
  intros Hr. revert c. induction Hr as [w Hw|w w' _ IH Hs]; intros c Hc.
  - destruct Hw as (_ & _ & _ & Hp & _). rewrite Hp in Hc. by apply not_elem_of_nil in Hc.
  - assert (posts_set w w') as Hps.
    { destruct Hs as [k r w w' _ H|this ev w w' _ H|S w|k s w Hp _].
      - eapply posts_exec, H.
      - eapply posts_interrupt, H.
      - by apply posts_same_sched.
      - intros c' Hc'. left. rewrite Hp. by apply elem_of_cons; right. }
    destruct (Hps c Hc) as [?|?]; auto.
Qed.

(** ** [error_check] and the destructor *)

Lemma error_check_run this o err (w : world) :
  heap w !! this = Some o → err ≠ SOCKET_ERROR_NONE →
  error_check this err w =
    Done (true, set_sched (postCallback (CbError (_onError (o_Socket o)) this err) (sched w)) w).
Proof.
  intros Ho He. unfold error_check. rewrite decide_False by done.
  by rewrite (get_obj_bind _ o).
Qed.

(** [error_check] on an error posts a callback also when no error handler is set:
    the callback is bound to a NULL function, where the documentation says that errors
    are ignored when [onError] is not set. *)
Lemma error_check_unset_handler this o err (w : world) :
  heap w !! this = Some o → _onError (o_Socket o) = None → err ≠ SOCKET_ERROR_NONE →
  wp (error_check this err)
     (λ r w', r = true ∧ pending (sched w') ≡ₚ CbError None this err :: pending (sched w)) w.
Proof.
  intros Ho Hh He. unfold wp. rewrite (error_check_run _ o) by done. rewrite Hh.
  split; [done | apply pending_post].
Qed.

(** The destructor of [Socket] when the stack's [destroy] returns an error. *)
Lemma Socket_dtor_error this o f err s' S' (w : world) :
  heap w !! this = Some o → sk_api (sock_of o) ≠ NULL →
  api_destroy (api_at (sk_api (sock_of o))) = Some f →
  f (sock_of o) (stack w) = (err, s', S') → err ≠ SOCKET_ERROR_NONE →
  ∃ w', Socket_dtor this w = Done (tt, w') ∧
        sched w' = postCallback (CbError (_onError (o_Socket o)) this err) (sched w).
Proof.
  intros Ho Ha Hd Hf He. unfold Socket_dtor. rewrite (upd_obj_bind _ o) by done.
  set (o1 := set_vptr CSocket o). set (w1 := set_heap (<[this := o1]> (heap w)) w).
  assert (heap w1 !! this = Some o1) as Ho1 by apply lookup_insert_eq.
  rewrite (get_socket_bind _ o1) by done. change (sock_of o1) with (sock_of o).
  rewrite decide_True by done. rewrite Hd.
  erewrite bind_run by (by eapply (call_api_run _ o1)).
  erewrite bind_run by (eapply error_check_run; [simpl; apply lookup_insert_eq | done]).
  eexists. done.
Qed.

End Callbacks.

(** ** The theorems at concrete worlds *)

Definition demo_listening : world :=
  demo_after false [NewUDPSocket raw_object 1; SetOnReadable demo_first (Some 5%Z)].
Definition demo_rx : world :=
  after (interrupt demo_first (mk_socket_event SOCKET_EVENT_RX_DONE info_none)) demo_listening.

Lemma pending_handlers_set_witness :
  CbReadable (Some 5%Z) demo_first ∈ pending (sched demo_rx) ∧
  (is_error_cb (CbReadable (Some 5%Z) demo_first) = true ∨
   is_set (cb_fun (CbReadable (Some 5%Z) demo_first)) = true).
Proof.
  assert (pending (sched demo_rx) = [CbReadable (Some 5%Z) demo_first]) as Hq by run_refl.
  assert (CbReadable (Some 5%Z) demo_first ∈ pending (sched demo_rx)) as Hc
    by (rewrite Hq; apply elem_of_cons; left; reflexivity).
  split; [exact Hc|]. apply (pending_handlers_set demo_rx); [|exact Hc].
  apply (reachable_step demo_listening); [apply demo_reachable|].
  apply (step_interrupt demo_first (mk_socket_event SOCKET_EVENT_RX_DONE info_none));
    [run_refl | run_after (interrupt _ _) demo_listening].
Defined.

Lemma error_check_unset_handler_witness :
  wp (error_check demo_first DEMO_FAILURE)
     (λ r w', r = true ∧ pending (sched w') ≡ₚ [CbError None demo_first DEMO_FAILURE])
     (demo_after false [NewUDPSocket raw_object 1]).
Proof.
  eapply wp_mono.
  - eapply error_check_unset_handler with
      (o := default raw_object (heap (demo_after false [NewUDPSocket raw_object 1]) !! demo_first));
      [run_refl | run_refl | discriminate].
  - intros r w' H. exact H.
Defined.

