(* ===== verification/Constructors.v ===== *)
(** * Constructors, run to their ends

    The object each constructor builds over storage of any contents, when the
    periodic task is started and with which period, and what [accept] hands to
    the stack and to the user. *)
From S2P Require Import Prelude Types Interfaces SocketAddr DemoInet World Demo Socket.
From S2P Require Import UDPSocket TCPAsynch TCPStream TCPListener Dispatch Shape System DemoRuns.
From S2P Require Import Lifetimes.
From stdpp Require Import base gmap list strings.
From Stdlib Require Import ZArith Lia.

Section Constructors.
Context {SA : SAL} {MN : Minar} {RT : Runtime} {IN : Inet}.

(** The [struct socket] and the members of a new object; the event pointer of the
    struct is the one member no constructor initialises. *)
Definition new_sock (this : ptr) (st : Z) (api : ptr) (impl : ptr) (pf : socket_proto_family_t)
    (raw : object) : socket :=
  mk_socket (sk_event (sock_of raw)) (CThunk_entry this) impl api st pf.
Definition new_Socket (s : socket) : Socket := mk_Socket None None None None s None.
Definition new_stream (s : socket) (raw : object) : object :=
  mk_object CTCPStream (new_Socket s) (mk_TCPStream None None) (o_TCPListener raw).

Lemma Socket_ctor_run this st raw (w : world) :
  heap w !! this = Some raw →
  Socket_ctor this st w = Done (tt, set_heap (<[this :=
    mk_object CSocket
      (new_Socket (new_sock this st (socket_get_api st (stack w)) NULL (sk_family (sock_of raw)) raw))
      (o_TCPStream raw) (o_TCPListener raw)]> (heap w)) w).
Proof.
  intros Ho. unfold Socket_ctor.
  rewrite (upd_obj_bind _ raw) by done.
  erewrite upd_obj_bind by (simpl; apply lookup_insert_eq).
  erewrite upd_obj_bind by (simpl; apply lookup_insert_eq).
  erewrite bind_run by done.
  erewrite upd_obj_run by (simpl; apply lookup_insert_eq).
  unfold set_heap; simpl. by rewrite !insert_insert_eq.
Qed.

(** The base part of a TCP object, before the count. *)
Definition tcp_base (this : ptr) (st : Z) (raw : object) (w : world) : object :=
  mk_object CTCPAsynch
    (new_Socket (new_sock this st (socket_get_api st (stack w)) NULL SOCKET_STREAM raw))
    (o_TCPStream raw) (o_TCPListener raw).

Lemma TCPAsynch_ctor_run this st raw (w w1 : world) :
  heap w !! this = Some raw →
  (if decide (_TCPSockets w = 0%Z) then start_tick this else mret tt)
    (set_heap (<[this := tcp_base this st raw w]> (heap w)) w) = Done (tt, w1) →
  TCPAsynch_ctor this st w =
    Done (tt, set_TCPSockets (wrap uintptr_width (_TCPSockets w1 + 1)) w1).
Proof.
  intros Ho Ht. unfold TCPAsynch_ctor.
  erewrite bind_run by (by apply Socket_ctor_run).
  erewrite upd_obj_bind by (simpl; apply lookup_insert_eq).
  erewrite upd_obj_bind by (simpl; apply lookup_insert_eq).
  erewrite bind_run by done. unfold set_heap in *; simpl in *. rewrite !insert_insert_eq.
  by erewrite bind_run by exact Ht.
Qed.

(** The world with a new stream at [this], before what the stack does to it. *)
Lemma TCPStream_init_run this st raw (w w1 : world) b :
  heap w !! this = Some raw →
  (if decide (_TCPSockets w = 0%Z) then start_tick this else mret tt)
    (set_heap (<[this := tcp_base this st raw w]> (heap w)) w) = Done (tt, w1) →
  heap w1 !! this = Some b →
  TCPStream_init this st w =
    Done (tt, set_TCPSockets (wrap uintptr_width (_TCPSockets w1 + 1))
      (set_heap (<[this := mk_object CTCPStream (o_Socket b) (mk_TCPStream None None)
                             (o_TCPListener b)]> (heap w1)) w1)).
Proof.
  intros Ho Ht Hb. unfold TCPStream_init.
  erewrite bind_run by (by eapply TCPAsynch_ctor_run).
  erewrite upd_obj_bind by (simpl; exact Hb).
  erewrite upd_obj_run by (simpl; apply lookup_insert_eq).
  unfold set_heap; simpl. by rewrite !insert_insert_eq.
Qed.

(** [start_tick] when the two functions of the stack leave the struct alone. *)
Lemma start_tick_run this o a fi ft i f S1 S2 (w : world) :
  heap w !! this = Some o → sk_api (sock_of o) = a → a ≠ NULL →
  api_periodic_interval (api_at a) = Some fi → api_periodic_task (api_at a) = Some ft →
  fi (sock_of o) (stack w) = (i, sock_of o, S1) → ft (sock_of o) S1 = (f, sock_of o, S2) →
  start_tick this w =
    (let '(h, s) := postPeriodic f (milliseconds (u32 i)) (u32 i / 2) (sched w) in
     Done (tt, set_tick_handle h (set_sched s (set_stack S2 w)))).
Proof.
  intros Ho Ha Hn Hi Ht Hfi Hft. unfold start_tick. rewrite (get_socket_bind _ o) by done.
  rewrite Ha. rewrite decide_True by done.
  assert (on_Socket (on_socket (λ _, sock_of o)) o = o) as Hid by by destruct o as [? []].
  erewrite bind_run.
  2:{ eapply call_api_run; [exact Ho | by rewrite Ha | by rewrite Ha, Hi | exact Hfi]. }
  rewrite Hid, insert_id by done.
  erewrite bind_run.
  2:{ eapply (call_api_run _ o); [simpl; exact Ho | by rewrite Ha | by rewrite Ha, Ht | exact Hft]. }
  simpl. rewrite Hid, insert_id by done. unfold mbind, M_bind, post_periodic. simpl.
  by destruct (postPeriodic _ _ _ _) as [h s].
Qed.

Lemma new_object_run {A} raw (ctor : ptr → M world A) p (a : A) (w w' : world) :
  operator_new (dom (heap w)) = Some p → heap w !! p = None →
  ctor p (set_heap (<[p := raw]> (heap w)) w) = Done (a, w') →
  new_object raw ctor w = Done (RPtr p, w').
Proof.
  intros Hp Hn Hc. unfold new_object. erewrite bind_run; [by erewrite bind_run by exact Hc|].
  unfold new_storage, place. rewrite Hp. unfold mbind, M_bind. by rewrite Hn.
Qed.

(** C29: the first TCP stream on a registered stack starts the stack's periodic task:
    it asks the stack for the interval and the task, registers the task with that period
    (in ticks) and half of it as tolerance, remembers the handle, and leaves a closed
    socket: no handler set, no implementation, protocol family stream, the thunk of the
    new object as the handler of the stack. *)
Theorem first_stream_starts_tick `{ML : !MinarLaws MN} raw st p fi ft i f S1 S2 (w : world) :
  let a := socket_get_api st (stack w) in
  operator_new (dom (heap w)) = Some p → heap w !! p = None →
  _TCPSockets w = 0%Z → a ≠ NULL →
  api_periodic_interval (api_at a) = Some fi → api_periodic_task (api_at a) = Some ft →
  (∀ s, fi s (stack w) = (i, s, S1)) → (∀ s, ft s S1 = (f, s, S2)) →
  wp (exec (NewTCPStream raw st))
     (λ r w', r = RPtr p ∧
              heap w' = <[p := new_stream (new_sock p st a NULL SOCKET_STREAM raw) raw]> (heap w) ∧
              _TCPSockets w' = wrap uintptr_width 1 ∧ _tick_handle w' ≠ NULL ∧
              periodic (sched w') !! _tick_handle w' =
                Some (f, milliseconds (u32 i), (u32 i / 2)%Z) ∧
              pending (sched w') = pending (sched w) ∧ stack w' = S2) w.
Proof.
  intros a Hp Hn Hz Ha Hi Ht Hfi Hft. unfold wp. simpl.
  set (w1 := set_heap (<[p := raw]> (heap w)) w).
  set (b := tcp_base p st raw w1).
  pose proof (start_tick_run p b a fi ft i f S1 S2 (set_heap (<[p := b]> (heap w1)) w1)) as Hs.
  pose proof (postPeriodic_fresh f (milliseconds (u32 i)) (u32 i / 2) (sched w)) as [Hh _].
  pose proof (periodic_postPeriodic f (milliseconds (u32 i)) (u32 i / 2) (sched w)) as Hpp.
  pose proof (pending_postPeriodic f (milliseconds (u32 i)) (u32 i / 2) (sched w)) as Hpe.
  change (sched (set_heap (<[p := b]> (heap w1)) w1)) with (sched w) in Hs.
  destruct (postPeriodic f (milliseconds (u32 i)) (u32 i / 2) (sched w)) as [h s].
  specialize (Hs (lookup_insert_eq _ _ _) eq_refl Ha Hi Ht (Hfi _) (Hft _)).
  erewrite new_object_run; [| done | done |].
  2:{ eapply (TCPStream_init_run p st raw w1 _ b);
        [apply lookup_insert_eq | rewrite decide_True by done; exact Hs | simpl; apply lookup_insert_eq]. }
  simpl. rewrite Hz, !insert_insert_eq. split_and!; try done. simpl in Hpp. by rewrite Hpp, lookup_insert_eq.
Qed.

(** Constructing a stream while the count is not zero, or on a stack without an api. *)
Lemma new_stream_no_tick raw st p (w : world) :
  let a := socket_get_api st (stack w) in
  operator_new (dom (heap w)) = Some p → heap w !! p = None →
  _TCPSockets w ≠ 0%Z ∨ a = NULL →
  exec (NewTCPStream raw st) w =
    Done (RPtr p, set_TCPSockets (wrap uintptr_width (_TCPSockets w + 1))
      (set_heap (<[p := new_stream (new_sock p st a NULL SOCKET_STREAM raw) raw]> (heap w)) w)).
Proof.
  intros a Hp Hn Hc. set (w1 := set_heap (<[p := raw]> (heap w)) w).
  simpl. erewrite new_object_run; [| done | done |].
  2:{ eapply (TCPStream_init_run p st raw w1 (set_heap (<[p := tcp_base p st raw w1]> (heap w1)) w1));
        [apply lookup_insert_eq | | simpl; apply lookup_insert_eq].
      case_decide; [|done]. destruct Hc as [Hc|Hc]; [done|]. unfold start_tick.
      rewrite (get_socket_bind _ (tcp_base p st raw w1)) by (simpl; apply lookup_insert_eq).
      case_decide as Hx; [by destruct Hx | done]. }
  unfold set_heap; simpl. by rewrite !insert_insert_eq.
Qed.


(** C28: [accept] on success: the stack's [socket_accept] is called once, with the
    listener's struct and a struct that carries the accepted implementation, the stack and
    the family of the listener and the thunk of the new object; the result is a new stream
    with what the stack returned and no handlers, and the listener keeps its handlers. *)
Theorem accept_builds_stream l lo i raw p l' s' S' (w : world) :
  let a := socket_get_api (sk_stack (sock_of lo)) (stack w) in
  let s0 := new_sock p (sk_stack (sock_of lo)) a i (sk_family (sock_of lo)) raw in
  heap w !! l = Some lo → operator_new (dom (heap w)) = Some p → heap w !! p = None →
  _TCPSockets w ≠ 0%Z →
  socket_accept (sock_of lo) s0 (CThunk_entry p) (stack w) = (SOCKET_ERROR_NONE, l', s', S') →
  exec (Accept l i raw) w =
    Done (RPtr p, set_stack S' (set_TCPSockets (wrap uintptr_width (_TCPSockets w + 1))
      (set_heap (<[p := new_stream s' raw]>
                   (<[l := on_Socket (on_socket (λ _, l')) lo]> (heap w))) w))).
Proof.
  intros a s0 Hl Hp Hn Hz Hacc.
  assert (l ≠ p) as Hne by congruence.
  set (w1 := set_heap (<[p := raw]> (heap w)) w).
  assert (new_storage raw w = Done (p, w1)) as Hns.
  { unfold new_storage, place. rewrite Hp. unfold mbind, M_bind. by rewrite Hn. }
  apply (returning_run _ _ _ p); [|done]. unfold accept. rewrite (get_socket_bind _ lo) by done.
  rewrite (bind_run _ _ _ _ _ Hns).
  erewrite bind_run; [by rewrite decide_False by auto|].
  unfold TCPStream_ctor_accept, adopt.
  erewrite bind_run.
  2:{ eapply (TCPStream_init_run p _ raw w1 (set_heap (<[p := tcp_base p _ raw w1]> (heap w1)) w1));
        [apply lookup_insert_eq | by rewrite decide_False | simpl; apply lookup_insert_eq]. }
  erewrite bind_run.
  2:{ erewrite upd_obj_bind by (simpl; apply lookup_insert_eq).
      erewrite upd_obj_run by (simpl; apply lookup_insert_eq). done. }
  erewrite get_socket_bind by (simpl; rewrite !lookup_insert_ne by done; exact Hl).
  erewrite get_socket_bind by (simpl; apply lookup_insert_eq).
  erewrite bind_run by done. simpl.
  unfold sock_of in *; simpl. unfold s0, new_sock, a in Hacc. unfold w1. simpl.
  unfold set_sk_impl, set_sk_family; simpl. rewrite Hacc.
  erewrite upd_obj_bind by (simpl; rewrite !lookup_insert_ne by done; exact Hl).
  erewrite upd_obj_bind by (simpl; rewrite lookup_insert_ne by done; apply lookup_insert_eq).
  simpl. unfold mbind, M_bind, modify, mret, M_ret. do 2 f_equal.
  unfold set_stack, set_heap; simpl. f_equal.
  apply map_eq. intros k. rewrite !lookup_insert. repeat case_decide; by simplify_eq.
Qed.
End Constructors.

(** ** The theorems at concrete worlds *)

Lemma first_stream_starts_tick_witness :
  wp (exec (NewTCPStream raw_object 1))
     (λ r w', r = RPtr demo_first ∧
              periodic (sched w') !! _tick_handle w' = Some (9000, 250, 125)%Z) (demo_world false).
Proof.
  eapply wp_mono.
  - apply (first_stream_starts_tick (SA := demo_sal) raw_object 1 demo_first
             (λ s S, (250%Z, s, S)) (λ s S, (9000%Z, s, S)) 250 9000
             (stack (demo_world false)) (stack (demo_world false)));
      [run_refl | run_refl | run_refl | vm_compute; discriminate | run_refl | run_refl
      | intros; reflexivity | intros; reflexivity].
  - intros r w' (Hr & _ & _ & _ & Hp & _). split; [exact Hr | exact Hp].
Defined.


Definition demo_listener : world := demo_after false [NewTCPListener raw_object 1].

Lemma accept_builds_stream_witness :
  let lo := default raw_object (heap demo_listener !! demo_first) in
  let s' := mk_socket None (demo_second + 8) 77 4096 1 SOCKET_STREAM in
  exec (Accept demo_first 77 raw_object) demo_listener =
    Done (RPtr demo_second,
      set_stack (demo_log "socket_accept" (stack demo_listener))
        (set_TCPSockets (wrap uintptr_width (_TCPSockets demo_listener + 1))
          (set_heap (<[demo_second := new_stream s' raw_object]>
             (<[demo_first := on_Socket (on_socket (λ _, sock_of lo)) lo]> (heap demo_listener)))
             demo_listener))).
Proof.
  intros lo s'.
  apply (accept_builds_stream (SA := demo_sal) demo_first lo 77 raw_object demo_second
           (sock_of lo) s' (demo_log "socket_accept" (stack demo_listener)) demo_listener);
    [run_refl | run_refl | run_refl | vm_compute; discriminate | run_refl].
Defined.
