(* ===== verification/Forwarding.v ===== *)
(** * Calls that reach the network stack

    On a socket that passes the guards, a method is one call through the stack's
    table.  [forward] says which function each method calls, with which arguments,
    and how its results become those of the method; [assigns] says which handler the
    method stores first.  The theorem is that the methods do that and nothing else. *)
From S2P Require Import Prelude Types Interfaces SocketAddr DemoInet World Demo Socket.
From S2P Require Import UDPSocket TCPAsynch TCPStream TCPListener Dispatch Shape System DemoRuns.
From stdpp Require Import base gmap list strings.
From Stdlib Require Import ZArith Lia.

Section Forwarding.
Context {SA : SAL} {MN : Minar} {RT : Runtime} {IN : Inet}.

(** Results of a stack function as results of a method. *)
Definition as_ret {A} (k : A → ret) (f : api_call sal_state A) : api_call sal_state ret := λ s S,
  let '(a, s', S') := f s S in (k a, s', S').
Definition query_as_ret {A} (k : A → ret) (f : api_query sal_state A) : api_call sal_state ret :=
  λ s S, let '(a, S') := f s S in (k a, s, S').

(** The function a call on the object at [p] reaches. *)
Definition forward (p : ptr) (c : call) (t : socket_api sal_state) : option (api_call sal_state ret) :=
  match c with
  | UdpOpen _ af => as_ret RErr <$> arg3 api_create af SOCKET_DGRAM (CThunk_entry p) t
  | TcpOpen _ af => as_ret RErr <$> arg3 api_create af SOCKET_STREAM (CThunk_entry p) t
  | Resolve _ a _ => as_ret RErr <$> arg1 api_resolve a t
  | Bind _ (Some a) n => as_ret RErr <$> arg2 api_bind (getAddr a) n t
  | Close _ => as_ret RErr <$> api_close t
  | Recv _ b l => as_ret (λ r, RRecv r.1.1 r.1.2 r.2) <$> arg2 api_recv b l t
  | RecvFrom _ b l (Some a) n raw =>
    as_ret (λ r, RRecvFrom r.1.1.1.1 r.1.1.1.2 r.1.1.2 (Some (setAddr a r.1.2)) r.2)
      <$> arg4 api_recv_from b l raw n t
  | Send _ b l => as_ret RErr <$> arg2 api_send b l t
  | SendTo _ b l (Some a) n => as_ret RErr <$> arg4 api_send_to b l (getAddr a) n t
  | IsConnected _ => query_as_ret RBool <$> api_is_connected t
  | GetLocalAddr _ (Some a) =>
    query_as_ret (λ r, RAddr r.1 (Some (mk_SocketAddr r.2))) <$> arg1 api_get_local_addr (getAddr a) t
  | GetRemoteAddr _ (Some a) =>
    query_as_ret (λ r, RAddr r.1 (Some (mk_SocketAddr r.2))) <$> arg1 api_get_remote_addr (getAddr a) t
  | GetLocalPort _ n => query_as_ret (λ r, RPort r.1 r.2) <$> arg1 api_get_local_port n t
  | GetRemotePort _ n => query_as_ret (λ r, RPort r.1 r.2) <$> arg1 api_get_remote_port n t
  | UdpConnect _ (Some a) n => as_ret RErr <$> arg2 api_connect (getAddr a) n t
  | TcpConnect _ a n _ => as_ret RErr <$> arg2 api_connect (getAddr a) n t
  | SetNagle _ b =>
    as_ret (λ _, RUnit) <$>
      arg4 api_set_option SOCKET_PROTO_LEVEL_TCP SOCKET_OPT_NAGLE (if b then 1%Z else NULL) 0%Z t
  | StartListening _ _ n => as_ret RErr <$> arg1 api_start_listen n t
  | StopListening _ => as_ret RErr <$> api_stop_listen t
  | _ => None
  end.

(** The handler a call stores before it reaches the stack. *)
Definition assigns (c : call) (o : object) : object :=
  match c with
  | Resolve _ _ h => on_Socket (set_onDNS h) o
  | TcpConnect _ _ _ h => on_TCPStream (set_onConnect h) o
  | StartListening _ h _ => on_TCPListener (λ _, mk_TCPListener h) o
  | _ => o
  end.

(** Calls that test that the socket is open; the others only need the stack. *)
Definition needs_impl (c : call) : bool :=
  match c with
  | UdpOpen _ _ | TcpOpen _ _ | UdpConnect _ _ _ | TcpConnect _ _ _ _ | SetNagle _ _
  | StartListening _ _ _ | StopListening _ => false
  | _ => true
  end.

Lemma call_api_as_ret {A} p o (fn : socket_api sal_state → option (api_call sal_state A))
    (k : A → ret) f r s' S' (w : world) :
  heap w !! p = Some o → sk_api (sock_of o) ≠ NULL →
  as_ret k <$> fn (api_at (sk_api (sock_of o))) = Some f →
  f (sock_of o) (stack w) = (r, s', S') →
  ∃ a, call_api p fn w =
         Done (a, set_stack S' (set_heap (<[p := on_Socket (on_socket (λ _, s')) o]> (heap w)) w)) ∧
       r = k a.
Proof.
  intros Ho Ha (g & Hg & ->)%fmap_Some Hf. unfold as_ret in Hf.
  destruct (g (sock_of o) (stack w)) as [[a s1] S1] eqn:E. simplify_eq.
  exists a. split; [by eapply call_api_run | done].
Qed.

Lemma query_api_as_ret {A} p o (fn : socket_api sal_state → option (api_query sal_state A))
    (k : A → ret) f r s' S' (w : world) :
  heap w !! p = Some o → sk_api (sock_of o) ≠ NULL →
  query_as_ret k <$> fn (api_at (sk_api (sock_of o))) = Some f →
  f (sock_of o) (stack w) = (r, s', S') →
  ∃ a, query_api p fn w =
         Done (a, set_stack S' (set_heap (<[p := on_Socket (on_socket (λ _, s')) o]> (heap w)) w)) ∧
       r = k a.
Proof.
  intros Ho Ha (g & Hg & ->)%fmap_Some Hf. unfold query_as_ret in Hf.
  destruct (g (sock_of o) (stack w)) as [a S1] eqn:E. simplify_eq.
  exists a. split; [|done]. rewrite (query_api_run _ _ _ _ _ _ _ Ho Ha Hg E).
  rewrite insert_id; [by destruct w|]. rewrite Ho. by destruct o as [? []].
Qed.

(** A handler stored first does not change what the stack sees. *)
Lemma assign_call_as_ret {A} p o g (fn : socket_api sal_state → option (api_call sal_state A))
    (k : A → ret) f r s' S' (w : world) :
  heap w !! p = Some o → sock_of (g o) = sock_of o → sk_api (sock_of o) ≠ NULL →
  as_ret k <$> fn (api_at (sk_api (sock_of o))) = Some f →
  f (sock_of o) (stack w) = (r, s', S') →
  ∃ a, (upd_obj p g;; call_api p fn) w =
         Done (a, set_stack S' (set_heap (<[p := on_Socket (on_socket (λ _, s')) (g o)]> (heap w)) w)) ∧
       r = k a.
Proof.
  intros Ho Hg Ha Hf Hr. rewrite (upd_obj_bind _ o) by done. rewrite <- Hg in *.
  destruct (call_api_as_ret p (g o) fn k f r s' S' (set_heap (<[p := g o]> (heap w)) w))
    as (a & -> & ->); try done.
  { apply lookup_insert_eq. }
  exists a. split; [|done]. unfold set_stack, set_heap; simpl. by rewrite insert_insert_eq.
Qed.

(** Make the one call through the table of a method, and finish with its results. *)
Ltac forward_call o Ho Ha Hf Hr :=
  let x := fresh "x" in let Hx := fresh "Hx" in
  first [ destruct (call_api_as_ret _ _ _ _ _ _ _ _ _ Ho Ha Hf Hr) as (x & Hx & ->)
        | destruct (query_api_as_ret _ _ _ _ _ _ _ _ _ Ho Ha Hf Hr) as (x & Hx & ->) ];
  eapply returning_run;
  [ unfold UDPSocket_open, TCPAsynch_open, Socket_open, bind, close, recv, recv_from, send,
      send_to, isConnected, getLocalAddr, getRemoteAddr, getLocalPort, getRemotePort,
      UDPSocket_connect, setNagle, stop_listening;
    try (rewrite (get_socket_bind _ o) by exact Ho);
    rewrite ?decide_False by done;
    first [ exact Hx
          | rewrite (bind_run _ _ _ _ _ Hx); reflexivity
          | rewrite (bind_run _ _ _ _ _ Hx); destruct x as [[[[]]]]; reflexivity ]
  | reflexivity ].

(** C11: a method whose guards pass makes exactly the call through the stack's table that
    [forward] gives, on the socket's own struct; it returns what the stack returns, stores
    the struct and the stack's state that result from it and, if it takes a handler,
    stores that first, whatever the stack answers; nothing else changes.  [open] makes the
    call whether or not the socket is already open. *)
Theorem calls_forwarded p cs c o f r s' S' (w : world) :
  receiver c = Some (p, cs) → heap w !! p = Some o →
  (needs_impl c = true → sk_impl (sock_of o) ≠ NULL) →
  sk_handler (sock_of o) ≠ NULL → sk_api (sock_of o) ≠ NULL →
  forward p c (api_at (sk_api (sock_of o))) = Some f →
  f (sock_of o) (stack w) = (r, s', S') →
  exec c w =
    Done (r, set_stack S'
      (set_heap (<[p := on_Socket (on_socket (λ _, s')) (assigns c o)]> (heap w)) w)).
Proof.
  intros Hc Ho Hi Hh Ha Hf Hr.
  destruct c; simpl in Hf; try discriminate; simpl in Hc; injection Hc as <- <-; simpl in Hi;
    try specialize (Hi eq_refl); simpl exec.
  all: repeat (case_match; try discriminate; []).
  all: try (forward_call o Ho Ha Hf Hr; fail).
  - destruct (assign_call_as_ret this o (on_Socket (set_onDNS onDNS)) _ _ _ _ _ _ _ Ho eq_refl Ha Hf Hr)
      as (x & Hx & ->).
    eapply returning_run; [|done]. unfold resolve. rewrite (get_socket_bind _ o) by done.
    rewrite !decide_False by done. exact Hx.
  - destruct (call_api_as_ret _ _ _ _ _ _ _ _ _ Ho Ha Hf Hr) as ([[[[e b'] l'] a'] n'] & Hx & ->).
    eapply returning_run; [unfold recv_from | ].
    + rewrite (get_socket_bind _ o) by done. rewrite decide_False by done.
      by rewrite (bind_run _ _ _ _ _ Hx).
    + done.
  - destruct (assign_call_as_ret this o (on_TCPStream (set_onConnect onConnect)) _ _ _ _ _ _ _
                Ho eq_refl Ha Hf Hr) as (x & Hx & ->).
    eapply returning_run; [|done]. unfold TCPStream_connect. rewrite (get_socket_bind _ o) by done.
    rewrite decide_False by done. exact Hx.
  - destruct (assign_call_as_ret this o (on_TCPListener (λ _, mk_TCPListener listenHandler))
                _ _ _ _ _ _ _ Ho eq_refl Ha Hf Hr) as (x & Hx & ->).
    eapply returning_run; [|done]. unfold start_listening. rewrite (get_socket_bind _ o) by done.
    rewrite decide_False by done. exact Hx.
Qed.

(** C38: [recv_from] copies the local address to the caller's also when the stack reports
    an error: with a stack that leaves the address alone on failure, the caller's
    [SocketAddr] is overwritten with the indeterminate contents of the local. *)
Theorem recv_from_error_overwrites `{!AddrLaws IN} p o f buf len ra port raw err s' S' (w : world) :
  heap w !! p = Some o → sk_impl (sock_of o) ≠ NULL → sk_api (sock_of o) ≠ NULL →
  api_recv_from (api_at (sk_api (sock_of o))) = Some f →
  f buf len raw port (sock_of o) (stack w) = ((err, buf, len, raw, port), s', S') →
  err ≠ SOCKET_ERROR_NONE →
  wp (exec (RecvFrom p buf len (Some ra) port raw))
     (λ r _, r = RRecvFrom err buf len (Some (mk_SocketAddr raw)) port) w.
Proof.
  intros Ho Hi Ha Hf Hr _. unfold wp.
  assert (arg4 api_recv_from buf len raw port (api_at (sk_api (sock_of o))) =
          Some (f buf len raw port)) as Hg by (unfold arg4; by rewrite Hf).
  pose proof (call_api_run _ _ _ _ _ _ _ _ Ho Ha Hg Hr) as Hc.
  eassert (recv_from p buf len (Some ra) port raw w = Done (_, _)) as Hx.
  { unfold recv_from. rewrite (get_socket_bind _ o) by done. rewrite decide_False by done.
    rewrite (bind_run _ _ _ _ _ Hc). reflexivity. }
  simpl. erewrite (returning_run _ _ _ _ _ _ Hx) by done. simpl.
  unfold setAddr. by rewrite addr_copy_spec.
Qed.

(** The world after a stack function has run on the socket at [p]. *)
Definition answered (p : ptr) (o : object) (s' : socket) (S' : sal_state) (w : world) : world :=
  set_stack S' (set_heap (<[p := on_Socket (on_socket (λ _, s')) o]> (heap w)) w).

Lemma answered_lookup p o s' S' (w : world) :
  heap (answered p o s' S' w) !! p = Some (on_Socket (on_socket (λ _, s')) o).
Proof. apply lookup_insert_eq. Qed.

Lemma answered_twice p o s1 S1 s2 S2 (w : world) :
  answered p (on_Socket (on_socket (λ _, s1)) o) s2 S2 (answered p o s1 S1 w) = answered p o s2 S2 w.
Proof. unfold answered, set_stack, set_heap; simpl. by rewrite insert_insert_eq. Qed.

(** C21: [bind] of a text is the stack's [str2addr] followed by [bind] of the address it
    wrote.  An error of [str2addr] is returned and nothing is bound; otherwise the
    socket, as [str2addr] left it, is bound to that address and the answer of the stack
    is returned; should [str2addr] have closed the socket, the result is that of binding
    an unopened one. *)
Theorem bind_text_resolves_then_binds p o text port raw f e a s1 S1 (w : world) :
  heap w !! p = Some o → vptr o ≠ CSocket →
  sk_impl (sock_of o) ≠ NULL → sk_api (sock_of o) ≠ NULL →
  arg2 api_str2addr (getAddr raw) text (api_at (sk_api (sock_of o))) = Some f →
  f (sock_of o) (stack w) = ((e, a), s1, S1) →
  (e ≠ SOCKET_ERROR_NONE →
     exec (BindStr p text port raw) w = Done (RErr e, answered p o s1 S1 w)) ∧
  (e = SOCKET_ERROR_NONE → sk_impl s1 = NULL →
     exec (BindStr p text port raw) w = Done (RErr SOCKET_ERROR_UNIMPLEMENTED, answered p o s1 S1 w)) ∧
  (e = SOCKET_ERROR_NONE → sk_impl s1 ≠ NULL → sk_api s1 ≠ NULL → ∀ g r s2 S2,
     arg2 api_bind a port (api_at (sk_api s1)) = Some g → g s1 S1 = (r, s2, S2) →
     exec (BindStr p text port raw) w = Done (RErr r, answered p o s2 S2 w)).
Proof.
  intros Ho Hv Hi Ha Hf Hr.
  pose proof (call_api_run _ _ _ _ _ _ _ _ Ho Ha Hf Hr) as Hc. fold (answered p o s1 S1 w) in Hc.
  pose proof (answered_lookup p o s1 S1 w) as Ho1.
  assert (∀ x w', (if decide (e = SOCKET_ERROR_NONE) then bind p (Some (mk_SocketAddr a)) port
                   else mret e) (answered p o s1 S1 w) = Done (x, w') →
                  exec (BindStr p text port raw) w = Done (RErr x, w')) as Hx.
  { intros x w' H. eapply returning_run; [|reflexivity]. unfold bind_str.
    rewrite (get_socket_bind _ o) by done. rewrite decide_False by done.
    by rewrite (bind_run _ _ _ _ _ Hc). }
  split; [|split].
  - intros He. apply Hx. by rewrite decide_False.
  - intros He Hn. apply Hx. rewrite decide_True by done. unfold bind.
    rewrite (get_socket_bind _ _ _ _ Ho1). rewrite decide_True by done.
    rewrite (bind_run _ _ _ SOCKET_ERROR_UNIMPLEMENTED (answered p o s1 S1 w)); [done|]. simpl.
    rewrite (get_obj_bind _ _ _ _ Ho1). simpl. by destruct (vptr o).
  - intros He Hn Ha1 g r s2 S2 Hg Hb. apply Hx. rewrite decide_True by done. unfold bind.
    rewrite (get_socket_bind _ _ _ _ Ho1). rewrite decide_False by done.
    rewrite (bind_run _ _ _ SOCKET_ERROR_NONE (answered p o s1 S1 w)) by done.
    rewrite decide_True by done. rewrite <- (answered_twice p o s1 S1 s2 S2).
    by apply (call_api_run _ _ _ _ _ _ _ _ Ho1 Ha1 Hg).
Qed.
End Forwarding.

(** ** The theorems at concrete worlds *)

Definition demo_open (refuse : bool) : world :=
  let w := demo_after false [NewUDPSocket raw_object 1; UdpOpen demo_first SOCKET_AF_INET4] in
  set_stack (mk_demo 101 refuse []) w.
Definition demo_open_object (refuse : bool) : object :=
  default raw_object (heap (demo_open refuse) !! demo_first).

Lemma calls_forwarded_witness :
  let o := demo_open_object false in
  exec (Resolve demo_first (Some "mbed.org"%string) (Some 4%Z)) (demo_open false) =
    Done (RErr SOCKET_ERROR_NONE, set_stack (demo_log "resolve" (stack (demo_open false)))
      (set_heap (<[demo_first := on_Socket (on_socket (λ _, sock_of o))
                                   (on_Socket (set_onDNS (Some 4%Z)) o)]>
                   (heap (demo_open false))) (demo_open false))).
Proof.
  intros o.
  apply (calls_forwarded (SA := demo_sal) demo_first [CTCPStream; CTCPListener; CUDPSocket]
           (Resolve demo_first (Some "mbed.org"%string) (Some 4%Z)) o
           (as_ret (SA := demo_sal) RErr (demo_call "resolve")));
    [run_refl | run_refl | vm_compute; discriminate | vm_compute; discriminate
    | vm_compute; discriminate | reflexivity | run_refl].
Defined.

Lemma recv_from_error_overwrites_witness :
  wp (exec (RecvFrom demo_first (Some [1]%Z) (Some 1%Z) (Some zero_addr) (Some 9%Z) raw_addr))
     (λ r _, r = RRecvFrom DEMO_FAILURE (Some [1]%Z) (Some 1%Z) (Some (mk_SocketAddr raw_addr)) (Some 9%Z))
     (demo_open true).
Proof.
  apply (recv_from_error_overwrites (SA := demo_sal) (IN := inet_posix) demo_first
           (demo_open_object true)
           (λ b l a p s S, let '(e, s', S') := demo_call "recv_from" s S in
              if refusing S then ((e, b, l, a, p), s', S')
              else ((e, b, Some 0%Z, demo_loopback, Some 7%Z), s', S'))
           (Some [1]%Z) (Some 1%Z) zero_addr (Some 9%Z) raw_addr DEMO_FAILURE
           (sock_of (demo_open_object true)) (demo_log "recv_from" (stack (demo_open true))));
    [run_refl | vm_compute; discriminate | vm_compute; discriminate | reflexivity | run_refl
    | discriminate].
Defined.

Lemma bind_text_resolves_then_binds_witness :
  exec (BindStr demo_first (Some "0.0.0.0"%string) 80 zero_addr) (demo_open false) =
    Done (RErr SOCKET_ERROR_NONE, answered demo_first (demo_open_object false)
      (sock_of (demo_open_object false))
      (demo_log "bind" (demo_log "str2addr" (stack (demo_open false)))) (demo_open false)).
Proof.
  apply (bind_text_resolves_then_binds (SA := demo_sal) demo_first (demo_open_object false)
           (Some "0.0.0.0"%string) 80 zero_addr (demo_with "str2addr" demo_loopback (getAddr zero_addr))
           SOCKET_ERROR_NONE demo_loopback (sock_of (demo_open_object false))
           (demo_log "str2addr" (stack (demo_open false))))
    with (g := demo_call "bind");
    [run_refl | vm_compute; discriminate | vm_compute; discriminate | vm_compute; discriminate
    | reflexivity | run_refl | reflexivity | vm_compute; discriminate | vm_compute; discriminate
    | reflexivity | run_refl].
Defined.
