(* ===== verification/IrqMask.v ===== *)
(** * Assignments of handlers and the interrupt mask

    A handler member ([mbed::util::FunctionPointer]) is a class object of some
    number of machine words, so assigning it is several stores.  Events are
    handled in interrupt context and read the handler between any two of them,
    unless interrupts are masked.  The setters of [Socket] mask them; the
    assignments in [resolve], [connect], [start_listening] and [setOnDisconnect]
    do not. *)
From S2P Require Import Prelude Types.
From stdpp Require Import base list relations.
From Stdlib Require Import ZArith Lia.

(** What the program does next to one handler member. *)
Inductive micro :=
| MDisable                    (* __disable_irq() *)
| MEnable                     (* __enable_irq() *)
| MStore (i : nat) (v : Z).   (* one word of the member is stored *)

Record cpu := mk_cpu {
  unmasked : bool;            (* interrupts are enabled *)
  words : list Z;             (* the words of the member *)
  todo : list micro;          (* the rest of the program *)
  seen : list (list Z)        (* what interrupts have read, the latest first *)
}.

(** [member = value]: the words are stored in order. *)
Definition assign (v : list Z) : list micro := imap MStore v.

(** [setOnError], [setOnReadable], [setOnSent]. *)
Definition masked_set (v : list Z) : list micro := MDisable :: assign v ++ [MEnable].

(** [_onDNS = onDNS], [_onConnect = onConnect], [_onIncoming = listenHandler] and
    [_onDisconnect = h]. *)
Definition plain_set (v : list Z) : list micro := assign v.

Inductive cpu_step : cpu → cpu → Prop :=
| cpu_disable b m t s : cpu_step (mk_cpu b m (MDisable :: t) s) (mk_cpu false m t s)
| cpu_enable b m t s : cpu_step (mk_cpu b m (MEnable :: t) s) (mk_cpu true m t s)
| cpu_store b m i v t s :
    cpu_step (mk_cpu b m (MStore i v :: t) s) (mk_cpu b (<[i := v]> m) t s)
| cpu_interrupt m t s : cpu_step (mk_cpu true m t s) (mk_cpu true m t (m :: s)).

(** The member while [k] words of [new] have been stored over [old]. *)
Definition mixed (k : nat) (old new : list Z) : list Z := take k new ++ drop k old.

(** ** Masked assignments are atomic *)

Lemma assign_lookup v i : assign v !! i = MStore i <$> v !! i.
Proof. unfold assign. apply list_lookup_imap. Qed.

Lemma drop_assign v k x : v !! k = Some x → drop k (assign v) = MStore k x :: drop (S k) (assign v).
Proof. intros H. apply drop_S. by rewrite assign_lookup, H. Qed.

Lemma length_assign v : length (assign v) = length v.
Proof. apply length_imap. Qed.

Lemma mixed_store old new k x :
  length old = length new → new !! k = Some x →
  <[k := x]> (mixed k old new) = mixed (S k) old new.
Proof.
  intros Hl Hx. pose proof (lookup_lt_Some _ _ _ Hx) as Hk. unfold mixed.
  destruct (lookup_lt_is_Some_2 old k) as [y Hy]; [lia|].
  rewrite (drop_S old y k) by done. rewrite (take_S_r new k x) by done.
  rewrite insert_app_r_alt by (rewrite length_take; lia).
  rewrite length_take_le by lia. rewrite Nat.sub_diag. simpl. by rewrite <- app_assoc.
Qed.

(** The states of a run of a masked assignment. *)
Inductive masked_inv (old new : list Z) (c : cpu) : Prop :=
| mi_before : todo c = masked_set new → words c = old →
    Forall (λ v, v = old ∨ v = new) (seen c) → masked_inv old new c
| mi_during k : k ≤ length new → unmasked c = false →
    todo c = drop k (assign new) ++ [MEnable] → words c = mixed k old new →
    Forall (λ v, v = old ∨ v = new) (seen c) → masked_inv old new c
| mi_after : todo c = [] → words c = new →
    Forall (λ v, v = old ∨ v = new) (seen c) → masked_inv old new c.

Lemma masked_inv_step old new c c' :
  length old = length new → masked_inv old new c → cpu_step c c' → masked_inv old new c'.
Proof.
  intros Hl Hi Hs.
  destruct Hi as [Ht Hw Hv|k Hk Hb Ht Hw Hv|Ht Hw Hv]; destruct Hs; simpl in *; simplify_eq.
  - injection Ht as ->. apply (mi_during _ _ _ 0); simpl; [lia | done..].
  - apply mi_before; simpl; [done | done |]. constructor; [by left | done].
  - destruct (new !! k) as [x|] eqn:Hx; [by rewrite (drop_assign _ _ x) in Ht|].
    apply lookup_ge_None in Hx. rewrite drop_ge in Ht by (rewrite length_assign; lia). done.
  - destruct (new !! k) as [x|] eqn:Hx; [by rewrite (drop_assign _ _ x) in Ht|].
    apply lookup_ge_None in Hx. rewrite drop_ge in Ht by (rewrite length_assign; lia).
    simplify_eq/=. apply mi_after; simpl; [done | | done].
    unfold mixed. rewrite take_ge, drop_ge by lia. apply app_nil_r.
  - destruct (new !! k) as [x|] eqn:Hx.
    + rewrite (drop_assign _ _ x) in Ht by done. simplify_eq/=. apply lookup_lt_Some in Hx as Hlt.
      apply (mi_during _ _ _ (S k)); simpl; [lia | done | done | by apply mixed_store | done].
    + apply lookup_ge_None in Hx. rewrite drop_ge in Ht by (rewrite length_assign; lia). done.
  - apply mi_after; simpl; [done | done |]. constructor; [by right | done].
Qed.

(** C16: while [setOnError], [setOnReadable] or [setOnSent] replaces a handler, an
    interrupt at any point finds the old handler or the new one, never a mixture of their
    words, whatever the size of a handler is. *)
Theorem masked_set_atomic old new b c :
  length old = length new →
  rtc cpu_step (mk_cpu b old (masked_set new) []) c →
  Forall (λ v, v = old ∨ v = new) (seen c) ∧ (todo c = [] → words c = new).
Proof.
  intros Hl Hr.
  assert (masked_inv old new c) as Hi.
  { remember (mk_cpu b old (masked_set new) []) as c0 eqn:E.
    assert (masked_inv old new c0) as H0 by (subst; by apply mi_before).
    clear E. induction Hr as [|c1 c2 c3 Hs _ IH]; [done|]. eauto using masked_inv_step. }
  destruct Hi as [Ht Hw Hv|k Hk Hb Ht Hw Hv|Ht Hw Hv]; split; try done.
  - rewrite Ht. done.
  - rewrite Ht. by intros []%app_nil.
Qed.


(** The masking does not nest: after one of the setters has run, interrupts are
    enabled also when they were disabled before the call. *)
Lemma masked_set_unmasks old new b c :
  rtc cpu_step (mk_cpu b old (masked_set new) []) c → todo c = [] → unmasked c = true.
Proof.
  intros Hr.
  assert ((todo c = [] ∧ unmasked c = true) ∨ ∃ t, todo c = t ++ [MEnable]) as Hi.
  { remember (mk_cpu b old (masked_set new) []) as c0 eqn:E.
    assert ((todo c0 = [] ∧ unmasked c0 = true) ∨ ∃ t, todo c0 = t ++ [MEnable]) as H0.
    { subst; simpl. right. by exists (MDisable :: assign new). }
    clear E. induction Hr as [|c1 c2 c3 Hs _ IH]; [done|]. apply IH. clear IH.
    destruct Hs as [b' m t s|b' m t s|b' m i v t s|m t s]; simpl in *; [| | |done];
      destruct H0 as [[? _]|[[|k t'] Ht]]; simplify_eq/=; eauto. }
  destruct Hi as [[_ ?]|[t Ht]]; [done|]. rewrite Ht. by intros []%app_nil.
Qed.

(** ** The theorems on two-word handlers *)

Definition demo_end : cpu := mk_cpu true [3; 4]%Z [] [[3; 4]%Z; [1; 2]%Z].

Lemma demo_masked_run :
  rtc cpu_step (mk_cpu true [1; 2]%Z (masked_set [3; 4]%Z) []) demo_end.
Proof.
  eapply rtc_l; [apply cpu_interrupt|]. eapply rtc_l; [apply cpu_disable|].
  eapply rtc_l; [apply cpu_store|]. eapply rtc_l; [apply cpu_store|].
  eapply rtc_l; [apply cpu_enable|]. apply rtc_once, cpu_interrupt.
Qed.

Lemma masked_set_atomic_witness :
  Forall (λ v, v = [1; 2]%Z ∨ v = [3; 4]%Z) (seen demo_end) ∧ words demo_end = [3; 4]%Z.
Proof.
  destruct (masked_set_atomic [1; 2]%Z [3; 4]%Z true demo_end eq_refl demo_masked_run) as [H1 H2].
  split; [exact H1 | exact (H2 eq_refl)].
Defined.

