(* ===== verification/Safety.v ===== *)
(** * Programs that follow the rules do not fault

    A fault of the model is undefined behaviour of the code: a NULL pointer or a dead
    object is accessed, a NULL function is called, the wrong member of a union is read.
    [allowed] is what a caller has to respect; with a stack whose table is full and
    whose functions leave the [api] and [stack] members alone, an allowed call ends, and
    the only thing that can stop it is [operator new] running out of memory. *)
From S2P Require Import Prelude Types Interfaces SocketAddr DemoInet World Demo Socket.
From S2P Require Import UDPSocket TCPAsynch TCPStream TCPListener Dispatch Shape System DemoRuns.
From S2P Require Import Lifetimes Events Constructors.
From stdpp Require Import base gmap list strings.
From Stdlib Require Import ZArith Lia.

Section Tables.
Context {SA : SAL}.

(** A stack function leaves the members alone by which the classes find the stack. *)
Definition keeps {R} (f : api_call sal_state R) : Prop :=
  ∀ s S, sk_api (f s S).1.2 = sk_api s ∧ sk_stack (f s S).1.2 = sk_stack s.

Definition present {F} (P : F → Prop) (f : option F) : Prop := from_option P False f.

(** Every function the classes call without a test is in the table; [destroy], which
    they test, may be missing. *)
Record full_table (t : socket_api sal_state) : Prop := {
  ft_create af pf h : present keeps (arg3 api_create af pf h t);
  ft_destroy : from_option keeps True (api_destroy t);
  ft_close : present keeps (api_close t);
  ft_interval : present keeps (api_periodic_interval t);
  ft_task : present keeps (api_periodic_task t);
  ft_resolve a : present keeps (arg1 api_resolve a t);
  ft_str2addr d a : present keeps (arg2 api_str2addr d a t);
  ft_bind a n : present keeps (arg2 api_bind a n t);
  ft_connect a n : present keeps (arg2 api_connect a n t);
  ft_accept h : present keeps (arg1 api_accept h t);
  ft_start n : present keeps (arg1 api_start_listen n t);
  ft_stop : present keeps (api_stop_listen t);
  ft_recv b l : present keeps (arg2 api_recv b l t);
  ft_recv_from b l a n : present keeps (arg4 api_recv_from b l a n t);
  ft_send b l : present keeps (arg2 api_send b l t);
  ft_send_to b l a n : present keeps (arg4 api_send_to b l a n t);
  ft_option v o q n : present keeps (arg4 api_set_option v o q n t);
  ft_connected : is_Some (api_is_connected t);
  ft_local_addr a : is_Some (arg1 api_get_local_addr a t);
  ft_local_port n : is_Some (arg1 api_get_local_port n t);
  ft_remote_addr a : is_Some (arg1 api_get_remote_addr a t);
  ft_remote_port n : is_Some (arg1 api_get_remote_port n t)
}.
End Tables.

(** A stack layer that is set up before the program uses sockets: what is registered
    stays registered, the registered tables are full, and [socket_accept] leaves the
    [api] and [stack] members of both its sockets alone. *)
Class SALOk (SA : SAL) : Prop := {
  api_full id S : socket_get_api id S ≠ NULL → full_table (api_at (socket_get_api id S));
  api_stable id S S' : socket_get_api id S = socket_get_api id S';
  accept_keeps l s h S :
    let '(_, l', s', _) := socket_accept l s h S in
    sk_api l' = sk_api l ∧ sk_stack l' = sk_stack l ∧
    sk_api s' = sk_api s ∧ sk_stack s' = sk_stack s
}.

Create HintDb safety discriminated.
#[export] Hint Resolve ft_create ft_close ft_interval ft_task ft_resolve ft_str2addr ft_bind
  ft_connect ft_accept ft_start ft_stop ft_recv ft_recv_from ft_send ft_send_to ft_option
  ft_connected ft_local_addr ft_local_port ft_remote_addr ft_remote_port : safety.

Section Safety.
Context {SA : SAL} {MN : Minar} {RT : Runtime} {IN : Inet}.

(** [m] run from [w] ends in [Q], unless there is no memory for an object; [oom] is what
    can be said in that case. *)
Context (oom : Prop).
Definition safely {A} (m : M world A) (Q : A → world → Prop) (w : world) : Prop :=
  match m w with
  | Done (a, w') => Q a w'
  | Fault f => f = OutOfMemory ∧ oom
  end.

(** The struct of a socket is sound: its [api] is that of its stack, and it is open only
    if there is a stack. *)
Definition sound (k : socket) : Prop :=
  (∀ S, sk_api k = socket_get_api (sk_stack k) S) ∧ (sk_impl k ≠ NULL → sk_api k ≠ NULL).
Definition safe (w : world) : Prop := ∀ p o, heap w !! p = Some o → sound (sock_of o).
Definition safe_but (p : ptr) (w : world) : Prop :=
  ∀ q o, q ≠ p → heap w !! q = Some o → sound (sock_of o).

(** The [api] member of the object at an address, if there is one. *)
Definition api_of (w : world) (p : ptr) : option ptr := sk_api ∘ sock_of <$> heap w !! p.

(** A step that keeps the objects alive and their [api] members. *)
Definition good (w w' : world) : Prop :=
  safe w' ∧ ∀ q a, api_of w q = Some a → api_of w' q = Some a.

(** What a caller has to respect: no NULL address in [UDPSocket::connect], and a
    registered stack where the code does not test for one. *)
Definition has_stack (w : world) (p : ptr) : bool :=
  match api_of w p with Some a => bool_decide (a ≠ NULL) | None => false end.
Definition registered (w : world) (id : Z) : bool :=
  bool_decide (socket_get_api id (stack w) ≠ NULL).
Definition allowed (c : call) (w : world) : bool :=
  match c with
  | UdpConnect _ None _ => false
  | SetNagle p _ | Reject p _ _ | Accept p _ _ => has_stack w p
  | NewTCPStreamSock _ s => registered w (sk_stack s)
  | NewTCPStreamAccept _ l s => has_stack w l && registered w (sk_stack s)
  | _ => true
  end.

(** The calls that construct an object. *)
Definition allocates (c : call) : bool :=
  match c with
  | NewUDPSocket _ _ | NewTCPStream _ _ | NewTCPStreamSock _ _ | NewTCPStreamAccept _ _ _
  | NewTCPListener _ _ | Accept _ _ _ => true
  | _ => false
  end.

(** ** The rules of [safely] *)

Lemma safely_ret {A} (a : A) Q (w : world) : Q a w → safely (mret a) Q w.
Proof. done. Qed.

Lemma safely_bind {A B} (m : M world A) (k : A → M world B) Q w :
  safely m (λ a w', safely (k a) Q w') w → safely (m ≫= k) Q w.
Proof. unfold safely, mbind, M_bind. by destruct (m w) as [[]|]. Qed.

Lemma safely_mono {A} (m : M world A) (P Q : A → world → Prop) w :
  safely m P w → (∀ a w', P a w' → Q a w') → safely m Q w.
Proof. unfold safely. destruct (m w) as [[]|]; eauto. Qed.

Lemma safely_run {A} (m : M world A) a w' Q w : m w = Done (a, w') → Q a w' → safely m Q w.
Proof. unfold safely. by intros ->. Qed.

Lemma safely_get_socket p o Q (w : world) :
  heap w !! p = Some o → Q (sock_of o) w → safely (get_socket p) Q w.
Proof. intros Ho. unfold safely, get_socket. by rewrite (get_obj_bind _ o). Qed.

Lemma safely_get_obj p o Q (w : world) :
  heap w !! p = Some o → Q o w → safely (get_obj p) Q w.
Proof. intros Ho. unfold safely. by rewrite (get_obj_run _ o). Qed.

(** ** Steps that keep the objects sound *)

#[global] Instance good_trans : Transitive good.
Proof. intros w1 w2 w3 [_ H1] [H2 H3]. split; eauto. Qed.

Lemma good_refl w : safe w → good w w.
Proof. by split. Qed.

Lemma good_heap w w' : safe w → heap w' = heap w → good w w'.
Proof. intros Hs Hh. split; [intros p o; rewrite Hh; apply Hs | intros q a; unfold api_of; by rewrite Hh]. Qed.

Lemma api_of_Some w p a :
  api_of w p = Some a ↔ ∃ o, heap w !! p = Some o ∧ sk_api (sock_of o) = a.
Proof. unfold api_of. rewrite fmap_Some. simpl. naive_solver. Qed.

Lemma good_insert w w' p o o' :
  safe w → heap w !! p = Some o → heap w' = <[p := o']> (heap w) →
  sound (sock_of o') → sk_api (sock_of o') = sk_api (sock_of o) → good w w'.
Proof.
  intros Hs Ho Hw Hk Ha. split.
  - intros q k. rewrite Hw, lookup_insert. case_decide; [by intros [= <-] | apply Hs].
  - intros q a (k & Hq & <-)%api_of_Some. apply api_of_Some. rewrite Hw, lookup_insert.
    case_decide; subst; simplify_eq; eauto.
Qed.

(** An assignment to a member that does not touch the struct, or keeps it sound. *)
Lemma safely_upd p o f (Q : unit → world → Prop) w :
  safe w → heap w !! p = Some o → sound (sock_of (f o)) → sk_api (sock_of (f o)) = sk_api (sock_of o) →
  (∀ w', good w w' → Q tt w') → safely (upd_obj p f) Q w.
Proof.
  intros Hs Ho Hk Ha HQ. eapply safely_run; [by apply upd_obj_run|]. apply HQ.
  by eapply good_insert.
Qed.

Lemma safely_upd_same p a f (Q : unit → world → Prop) w :
  safe w → api_of w p = Some a → (∀ o, sock_of (f o) = sock_of o) →
  (∀ w', good w w' → Q tt w') → safely (upd_obj p f) Q w.
Proof.
  intros Hs (o & Ho & _)%api_of_Some Hf. eapply safely_upd; eauto; rewrite Hf; [eapply Hs, Ho | done].
Qed.

Lemma safely_modify f (Q : unit → world → Prop) w :
  safe w → heap (f w) = heap w → (∀ w', good w w' → Q tt w') → safely (modify f) Q w.
Proof. intros Hs Hf HQ. by apply HQ, good_heap. Qed.

(** Access to an object that is alive. *)
Lemma safely_get p a (Q : socket → world → Prop) w :
  safe w → api_of w p = Some a → (∀ k, sound k → sk_api k = a → Q k w) → safely (get_socket p) Q w.
Proof.
  intros Hs (o & Ho & Ha)%api_of_Some HQ. eapply safely_get_socket; [done|].
  apply HQ; [eapply Hs, Ho | done].
Qed.

Lemma safely_obj p a (Q : object → world → Prop) w :
  api_of w p = Some a → (∀ o, Q o w) → safely (get_obj p) Q w.
Proof. intros (o & Ho & _)%api_of_Some HQ. by eapply safely_get_obj. Qed.

Section stack.
Context `{SO : !SALOk SA}.

Lemma sound_table k : sound k → sk_api k ≠ NULL → ∀ S : sal_state, full_table (api_at (sk_api k)).
Proof. intros [Hk _] Hn S. rewrite (Hk S) in *. by apply api_full. Qed.

(** A call through the table of a socket that has a stack. *)
Lemma safely_call {R} p a (fn : socket_api sal_state → option (api_call sal_state R))
    (Q : R → world → Prop) w :
  safe w → api_of w p = Some a → a ≠ NULL →
  (full_table (api_at a) → present keeps (fn (api_at a))) →
  (∀ r w', good w w' → Q r w') → safely (call_api p fn) Q w.
Proof.
  intros Hs (o & Ho & <-)%api_of_Some Ha Hf HQ. pose proof (Hs _ _ Ho) as Hk.
  specialize (Hf (sound_table _ Hk Ha (stack w))).
  destruct (fn _) as [f|] eqn:E; [|done]. simpl in Hf.
  specialize (Hf (sock_of o) (stack w)).
  destruct (f (sock_of o) (stack w)) as [[r s'] S'] eqn:Ef. destruct Hf as [H1 H2]. simpl in *.
  eapply safely_run; [by eapply call_api_run|]. apply HQ.
  eapply good_insert; [done | done | done | | done].
  change (sound s'). destruct Hk as [Hk _]. split; intros; rewrite H1, ?H2; auto.
Qed.

Lemma safely_query {R} p a (fn : socket_api sal_state → option (api_query sal_state R))
    (Q : R → world → Prop) w :
  safe w → api_of w p = Some a → a ≠ NULL → (full_table (api_at a) → is_Some (fn (api_at a))) →
  (∀ r w', good w w' → Q r w') → safely (query_api p fn) Q w.
Proof.
  intros Hs (o & Ho & <-)%api_of_Some Ha Hf HQ.
  destruct (Hf (sound_table _ (Hs _ _ Ho) Ha (stack w))) as [f E].
  destruct (f (sock_of o) (stack w)) as [r S'] eqn:Ef.
  eapply safely_run; [by eapply query_api_run|]. by apply HQ, good_heap.
Qed.

(** ** Ordinary methods *)

(** A method of the object at [p] that ends, whatever the state of the object. *)
Definition steady {A} (p : ptr) (m : M world A) : Prop :=
  ∀ w0 w a, good w0 w → api_of w p = Some a → safely m (λ _ w', good w0 w') w.

Lemma steady_bind {A B} p (m : M world A) (k : A → M world B) :
  steady p m → (∀ x, steady p (k x)) → steady p (m ≫= k).
Proof.
  intros Hm Hk w0 w a Hg Ha. apply safely_bind.
  eapply safely_mono; [eapply (Hm w w); [apply good_refl, Hg | done]|].
  intros x w' Hw'. eapply Hk; [by transitivity w | by apply Hw'].
Qed.

Lemma steady_ret {A} p (x : A) : steady p (mret x).
Proof. by intros w0 w a Hg Ha. Qed.

Lemma steady_returning {A} p (f : A → ret) (m : M world A) : steady p m → steady p (returning f m).
Proof. intros H. apply steady_bind; [done | intros x; apply steady_ret]. Qed.

Lemma steady_get {A} p (k : socket → M world A) :
  (∀ s, sound s → ∀ w0 w, good w0 w → api_of w p = Some (sk_api s) →
        safely (k s) (λ _ w', good w0 w') w) →
  steady p (get_socket p ≫= k).
Proof.
  intros Hk w0 w a Hg Ha. apply safely_bind. eapply safely_get; [apply Hg | done|].
  intros s Hs <-. by apply Hk.
Qed.

Lemma steady_upd p f : (∀ o, sock_of (f o) = sock_of o) → steady p (upd_obj p f).
Proof.
  intros Hf w0 w a Hg Ha. eapply safely_upd_same; [apply Hg | done | done|].
  intros w' Hw. by transitivity w.
Qed.

Lemma steady_family p f : steady p (upd_obj p (on_Socket (on_socket (set_sk_family f)))).
Proof.
  intros w0 w a Hg (o & Ho & _)%api_of_Some. eapply safely_upd; [apply Hg | done | | done |].
  - apply Hg in Ho. exact Ho.
  - intros w' Hw. by transitivity w.
Qed.

Lemma steady_modify p f : (∀ w, heap (f w) = heap w) → steady p (modify f).
Proof.
  intros Hf w0 w a Hg Ha. change (good w0 (f w)). transitivity w; [done|].
  by apply good_heap; [apply Hg|].
Qed.

Lemma steady_gets {A} p (f : world → A) : steady p (gets f).
Proof. by intros w0 w a Hg Ha. Qed.

Lemma steady_call {R} p a (fn : socket_api sal_state → option (api_call sal_state R)) w0 w :
  good w0 w → api_of w p = Some a → a ≠ NULL →
  (full_table (api_at a) → present keeps (fn (api_at a))) →
  safely (call_api p fn) (λ _ w', good w0 w') w.
Proof.
  intros Hg Ha Hn Hf. eapply safely_call; [apply Hg | done..|]. intros r w' Hw. by transitivity w.
Qed.

Lemma steady_query {R} p a (fn : socket_api sal_state → option (api_query sal_state R)) w0 w :
  good w0 w → api_of w p = Some a → a ≠ NULL →
  (full_table (api_at a) → is_Some (fn (api_at a))) →
  safely (query_api p fn) (λ _ w', good w0 w') w.
Proof.
  intros Hg Ha Hn Hf. eapply safely_query; [apply Hg | done..|]. intros r w' Hw. by transitivity w.
Qed.

Lemma safely_steady {A B} p a (m : M world A) (k : A → M world B) w0 w Q :
  steady p m → good w0 w → api_of w p = Some a →
  (∀ x w', good w0 w' → api_of w' p = Some a → safely (k x) Q w') → safely (m ≫= k) Q w.
Proof.
  intros Hm Hg Ha Hk. apply safely_bind.
  eapply safely_mono; [eapply (Hm w w); [apply good_refl, Hg | done]|].
  intros x w' Hw. apply Hk; [by transitivity w | by apply Hw].
Qed.

(** The api of an open socket. *)
Lemma open_api s : sound s → sk_impl s ≠ NULL → sk_api s ≠ NULL.
Proof. intros [_ H]. exact H. Qed.

Hint Resolve steady_ret steady_get steady_upd steady_family steady_modify steady_gets
  steady_returning open_api : safety.

(** Close a call through the table, with or without a continuation. *)
Ltac table_call :=
  lazymatch goal with
  | |- safely (call_api _ _) _ _ => eapply steady_call
  | |- safely (query_api _ _) _ _ => eapply steady_query
  | |- safely (call_api _ _ ≫= _) _ _ =>
    apply safely_bind; eapply safely_mono; [eapply steady_call|]
  | |- safely (query_api _ _ ≫= _) _ _ =>
    apply safely_bind; eapply safely_mono; [eapply steady_query|]
  end; eauto with safety; simpl.

(** A method that reads its struct, branches on it, and makes at most one call. *)
Ltac guarded :=
  apply steady_get; intros s Hs w0 w Hg Ha;
  repeat (case_decide || case_match); try exact Hg; table_call;
  intros; repeat case_match; done.

Lemma steady_Socket_open p af pf : steady p (Socket_open p af pf).
Proof. guarded. Qed.

Lemma steady_close p : steady p (close p).
Proof. guarded. Qed.

Lemma steady_recv p b l : steady p (recv p b l).
Proof. guarded. Qed.

Lemma steady_recv_from p b l a n raw : steady p (recv_from p b l a n raw).
Proof. guarded. Qed.

Lemma steady_send p b l : steady p (send p b l).
Proof. guarded. Qed.

Lemma steady_send_to p b l a n : steady p (send_to p b l a n).
Proof. guarded. Qed.

Lemma steady_isConnected p : steady p (isConnected p).
Proof. guarded. Qed.

Lemma steady_getLocalAddr p a : steady p (getLocalAddr p a).
Proof. guarded. Qed.

Lemma steady_getRemoteAddr p a : steady p (getRemoteAddr p a).
Proof. guarded. Qed.

Lemma steady_getLocalPort p n : steady p (getLocalPort p n).
Proof. guarded. Qed.

Lemma steady_getRemotePort p n : steady p (getRemotePort p n).
Proof. guarded. Qed.

Lemma steady_stop_listening p : steady p (stop_listening p).
Proof. guarded. Qed.

Lemma steady_UDPSocket_connect p a n : steady p (UDPSocket_connect p (Some a) n).
Proof. guarded. Qed.

(** Methods that store a handler before they call the stack. *)
Ltac storing :=
  apply steady_get; intros s Hs w0 w Hg Ha; repeat case_decide; try exact Hg;
  eapply safely_steady; [by apply steady_upd | done | done|];
  intros x w' Hg' Ha'; table_call.

Lemma steady_resolve p a h : steady p (resolve p a h).
Proof. storing. Qed.

Lemma steady_TCPStream_connect p a n h : steady p (TCPStream_connect p a n h).
Proof. storing. Qed.

Lemma steady_start_listening p h n : steady p (start_listening p h n).
Proof. storing. Qed.

(** Nothing but assignments outside the struct. *)
Ltac assigning :=
  unfold setOnError, setOnReadable, setOnSent, setOnDisconnect, disable_irq, enable_irq, post;
  repeat first [ apply steady_upd; done | apply steady_modify; done | apply steady_gets
               | apply steady_ret | apply steady_bind; [|intro] ].

Lemma steady_setOnError p h : steady p (setOnError p h).
Proof. assigning. Qed.

Lemma steady_setOnReadable p h : steady p (setOnReadable p h).
Proof. assigning. Qed.

Lemma steady_setOnSent p h : steady p (setOnSent p h).
Proof. assigning. Qed.

Lemma steady_setOnDisconnect p h : steady p (setOnDisconnect p h).
Proof. assigning. Qed.

Lemma steady_get_obj p : steady p (get_obj p).
Proof. intros w0 w a Hg Ha. by eapply safely_obj. Qed.

Lemma steady_error_check p e : steady p (error_check p e).
Proof.
  unfold error_check. case_decide; [apply steady_ret|].
  apply steady_bind; [apply steady_get_obj | intros o]. assigning.
Qed.

(** The virtual [open] succeeds only if there is a stack. *)
Lemma v_open_api p af pf w0 w a :
  good w0 w → api_of w p = Some a →
  safely (v_open p af pf) (λ e w', good w0 w' ∧ (e = SOCKET_ERROR_NONE → a ≠ NULL)) w.
Proof.
  intros Hg Ha. simpl. apply safely_bind. eapply safely_obj; [done|]. intros o.
  destruct (vptr o); simpl; try (by apply safely_ret).
  unfold Socket_open. apply safely_bind. eapply safely_get; [apply Hg | done|].
  intros s Hs <-. case_decide; [by apply safely_ret|].
  eapply safely_mono; [eapply steady_call; eauto with safety | done].
Qed.

Lemma steady_bind_addr p a n : steady p (bind p a n).
Proof.
  destruct a as [a|]; [|apply steady_ret].
  apply steady_get. intros s Hs w0 w Hg Ha. apply safely_bind. case_decide as Hi.
  - eapply safely_mono; [by apply (v_open_api _ _ _ w w _ (good_refl w (proj1 Hg)) Ha)|].
    intros e w' [Hw He]. case_decide; [|by apply safely_ret; transitivity w].
    eapply steady_call; [by transitivity w | by apply Hw | auto | eauto with safety].
  - apply safely_ret. rewrite decide_True by done. table_call.
Qed.

Lemma steady_bind_str p a n raw : steady p (bind_str p a n raw).
Proof.
  apply steady_get. intros s Hs w0 w Hg Ha. case_decide as Hi; [done|].
  apply safely_bind. eapply safely_call; [apply Hg | done | eauto with safety | eauto with safety|].
  intros r w' Hw. case_decide; [|by apply safely_ret; transitivity w].
  eapply steady_bind_addr; [by transitivity w | by apply Hw].
Qed.

Lemma safely_setNagle p b w a :
  safe w → api_of w p = Some a → a ≠ NULL → safely (setNagle p b) (λ _ w', good w w') w.
Proof.
  intros Hs Ha Hn. pose proof (good_refl w Hs). unfold setNagle. table_call.
Qed.

Lemma safely_reject p i raw w a :
  safe w → api_of w p = Some a → a ≠ NULL → safely (reject p i raw) (λ _ w', good w w') w.
Proof.
  intros Hs Ha Hn. apply safely_bind. eapply safely_get; [done..|]. intros s Hk <-.
  pose proof (ft_close _ (sound_table _ Hk Hn (stack w))) as Hc.
  destruct (api_close (api_at (sk_api s))) as [f|] eqn:E; [|done].
  apply safely_bind. eapply safely_run; [by apply load_api_run|].
  apply safely_bind, (safely_run _ (stack w) w); [done|].
  destruct (f _ (stack w)) as [[r s'] S']. by apply good_heap.
Qed.

(** ** Destructors *)

Lemma steady_Socket_dtor p : steady p (Socket_dtor p).
Proof.
  apply steady_bind; [by apply steady_upd | intros _].
  apply steady_get. intros s Hs w0 w Hg Ha. case_decide as Hn; [|done].
  pose proof (ft_destroy _ (sound_table _ Hs Hn (stack w))) as Hd.
  destruct (api_destroy (api_at (sk_api s))) as [f|] eqn:E; [|done].
  apply safely_bind. eapply safely_call; [apply Hg | done | done | by rewrite E|].
  intros e w' Hw. eapply steady_bind;
    [apply steady_error_check | intros; apply steady_ret | by transitivity w | by apply Hw].
Qed.

Lemma steady_UDPSocket_dtor p : steady p (UDPSocket_dtor p).
Proof. apply steady_bind; [by apply steady_upd | intros _; apply steady_Socket_dtor]. Qed.

Lemma steady_TCPAsynch_dtor p : steady p (TCPAsynch_dtor p).
Proof.
  apply steady_bind; [by apply steady_upd | intros _].
  apply steady_bind; [by apply steady_modify | intros _].
  apply steady_bind; [apply steady_gets | intros n].
  apply steady_bind; [apply steady_gets | intros h].
  apply steady_bind; [unfold cancel_callback; case_decide; assigning|].
  intros _. apply steady_Socket_dtor.
Qed.

Lemma steady_TCPStream_dtor p : steady p (TCPStream_dtor p).
Proof. apply steady_bind; [by apply steady_upd | intros _; apply steady_TCPAsynch_dtor]. Qed.

Lemma steady_TCPListener_dtor p : steady p (TCPListener_dtor p).
Proof.
  apply steady_bind; [by apply steady_upd | intros _].
  apply steady_bind; [apply steady_stop_listening | intros _; apply steady_TCPAsynch_dtor].
Qed.

Lemma safe_release p Q (w : world) :
  safe w → (∀ w', safe w' → Q tt w') → safely (release p) Q w.
Proof. intros Hs HQ. apply HQ. intros q o. simpl. intros [_ Hq]%lookup_delete_Some. by eapply Hs. Qed.

Lemma safely_delete p w a :
  safe w → api_of w p = Some a → safely (delete_object p) (λ _ w', safe w') w.
Proof.
  intros Hs Ha. apply safely_bind. eapply safely_obj; [done|]. intros o. apply safely_bind.
  assert (steady p (dtor_of (vptr o) p)) as Hd.
  { destruct (vptr o); simpl; auto using steady_Socket_dtor, steady_UDPSocket_dtor,
      steady_TCPAsynch_dtor, steady_TCPStream_dtor, steady_TCPListener_dtor. }
  eapply safely_mono; [by eapply Hd; [apply good_refl|]|].
  intros ? w' [Hw _]. by apply safe_release.
Qed.

(** ** Constructors *)

(** The object at [p] has been built on stack [st], and the others are as good. *)
Definition built (p : ptr) (st : Z) (w w' : world) : Prop :=
  safe w' ∧ api_of w' p = Some (socket_get_api st (stack w)) ∧
  ∀ q a, q ≠ p → api_of w q = Some a → api_of w' q = Some a.

(** A constructor of stack [st], run over storage of any contents. *)
Definition builds {A} (p : ptr) (st : Z) (m : M world A) : Prop :=
  ∀ raw w, heap w !! p = Some raw → safe_but p w → safely m (λ _ w', built p st w w') w.

Lemma built_good p st w w1 w2 : built p st w w1 → good w1 w2 → built p st w w2.
Proof. intros (H1 & H2 & H3) [H4 H5]. split; [done|]. split; eauto. Qed.

Lemma builds_bind {A B} p st (m : M world A) (k : A → M world B) :
  builds p st m → (∀ x, steady p (k x)) → builds p st (m ≫= k).
Proof.
  intros Hm Hk raw w Ho Hs. apply safely_bind. eapply safely_mono; [by eapply Hm|].
  intros x w1 Hb. pose proof Hb as (H1 & H2 & _).
  eapply safely_mono; [exact (Hk x w1 w1 _ (good_refl w1 H1) H2)|].
  intros y w2 Hg. exact (built_good _ _ _ _ _ Hb Hg).
Qed.

Lemma builds_Socket p st : builds p st (Socket_ctor p st).
Proof.
  intros raw w Ho Hs. eapply safely_run; [by apply Socket_ctor_run|]. split; [|split].
  - intros q o. simpl. rewrite lookup_insert. case_decide; [|by apply Hs]. intros [= <-].
    split; [intros S; apply api_stable | done].
  - apply api_of_Some. simpl. rewrite lookup_insert_eq. eauto.
  - intros q a Hq (o & Hqo & <-)%api_of_Some. apply api_of_Some. simpl.
    rewrite lookup_insert_ne by done. eauto.
Qed.

Lemma builds_UDPSocket p st : builds p st (UDPSocket_ctor p st).
Proof.
  apply builds_bind; [apply builds_Socket | intros _].
  apply steady_bind; [by apply steady_upd | intros _; apply steady_family].
Qed.

Lemma steady_start_tick p : steady p (start_tick p).
Proof.
  apply steady_get. intros s Hs w0 w Hg Ha. case_decide as Hn; [|done].
  apply safely_bind. eapply safely_call; [apply Hg | done | done | eauto with safety|].
  intros i w1 H1. apply safely_bind.
  eapply safely_call; [apply H1 | by apply H1 | done | eauto with safety|].
  intros f w2 H2. apply safely_bind.
  destruct (postPeriodic f (milliseconds (u32 i)) (u32 i / 2) (sched w2)) as [h S'] eqn:E.
  eapply safely_run; [unfold post_periodic; by rewrite E|].
  change (good w0 (set_tick_handle h (set_sched S' w2))).
  transitivity w; [done|]. transitivity w1; [done|]. transitivity w2; [done|].
  by apply good_heap; [apply H2|].
Qed.

Lemma builds_TCPAsynch p st : builds p st (TCPAsynch_ctor p st).
Proof.
  apply builds_bind; [apply builds_Socket | intros _].
  apply steady_bind; [by apply steady_upd | intros _].
  apply steady_bind; [apply steady_family | intros _].
  apply steady_bind; [apply steady_gets | intros n].
  apply steady_bind; [case_decide; [apply steady_start_tick | apply steady_ret]|].
  intros _. by apply steady_modify.
Qed.

Lemma builds_TCPStream p st : builds p st (TCPStream_init p st).
Proof. apply builds_bind; [apply builds_TCPAsynch | intros _]. assigning. Qed.

Lemma builds_TCPListener p st : builds p st (TCPListener_ctor p st).
Proof. apply builds_bind; [apply builds_TCPAsynch | intros _]. assigning. Qed.

(** Taking over an accepted connection is sound when the stack is registered. *)
Lemma safely_adopt p sock w0 w a :
  good w0 w → api_of w p = Some a → a ≠ NULL → safely (adopt p sock) (λ _ w', good w0 w') w.
Proof.
  intros Hg Ha Hn. eapply safely_steady; [apply steady_family | done | done|].
  intros _ w1 H1 (o & Ho & Hoa)%api_of_Some. eapply safely_upd; [apply H1 | done | | done |].
  - split; [apply (proj1 H1 _ _ Ho) | intros _]. unfold sock_of in *; simpl. by rewrite Hoa.
  - intros w2 H2. by transitivity w1.
Qed.

Lemma safely_ctor_sock p raw sock w :
  heap w !! p = Some raw → safe_but p w → registered w (sk_stack sock) = true →
  safely (TCPStream_ctor_sock p sock) (λ _ w', safe w') w.
Proof.
  intros Ho Hs Hr%bool_decide_eq_true. apply safely_bind.
  eapply safely_mono; [by eapply builds_TCPStream|]. intros _ w1 (H1 & H2 & _).
  apply safely_bind. eapply safely_mono; [by eapply safely_adopt; [apply good_refl | ..]|].
  intros _ w2 [H3 H4]. apply safely_bind.
  eapply safely_call; [done | by apply H4 | done | eauto with safety|].
  intros e w3 [H5 H6]. eapply safely_mono.
  - eapply steady_bind; [apply steady_error_check | intros; apply steady_ret | by apply good_refl |].
    by apply H6, H4.
  - by intros _ w4 [H7 _].
Qed.

Lemma builds_accept p l sock raw al w :
  heap w !! p = Some raw → safe_but p w → l ≠ p → api_of w l = Some al → al ≠ NULL →
  socket_get_api (sk_stack sock) (stack w) ≠ NULL →
  safely (TCPStream_ctor_accept p l sock) (λ _ w', built p (sk_stack sock) w w') w.
Proof.
  intros Ho Hs Hl Hal Hn Hr. apply safely_bind.
  eapply safely_mono; [by eapply builds_TCPStream|]. intros [] w1 Hb. pose proof Hb as (H1 & H2 & H3).
  apply safely_bind. eapply safely_mono; [by eapply safely_adopt; [apply good_refl | ..]|].
  intros [] w2 Hg2. pose proof Hg2 as [H4 H5].
  apply safely_bind. eapply safely_get; [done | by apply H5, H3|]. intros kl Hkl Hla.
  apply safely_bind. eapply safely_get; [done | by apply H5|]. intros kp Hkp Hpa.
  apply safely_bind, (safely_run _ (stack w2) w2); [done|].
  pose proof (accept_keeps kl kp (CThunk_entry p) (stack w2)) as Hk.
  destruct (socket_accept kl kp (CThunk_entry p) (stack w2)) as [[[e l'] s'] S'].
  destruct Hk as (Ka & Kb & Kc & Kd). apply safely_bind.
  assert (sound l') as Hl' by (split; intros; rewrite Ka, ?Kb; [apply Hkl | by rewrite Hla]).
  assert (sound s') as Hs' by (split; intros; rewrite Kc, ?Kd; [apply Hkp | by rewrite Hpa]).
  destruct (proj1 (api_of_Some w2 l al) (H5 _ _ (H3 _ _ Hl Hal))) as (ol & Hol & Hola).
  eapply safely_upd; [done | exact Hol | exact Hl' | by rewrite Hola; unfold sock_of; simpl; rewrite Ka|].
  intros w3 Hg3. pose proof Hg3 as [H6 H7]. apply safely_bind.
  destruct (proj1 (api_of_Some w3 p _) (H7 _ _ (H5 _ _ H2))) as (op & Hop & Hopa).
  eapply safely_upd; [done | exact Hop | exact Hs' | by rewrite Hopa; unfold sock_of; simpl; rewrite Kc|].
  intros w4 Hg4. change (built p (sk_stack sock) w (set_stack S' w4)).
  eapply built_good; [exact Hb|]. transitivity w2; [done|]. transitivity w3; [done|].
  transitivity w4; [done|]. by apply good_heap; [apply Hg4|].
Qed.

(** ** Storage for a new object *)

Context `{RL : !RuntimeLaws RT}.

Lemma safely_new_storage raw (Q : ptr → world → Prop) w :
  safe w → (operator_new (dom (heap w)) = None → oom) →
  (∀ p w1, heap w !! p = None → heap w1 !! p = Some raw → safe_but p w1 → stack w1 = stack w →
     (∀ q a, api_of w q = Some a → q ≠ p ∧ api_of w1 q = Some a) → Q p w1) →
  safely (new_storage raw) Q w.
Proof.
  intros Hs Hm HQ. unfold safely, new_storage.
  destruct (operator_new (dom (heap w))) as [p|] eqn:Hp; [|by split; [|apply Hm]].
  assert (heap w !! p = None) as Hf by (by apply not_elem_of_dom, (new_fresh _ _ Hp)).
  unfold place, mbind, M_bind. rewrite Hf. simpl.
  apply HQ; simpl; [done | apply lookup_insert_eq | | done|].
  - intros q o Hq. simpl. rewrite lookup_insert_ne by done. apply Hs.
  - intros q a (o & Ho & <-)%api_of_Some. assert (q ≠ p) by congruence. split; [done|].
    apply api_of_Some. simpl. rewrite lookup_insert_ne by done. eauto.
Qed.

Lemma safely_new_object {A} raw st (ctor : ptr → M world A) w :
  safe w → (operator_new (dom (heap w)) = None → oom) →
  (∀ p, builds p st (ctor p)) → safely (new_object raw ctor) (λ _ w', safe w') w.
Proof.
  intros Hs Hm Hc. apply safely_bind, safely_new_storage; [done..|].
  intros p w1 _ H1 H2 _ _. apply safely_bind. eapply safely_mono; [by eapply Hc|].
  intros x w2 (H3 & _). exact H3.
Qed.

Lemma has_stack_true w p : has_stack w p = true ↔ ∃ a, api_of w p = Some a ∧ a ≠ NULL.
Proof.
  unfold has_stack. destruct (api_of w p) as [a|]; [|naive_solver].
  rewrite bool_decide_eq_true. naive_solver.
Qed.

Lemma safely_accept p i raw w :
  safe w → (operator_new (dom (heap w)) = None → oom) → has_stack w p = true →
  safely (accept p i raw) (λ _ w', safe w') w.
Proof.
  intros Hs Hm (a & Ha & Hn)%has_stack_true. apply safely_bind. eapply safely_get; [done..|].
  intros k Hk Hka. apply safely_bind, safely_new_storage; [done..|].
  intros q w1 _ H1 H2 H3 H4. destruct (H4 _ _ Ha) as [Hpq Hap]. apply safely_bind.
  eapply safely_mono; [eapply builds_accept; [done..|]|].
  { simpl. rewrite <- (proj1 Hk). by rewrite Hka. }
  intros e w2 (H5 & H6 & _). case_decide; [|done].
  apply safely_bind. eapply safely_mono.
  - eapply steady_TCPStream_dtor; [by apply good_refl | exact H6].
  - intros _ w3 [H7 _]. apply safely_bind. by apply safe_release.
Qed.

Hint Resolve steady_Socket_open steady_close steady_recv steady_recv_from steady_send
  steady_send_to steady_isConnected steady_getLocalAddr steady_getRemoteAddr steady_getLocalPort
  steady_getRemotePort steady_stop_listening steady_UDPSocket_connect steady_resolve
  steady_TCPStream_connect steady_start_listening steady_setOnError steady_setOnReadable
  steady_setOnSent steady_setOnDisconnect steady_error_check steady_bind_addr
  steady_bind_str : safety.

Lemma well_typed_api c p cs w :
  well_typed c w = true → receiver c = Some (p, cs) → ∃ a, api_of w p = Some a.
Proof.
  unfold well_typed. intros H Hr. rewrite Hr in H. destruct (shape w !! p) as [k|] eqn:E; [|done].
  unfold shape in E. rewrite lookup_fmap in E. unfold api_of.
  destruct (heap w !! p); [simpl; eauto | done].
Qed.

Lemma safely_exec c w :
  safe w → (allocates c = true → operator_new (dom (heap w)) = None → oom) →
  well_typed c w = true → allowed c w = true → safely (exec c) (λ _ w', safe w') w.
Proof.
  intros Hs Hm Hw Hl.
  assert (∀ p m, (∃ a, api_of w p = Some a) → steady p m → safely m (λ (_ : ret) w', safe w') w) as Hst.
  { intros p m [a Ha] Hst. eapply safely_mono; [by eapply Hst; [apply good_refl|]|]. by intros ? ? []. }
  destruct c; simpl in Hl; try specialize (Hm eq_refl);
    try (apply (Hst this); [exact (well_typed_api _ _ _ w Hw eq_refl)|];
         simpl; unfold UDPSocket_open, TCPAsynch_open; solve [eauto with safety]).
  - eapply (safely_new_object _ stack_id); [done..|]. intros p. apply builds_UDPSocket.
  - eapply (safely_new_object _ stack_id); [done..|]. intros p. apply builds_TCPStream.
  - apply safely_bind, safely_new_storage; [done..|]. intros p w1 _ H1 H2 H3 _.
    apply safely_bind. eapply safely_mono; [|intros ? ? H; exact H].
    eapply safely_ctor_sock; [done | done |]. unfold registered in *. by rewrite H3.
  - apply andb_true_iff in Hl as [(a & Ha & Hn)%has_stack_true Hr%bool_decide_eq_true].
    apply safely_bind, safely_new_storage; [done..|]. intros p w1 _ H1 H2 H3 H4.
    destruct (H4 _ _ Ha) as [H5 H6].
    apply safely_bind. eapply safely_mono; [eapply builds_accept; [done..|]; by rewrite H3|].
    intros ? ? (H & _). exact H.
  - eapply (safely_new_object _ stack_id); [done..|]. intros p. apply builds_TCPListener.
  - destruct (well_typed_api _ _ _ w Hw eq_refl) as [a Ha].
    apply safely_bind. eapply safely_mono; [by eapply safely_delete | done].
  - destruct address; [|done].
    apply (Hst this); [exact (well_typed_api _ _ _ w Hw eq_refl) | simpl; eauto with safety].
  - apply has_stack_true in Hl as (a & Ha & Hn). apply safely_bind.
    eapply safely_mono; [by eapply safely_setNagle | by intros ? ? []].
  - apply safely_bind. eapply safely_mono; [by apply safely_accept | done].
  - apply has_stack_true in Hl as (a & Ha & Hn). apply safely_bind.
    eapply safely_mono; [by eapply safely_reject | by intros ? ? []].
Qed.
End stack.
End Safety.

(** ** Programs *)

Section proper.
Context {SA : SAL} {MN : Minar} {RT : Runtime} {IN : Inet}.

(** The worlds of a program that follows the rules, on a stack that raises well-formed
    events on sockets that are alive. *)
Inductive proper : world → Prop :=
| proper_init w : initial w → proper w
| proper_call c r w w' :
    proper w → well_typed c w = true → allowed c w = true →
    exec c w = Done (r, w') → proper w'
| proper_interrupt p ev w w' :
    proper w → irq_enabled w = true → is_Some (heap w !! p) → event_wf ev = true →
    interrupt p ev w = Done (tt, w') → proper w'
| proper_stack S' w : proper w → proper (set_stack S' w)
| proper_dispatch c s' w :
    proper w → pending (sched w) ≡ₚ c :: pending s' → periodic s' = periodic (sched w) →
    proper (set_sched s' w).

Lemma proper_reachable w : proper w → reachable w.
Proof.
  induction 1; [by apply reachable_init|..]; eapply reachable_step; try done.
  - by eapply step_call.
  - by eapply step_interrupt.
  - apply step_stack.
  - by eapply step_dispatch.
Qed.

Context `{ML : !MinarLaws MN} `{RL : !RuntimeLaws RT} `{SO : !SALOk SA}.

Lemma safe_interrupt p o ev w :
  heap w !! p = Some o → safe w →
  safe (posted (delivery o p ev) (set_heap (<[p := after_event ev o]> (heap w)) w)).
Proof.
  intros Ho Hs q k. rewrite posted_heap. simpl. rewrite lookup_insert.
  case_decide; [|apply Hs]. intros [= <-]. exact (Hs _ _ Ho).
Qed.

Lemma proper_safe w : proper w → safe w.
Proof.
  induction 1 as [w Hi|c r w w' Hp IH Ht Hl He|p ev w w' Hp IH _ [o Ho] Hev Hr|S' w _ IH|c s' w _ IH].
  - intros p o. destruct Hi as [-> _]. by rewrite lookup_empty.
  - pose proof (safely_exec True c w IH (λ _ _, I) Ht Hl) as Hs.
    unfold safely in Hs. by rewrite He in Hs.
  - rewrite (interrupt_run p o) in Hr by done.
    injection Hr as <-. by apply safe_interrupt.
  - exact IH.
  - exact IH.
Qed.

(** A call that constructs nothing completes. *)
Lemma call_completes c (w : world) :
  proper w → well_typed c w = true → allowed c w = true → allocates c = false →
  ∃ r w', exec c w = Done (r, w') ∧ proper w'.
Proof.
  intros Hp Ht Hl Hn.
  assert (allocates c = true → operator_new (dom (heap w)) = None → False) as Hm by by rewrite Hn.
  pose proof (safely_exec _ c w (proper_safe w Hp) Hm Ht Hl) as Hs. unfold safely in Hs.
  destruct (exec c w) as [[r w']|f] eqn:E; [|by destruct Hs].
  exists r, w'. split; [done|]. by eapply proper_call.
Qed.

(** C1: in a program that follows the rules an allowed call runs to its end, in a world
    of such a program again; it never dereferences NULL, calls a NULL function, touches
    a dead object or reads the wrong member of an event.  The one exception is a
    constructing call when [operator new] has no storage left. *)
Theorem allowed_calls_complete c (w : world) :
  proper w → well_typed c w = true → allowed c w = true →
  (∃ r w', exec c w = Done (r, w') ∧ proper w') ∨
  (exec c w = Fault OutOfMemory ∧ allocates c = true ∧ operator_new (dom (heap w)) = None).
Proof.
  intros Hp Ht Hl. pose proof (safely_exec _ c w (proper_safe w Hp) (λ H H', conj H H') Ht Hl) as Hs.
  unfold safely in Hs. destruct (exec c w) as [[r w']|f] eqn:E.
  - left. exists r, w'. split; [done|]. by eapply proper_call.
  - right. by destruct Hs as [-> Hs].
Qed.


End proper.

(** ** The theorems at concrete runs *)

#[export] Instance demo_sal_ok : SALOk demo_sal.
Proof.
  split; [|done|by intros l s h S; simpl; destruct (refusing S)].
  intros id S _. split; intros; try (by eexists); try done; intros s S'; simpl;
    unfold demo_create, demo_with, demo_call; by destruct (refusing S').
Qed.

(** Run a list of allowed calls. *)
Fixpoint proper_runs (cs : list call) (w : world) : option world :=
  match cs with
  | [] => Some w
  | c :: cs =>
    if well_typed c w && allowed c w
    then match exec c w with Done (_, w') => proper_runs cs w' | Fault _ => None end
    else None
  end.

Lemma proper_runs_proper cs w w' : proper w → proper_runs cs w = Some w' → proper w'.
Proof.
  revert w. induction cs as [|c cs IH]; simpl; intros w Hw; [by intros [= <-]|].
  destruct (well_typed c w && allowed c w) eqn:Ht; [|done].
  apply andb_true_iff in Ht as [Ht Hl]. destruct (exec c w) as [[r w1]|] eqn:He; [|done].
  apply IH. by eapply proper_call.
Qed.

Definition demo_proper (cs : list call) : world :=
  default (demo_world false) (proper_runs cs (demo_world false)).

Lemma demo_is_proper cs : proper (demo_proper cs).
Proof.
  pose proof (proper_init _ (demo_initial false)) as Hi. unfold demo_proper.
  destruct (proper_runs cs (demo_world false)) as [w|] eqn:E; simpl; [|done].
  by eapply proper_runs_proper.
Qed.

(** A listener, opened and listening, and a stream it accepted. *)
Definition demo_server : list call :=
  [NewTCPListener raw_object 1; TcpOpen demo_first SOCKET_AF_INET4;
   StartListening demo_first (Some 4%Z) 0; Accept demo_first 77 raw_object].

Lemma allowed_calls_complete_witness :
  let w := demo_proper demo_server in
  size (heap w) = 2 ∧
  ((∃ r w', exec (SetNagle demo_second true) w = Done (r, w') ∧ proper w') ∨
   (exec (SetNagle demo_second true) w = Fault OutOfMemory ∧
    allocates (SetNagle demo_second true) = true ∧ operator_new (dom (heap w)) = None)).
Proof.
  intros w. split; [run_refl|].
  apply (allowed_calls_complete (SetNagle demo_second true) w);
    [apply demo_is_proper | run_refl | run_refl].
Defined.


