(* ===== verification/Teardown.v ===== *)
(** * Events that arrive while an object is destroyed

    A destructor runs class by class, and the table pointer of the object follows; an
    interrupt between two statements therefore reaches the handlers of a base class.
    [dtor_steps] lists the statements of the destructors with the class in force after
    each; run without interrupts they are the destructors of the classes.  The theorem is
    about runs in which any events arrive after each statement. *)
From S2P Require Import Prelude Types Interfaces SocketAddr DemoInet World Demo Socket.
From S2P Require Import UDPSocket TCPAsynch TCPStream TCPListener Dispatch Shape System DemoRuns.
From S2P Require Import Lifetimes Events Safety.
From stdpp Require Import base gmap list strings.
From Stdlib Require Import ZArith Lia.

Section Teardown.
Context {SA : SAL} {MN : Minar} {RT : Runtime} {IN : Inet}.

(** The statements of [Socket::~Socket], [TCPAsynch::~TCPAsynch] and
    [TCPListener::~TCPListener]. *)
Definition destroy (p : ptr) : M world unit :=
  s ← get_socket p;
  if decide (sk_api s ≠ NULL) then
    match api_destroy (api_at (sk_api s)) with
    | Some _ => err ← call_api p api_destroy; error_check p err;; mret tt
    | None => mret tt
    end
  else mret tt.
Definition uncount : M world unit :=
  modify (λ w, set_TCPSockets (wrap uintptr_width (_TCPSockets w - 1)) w).
Definition untick : M world unit :=
  n ← gets _TCPSockets;
  h ← gets _tick_handle;
  if decide (n = 0%Z ∧ h ≠ NULL)
  then cancel_callback h;; modify (set_tick_handle NULL)
  else mret tt.
Definition stop (p : ptr) : M world unit := stop_listening p;; mret tt.

Abbreviation step := (cls * M world unit)%type.

(** The destructor of each class, statement by statement. *)
Definition Socket_steps (p : ptr) : list step :=
  [(CSocket, upd_obj p (set_vptr CSocket)); (CSocket, destroy p)].
Definition TCPAsynch_steps (p : ptr) : list step :=
  (CTCPAsynch, upd_obj p (set_vptr CTCPAsynch)) :: (CTCPAsynch, uncount) ::
  (CTCPAsynch, untick) :: Socket_steps p.
Definition dtor_steps (c : cls) (p : ptr) : list step :=
  match c with
  | CSocket => Socket_steps p
  | CUDPSocket => (CUDPSocket, upd_obj p (set_vptr CUDPSocket)) :: Socket_steps p
  | CTCPAsynch => TCPAsynch_steps p
  | CTCPStream => (CTCPStream, upd_obj p (set_vptr CTCPStream)) :: TCPAsynch_steps p
  | CTCPListener => (CTCPListener, upd_obj p (set_vptr CTCPListener)) ::
                    (CTCPListener, stop p) :: TCPAsynch_steps p
  end.

(** The events [evs] arrive for the object at [p], one after the other. *)
Fixpoint interrupts (p : ptr) (evs : list socket_event) : M world unit :=
  match evs with
  | [] => mret tt
  | ev :: evs => interrupt p ev;; interrupts p evs
  end.

(** The steps, with the events of the [i]th list after the [i]th step. *)
Fixpoint teardown (p : ptr) (l : list step) (evs : list (list socket_event)) : M world unit :=
  match l with
  | [] => mret tt
  | (_, m) :: l => m;; interrupts p (default [] (head evs));; teardown p l (tail evs)
  end.

(** What those events have to post: the specification of delivery for the class in
    force, with the handlers of the object. *)
Fixpoint late (o : object) (p : ptr) (l : list step) (evs : list (list socket_event)) : list callback :=
  match l with
  | [] => []
  | (c, _) :: l =>
    omap (delivery (set_vptr c o) p) (default [] (head evs)) ++ late o p l (tail evs)
  end.

(** ** Without events *)

Lemma bind_ext {A B} (m : M world A) (k k' : A → M world B) w :
  (∀ a w', k a w' = k' a w') → (m ≫= k) w = (m ≫= k') w.
Proof. intros H. unfold mbind, M_bind. by destruct (m w) as [[]|]. Qed.

Lemma teardown_cons p c m l (k : M world unit) w :
  (∀ w', teardown p l [] w' = k w') → teardown p ((c, m) :: l) [] w = (m;; k) w.
Proof. intros H. simpl. apply bind_ext. intros [] w'. apply H. Qed.

Lemma teardown_Socket p w : teardown p (Socket_steps p) [] w = Socket_dtor p w.
Proof.
  apply teardown_cons. intros w'. rewrite (teardown_cons _ _ _ _ (mret tt)) by done.
  change ((destroy p;; mret tt) w' = destroy p w').
  unfold mbind, M_bind. by destruct (destroy p w') as [[[] w1]|].
Qed.

Lemma teardown_TCPAsynch p w : teardown p (TCPAsynch_steps p) [] w = TCPAsynch_dtor p w.
Proof.
  apply teardown_cons. intros w1. apply teardown_cons. intros w2.
  rewrite (teardown_cons _ _ _ _ _ _ (teardown_Socket p)).
  unfold untick, mbind, M_bind, gets. simpl. by repeat case_match.
Qed.

(** Without events the steps are the destructor. *)
Lemma teardown_dtor c p (w : world) : teardown p (dtor_steps c p) [] w = dtor_of c p w.
Proof.
  destruct c; [apply teardown_Socket | | apply teardown_TCPAsynch | ..].
  - apply teardown_cons, teardown_Socket.
  - apply teardown_cons, teardown_TCPAsynch.
  - apply teardown_cons. intros w1. rewrite (teardown_cons _ _ _ _ _ _ (teardown_TCPAsynch p)).
    unfold stop, mbind, M_bind. by destruct (stop_listening p w1) as [[]|].
Qed.

(** ** With events *)

Context `{ML : !MinarLaws MN} `{SO : !SALOk SA}.

(** The object [o1] has the handlers of [o]. *)
Definition alike (o o1 : object) : Prop :=
  _onDNS (o_Socket o1) = _onDNS (o_Socket o) ∧ _onError (o_Socket o1) = _onError (o_Socket o) ∧
  _onReadable (o_Socket o1) = _onReadable (o_Socket o) ∧ _onSent (o_Socket o1) = _onSent (o_Socket o) ∧
  o_TCPStream o1 = o_TCPStream o ∧ o_TCPListener o1 = o_TCPListener o.

Lemma delivery_alike o o1 p ev : alike o o1 → delivery o1 p ev = delivery (set_vptr (vptr o1) o) p ev.
Proof.
  intros (H1 & H2 & H3 & H4 & H5 & H6). unfold delivery. simpl.
  destruct (meaning (vptr o1) ev) as [[]|]; simpl; by rewrite ?H1, ?H2, ?H3, ?H4, ?H5, ?H6.
Qed.

(** The object [o] at [p] is being destroyed, its table is that of [c], and [ex] has been
    posted since [w0]. *)
Record torn (p : ptr) (o : object) (w0 : world) (c : cls) (ex : list callback) (w : world) : Prop := {
  tn_safe : safe w;
  tn_object : ∃ o1, heap w !! p = Some o1 ∧ alike o o1 ∧ vptr o1 = c;
  tn_pending : pending (sched w) ≡ₚ ex ++ pending (sched w0)
}.

Lemma torn_perm p o w0 c ex ex' w : ex ≡ₚ ex' → torn p o w0 c ex w → torn p o w0 c ex' w.
Proof. intros He [H1 H2 H3]. split; [done | done |]. by rewrite H3, He. Qed.

(** A statement that takes the table from [c] to [c'] and posts at most [k] callbacks. *)
Definition tears (p : ptr) (o : object) (c c' : cls) (k : nat) (m : M world unit) : Prop :=
  ∀ w0 ex w, torn p o w0 c ex w →
    wp m (λ _ w', ∃ errs, length errs ≤ k ∧ torn p o w0 c' (errs ++ ex) w') w.

Lemma tears_vptr p o c c' : tears p o c c' 0 (upd_obj p (set_vptr c')).
Proof.
  intros w0 ex w [H1 (o1 & Ho & Ha & Hv) H3]. unfold wp. rewrite (upd_obj_run _ o1) by done.
  exists []. split; [done|]. split; simpl; [|eexists; split; [apply lookup_insert_eq | done] | done].
  apply (good_insert w _ p o1 (set_vptr c' o1)); [done | done | done | exact (H1 _ _ Ho) | done].
Qed.

Lemma tears_uncount p o c : tears p o c c 0 uncount.
Proof. intros w0 ex w [H1 H2 H3]. exists []. by split. Qed.

Lemma tears_untick p o c : tears p o c c 0 untick.
Proof.
  intros w0 ex w [H1 H2 H3]. unfold untick, wp, mbind, M_bind, gets. case_decide.
  - simpl. exists []. split; [done|]. split; [done | done |]. simpl. by rewrite pending_cancel.
  - exists []. by split.
Qed.

(** A call through the table leaves the handlers and what is posted alone. *)
Lemma torn_call {R} p o w0 c ex w (fn : socket_api sal_state → option (api_call sal_state R)) o1 :
  torn p o w0 c ex w → heap w !! p = Some o1 → sk_api (sock_of o1) ≠ NULL →
  (full_table (api_at (sk_api (sock_of o1))) → present keeps (fn (api_at (sk_api (sock_of o1))))) →
  wp (call_api p fn) (λ _ w', torn p o w0 c ex w') w.
Proof.
  intros [H1 (o2 & Ho & Ha & Hv) H3] Ho1 Hn Hf. rewrite Ho in Ho1. injection Ho1 as ->.
  assert (safely False (call_api p fn) (λ _ w', safe w') w) as Hs.
  { eapply (safely_call _ p (sk_api (sock_of o1))); [done | | done | done | by intros ? ? []].
    unfold api_of. by rewrite Ho. }
  pose proof (Hf (sound_table _ (H1 _ _ Ho) Hn (stack w))) as Hp.
  destruct (fn _) as [f|] eqn:E; [|done].
  destruct (f (sock_of o1) (stack w)) as [[r s'] S'] eqn:Ef.
  unfold safely in Hs. unfold wp. rewrite (call_api_run _ o1 _ f r s' S') in * by done.
  split; [done | | done]. simpl. eexists. split; [apply lookup_insert_eq | done].
Qed.

Lemma tears_stop p o c : tears p o c c 0 (stop p).
Proof.
  intros w0 ex w Ht. pose proof Ht as [H1 (o1 & Ho & Ha & Hv) H3]. unfold stop, stop_listening.
  apply wp_bind. unfold wp at 1. rewrite (get_socket_bind _ o1) by done. case_decide as Hn.
  - exists []. by split.
  - change (wp (call_api p api_stop_listen) (λ a w', wp (mret tt)
      (λ _ w', ∃ errs, length errs ≤ 0 ∧ torn p o w0 c (errs ++ ex) w') w') w).
    eapply wp_mono; [eapply torn_call; [done | done | done | intros Hf; apply Hf]|].
    intros r w' Hw'. exists []. by split.
Qed.

Lemma tears_destroy p o c : tears p o c c 1 (destroy p).
Proof.
  intros w0 ex w Ht. pose proof Ht as [H1 (o1 & Ho & Ha & Hv) H3]. unfold destroy, wp.
  rewrite (get_socket_bind _ o1) by done.
  assert (∃ errs : list callback, length errs ≤ 1 ∧ torn p o w0 c (errs ++ ex) w) as H0
    by (exists []; split; [simpl; lia | done]).
  case_decide as Hn; [|done]. destruct (api_destroy _) as [f|] eqn:E; [|done].
  pose proof (torn_call p o w0 c ex w api_destroy o1 Ht Ho Hn) as Hw.
  rewrite E in Hw. specialize (Hw (λ Hf, ltac:(pose proof (ft_destroy _ Hf) as H; by rewrite E in H))).
  unfold wp in Hw. unfold mbind, M_bind. destruct (call_api p api_destroy w) as [[err w1]|]; [|done].
  destruct Hw as [G1 (o2 & Ho2 & Ha2 & Hv2) G3]. unfold error_check. case_decide.
  - exists []. split; [simpl; lia|]. split; eauto.
  - unfold mbind, M_bind. rewrite (get_obj_run _ o2) by done. simpl.
    exists [CbError (_onError (o_Socket o2)) p err]. split; [done|].
    split; [exact G1 | eauto |]. simpl. by rewrite pending_post, G3.
Qed.

Lemma torn_interrupt p o w0 c ex ev w :
  torn p o w0 c ex w → event_wf ev = true →
  wp (interrupt p ev) (λ _ w', torn p o w0 c (omap (delivery (set_vptr c o) p) [ev] ++ ex) w') w.
Proof.
  intros [H1 (o1 & Ho & Ha & Hv) H3] Hev. unfold wp. rewrite (interrupt_run _ o1) by done.
  rewrite (delivery_alike o) by done. rewrite Hv.
  assert (safe (set_heap (<[p := after_event ev o1]> (heap w)) w)) as Hs.
  { apply (good_insert w _ p o1 (after_event ev o1)); [done | done | done | exact (H1 _ _ Ho) | done]. }
  simpl. destruct (delivery (set_vptr c o) p ev) as [cb|]; simpl; split; simpl; try done;
    try (eexists; split; [apply lookup_insert_eq | done]).
  by rewrite pending_post, H3.
Qed.

Lemma torn_interrupts p o w0 c evs ex w :
  torn p o w0 c ex w → Forall (λ ev, event_wf ev = true) evs →
  wp (interrupts p evs) (λ _ w', torn p o w0 c (omap (delivery (set_vptr c o) p) evs ++ ex) w') w.
Proof.
  intros Ht Hev. revert ex w Ht. induction Hev as [|ev evs H _ IH]; intros ex w Ht; [done|].
  apply wp_bind. eapply wp_mono; [by apply torn_interrupt|]. intros [] w1 Ht1.
  eapply wp_mono; [by apply IH|]. intros [] w2. apply torn_perm.
  change (ev :: evs) with ([ev] ++ evs). rewrite omap_app, <- app_assoc. rewrite !app_assoc.
  by rewrite (Permutation_app_comm (omap _ evs)).
Qed.

(** Statements of which only the last may post something of its own. *)
Inductive chain (p : ptr) (o : object) : cls → list step → Prop :=
| chain_last c c' m : tears p o c c' 1 m → chain p o c [(c', m)]
| chain_cons c c' m l : tears p o c c' 0 m → chain p o c' l → chain p o c ((c', m) :: l).

Lemma chain_Socket p o c : chain p o c (Socket_steps p).
Proof. apply chain_cons; [apply tears_vptr|]. apply chain_last, tears_destroy. Qed.

Lemma chain_TCPAsynch p o c : chain p o c (TCPAsynch_steps p).
Proof.
  do 3 (apply chain_cons; [auto using tears_vptr, tears_uncount, tears_untick|]). apply chain_Socket.
Qed.

Lemma chain_dtor p o c c' : chain p o c (dtor_steps c' p).
Proof.
  destruct c'; unfold dtor_steps;
    repeat first [ apply chain_Socket | apply chain_TCPAsynch
                 | apply chain_cons; [auto using tears_vptr, tears_stop|] ].
Qed.

Lemma Forall_head {A} (P : A → Prop) (evs : list (list A)) :
  Forall (Forall P) evs → Forall P (default [] (head evs)) ∧ Forall (Forall P) (tail evs).
Proof. by intros []. Qed.

Lemma torn_teardown p o w0 c l evs ex w :
  chain p o c l → torn p o w0 c ex w → Forall (Forall (λ ev, event_wf ev = true)) evs →
  wp (teardown p l evs)
     (λ _ w', ∃ c' errs, length errs ≤ 1 ∧ torn p o w0 c' (errs ++ late o p l evs ++ ex) w') w.
Proof.
  intros Hc. revert evs ex w.
  induction Hc as [c c' m Hm|c c' m l Hm _ IH]; intros evs ex w Ht [Hh Hl]%Forall_head; simpl.
  - apply wp_bind. eapply wp_mono; [by apply Hm|]. intros [] w1 (errs & Hk & H1).
    apply wp_bind. eapply wp_mono; [by apply torn_interrupts|]. intros [] w2 H2.
    exists c', errs. split; [done|]. revert H2. apply torn_perm. rewrite app_nil_r, !app_assoc.
    by rewrite (Permutation_app_comm errs).
  - apply wp_bind. eapply wp_mono; [by apply Hm|]. intros [] w1 ([|? ?] & Hk & H1); [|simpl in Hk; lia].
    apply wp_bind. eapply wp_mono; [by apply torn_interrupts|]. intros [] w2 H2.
    eapply wp_mono; [by apply IH|]. intros [] w3 (c2 & errs & Hk2 & H3). exists c2, errs. split; [done|].
    revert H3. apply torn_perm. simpl. f_equiv. rewrite !app_assoc.
    by rewrite (Permutation_app_comm (late _ _ _ _)).
Qed.

(** C12: an object can be destroyed while events arrive for it.  In a program that follows
    the rules, whatever well-formed events arrive after each statement of the destructors
    of an object, the destructors run to their ends; every event posts exactly what the
    specification of delivery says for the class whose destructor is running (so what
    only a derived class handles is dropped from then on), with the handlers the object
    had; at most one error callback of the destructor itself is added.  All of it is
    pending when the object is gone. *)
Theorem teardown_delivers p o evs (w : world) `{RL : !RuntimeLaws RT} :
  proper w → heap w !! p = Some o → Forall (Forall (λ ev, event_wf ev = true)) evs →
  ∃ w' errs, (teardown p (dtor_steps (vptr o) p) evs;; release p) w = Done (tt, w') ∧
    heap w' !! p = None ∧ length errs ≤ 1 ∧
    pending (sched w') ≡ₚ errs ++ late o p (dtor_steps (vptr o) p) evs ++ pending (sched w).
Proof.
  intros Hp Ho Hev.
  assert (torn p o w (vptr o) [] w) as Ht.
  { split; [by apply proper_safe | by exists o | done]. }
  pose proof (torn_teardown p o w (vptr o) _ evs [] w (chain_dtor p o _ (vptr o)) Ht Hev) as Hw.
  apply wp_returns in Hw as ([] & w1 & Hr & c & errs & Hk & [_ _ Hpe]).
  exists (set_heap (delete p (heap w1)) w1), errs.
  split; [by rewrite (bind_run _ _ _ _ _ Hr)|]. simpl. split; [apply lookup_delete_eq|].
  split; [done|]. by rewrite Hpe, app_nil_r, <- app_assoc.
Qed.
End Teardown.

(** ** The theorem at a concrete run *)

(** A stream with handlers is destroyed; it is disconnected while its own destructor and
    again while that of [TCPAsynch] runs: the second event is dropped. *)
Definition demo_stream : list call :=
  [NewTCPStream raw_object 1; TcpOpen demo_first SOCKET_AF_INET4; SetOnDisconnect demo_first (Some 6%Z)].
Definition demo_dying : world := default (demo_world false) (proper_runs demo_stream (demo_world false)).
Definition demo_dying_object : object := default raw_object (heap demo_dying !! demo_first).
Definition demo_gone : socket_event := mk_socket_event SOCKET_EVENT_DISCONNECT info_none.

Lemma teardown_delivers_witness :
  ∃ w' errs,
    (teardown demo_first (dtor_steps CTCPStream demo_first) [[demo_gone]; [demo_gone]];;
     release demo_first) demo_dying = Done (tt, w') ∧ heap w' !! demo_first = None ∧
    length errs ≤ 1 ∧ pending (sched w') ≡ₚ errs ++ [CbDisconnect (Some 6%Z) demo_first].
Proof.
  assert (proper demo_dying) as Hp.
  { apply (proper_runs_proper demo_stream (demo_world false)); [by apply proper_init|].
    apply default_there. run_refl. }
  assert (heap demo_dying !! demo_first = Some demo_dying_object) as Ho by (apply default_there; run_refl).
  assert (vptr demo_dying_object = CTCPStream) as Hv by run_refl.
  assert (pending (sched demo_dying) = []) as Hq by run_refl.
  assert (late demo_dying_object demo_first (dtor_steps CTCPStream demo_first) [[demo_gone]; [demo_gone]] =
          [CbDisconnect (Some 6%Z) demo_first]) as Hl by run_refl.
  destruct (teardown_delivers demo_first demo_dying_object [[demo_gone]; [demo_gone]] demo_dying Hp Ho)
    as (w' & errs & H1 & H2 & H3 & H4); [by repeat constructor|].
  rewrite Hv in H1, H4. rewrite Hl, Hq, app_nil_r in H4. exists w', errs.
  split; [exact H1|]. split; [exact H2|]. split; [exact H3 | exact H4].
Defined.
