(* ===== verification/Text.v ===== *)
(** * Decimal texts

    The numbers that the test programs exchange as text: Python's [str] of an integer,
    and the directive [%d] of C's [sscanf].  A text is the list of its character codes. *)
From S2P Require Import Prelude.
From stdpp Require Import base sets list.
From Stdlib Require Import ZArith Lia.

Section Text.
Open Scope Z_scope.

(** ** Writing *)

(** The digits of a natural number; [fuel] bounds how many there are. *)
Fixpoint digits (fuel : nat) (n : Z) : list Z :=
  match fuel with
  | O => []
  | S fuel => if decide (n < 10) then [48 + n] else digits fuel (n / 10) ++ [48 + n mod 10]
  end.

(** [str(n)]: a number has at most as many decimal digits as binary ones. *)
Definition str (n : Z) : list Z :=
  let text m := digits (S (Z.to_nat (Z.log2 m))) m in
  if decide (n < 0) then 45 :: text (- n) else text n.

(** ** Reading *)

Definition isspace (c : Z) : bool := bool_decide (c = 32 ∨ 9 ≤ c ≤ 13).
Definition isdigit (c : Z) : bool := bool_decide (48 ≤ c ≤ 57).

Fixpoint skip_space (l : list Z) : list Z :=
  match l with
  | c :: l' => if isspace c then skip_space l' else l
  | [] => []
  end.

(** The number that the digits at the start of a text continue. *)
Fixpoint read_digits (acc : Z) (l : list Z) : Z :=
  match l with
  | c :: l' => if isdigit c then read_digits (10 * acc + (c - 48)) l' else acc
  | [] => acc
  end.

Definition read_number (l : list Z) : option Z :=
  match l with
  | c :: _ => if isdigit c then Some (read_digits 0 l) else None
  | [] => None
  end.

(** What [sscanf(text, "%d", &i)] stores, if anything: white space, a sign, digits.
    (What it does with a number that is not an [int] is undefined.) *)
Definition scan_d (l : list Z) : option Z :=
  match skip_space l with
  | c :: l' =>
    if decide (c = 45) then Z.opp <$> read_number l'
    else if decide (c = 43) then read_number l'
    else read_number (c :: l')
  | [] => None
  end.

(** The text in an array of characters, up to its terminator. *)
Fixpoint c_text (b : list Z) : option (list Z) :=
  match b with
  | [] => None
  | c :: b => if decide (c = 0) then Some [] else cons c <$> c_text b
  end.

(** ** Writing, then reading *)

Lemma isdigit_digit d : 0 ≤ d < 10 → isdigit (48 + d) = true.
Proof. intros Hd. apply bool_decide_eq_true_2. lia. Qed.

Lemma read_digits_app acc l1 l2 :
  Forall isdigit l1 → read_digits acc (l1 ++ l2) = read_digits (read_digits acc l1) l2.
Proof.
  intros Hl. revert acc. induction Hl as [|c l1 Hc _ IH]; intros acc; [done|].
  simpl. apply Is_true_true in Hc. by rewrite Hc.
Qed.

Lemma digits_digit k n : 0 ≤ n → Forall isdigit (digits k n).
Proof.
  revert n. induction k as [|k IH]; intros n Hn; simpl; [done|]. case_decide.
  - repeat constructor. apply Is_true_true, isdigit_digit. lia.
  - apply Forall_app. split; [apply IH, Z.div_pos; lia|]. repeat constructor.
    apply Is_true_true, isdigit_digit. apply Z.mod_pos_bound. lia.
Qed.

Lemma read_digits_digits k n : 0 ≤ n < 10 ^ Z.of_nat k → read_digits 0 (digits k n) = n.
Proof.
  revert n. induction k as [|k IH]; intros n Hn; [simpl in *; lia|]. simpl digits. case_decide.
  - simpl. rewrite isdigit_digit by lia. lia.
  - rewrite read_digits_app by (apply digits_digit, Z.div_pos; lia).
    rewrite Nat2Z.inj_succ, Z.pow_succ_r in Hn by lia.
    rewrite IH by (split; [apply Z.div_pos; lia | apply Z.div_lt_upper_bound; lia]).
    simpl. rewrite isdigit_digit by (apply Z.mod_pos_bound; lia).
    pose proof (Z.div_mod n 10 ltac:(lia)). lia.
Qed.

Lemma log2_digits n : 0 ≤ n → n < 10 ^ Z.of_nat (S (Z.to_nat (Z.log2 n))).
Proof.
  intros Hn. pose proof (Z.log2_nonneg n). rewrite Nat2Z.inj_succ, Z2Nat.id by done.
  destruct (decide (n = 0)) as [->|]; [done|].
  pose proof (Z.log2_spec n ltac:(lia)) as [_ H1].
  pose proof (Z.pow_le_mono_l 2 10 (Z.succ (Z.log2 n)) ltac:(lia)). lia.
Qed.

Lemma digits_head k n : 0 ≤ n → ∃ c l, digits (S k) n = c :: l ∧ isdigit c = true.
Proof.
  revert n. induction k as [|k IH]; intros n Hn.
  - simpl. case_decide; eexists _, []; (split; [done|]); apply isdigit_digit; [lia|].
    apply Z.mod_pos_bound. lia.
  - change (∃ c l, (if decide (n < 10) then [48 + n] else digits (S k) (n / 10) ++ [48 + n mod 10]) = c :: l
              ∧ isdigit c = true). case_decide.
    + eexists _, []. split; [done | apply isdigit_digit; lia].
    + destruct (IH (n / 10)) as (c & l & -> & Hc); [apply Z.div_pos; lia|]. by eexists _, _.
Qed.

(** What [str] writes, [%d] reads. *)
Lemma scan_str n : scan_d (str n) = Some n.
Proof.
  assert (∀ m, 0 ≤ m → let l := digits (S (Z.to_nat (Z.log2 m))) m in
    read_number l = Some m ∧ scan_d l = Some m) as H.
  { intros m Hm l. destruct (digits_head (Z.to_nat (Z.log2 m)) m Hm) as (c & l' & E & Hc).
    assert (read_number l = Some m) as Hr.
    { unfold l. rewrite E. simpl. rewrite Hc. f_equal.
      change (read_digits (10 * 0 + (c - 48)) l') with
        (if true then read_digits (10 * 0 + (c - 48)) l' else 0). rewrite <- Hc.
      change (read_digits 0 (c :: l') = m). rewrite <- E. apply read_digits_digits.
      split; [done | by apply log2_digits]. }
    split; [done|]. unfold scan_d, l in *. rewrite E in *. apply bool_decide_eq_true_1 in Hc.
    simpl. unfold isspace. rewrite bool_decide_eq_false_2 by lia.
    by rewrite !decide_False by lia. }
  unfold str. case_decide; [|apply H; lia].
  change (Z.opp <$> read_number (digits (S (Z.to_nat (Z.log2 (- n)))) (- n)) = Some n).
  destruct (H (- n)) as [-> _]; [lia|]. simpl. f_equal. lia.
Qed.

Lemma digits_length k n j : 0 ≤ n < 10 ^ Z.of_nat j → (0 < j)%nat → (length (digits k n) ≤ j)%nat.
Proof.
  revert n j. induction k as [|k IH]; intros n j Hn Hj; simpl; [lia|]. case_decide; [simpl; lia|].
  rewrite length_app. simpl. destruct j as [|[|j]]; [lia | simpl in *; lia |].
  rewrite Nat2Z.inj_succ, Z.pow_succ_r in Hn by lia.
  pose proof (IH (n / 10) (S j)) as H1. enough (length (digits k (n / 10)) ≤ S j)%nat by lia.
  apply H1; [|lia]. split; [apply Z.div_pos; lia | apply Z.div_lt_upper_bound; lia].
Qed.

(** A port has at most five digits. *)
Lemma str_port n : 0 ≤ n < 2 ^ 16 → (length (str n) ≤ 5)%nat.
Proof. intros Hn. unfold str. rewrite decide_False by lia. apply digits_length; lia. Qed.

Lemma str_no_nul n : 0 ≤ n → 0 ∉ str n.
Proof.
  intros Hn H. unfold str in H. rewrite decide_False in H by lia.
  pose proof (digits_digit (S (Z.to_nat (Z.log2 n))) n Hn) as Hd. rewrite Forall_forall in Hd.
  apply Hd, Is_true_true, bool_decide_eq_true_1 in H. lia.
Qed.

Lemma c_text_terminated l b : 0 ∉ l → c_text (l ++ 0 :: b) = Some l.
Proof.
  induction l as [|c l IH]; intros Hl; simpl; [done|].
  rewrite decide_False by (intros ->; apply Hl; by left). rewrite IH; [done|]. set_solver.
Qed.
End Text.
