(* ===== verification/Harness.v ===== *)
(** * Test programs: a client of the classes and its surroundings

    The programs under [src/test] allocate one client object that embeds a socket as its
    first member, hand its methods to the socket as handlers, and run from the
    scheduler.  This file has what they share: the state of such a program, the calls of
    the library from it, assertions, and its steps.  [C] is the type of the client's own
    members; the socket of the client at address [p] is the object at [p]. *)
From S2P Require Import Prelude Types Interfaces SocketAddr World Socket UDPSocket TCPAsynch.
From S2P Require Import TCPStream TCPListener Dispatch Shape System Lifetimes Events Safety.
From stdpp Require Import base gmap list strings.
From Stdlib Require Import ZArith Lia Ascii.

(** The platform and the test framework: the width of [size_t], whether a failed
    assertion goes on with the next statement or leaves the function, and the string
    comparison of the framework (expected, actual, length). *)
Class Harness := {
  size_width : Z;
  assert_continues : bool;
  equal_string_len : list Z → list Z → Z → bool
}.

(** Bytes of a buffer as characters, and back. *)
Definition to_chars (l : list Z) : list ascii := (λ b, ascii_of_N (Z.to_N b)) <$> l.
Definition to_bytes (l : list ascii) : list Z := (λ c, Z.of_N (N_of_ascii c)) <$> l.

(** A method of the client at [this], as the function of a function pointer. *)
Definition bound (k : Z) (this : ptr) : FunctionPointer := Some (8 * this + k)%Z.
Definition bound_method (f : Z) : Z := (f mod 8)%Z.
Definition bound_this (f : Z) : ptr := (f / 8)%Z.

Lemma bound_this_bound k p : (0 ≤ k < 8)%Z → bound_this (8 * p + k) = p.
Proof. intros Hk. unfold bound_this. rewrite Z.mul_comm, Z.div_add_l, Z.div_small by lia. lia. Qed.

(** What the program itself posts to the scheduler. *)
Inductive task :=
| StartTest (this : ptr) (port : Z)       (* start_test(buffer, port) *)
| Terminate (status : bool) (this : ptr).

Section Harness.
Context {SA : SAL} {MN : Minar} {RT : Runtime} {IN : Inet} {HA : Harness} {C : Type}.

(** The library's state; the live client objects, the global [client], the global
    [buffer], the program's pending tasks; failed assertions, and completions reported
    with [Harness::validate_callback]. *)
Record echo := mk_echo {
  ew : world;
  clients : gmap Z C;
  client : ptr;
  buffer : list Z;
  tasks : list task;
  failures : nat;
  validations : nat
}.

Definition set_ew (w : world) (e : echo) : echo :=
  mk_echo w (clients e) (client e) (buffer e) (tasks e) (failures e) (validations e).
Definition set_clients (m : gmap Z C) (e : echo) : echo :=
  mk_echo (ew e) m (client e) (buffer e) (tasks e) (failures e) (validations e).
Definition set_client (p : ptr) (e : echo) : echo :=
  mk_echo (ew e) (clients e) p (buffer e) (tasks e) (failures e) (validations e).
Definition set_buffer (b : list Z) (e : echo) : echo :=
  mk_echo (ew e) (clients e) (client e) b (tasks e) (failures e) (validations e).
Definition set_tasks (l : list task) (e : echo) : echo :=
  mk_echo (ew e) (clients e) (client e) (buffer e) l (failures e) (validations e).
Definition add_failure (e : echo) : echo :=
  mk_echo (ew e) (clients e) (client e) (buffer e) (tasks e) (S (failures e)) (validations e).
Definition add_validation (e : echo) : echo :=
  mk_echo (ew e) (clients e) (client e) (buffer e) (tasks e) (failures e) (S (validations e)).

(** A method of the library. *)
Definition lib {A} (m : M world A) : M echo A := λ e,
  match m (ew e) with
  | Done (a, w) => Done (a, set_ew w e)
  | Fault f => Fault f
  end.

Lemma lib_run {A} (m : M world A) a w' e : m (ew e) = Done (a, w') → lib m e = Done (a, set_ew w' e).
Proof. unfold lib. by intros ->. Qed.

Lemma lib_Done {A} (m : M world A) e a e' :
  lib m e = Done (a, e') → ∃ w', m (ew e) = Done (a, w') ∧ e' = set_ew w' e.
Proof. unfold lib. destruct (m (ew e)) as [[b w']|]; [|done]. intros [= <- <-]. eauto. Qed.

(** The members of the client object at [this]. *)
Definition get_client (this : ptr) : M echo C := λ e,
  match clients e !! this with
  | Some c => Done (c, e)
  | None => Fault (DeadObject this)
  end.
Definition upd_client (this : ptr) (f : C → C) : M echo unit :=
  c ← get_client this; modify (λ e, set_clients (<[this := f c]> (clients e)) e).

(** [minar::Scheduler::postCallback] of one of the program's own functions. *)
Definition post_task (t : task) : M echo unit :=
  modify (λ e, set_tasks (tasks e ++ [t]) e).

(** A [TEST_ASSERT] macro with the rest of the function. *)
Definition TEST_ASSERT (b : bool) (rest : M echo unit) : M echo unit :=
  if b then rest
  else modify add_failure;; if assert_continues then rest else mret tt.

(** ** Rules for the statements of a program *)

Lemma wp_get_client p c (Q : C → echo → Prop) e :
  clients e !! p = Some c → Q c e → wp (get_client p) Q e.
Proof. intros Hc H. unfold wp, get_client. by rewrite Hc. Qed.

Lemma wp_upd_client p c f (Q : unit → echo → Prop) e :
  clients e !! p = Some c → Q tt (set_clients (<[p := f c]> (clients e)) e) →
  wp (upd_client p f) Q e.
Proof. intros Hc H. apply wp_bind. by eapply wp_get_client. Qed.

Lemma wp_TEST_ASSERT b m (Q : unit → echo → Prop) e :
  b = true → wp m Q e → wp (TEST_ASSERT b m) Q e.
Proof. by intros ->. Qed.

(** ** Steps of such a program *)

Class Client := {
  on_callback : callback → M echo unit;     (* a handler the library posted *)
  run_task : task → M echo unit             (* a task the program posted *)
}.

Context {CL : Client}.

Inductive echo_step : echo → echo → Prop :=
| echo_event p ev w' e :
    irq_enabled (ew e) = true → is_Some (heap (ew e) !! p) → event_wf ev = true →
    interrupt p ev (ew e) = Done (tt, w') → echo_step e (set_ew w' e)
| echo_stack S' e : echo_step e (set_ew (set_stack S' (ew e)) e)
| echo_callback c s' e e' :
    pending (sched (ew e)) ≡ₚ c :: pending s' → periodic s' = periodic (sched (ew e)) →
    on_callback c (set_ew (set_sched s' (ew e)) e) = Done (tt, e') → echo_step e e'
| echo_task t l1 l2 e e' :
    tasks e = l1 ++ t :: l2 → run_task t (set_tasks (l1 ++ l2) e) = Done (tt, e') →
    echo_step e e'.
End Harness.
Arguments echo {SA MN} C.
Arguments Client {SA MN} C.
