(* ===== verification/Host.v ===== *)
(** * The host side of the tests

    [src/test/host_tests/tcpecho_client_auto.py] and [udpecho_client_auto.py]: what the
    servers the test clients talk to do with the data they receive.  Threads, the set-up
    of the servers and the exchange of keys with the target are not modelled. *)
From S2P Require Import Prelude Types Harness.
From stdpp Require Import base sets list strings.
From Stdlib Require Import ZArith Lia Ascii.

(** [sub in data], of Python strings *)
Fixpoint contains (sub data : list Z) : bool :=
  bool_decide (take (length sub) data = sub) ||
  match data with [] => false | _ :: data => contains sub data end.

Definition END : list Z := to_bytes (String.list_ascii_of_string "{{end}}").

(** One turn of the loop of [TCPEchoClientHandler.handle], on what [recv] returned
    ([None] when the server is shut down): leave the loop, go on without a reply, or
    echo. *)
Inductive turn := Break | Continue | Echo (data : list Z).

Definition tcp_turn (data : option (list Z)) : turn :=
  match data with
  | None | Some [] => Break
  | Some data => if contains END data then Continue else Echo data
  end.

(** [TCPEchoClientHandler.handle]: what it sends, for the successive results of [recv] *)
Fixpoint handle (received : list (option (list Z))) : list (list Z) :=
  match received with
  | [] => []
  | data :: received =>
    match tcp_turn data with
    | Break => []
    | Continue => handle received
    | Echo data => data :: handle received
    end
  end.

(** [UDPEchoClientHandler.handle]: the datagram it sends back to the sender *)
Definition udp_handle (data : list Z) : list Z := data.

(** What the TCP server replies to a chunk. *)
Definition reply (data : list Z) : list Z :=
  match tcp_turn (Some data) with Echo data => data | _ => [] end.

Lemma handle_reply (ds : list (list Z)) :
  Forall (λ d, d ≠ []) ds → concat (handle (Some <$> ds)) = concat (reply <$> ds).
Proof.
  induction 1 as [|d ds Hd _ IH]; [done|]. rewrite !fmap_cons. unfold reply at 1.
  cbn [handle concat]. unfold tcp_turn. destruct d; [done|].
  destruct (contains END _); cbn [concat app]; by rewrite IH.
Qed.

Lemma reply_length data : length (reply data) ≤ length data.
Proof. unfold reply, tcp_turn. destruct data; [done|]. destruct (contains END _); simpl; lia. Qed.

(** A chunk without the end mark's first character is echoed. *)
Lemma contains_first sub x data : head sub = Some x → x ∉ data → contains sub data = false.
Proof.
  intros Hs. induction data as [|y data IH]; intros Hx; simpl;
    rewrite bool_decide_eq_false_2; simpl.
  - done.
  - by destruct sub.
  - apply IH. set_solver.
  - destruct sub; [done|]. simpl in *. injection Hs as ->. intros [= -> _]. set_solver.
Qed.

Lemma reply_echo data : 123%Z ∉ data → reply data = data.
Proof.
  intros H. unfold reply, tcp_turn. destruct data as [|y data]; [done|].
  by rewrite (contains_first _ 123).
Qed.
