(* ===== verification/KeyExchange.v ===== *)
(** * The start of a test: the board, the host, and the keys they exchange

    [test_echo_tcp_client] and [test_echo_udp_client] of the test programs up to the
    creation of the client, which are the same statements, and the classes
    [TCPEchoClientTest] and [UDPEchoClientTest] of [src/test/host_tests], which answer
    them: the target tells its address, the host starts a server on the interface that
    reaches the target, and the target asks for the address and the port of the server.
    The drivers of the board and the two ends of the console are other packages. *)
From S2P Require Import Prelude Types Interfaces SocketAddr World Text Harness.
From stdpp Require Import base gmap list strings.
From Stdlib Require Import ZArith Lia Ascii.

(** A string literal as the characters before its terminator. *)
Definition text (s : string) : list Z := to_bytes (String.list_ascii_of_string s).

(** ** The host *)

(** The operating system of the host: the address a socket connected to a target reports
    as its own, and the port a server that asks for one at an address is bound to. *)
Class HostOS := {
  getsockname : list Z → list Z;
  server_port : list Z → Z → Z
}.

(** A port is 16 bits, an address has at most the 45 characters of a full IPv6 text. *)
Class HostLaws (HO : HostOS) : Prop := {
  port_range ip n : (0 ≤ server_port ip n < 2 ^ 16)%Z;
  name_length t : length (getsockname t) ≤ 45
}.

(** The members of the host test; [server] is the address its server is bound to. *)
Record HostTest := mk_host {
  SERVER_IP : option (list Z);
  SERVER_PORT : Z;
  server : option (list Z * Z);
  target_ip : option (list Z)
}.

(** [__init__] *)
Definition host_init : HostTest := mk_host None 0 None None.

Section HostTest.
Context {HO : HostOS}.

(** [find_interface_to_target_addr] *)
Definition find_interface_to_target_addr (target : list Z) : list Z := getsockname target.

(** [setup_tcp_server] and [setup_udp_server]; without an address an exception is raised,
    at the latest by the concatenation of the message to log. *)
Definition setup_server (h : HostTest) : option HostTest :=
  ip ← SERVER_IP h;
  let n := server_port ip (SERVER_PORT h) in
  Some (mk_host (SERVER_IP h) n (Some (ip, n)) (target_ip h)).

(** The callbacks for the three keys: the host afterwards, and what it sends. *)
Definition callback_target_ip (value : list Z) (h : HostTest) : option (HostTest * list (list Z * list Z)) :=
  let ip := find_interface_to_target_addr value in
  h' ← setup_server (mk_host (Some ip) (SERVER_PORT h) (server h) (Some value));
  Some (h', []).
Definition callback_host_ip (value : list Z) (h : HostTest) : option (HostTest * list (list Z * list Z)) :=
  Some (h, [(text "host_ip", default (text "None") (SERVER_IP h))]).
Definition callback_host_port (value : list Z) (h : HostTest) : option (HostTest * list (list Z * list Z)) :=
  Some (h, [(text "host_port", str (SERVER_PORT h))]).

(** [@event_callback]: the callback for a key; other keys are the framework's. *)
Definition on_key (key value : list Z) (h : HostTest) : option (HostTest * list (list Z * list Z)) :=
  if decide (key = text "target_ip") then callback_target_ip value h
  else if decide (key = text "host_ip") then callback_host_ip value h
  else if decide (key = text "host_port") then callback_host_port value h
  else Some (h, []).
End HostTest.

(** ** The board *)

(** The target's end of the console, [greentea-client]: the texts of a key and a value
    are sent; a key and a value are received into two arrays of given sizes, the result
    is not zero when there were any. *)
Class Greentea := {
  console : Type;
  greentea_send_kv : list Z → list Z → console → console;
  greentea_parse_kv : list Z → list Z → Z → Z → console → Z * list Z * list Z * console
}.

(** The network stack of the board and its interface [eth]. *)
Class Board (SA : SAL) := {
  SOCKET_STACK_LWIP_IPV4 : Z;
  lwipv4_socket_init : sal_state → socket_error_t * sal_state;
  eth_init : sal_state → Z * sal_state;
  eth_connect : sal_state → Z * sal_state;
  getIPAddress : sal_state → list Z
}.

Section Bench.
Context {SA : SAL} {MN : Minar} {HA : Harness} {GT : Greentea} {BO : Board SA} {C : Type}.

(** The program, the console, and the global [port]. *)
Record bench := mk_bench {
  program : echo C;
  line : console;
  port : Z
}.

Definition set_program (e : echo C) (b : bench) : bench := mk_bench e (line b) (port b).
Definition set_line (l : console) (b : bench) : bench := mk_bench (program b) l (port b).
Definition set_port (n : Z) (b : bench) : bench := mk_bench (program b) (line b) n.

(** Statements on the program's state, and calls of the drivers. *)
Definition on_program {A} (m : M (echo C) A) : M bench A := λ b,
  match m (program b) with
  | Done (a, e) => Done (a, set_program e b)
  | Fault f => Fault f
  end.
Definition driver {A} (f : sal_state → A * sal_state) : M bench A :=
  on_program (lib (λ w, let '(a, S') := f (stack w) in Done (a, set_stack S' w))).

Definition send_kv (key value : list Z) : M bench unit :=
  modify (λ b, set_line (greentea_send_kv key value (line b)) b).
Definition parse_kv (key value : list Z) : M bench (Z * list Z * list Z) := λ b,
  let '(r, k, v, l) := greentea_parse_kv key value (Z.of_nat (length key)) (Z.of_nat (length value)) (line b) in
  Done ((r, k, v), set_line l b).

(** An assertion of the test function with the rest of it. *)
Definition ASSERT (c : bool) (rest : M bench (option Z)) : M bench (option Z) :=
  if c then rest
  else on_program (modify add_failure);; if assert_continues then rest else mret None.

(** [sscanf(port_value, "%d", &port)] *)
Definition scan_port (port_value : list Z) : M bench unit :=
  match c_text port_value with
  | Some l => modify (λ b, set_port (default (port b) (scan_d l)) b)
  | None => raise OutOfBounds
  end.

(** [recv_key] and [port_value] as they are initialised. *)
Definition recv_key0 : list Z := text "host_port" ++ [0%Z].
Definition port_value0 : list Z := text "65325" ++ [0%Z].

(** The keys: the address of the host goes into [buffer], its port into [port]. *)
Definition ask_host (rest : M bench (option Z)) : M bench (option Z) :=
  send_kv (text "host_ip") (text " ");;
  b ← gets (λ b, buffer (program b));
  r ← parse_kv recv_key0 b;
  on_program (modify (set_buffer r.2));;
  ASSERT (bool_decide (r.1.1 ≠ 0%Z))
  (send_kv (text "host_port") (text " ");;
   q ← parse_kv r.1.2 port_value0;
   ASSERT (bool_decide (q.1.1 ≠ 0%Z))
   (scan_port q.2;; rest)).

(** [test_echo_tcp_client] and [test_echo_udp_client]: [start] creates the client for a
    stack and a port, the result is the argument of [CaseTimeout], unless an assertion
    left the function. *)
Definition test_echo_client (start : Z → Z → M (echo C) unit) (timeout : Z) : M bench (option Z) :=
  err ← driver lwipv4_socket_init;
  ASSERT (bool_decide (err = SOCKET_ERROR_NONE))
  (i ← driver eth_init;
   ASSERT (bool_decide (i = 0%Z))
   (driver eth_connect;;
    ip ← gets (λ b, getIPAddress (stack (ew (program b))));
    send_kv (text "target_ip") ip;;
    on_program (modify (λ e, set_buffer (replicate (length (buffer e)) 0%Z) e));;
    modify (set_port 0);;
    ask_host
      (n ← gets port;
       on_program (start SOCKET_STACK_LWIP_IPV4 n);;
       mret (Some timeout)))).

(** A test suite as [cases] and [greentea_setup] describe it: how many seconds the host
    waits, the test it runs, and the case. *)
Record suite := mk_suite {
  host_timeout : Z;
  host_test : string;
  case_name : string;
  case_run : M bench (option Z)
}.
End Bench.
Arguments bench {SA MN GT} C.
Arguments suite {SA MN GT} C.

(** ** The exchange *)

(** A console with a host test at its other end: the test, and the pairs it has sent and
    the target has not received. *)
Class Link (GT : Greentea) := {
  host : console → HostTest;
  inbox : console → list (list Z * list Z)
}.

(** What is sent reaches the callback for its key, and its answers arrive; a pair that
    fits is received into the arrays, each text with its terminator. *)
Class LinkLaws (GT : Greentea) {HO : HostOS} {LI : Link GT} : Prop := {
  send_reaches k v c h out :
    on_key k v (host c) = Some (h, out) →
    host (greentea_send_kv k v c) = h ∧ inbox (greentea_send_kv k v c) = inbox c ++ out;
  parse_receives k v q kb vb c :
    inbox c = (k, v) :: q → length k < length kb → length v < length vb →
    ∃ r c', greentea_parse_kv kb vb (Z.of_nat (length kb)) (Z.of_nat (length vb)) c =
              (r, k ++ 0%Z :: drop (S (length k)) kb, v ++ 0%Z :: drop (S (length v)) vb, c') ∧
            r ≠ 0%Z ∧ host c' = host c ∧ inbox c' = q
}.

(** The drivers succeed and keep a property of the network stack, and the stack of the
    board is registered. *)
Class BoardLaws (SA : SAL) {BO : Board SA} (Q : sal_state → Prop) : Prop := {
  init_succeeds S : Q S → ∃ S', lwipv4_socket_init S = (SOCKET_ERROR_NONE, S') ∧ Q S';
  eth_init_succeeds S : Q S → ∃ S', eth_init S = (0%Z, S') ∧ Q S';
  eth_connect_keeps S : Q S → Q (eth_connect S).2;
  stack_registered S : socket_get_api SOCKET_STACK_LWIP_IPV4 S ≠ NULL
}.

Section Exchange.
Context {SA : SAL} {MN : Minar} {HA : Harness} {GT : Greentea} {BO : Board SA} {C : Type}.
Context {HO : HostOS} `{HL : !HostLaws HO} {LI : Link GT} `{LL : !LinkLaws GT}.
Context (Q : sal_state → Prop) `{BL : !BoardLaws SA Q}.

Lemma driver_run {A} (f : sal_state → A * sal_state) a S' (b : bench C) :
  f (stack (ew (program b))) = (a, S') →
  driver f b = Done (a, set_program (set_ew (set_stack S' (ew (program b))) (program b)) b).
Proof. intros H. unfold driver, on_program, lib. by rewrite H. Qed.

Lemma parse_kv_run k v q kb vb (b : bench C) :
  inbox (line b) = (k, v) :: q → length k < length kb → length v < length vb →
  ∃ r l, parse_kv kb vb b =
           Done ((r, k ++ 0%Z :: drop (S (length k)) kb, v ++ 0%Z :: drop (S (length v)) vb), set_line l b) ∧
         r ≠ 0%Z ∧ host l = host (line b) ∧ inbox l = q.
Proof.
  intros Hi Hk Hv. destruct (parse_receives k v q kb vb (line b) Hi Hk Hv) as (r & l & E & H).
  exists r, l. split; [|done]. unfold parse_kv. by rewrite E.
Qed.

Lemma ASSERT_run c m (b : bench C) : c = true → ASSERT c m b = m b.
Proof. by intros ->. Qed.

Lemma scan_port_str n rest (b : bench C) :
  (0 ≤ n)%Z → scan_port (str n ++ 0%Z :: rest) b = Done (tt, set_port n b).
Proof.
  intros Hn. unfold scan_port. rewrite c_text_terminated by by apply str_no_nul.
  by rewrite scan_str.
Qed.

(** The target asks a host whose server is bound to [ip] and [n]. *)
Lemma ask_host_learns ip n (rest : M (bench C) (option Z)) b :
  SERVER_IP (host (line b)) = Some ip → SERVER_PORT (host (line b)) = n → inbox (line b) = [] →
  length ip < length (buffer (program b)) → (0 ≤ n < 2 ^ 16)%Z →
  ∃ l, host l = host (line b) ∧
    ask_host rest b =
    rest (mk_bench (set_buffer (ip ++ 0%Z :: drop (S (length ip)) (buffer (program b))) (program b)) l n).
Proof.
  intros Hip Hp Hi Hl Hn. unfold ask_host. erewrite bind_run by reflexivity.
  destruct (send_reaches (text "host_ip") (text " ") (line b) _ _ eq_refl) as [Hh1 Hi1].
  set (l1 := greentea_send_kv _ _ _) in *. rewrite Hi, Hip in Hi1. simpl in Hi1.
  erewrite bind_run by reflexivity.
  destruct (parse_kv_run _ _ _ recv_key0 (buffer (program b)) (set_line l1 b) Hi1)
    as (r & l2 & E2 & Hr & Hh2 & Hi2); [vm_compute; lia | done |].
  erewrite bind_run by exact E2. erewrite bind_run by reflexivity.
  rewrite ASSERT_run by by apply bool_decide_eq_true_2. erewrite bind_run by reflexivity. cbn [fst snd].
  destruct (send_reaches (text "host_port") (text " ") l2 _ _ eq_refl) as [Hh3 Hi3].
  cbn [line set_program set_line] in *. set (l3 := greentea_send_kv _ _ l2) in *.
  rewrite Hi2, Hh2, Hh1, Hp in Hi3. simpl in Hi3.
  set (b3 := mk_bench (set_buffer (ip ++ 0%Z :: drop (S (length ip)) (buffer (program b))) (program b)) l3 (port b)).
  destruct (parse_kv_run _ _ _ (text "host_ip" ++ 0%Z :: drop 8 recv_key0) port_value0 b3 Hi3)
    as (q & l4 & E4 & Hq & Hh4 & _); [vm_compute; lia | pose proof (str_port n Hn); simpl; lia |].
  exists l4. split; [simpl in *; congruence|]. erewrite bind_run by exact E4. cbn [fst snd].
  rewrite ASSERT_run by by apply bool_decide_eq_true_2.
  by erewrite bind_run by (apply scan_port_str; lia).
Qed.

(** A text in an array of zeros. *)
Definition in_zeros (l : list Z) (size : nat) : list Z := l ++ replicate (size - length l) 0%Z.

(** The test function comes to the creation of the client with the port of the host's
    server, and its address in [buffer]; nothing else of the program has changed but the
    network stack. *)
Lemma test_reaches_start start timeout (b : bench C) :
  Q (stack (ew (program b))) → host (line b) = host_init → inbox (line b) = [] →
  46 ≤ length (buffer (program b)) →
  ∃ S' ip n l, Q S' ∧ server (host l) = Some (ip, n) ∧ (0 ≤ n < 2 ^ 16)%Z ∧ length ip ≤ 45 ∧
    test_echo_client start timeout b =
    (on_program (start SOCKET_STACK_LWIP_IPV4 n);; mret (Some timeout))
      (mk_bench (set_buffer (in_zeros ip (length (buffer (program b))))
                   (set_ew (set_stack S' (ew (program b))) (program b))) l n).
Proof.
  intros HQ Hh Hi Hb. destruct (init_succeeds (Q := Q) _ HQ) as (S1 & E1 & Q1).
  destruct (eth_init_succeeds (Q := Q) _ Q1) as (S2 & E2 & Q2). pose proof (eth_connect_keeps (Q := Q) _ Q2) as Q3.
  destruct (eth_connect S2) as [r3 S3] eqn:E3. simpl in Q3. unfold test_echo_client.
  erewrite bind_run by (apply driver_run, E1). rewrite ASSERT_run by done.
  erewrite bind_run by (apply driver_run, E2). rewrite ASSERT_run by done.
  erewrite bind_run by (apply driver_run, E3). erewrite bind_run by reflexivity. erewrite bind_run by reflexivity.
  erewrite bind_run by reflexivity. erewrite bind_run by reflexivity. simpl.
  set (ip := getsockname (getIPAddress S3)). pose proof (name_length (getIPAddress S3)) as Hlen.
  fold ip in Hlen. set (n := server_port ip 0). pose proof (port_range ip 0) as Hn. fold n in Hn.
  destruct (send_reaches (text "target_ip") (getIPAddress S3) (line b)
              (mk_host (Some ip) n (Some (ip, n)) (Some (getIPAddress S3))) []) as [Hl Hil]; [by rewrite Hh|].
  rewrite Hi in Hil. match goal with |- context [ask_host ?r ?x] =>
    destruct (ask_host_learns ip n r x) as (l & Hh' & ->); simpl; try by rewrite ?Hl end.
  { rewrite length_replicate. lia. }
  exists S3, ip, n, l. split; [done|]. simpl in Hh'. rewrite Hh', Hl. repeat (split; [done|]).
  erewrite bind_run by reflexivity. simpl. rewrite drop_replicate. unfold in_zeros.
  by replace (length (buffer (program b)) - length ip) with (S (length (buffer (program b)) - S (length ip))) by lia.
Qed.

(** The C string in such an array. *)
Lemma in_zeros_c_str ip size : c_str (to_chars (in_zeros ip size)) = c_str (to_chars ip).
Proof.
  unfold in_zeros. generalize (size - length ip). intros k.
  induction ip as [|c ip IH]; simpl; [by destruct k|]. case_decide; [done|]. f_equal. exact IH.
Qed.

Lemma in_zeros_length ip size : length ip ≤ size → length (in_zeros ip size) = size.
Proof. intros H. unfold in_zeros. rewrite length_app, length_replicate. lia. Qed.
End Exchange.

(** ** A concrete console *)

(** The host test runs at the other end of the line. *)
Definition direct_line {HO : HostOS} : Greentea := {|
  console := HostTest * list (list Z * list Z);
  greentea_send_kv k v c := from_option (λ r, (r.1, c.2 ++ r.2)) c (on_key k v c.1);
  greentea_parse_kv kb vb kn vn c :=
    match c.2 with
    | (k, v) :: q => (1%Z, k ++ 0%Z :: drop (S (length k)) kb, v ++ 0%Z :: drop (S (length v)) vb, (c.1, q))
    | [] => (0%Z, kb, vb, c)
    end
|}.

Definition direct_link {HO : HostOS} : Link direct_line :=
  {| host := (fst : console (Greentea := direct_line) → HostTest); inbox := snd |}.

Lemma direct_link_laws {HO : HostOS} : LinkLaws direct_line (LI := direct_link).
Proof.
  split.
  - intros k v c h out H. simpl in *. by rewrite H.
  - intros k v q kb vb [h i] Hi Hk Hv. simpl in *. subst i. by eexists 1%Z, (h, q).
Qed.

(** A host at 10.0.0.1 with a server at port 50007. *)
Definition demo_os : HostOS := {| getsockname _ := text "10.0.0.1"; server_port _ _ := 50007%Z |}.

Lemma demo_os_laws : HostLaws demo_os.
Proof.
  split; [done|]. intros t. vm_compute. lia.
Qed.
