(* ===== verification/Headers.v ===== *)
(** * The headers: include guards, forwarding and deprecated names

    The classes are declared by the six headers of [src/sockets/v0].  [src/sockets] has a
    header per class that includes the current version and makes its names available in
    the namespace [current]; [src/mbed-net-sockets] and its directory [v0] have deprecated
    headers that warn and include the others.  This file models the directives those
    headers use: guards, includes with the search rule of quoted names, warnings, class
    declarations with the classes they mention, and [using] of the namespace [v0].

    Headers of other packages are a parameter: [elsewhere] says which names the compiler
    finds in the include directories of other packages. *)
From S2P Require Import Prelude.
From stdpp Require Import base gmap list strings.
From Stdlib Require Import Lia.

(** A file name as its directories and its last part, from the root of the repository. *)
Abbreviation path := (list string) (only parsing).

Inductive item :=
| System (name : string)                          (* #include <name> *)
| Include (name : path)                           (* #include with a quoted name *)
| Warning                                         (* #warning *)
| Class (name : string) (mentions : list string)  (* a class declared in mbed::Sockets::v0 *)
| Current.                                        (* using namespace v0, in current *)

(** A header: the macro of its guard, and what the guard protects. *)
Record header := mk_header { guard : string; items : list item }.

(** What the compiler has seen of a translation unit. *)
Record unit_state := mk_unit {
  macros : list string;      (* defined, the latest first *)
  declared : list string;    (* classes of v0, the latest first *)
  current : bool;            (* the names of v0 are names of the namespace current *)
  warnings : nat
}.

Inductive diagnostic :=
| NotFound (name : path)      (* an include names no file *)
| Undeclared (name : string)  (* a class is mentioned before it is declared *)
| Redeclared (name : string)  (* a class is declared twice *)
| NoVersion                   (* the namespace v0 is used before it is declared *)
| TooDeep.                    (* includes nest deeper than the fuel *)

Abbreviation compiled := (unit_state + diagnostic)%type (only parsing).

Definition define (m : string) (s : unit_state) : unit_state :=
  mk_unit (m :: macros s) (declared s) (current s) (warnings s).
Definition declare (c : string) (s : unit_state) : unit_state :=
  mk_unit (macros s) (c :: declared s) (current s) (warnings s).
Definition set_current (s : unit_state) : unit_state :=
  mk_unit (macros s) (declared s) true (warnings s).
Definition warn (s : unit_state) : unit_state :=
  mk_unit (macros s) (declared s) (current s) (S (warnings s)).

(** [name] relative to the directory [dir]; there is no way out of the repository. *)
Fixpoint resolve_in (dir name : path) : option path :=
  match name with
  | [] => Some dir
  | x :: name =>
    if decide (x = "..") then
      match dir with [] => None | _ => resolve_in (take (length dir - 1) dir) name end
    else resolve_in (dir ++ [x]) name
  end.

Section preprocessor.
Context (files : path → option header) (elsewhere : path → bool).

(** Where a quoted name is found: next to the including file, from the root of the
    repository, or in another package. *)
Inductive place := Here (p : path) | Elsewhere | Nowhere.
Definition existing (p : path) : option path := (λ _, p) <$> files p.
Definition find_include (dir name : path) : place :=
  match resolve_in dir name ≫= existing with
  | Some p => Here p
  | None =>
    match resolve_in [] name ≫= existing with
    | Some p => Here p
    | None => if elsewhere name then Elsewhere else Nowhere
    end
  end.

Section items.
Context (include : path → unit_state → compiled).

Definition class_item (c : string) (mentions : list string) (s : unit_state) : compiled :=
  match filter (λ m, m ∉ declared s) mentions with
  | m :: _ => inr (Undeclared m)
  | [] => if decide (c ∈ declared s) then inr (Redeclared c) else inl (declare c s)
  end.

Definition run_item (dir : path) (i : item) (s : unit_state) : compiled :=
  match i with
  | System _ => inl s
  | Include name =>
    match find_include dir name with
    | Here p => include p s
    | Elsewhere => inl s
    | Nowhere => inr (NotFound name)
    end
  | Warning => inl (warn s)
  | Class c mentions => class_item c mentions s
  | Current => if decide (declared s = []) then inr NoVersion else inl (set_current s)
  end.

Fixpoint run_items (dir : path) (l : list item) (s : unit_state) : compiled :=
  match l with
  | [] => inl s
  | i :: l => match run_item dir i s with inl s => run_items dir l s | inr d => inr d end
  end.
End items.

(** [#include] of the file at [p]: nothing if its guard is defined; otherwise the guard
    is defined first, and then the contents are processed. *)
Fixpoint include (fuel : nat) (p : path) (s : unit_state) : compiled :=
  match fuel with
  | O => inr TooDeep
  | S fuel =>
    match files p with
    | None => inr (NotFound p)
    | Some h =>
      if decide (guard h ∈ macros s) then inl s
      else run_items (include fuel) (take (length p - 1) p) (items h) (define (guard h) s)
    end
  end.

(** A translation unit that includes the given files one after the other. *)
Fixpoint include_all (fuel : nat) (ps : list path) (s : unit_state) : compiled :=
  match ps with
  | [] => inl s
  | p :: ps => match include fuel p s with inl s => include_all fuel ps s | inr d => inr d end
  end.
End preprocessor.

Definition empty_unit : unit_state := mk_unit [] [] false 0.

(** ** The headers of the repository *)

Definition v0_SocketAddr_h : header := mk_header "__SOCKETS_V0_SOCKETADDR_H__"
  [Include ["sal"; "socket_types.h"]; Class "SocketAddr" []].
Definition v0_Socket_h : header := mk_header "__SOCKETS_V0_SOCKET_H__"
  [System "stddef.h"; System "stdint.h";
   Include ["mbed-drivers"; "mbed.h"]; Include ["core-util"; "FunctionPointer.h"];
   Include ["mbed-drivers"; "CThunk.h"]; Include ["sal"; "socket_types.h"];
   Include ["SocketAddr.h"]; Class "Socket" ["SocketAddr"]].
Definition v0_UDPSocket_h : header := mk_header "__SOCKETS_V0_UDPSOCKET_H__"
  [System "stddef.h"; System "stdint.h"; Include ["Socket.h"];
   Class "UDPSocket" ["Socket"; "SocketAddr"]].
Definition v0_TCPAsynch_h : header := mk_header "__MBED_NET_SOCKETS_V0_TCP_ASYNCH__"
  [Include ["Socket.h"]; Include ["sal"; "socket_api.h"]; Include ["minar"; "minar.h"];
   Class "TCPAsynch" ["Socket"]].
Definition v0_TCPStream_h : header := mk_header "__SOCKETS_V0_TCPSTREAM_H__"
  [System "stddef.h"; System "stdint.h"; Include ["TCPAsynch.h"];
   Class "TCPStream" ["TCPAsynch"; "SocketAddr"]].
Definition v0_TCPListener_h : header := mk_header "__SOCKETS_V0_TCPLISTENER_H__"
  [System "stddef.h"; System "stdint.h"; Include ["core-util"; "FunctionPointer.h"];
   Include ["TCPAsynch.h"]; Include ["TCPStream.h"];
   Class "TCPListener" ["TCPAsynch"; "TCPStream"]].

Definition sockets_Socket_h : header := mk_header "__SOCKETS_SOCKET_H__"
  [Include ["v0"; "Socket.h"]; Current].
Definition sockets_SocketAddr_h : header := mk_header "__SOCKETS_SOCKETADDR_H__"
  [Include ["v0"; "SocketAddr.h"]; Current].
Definition sockets_UDPSocket_h : header := mk_header "__SOCKETS_UDPSOCKET_H__"
  [Include ["v0"; "UDPSocket.h"]; Current].
Definition sockets_TCPAsynch_h : header := mk_header "__MBED_NET_SOCKETS_TCP_ASYNCH__H__"
  [Include ["v0"; "TCPAsynch.h"]; Current].
Definition sockets_TCPStream_h : header := mk_header "__SOCKETS_TCPSTREAM_H__"
  [Include ["v0"; "TCPStream.h"]; Current].
Definition sockets_TCPListener_h : header := mk_header "__SOCKETS_TCPLISTENER_H__"
  [Include ["v0"; "TCPListener.h"]; Current].

Definition net_Socket_h : header := mk_header "__MBED_NET_SOCKETS_SOCKET_H__"
  [Warning; Include [".."; "sockets"; "Socket.h"]].
Definition net_SocketAddr_h : header := mk_header "__MBED_NET_SOCKETS_SOCKETADDR_H__"
  [Warning; Include [".."; "sockets"; "SocketAddr.h"]].
Definition net_UDPSocket_h : header := mk_header "__MBED_NET_SOCKETS_UDPSOCKET_H__"
  [Warning; Include [".."; "sockets"; "UDPSocket.h"]].
Definition net_TCPAsynch_h : header := mk_header "__MBED_NET_SOCKETS_TCPASYNCH_H__"
  [Warning; Include [".."; "sockets"; "TCPAsynch.h"]].
Definition net_TCPStream_h : header := mk_header "__MBED_NET_SOCKETS_TCPSTREAM_H__"
  [Warning; Include [".."; "sockets"; "TCPStream.h"]].
Definition net_TCPListener_h : header := mk_header "__MBED_NET_SOCKETS_TCPLISTENER_H__"
  [Warning; Include [".."; "sockets"; "TCPListener.h"]].

Definition net_v0_Socket_h : header := mk_header "__MBED_NET_SOCKETS_V0_SOCKET_H__"
  [Warning; Include [".."; "sockets"; "v0"; "Socket.h"]].
Definition net_v0_SocketAddr_h : header := mk_header "__MBED_NET_SOCKETS_V0_SOCKETADDR_H__"
  [Warning; Include [".."; "sockets"; "v0"; "SocketAddr.h"]].
Definition net_v0_UDPSocket_h : header := mk_header "__MBED_NET_SOCKETS_V0_UDPSOCKET_H__"
  [Warning; Include [".."; "sockets"; "v0"; "UDPSocket.h"]].
Definition net_v0_TCPAsynch_h : header := mk_header "__MBED_NET_SOCKETS_V0_TCPASYNCH_H__"
  [Warning; Include [".."; "sockets"; "v0"; "TCPAsynch.h"]].
Definition net_v0_TCPStream_h : header := mk_header "__MBED_NET_SOCKETS_V0_TCPSTREAM_H__"
  [Warning; Include [".."; "sockets"; "v0"; "TCPStream.h"]].
Definition net_v0_TCPListener_h : header := mk_header "__MBED_NET_SOCKETS_V0_TCPLISTENER_H__"
  [Warning; Include [".."; "sockets"; "v0"; "TCPListener.h"]].

(** The files of each directory, by name. *)
Definition v0_headers : list (string * header) :=
  [("Socket.h", v0_Socket_h); ("SocketAddr.h", v0_SocketAddr_h); ("UDPSocket.h", v0_UDPSocket_h);
   ("TCPAsynch.h", v0_TCPAsynch_h); ("TCPStream.h", v0_TCPStream_h); ("TCPListener.h", v0_TCPListener_h)].
Definition current_headers : list (string * header) :=
  [("Socket.h", sockets_Socket_h); ("SocketAddr.h", sockets_SocketAddr_h); ("UDPSocket.h", sockets_UDPSocket_h);
   ("TCPAsynch.h", sockets_TCPAsynch_h); ("TCPStream.h", sockets_TCPStream_h); ("TCPListener.h", sockets_TCPListener_h)].
Definition deprecated_headers : list (string * header) :=
  [("Socket.h", net_Socket_h); ("SocketAddr.h", net_SocketAddr_h); ("UDPSocket.h", net_UDPSocket_h);
   ("TCPAsynch.h", net_TCPAsynch_h); ("TCPStream.h", net_TCPStream_h); ("TCPListener.h", net_TCPListener_h)].
Definition deprecated_v0_headers : list (string * header) :=
  [("Socket.h", net_v0_Socket_h); ("SocketAddr.h", net_v0_SocketAddr_h); ("UDPSocket.h", net_v0_UDPSocket_h);
   ("TCPAsynch.h", net_v0_TCPAsynch_h); ("TCPStream.h", net_v0_TCPStream_h); ("TCPListener.h", net_v0_TCPListener_h)].
Definition in_dir (dir : path) (l : list (string * header)) : list (path * header) :=
  (λ f, (dir ++ [f.1], f.2)) <$> l.
Definition repository : list (path * header) :=
  in_dir ["sockets"; "v0"] v0_headers ++ in_dir ["sockets"] current_headers ++
  in_dir ["mbed-net-sockets"] deprecated_headers ++
  in_dir ["mbed-net-sockets"; "v0"] deprecated_v0_headers.
Definition repo_file (p : path) : option header :=
  (λ x, x.2.2) <$> list_find (λ x, x.1 = p) repository.

(** ** Termination: each nested include defines one more guard *)

Section termination.
Context (files : path → option header) (elsewhere : path → bool).

Definition todo (gs : list string) (s : unit_state) : nat :=
  length (filter (λ g, g ∉ macros s) gs).

(** Macros are never undefined, and no include nests too deep from states with the
    macros of [M]. *)
Definition deep_enough (M : list string) (inc : path → unit_state → compiled) : Prop :=
  ∀ p s, M ⊆ macros s →
    match inc p s with inl s' => macros s ⊆ macros s' | inr d => d ≠ TooDeep end.

Lemma run_items_deep M inc dir l s :
  deep_enough M inc → M ⊆ macros s →
  match run_items files elsewhere inc dir l s with
  | inl s' => macros s ⊆ macros s'
  | inr d => d ≠ TooDeep
  end.
Proof.
  intros Hi. revert s. induction l as [|i l IH]; intros s Hs; simpl; [done|].
  assert (match run_item files elsewhere inc dir i s with
          | inl s' => macros s ⊆ macros s' | inr d => d ≠ TooDeep end) as H1.
  { destruct i as [| | |c ms|]; simpl; try done; [| |by case_decide].
    - destruct (find_include _ _ dir name); [by apply Hi | done | done].
    - unfold class_item. destruct (filter _ ms); [by case_decide | done]. }
  destruct (run_item _ _ _ _ _ s) as [s1|d]; [|done].
  specialize (IH s1). destruct (run_items _ _ _ _ l s1); set_solver.
Qed.

Lemma todo_mono gs s s' : macros s ⊆ macros s' → todo gs s' ≤ todo gs s.
Proof.
  intros Hs. unfold todo. induction gs as [|g gs IH]; [done|]. rewrite !filter_cons.
  repeat case_decide; simpl; try lia. set_solver.
Qed.

Lemma todo_define gs g s : g ∈ gs → g ∉ macros s → todo gs (define g s) < todo gs s.
Proof.
  intros Hg Hn. pose proof (λ l, todo_mono l s (define g s)) as Hm. unfold todo in *.
  induction gs as [|g' gs IH]; [set_solver|]. rewrite !filter_cons.
  assert (macros s ⊆ macros (define g s)) as Hsub by set_solver.
  specialize (Hm gs Hsub). destruct (decide (g' = g)) as [->|Hne].
  - rewrite decide_False by (simpl; set_solver). rewrite decide_True by done.
    cbn [length]. lia.
  - assert (g ∈ gs) by set_solver. specialize (IH H).
    repeat case_decide; cbn [length]; try lia; simpl in *; set_solver.
Qed.

Lemma include_deep gs :
  (∀ p h, files p = Some h → guard h ∈ gs) →
  ∀ fuel M, todo gs (mk_unit M [] false 0) < fuel →
  deep_enough M (include files elsewhere fuel).
Proof.
  intros Hgs fuel. induction fuel as [|fuel IH]; intros M Hf p s Hs; [lia|]. simpl.
  destruct (files p) as [h|] eqn:Hp; [|done]. case_decide as Hg; [done|].
  assert (todo gs s ≤ todo gs (mk_unit M [] false 0)) as H1 by by apply todo_mono.
  pose proof (todo_define gs (guard h) s (Hgs p h Hp) Hg) as H2.
  assert (deep_enough (guard h :: macros s) (include files elsewhere fuel)) as H3.
  { apply IH. change (todo gs (define (guard h) s) < fuel). lia. }
  pose proof (run_items_deep _ _ (take (length p - 1) p) (items h) (define (guard h) s) H3) as H4.
  specialize (H4 ltac:(done)). destruct (run_items _ _ _ _ _ _); set_solver.
Qed.

End termination.

(** ** What a translation unit declares *)

(** The names that other packages have to provide. *)
Definition external_names : list path :=
  [["sal"; "socket_types.h"]; ["sal"; "socket_api.h"]; ["mbed-drivers"; "mbed.h"];
   ["mbed-drivers"; "CThunk.h"]; ["core-util"; "FunctionPointer.h"]; ["minar"; "minar.h"]].

(** The specification: a class comes with the classes it is built on, and no others. *)
Definition needs (c : string) : list string :=
  if decide (c = "SocketAddr") then ["SocketAddr"]
  else if decide (c = "Socket") then ["Socket"; "SocketAddr"]
  else if decide (c = "UDPSocket") then ["UDPSocket"; "Socket"; "SocketAddr"]
  else if decide (c = "TCPAsynch") then ["TCPAsynch"; "Socket"; "SocketAddr"]
  else if decide (c = "TCPStream") then ["TCPStream"; "TCPAsynch"; "Socket"; "SocketAddr"]
  else if decide (c = "TCPListener")
  then ["TCPListener"; "TCPStream"; "TCPAsynch"; "Socket"; "SocketAddr"]
  else [].

(** The header of a class in [sockets/v0], and its guard. *)
Definition v0_path (c : string) : path := ["sockets"; "v0"; (c ++ ".h")%string].
Definition v0_guard (c : string) : string := from_option guard EmptyString (repo_file (v0_path c)).
Definition class_names : list string :=
  ["SocketAddr"; "Socket"; "UDPSocket"; "TCPAsynch"; "TCPStream"; "TCPListener"].

Section once.
Context (elsewhere : path → bool).

(** While the headers of the classes [O] are being processed: a class has been declared
    exactly when its guard is defined, but for those of [O]; nothing is declared twice or
    without what it needs. *)
Record inv (O : list string) (s : unit_state) : Prop := {
  inv_nodup : NoDup (declared s);
  inv_names : declared s ⊆ class_names;
  inv_guard c : c ∈ class_names → v0_guard c ∈ macros s ↔ c ∈ declared s ∨ c ∈ O;
  inv_open c : c ∈ O → c ∉ declared s;
  inv_needs c : c ∈ declared s → needs c ⊆ declared s
}.

(** [s'] declares what [s] does and the classes [N], and defines guards of [v0] only. *)
Definition adds (N : list string) (s s' : unit_state) : Prop :=
  (∀ c, c ∈ declared s' ↔ c ∈ declared s ∨ c ∈ N) ∧
  ∃ l, macros s' = l ++ macros s ∧ l ⊆ v0_guard <$> class_names.

Definition step_ok (N O : list string) (m : unit_state → compiled) : Prop :=
  ∀ s, inv O s → ∃ s', m s = inl s' ∧ inv O s' ∧ adds N s s'.

Lemma v0_guard_inj c d :
  c ∈ class_names → d ∈ class_names → v0_guard c = v0_guard d → c = d.
Proof.
  intros Hc Hd. unfold class_names in *. rewrite !elem_of_cons, elem_of_nil in Hc, Hd.
  destruct_or?; subst; try done; vm_compute; discriminate.
Qed.

Lemma adds_refl N s : N ⊆ declared s → adds N s s.
Proof. intros HN. split; [set_solver | exists []; split; [done | set_solver]]. Qed.

Lemma adds_trans N1 N2 s1 s2 s3 : adds N1 s1 s2 → adds N2 s2 s3 → adds (N1 ++ N2) s1 s3.
Proof.
  intros [H1 (l1 & E1 & L1)] [H2 (l2 & E2 & L2)]. split.
  - intros c. rewrite H2, H1. set_solver.
  - exists (l2 ++ l1). rewrite E2, E1, (assoc_L (++)). set_solver.
Qed.

(** The contents of a header, item by item. *)
Lemma run_items_app inc dir l1 l2 s s1 :
  run_items repo_file elsewhere inc dir l1 s = inl s1 →
  run_items repo_file elsewhere inc dir (l1 ++ l2) s = run_items repo_file elsewhere inc dir l2 s1.
Proof.
  revert s. induction l1 as [|i l1 IH]; simpl; intros s; [by intros [= ->]|].
  by destruct (run_item _ _ _ _ i s); [apply IH|].
Qed.

Lemma items_nil inc dir O : step_ok [] O (run_items repo_file elsewhere inc dir []).
Proof. intros s Hs. exists s. split; [done|]. split; [done|]. apply adds_refl. set_solver. Qed.

Lemma items_skip inc dir i l N O :
  (∀ s, run_item repo_file elsewhere inc dir i s = inl s) →
  step_ok N O (run_items repo_file elsewhere inc dir l) →
  step_ok N O (run_items repo_file elsewhere inc dir (i :: l)).
Proof. intros Hi Hl s Hs. simpl. rewrite Hi. by apply Hl. Qed.

Lemma items_include inc dir name p l N1 N2 O :
  find_include repo_file elsewhere dir name = Here p → step_ok N1 O (inc p) →
  step_ok N2 O (run_items repo_file elsewhere inc dir l) →
  step_ok (N1 ++ N2) O (run_items repo_file elsewhere inc dir (Include name :: l)).
Proof.
  intros Hf H1 H2 s Hs. simpl. rewrite Hf.
  destruct (H1 s Hs) as (s1 & -> & Hs1 & A1). destruct (H2 s1 Hs1) as (s2 & -> & Hs2 & A2).
  exists s2. split; [done|]. split; [done|]. by eapply adds_trans.
Qed.

Lemma class_item_ok c ms s :
  ms ⊆ declared s → c ∉ declared s → class_item c ms s = inl (declare c s).
Proof.
  intros Hm Hc. unfold class_item. destruct (filter _ ms) as [|m l] eqn:E.
  - by rewrite decide_False.
  - assert (m ∈ m :: l) as H by set_solver. rewrite <- E in H.
    apply list_elem_of_filter in H as [Hn Hin]. by apply Hm in Hin.
Qed.

(** The header of a class: its guard is defined, its includes declare what the class
    needs, and the class is declared last. *)
Lemma v0_header_ok c fuel h l ms N O :
  repo_file (v0_path c) = Some h → items h = l ++ [Class c ms] → c ∈ class_names →
  c ∉ O → c ∉ N → ms ⊆ N → (∀ d, d ∈ needs c ↔ d ∈ c :: N) →
  step_ok N (c :: O) (run_items repo_file elsewhere (include repo_file elsewhere fuel) ["sockets"; "v0"] l) →
  step_ok (needs c) O (include repo_file elsewhere (S fuel) (v0_path c)).
Proof.
  intros Hf Hi Hc HO HN Hms Hneeds Hl s Hs.
  assert (v0_guard c = guard h) as Hg by (unfold v0_guard; by rewrite Hf).
  simpl. rewrite Hf. case_decide as Hd.
  - exists s. rewrite <- Hg in Hd. apply (inv_guard O s Hs c Hc) in Hd as [Hd|]; [|done].
    split; [done|]. split; [done|]. apply adds_refl. by apply (inv_needs O s Hs).
  - assert (c ∉ declared s) as Hnd.
    { intros H. apply Hd. rewrite <- Hg. apply (inv_guard O s Hs c Hc). by left. }
    destruct (Hl (define (guard h) s)) as (s1 & Hr & Hs1 & A1).
    { destruct Hs as [I1 I2 I3 I4 I5]. split; simpl; [done | done | | set_solver | done].
      intros d Hdc. rewrite elem_of_cons, (I3 d Hdc), elem_of_cons. split.
      - intros [E|[H|H]]; [|by left|by right; right].
        right. left. apply v0_guard_inj; [done..|]. by rewrite Hg.
      - intros [H|[->|H]]; [by right; left | by left | by right; right]. }
    rewrite Hi. change (take (length (v0_path c) - 1) (v0_path c)) with ["sockets"; "v0"].
    rewrite (run_items_app _ _ _ _ _ s1 Hr). simpl.
    destruct A1 as [D1 (k & E1 & L1)]. simpl in D1.
    assert (c ∉ declared s1) as Hnd1 by (rewrite D1; tauto).
    rewrite class_item_ok; [|intros m Hm; apply D1; right; by apply Hms | done].
    exists (declare c s1). split; [done|]. split.
    + destruct Hs1 as [I1 I2 I3 I4 I5]. split; simpl.
      * by constructor.
      * set_solver.
      * intros d Hdc. rewrite (I3 d Hdc), !elem_of_cons. tauto.
      * intros d Hd'. rewrite elem_of_cons. intros [->|H]; [done|].
        apply (I4 d); [by right | done].
      * intros d. rewrite elem_of_cons. intros [->|H] e He.
        -- apply Hneeds in He. rewrite elem_of_cons in *. rewrite D1. tauto.
        -- apply elem_of_cons. right. by apply (I5 d).
    + split.
      * intros d. simpl. rewrite elem_of_cons, D1, Hneeds, elem_of_cons. tauto.
      * exists (k ++ [guard h]). change (macros (declare c s1)) with (macros s1). rewrite E1, <- (assoc_L (++)). split; [done|].
        rewrite <- Hg. intros x. rewrite elem_of_app, list_elem_of_singleton.
        intros [H| ->]; [by apply L1 | by apply list_elem_of_fmap_2].
Qed.

Context (found : ∀ name, name ∈ external_names → elsewhere name = true).

Lemma external_found name :
  bool_decide (name ∈ external_names) = true →
  find_include repo_file elsewhere ["sockets"; "v0"] name = Elsewhere.
Proof.
  intros Hn%bool_decide_eq_true. pose proof (found name Hn) as Hf. unfold external_names in Hn.
  rewrite !elem_of_cons, elem_of_nil in Hn.
  destruct_or?; subst; try done; unfold find_include; simpl in *; by rewrite Hf.
Qed.

Lemma items_external inc name l N O :
  bool_decide (name ∈ external_names) = true →
  step_ok N O (run_items repo_file elsewhere inc ["sockets"; "v0"] l) →
  step_ok N O (run_items repo_file elsewhere inc ["sockets"; "v0"] (Include name :: l)).
Proof. intros Hn. apply items_skip. intros s. simpl. by rewrite external_found. Qed.

(** The side conditions of [v0_header_ok], computed. *)
Definition header_check (c : string) (ms N : list string) : bool :=
  bool_decide (c ∈ class_names) && bool_decide (c ∉ N) && bool_decide (Forall (.∈ N) ms) &&
  bool_decide (Forall (.∈ c :: N) (needs c)) && bool_decide (Forall (.∈ needs c) (c :: N)).

Definition before_class (h : header) : list item := take (length (items h) - 1) (items h).

Lemma v0_header c fuel h ms N O :
  repo_file (v0_path c) = Some h → items h = before_class h ++ [Class c ms] → header_check c ms N = true → c ∉ O →
  step_ok N (c :: O) (run_items repo_file elsewhere (include repo_file elsewhere fuel) ["sockets"; "v0"]
                        (before_class h)) →
  step_ok (needs c) O (include repo_file elsewhere (S fuel) (v0_path c)).
Proof.
  unfold header_check. intros Hf Hi Hc HO. rewrite !andb_true_iff, !bool_decide_eq_true, !Forall_forall in Hc.
  destruct Hc as [[[[H1 H2] H3] H4] H5]. apply (v0_header_ok c fuel h (before_class h) ms N O); try done.
  intros d. split; [apply H4 | apply H5].
Qed.

(** Prove that the header of a class declares what it needs: go through its items, with
    the lemmas in the context for the headers it includes. *)
Ltac header_items :=
  repeat lazymatch goal with
  | |- step_ok _ _ (run_items _ _ _ _ []) => apply items_nil
  | |- step_ok _ _ (run_items _ _ _ _ (System _ :: _)) => apply items_skip; [intros ?; reflexivity|]
  | |- step_ok _ _ (run_items _ _ _ _ (Include [_] :: _)) =>
    eapply items_include; [reflexivity | eassumption |]
  | |- step_ok _ _ (run_items _ _ _ _ (Include _ :: _)) => apply items_external; [reflexivity|]
  end.
Ltac header_ok :=
  eapply v0_header; [reflexivity | reflexivity | | assumption |];
  [| match goal with |- context [before_class ?h] =>
       let l := eval vm_compute in (before_class h) in change (before_class h) with l end;
     header_items]; run_refl.

(** None of the headers that [c] needs is being processed. *)
Definition free (c : string) (O : list string) : Prop := ∀ d, d ∈ needs c → d ∉ O.

Lemma free_cons c d O :
  bool_decide (Forall (λ e, e ≠ c ∧ e ∈ needs c) (needs d)) = true → free c O → free d (c :: O).
Proof.
  intros H%bool_decide_eq_true Hc e He. rewrite Forall_forall in H. destruct (H e He) as [H1 H2].
  rewrite not_elem_of_cons. split; [done | by apply Hc].
Qed.

Definition header_spec (c : string) (depth : nat) : Prop :=
  ∀ fuel O, free c O →
    step_ok (needs c) O (include repo_file elsewhere (depth + fuel) (v0_path c)).

Lemma SocketAddr_ok : header_spec "SocketAddr" 1.
Proof. intros fuel O HO. pose proof (HO "SocketAddr" ltac:(left)). header_ok. Qed.

(** A header that includes the header of one class, or of two. *)
Ltac header_on c d :=
  let fuel := fresh "fuel" in let O := fresh "O" in let HO := fresh "HO" in
  intros fuel O HO; pose proof (HO c ltac:(left));
  let H := fresh in
  lazymatch type of d with header_spec ?x ?n =>
    pose proof (d fuel (c :: O) (free_cons c x O eq_refl HO)) as H
  end; simpl Nat.add in *; header_ok.

Lemma Socket_ok : header_spec "Socket" 2.
Proof. header_on "Socket" SocketAddr_ok. Qed.

Lemma UDPSocket_ok : header_spec "UDPSocket" 3.
Proof. header_on "UDPSocket" Socket_ok. Qed.

Lemma TCPAsynch_ok : header_spec "TCPAsynch" 3.
Proof. header_on "TCPAsynch" Socket_ok. Qed.

Lemma TCPStream_ok : header_spec "TCPStream" 4.
Proof. header_on "TCPStream" TCPAsynch_ok. Qed.

Lemma TCPListener_ok : header_spec "TCPListener" 5.
Proof.
  intros fuel O HO. pose proof (HO "TCPListener" ltac:(left)).
  pose proof (TCPAsynch_ok (S fuel) _ (free_cons "TCPListener" "TCPAsynch" O eq_refl HO)).
  pose proof (TCPStream_ok fuel _ (free_cons "TCPListener" "TCPStream" O eq_refl HO)).
  simpl Nat.add in *. header_ok.
Qed.

Lemma class_headers c : c ∈ class_names → header_spec c 5.
Proof.
  intros Hc. unfold class_names in Hc. rewrite !elem_of_cons, elem_of_nil in Hc.
  destruct_or?; subst; try done; intros fuel.
  - apply (SocketAddr_ok (4 + fuel)).
  - apply (Socket_ok (3 + fuel)).
  - apply (UDPSocket_ok (2 + fuel)).
  - apply (TCPAsynch_ok (2 + fuel)).
  - apply (TCPStream_ok (1 + fuel)).
  - apply (TCPListener_ok fuel).
Qed.

(** ** The forwarding headers *)

Definition current_path (c : string) : path := ["sockets"; (c ++ ".h")%string].
Definition deprecated_path (c : string) : path := ["mbed-net-sockets"; (c ++ ".h")%string].
Definition guard_of (p : path) : string := from_option guard EmptyString (repo_file p).
Definition forward_guards (c : string) : list string :=
  [guard_of (current_path c); guard_of (deprecated_path c)].

(** Between includes: a forwarding header that was included has done its work, but for
    those with guards in [E], which are being processed. *)
Definition top (E : list string) (s : unit_state) : Prop :=
  inv [] s ∧ ∀ c g, c ∈ class_names → g ∈ forward_guards c → g ∈ macros s → g ∈ E ∨ c ∈ declared s.

Definition top_step (c : string) (E : list string) (m : unit_state → compiled) : Prop :=
  ∀ s, top E s → ∃ s', m s = inl s' ∧ top E s' ∧
                       ∀ d, d ∈ declared s' ↔ d ∈ declared s ∨ d ∈ needs c.

(** The 12 forwarding guards differ from one another and from those of [v0]. *)
Lemma forward_guard_fresh c d g :
  c ∈ class_names → d ∈ class_names → g ∈ forward_guards c → g ≠ v0_guard d.
Proof.
  assert (bool_decide (Forall (λ c, Forall (λ g, Forall (λ d, g ≠ v0_guard d) class_names)
            (forward_guards c)) class_names) = true) as H by run_refl.
  apply bool_decide_eq_true in H. rewrite Forall_forall in H. intros Hc Hd Hg.
  specialize (H c Hc). rewrite Forall_forall in H. specialize (H g Hg).
  rewrite Forall_forall in H. by apply H.
Qed.

Lemma forward_guard_inj c d g :
  c ∈ class_names → d ∈ class_names → g ∈ forward_guards c → g ∈ forward_guards d → c = d.
Proof.
  assert (bool_decide (Forall (λ c, Forall (λ d, Forall (λ g, g ∈ forward_guards d → c = d)
            (forward_guards c)) class_names) class_names) = true) as H by run_refl.
  apply bool_decide_eq_true in H. rewrite Forall_forall in H. intros Hc Hd Hg.
  specialize (H c Hc). rewrite Forall_forall in H. specialize (H d Hd).
  rewrite Forall_forall in H. by apply H.
Qed.

Lemma needs_self c : c ∈ class_names → c ∈ needs c.
Proof.
  assert (bool_decide (Forall (λ c, c ∈ needs c) class_names) = true) as H by run_refl.
  apply bool_decide_eq_true in H. rewrite Forall_forall in H. apply H.
Qed.

Lemma v0_top c fuel E :
  c ∈ class_names → top_step c E (include repo_file elsewhere (5 + fuel) (v0_path c)).
Proof.
  intros Hc s [Hs Hf].
  destruct (class_headers c Hc fuel [] (λ d _, not_elem_of_nil d) s Hs) as (s' & Hr & Hs' & HD & l & HM & HL).
  exists s'. split; [exact Hr|]. split; [|exact HD]. split; [done|].
  intros d g Hd Hg Hm. rewrite HM, elem_of_app in Hm. destruct Hm as [Hm|Hm].
  - apply HL in Hm. apply list_elem_of_fmap in Hm as (e & -> & He).
    by destruct (forward_guard_fresh d e _ Hd He Hg).
  - rewrite HD. destruct (Hf d g Hd Hg Hm); tauto.
Qed.

(** A forwarding header of [c], whose contents declare what [c] needs. *)
Lemma forwards c p h fuel E :
  c ∈ class_names → repo_file p = Some h → guard h ∈ forward_guards c → guard h ∉ E →
  top_step c (guard h :: E) (run_items repo_file elsewhere (include repo_file elsewhere fuel)
                               (take (length p - 1) p) (items h)) →
  top_step c E (include repo_file elsewhere (S fuel) p).
Proof.
  intros Hc Hp Hg HE Hm s [Hs Hf]. simpl. rewrite Hp. case_decide as Hd.
  - exists s. split; [done|]. split; [done|]. intros d.
    destruct (Hf c _ Hc Hg Hd) as [|Hcd]; [done|].
    pose proof (inv_needs _ _ Hs c Hcd d). tauto.
  - destruct (Hm (define (guard h) s)) as (s' & Hr & [Hs' Hf'] & HD).
    + split.
      * destruct Hs as [I1 I2 I3 I4 I5]. split; simpl; try done.
        intros d Hdc. rewrite elem_of_cons, (I3 d Hdc).
        pose proof (forward_guard_fresh c d _ Hc Hdc Hg). naive_solver.
      * intros d g Hdc Hgd. simpl. rewrite !elem_of_cons. intros [->|Hgm]; [by left; left|].
        destruct (Hf d g Hdc Hgd Hgm); tauto.
    + exists s'. split; [done|]. split; [|done]. split; [done|].
      intros d g Hdc Hgd Hgm. destruct (Hf' d g Hdc Hgd Hgm) as [Hin|]; [|by right].
      apply elem_of_cons in Hin as [->|]; [|by left]. right.
      rewrite (forward_guard_inj d c _ Hdc Hc Hgd Hg). apply HD. right. by apply needs_self.
Qed.

Lemma current_contents c inc dir name p E :
  c ∈ class_names → find_include repo_file elsewhere dir name = Here p → top_step c E (inc p) →
  top_step c E (run_items repo_file elsewhere inc dir [Include name; Current]).
Proof.
  intros Hc Hf Hi s Hs. destruct (Hi s Hs) as (s1 & Hr & [H1 H2] & HD). simpl. rewrite Hf, Hr.
  rewrite decide_False.
  - exists (set_current s1). split; [done|]. split; [|done]. split; [by destruct H1|done].
  - intros He. assert (c ∈ declared s1) as H by (apply HD; right; by apply needs_self).
    rewrite He in H. by apply elem_of_nil in H.
Qed.

Lemma deprecated_contents c inc dir name p E :
  find_include repo_file elsewhere dir name = Here p → top_step c E (inc p) →
  top_step c E (run_items repo_file elsewhere inc dir [Warning; Include name]).
Proof.
  intros Hf Hi s [Hs Hw]. destruct (Hi (warn s)) as (s1 & Hr & Ht & HD).
  { split; [by destruct Hs | done]. }
  exists s1. simpl. by rewrite Hf, Hr.
Qed.

Lemma current_top c fuel E :
  c ∈ class_names → guard_of (current_path c) ∉ E →
  top_step c E (include repo_file elsewhere (6 + fuel) (current_path c)).
Proof.
  intros Hc HE. pose proof (v0_top c fuel (guard_of (current_path c) :: E) Hc) as Hv.
  pose proof Hc as Hc'. unfold class_names in Hc'. rewrite !elem_of_cons, elem_of_nil in Hc'.
  destruct_or?; subst; try done;
    (eapply forwards; [done | reflexivity | left | exact HE |];
     eapply current_contents; [done | reflexivity | exact Hv]).
Qed.

Lemma deprecated_top c fuel E :
  c ∈ class_names → guard_of (current_path c) ∉ E → guard_of (deprecated_path c) ∉ E →
  top_step c E (include repo_file elsewhere (7 + fuel) (deprecated_path c)).
Proof.
  intros Hc HE HE'. pose proof (current_top c fuel (guard_of (deprecated_path c) :: E) Hc) as Hv.
  rewrite not_elem_of_cons in Hv. pose proof Hc as Hc'. unfold class_names in Hc'.
  rewrite !elem_of_cons, elem_of_nil in Hc'.
  destruct_or?; subst; try done;
    (eapply forwards; [done | reflexivity | right; left | exact HE' |];
     eapply deprecated_contents; [reflexivity | apply Hv; split; [vm_compute; discriminate | exact HE]]).
Qed.

(** The headers that declare the class [c]: of the version, of the current version, and
    the deprecated one. *)
Definition headers_of (c : string) : list path := [v0_path c; current_path c; deprecated_path c].

Lemma header_top c p fuel :
  c ∈ class_names → p ∈ headers_of c → top_step c [] (include repo_file elsewhere (7 + fuel) p).
Proof.
  intros Hc. unfold headers_of. rewrite !elem_of_cons, elem_of_nil. intros [->|[->|[->|[]]]].
  - by apply (v0_top c (2 + fuel)).
  - apply (current_top c (1 + fuel)); [done | apply not_elem_of_nil].
  - apply deprecated_top; [done | apply not_elem_of_nil..].
Qed.

Lemma headers_inj c d p :
  c ∈ class_names → d ∈ class_names → p ∈ headers_of c → p ∈ headers_of d → c = d.
Proof.
  assert (bool_decide (Forall (λ c, Forall (λ d, Forall (λ p, p ∈ headers_of d → c = d)
            (headers_of c)) class_names) class_names) = true) as H by run_refl.
  apply bool_decide_eq_true in H. rewrite Forall_forall in H. intros Hc Hd Hp.
  specialize (H c Hc). rewrite Forall_forall in H. specialize (H d Hd).
  rewrite Forall_forall in H. by apply H.
Qed.

(** The classes that the headers [ps] stand for, with what they need. *)
Definition asked (ps : list path) (d : string) : Prop :=
  ∃ c p, c ∈ class_names ∧ p ∈ ps ∧ p ∈ headers_of c ∧ d ∈ needs c.

Lemma asked_cons c p ps d :
  c ∈ class_names → p ∈ headers_of c → asked (p :: ps) d ↔ d ∈ needs c ∨ asked ps d.
Proof.
  intros Hc Hp. unfold asked.
  assert (∀ q, q ∈ p :: ps ↔ q = p ∨ q ∈ ps) as E by (intros q; apply elem_of_cons).
  setoid_rewrite E. split.
  - intros (c' & q & Hc' & [->|Hq] & Hh & Hd); [|by right; eauto 10].
    left. rewrite (headers_inj c c' p Hc Hc' Hp Hh). exact Hd.
  - intros [Hd|(c' & q & ? & ? & ? & ?)]; eauto 10.
Qed.

Lemma include_all_cons fuel p ps s s1 :
  include repo_file elsewhere fuel p s = inl s1 →
  include_all repo_file elsewhere fuel (p :: ps) s = include_all repo_file elsewhere fuel ps s1.
Proof. intros H. cbn [include_all]. by rewrite H. Qed.

Lemma include_all_top ps s :
  (∀ p, p ∈ ps → ∃ c, c ∈ class_names ∧ p ∈ headers_of c) → top [] s →
  ∃ s', include_all repo_file elsewhere 7 ps s = inl s' ∧ top [] s' ∧
        ∀ d, d ∈ declared s' ↔ d ∈ declared s ∨ asked ps d.
Proof.
  revert s. induction ps as [|p ps IH]; intros s Hps Hs.
  - exists s. split; [done|]. split; [done|]. intros d. unfold asked. set_solver.
  - destruct (Hps p ltac:(left)) as (c & Hc & Hp).
    destruct (header_top c p 0 Hc Hp s Hs) as (s1 & Hr & Hs1 & H1).
    destruct (IH s1) as (s2 & Hr2 & Hs2 & H2); [by intros q Hq; apply Hps; right | done |].
    exists s2. rewrite (include_all_cons _ _ _ _ _ Hr). split; [done|]. split; [done|].
    intros d. rewrite H2, H1, (asked_cons c) by done. tauto.
Qed.


(** A deprecated header of the directory [mbed-net-sockets/v0] cannot be processed:
    its include names no file from its own directory or from the root of the repository,
    so unless another package happens to provide that name, compilation stops there. *)
Theorem deprecated_v0_not_found c fuel s :
  c ∈ class_names → elsewhere [".."; "sockets"; "v0"; (c ++ ".h")%string] = false →
  guard_of ["mbed-net-sockets"; "v0"; (c ++ ".h")%string] ∉ macros s →
  include repo_file elsewhere (S fuel) ["mbed-net-sockets"; "v0"; (c ++ ".h")%string] s =
    inr (NotFound [".."; "sockets"; "v0"; (c ++ ".h")%string]).
Proof.
  intros Hc He Hg. unfold class_names in Hc. rewrite !elem_of_cons, elem_of_nil in Hc.
  destruct_or?; subst; try done; simpl; rewrite decide_False by exact Hg;
    cbv [run_items run_item find_include]; simpl; vm_compute in He; by rewrite He.
Qed.
End once.

(** ** The theorems at concrete inputs *)

Definition demo_elsewhere (name : path) : bool := bool_decide (name ∈ external_names).



Lemma deprecated_v0_not_found_witness :
  include repo_file demo_elsewhere 10 ["mbed-net-sockets"; "v0"; "UDPSocket.h"] empty_unit =
    inr (NotFound [".."; "sockets"; "v0"; "UDPSocket.h"]).
Proof.
  apply (deprecated_v0_not_found demo_elsewhere "UDPSocket" 9);
    [apply (bool_decide_unpack _); vm_compute; exact I | reflexivity | apply not_elem_of_nil].
Defined.
