(* ===== verification/Classes.v ===== *)
(** * The class declarations, and C++'s rules for using them

    The declarations of the five classes of the hierarchy, as the headers of
    [src/sockets/v0] have them: base, types, constructors, members with their access and
    whether they are virtual.  On them, the rules of the language that decide what a
    program can write and what a call reaches: lookup of a member name (a class that
    declares the name hides its bases), access, and the final overrider of a virtual
    member.  The theorems say that the calls of [System] and the tables of [Dispatch] are
    the ones these rules give. *)
From S2P Require Import Prelude Types Interfaces SocketAddr World Socket UDPSocket TCPAsynch.
From S2P Require Import TCPStream TCPListener Dispatch Shape System Lifetimes.
From stdpp Require Import base gmap list strings.
From Stdlib Require Import ZArith Lia.

Inductive access := Public | Protected | Private.

#[export] Instance access_eq_dec : EqDecision access.
Proof. solve_decision. Defined.

(** A member function: its name (a destructor is ~) and the types of its parameters,
    without the [const] of a parameter itself. *)
Record member := mk_member {
  m_access : access;
  m_virtual : bool;      (* declared virtual here *)
  m_name : string;
  m_params : list string
}.

Record class_decl := mk_class {
  c_base : option cls;
  c_types : list (string * list string);       (* handler types: arguments after void *)
  c_ctors : list (access * list string);
  c_members : list member;
  c_data : list (access * string * string)     (* access, type and name *)
}.

(** [class Socket], Socket.h *)
Definition Socket_decl : class_decl := {|
  c_base := None;
  c_types :=
    [("DNSHandler_t", ["Socket *"; "struct socket_addr"; "const char *"]);
     ("ErrorHandler_t", ["Socket *"; "socket_error_t"]);
     ("ReadableHandler_t", ["Socket *"]);
     ("SentHandler_t", ["Socket *"; "uint16_t"])];
  c_ctors := [(Protected, ["socket_stack_t"])];
  c_members :=
    [mk_member Protected true "~" [];
     mk_member Public true "resolve" ["const char *"; "const DNSHandler_t &"];
     mk_member Public true "open" ["socket_address_family_t"; "socket_proto_family_t"];
     mk_member Public true "bind" ["const char *"; "uint16_t"];
     mk_member Public true "bind" ["const SocketAddr *"; "uint16_t"];
     mk_member Public true "setOnError" ["const ErrorHandler_t &"];
     mk_member Public true "setOnReadable" ["const ReadableHandler_t &"];
     mk_member Public true "recv" ["void *"; "size_t *"];
     mk_member Public true "recv_from" ["void *"; "size_t *"; "SocketAddr *"; "uint16_t *"];
     mk_member Public true "setOnSent" ["const SentHandler_t &"];
     mk_member Public true "send" ["const void *"; "size_t"];
     mk_member Public true "send_to" ["const void *"; "size_t"; "const SocketAddr *"; "uint16_t"];
     mk_member Public true "close" [];
     mk_member Public true "error_check" ["socket_error_t"];
     mk_member Public true "isConnected" [];
     mk_member Public true "getLocalAddr" ["SocketAddr *"];
     mk_member Public true "getLocalPort" ["uint16_t *"];
     mk_member Public true "getRemoteAddr" ["SocketAddr *"];
     mk_member Public true "getRemotePort" ["uint16_t *"];
     mk_member Protected true "_eventHandler" ["struct socket_event *"];
     mk_member Private false "_nvEventHandler" ["void *"]];
  c_data :=
    [(Protected, "DNSHandler_t", "_onDNS"); (Protected, "ErrorHandler_t", "_onError");
     (Protected, "ReadableHandler_t", "_onReadable"); (Protected, "SentHandler_t", "_onSent");
     (Protected, "CThunk<Socket>", "_irq"); (Public, "struct socket", "_socket");
     (Private, "socket_event_t *", "_event")]
|}.

(** [class UDPSocket], UDPSocket.h *)
Definition UDPSocket_decl : class_decl := {|
  c_base := Some CSocket;
  c_types := [];
  c_ctors := [(Public, ["socket_stack_t"])];
  c_members :=
    [mk_member Public false "~" [];
     mk_member Public false "open" ["socket_address_family_t"];
     mk_member Public false "connect" ["const SocketAddr *"; "uint16_t"];
     mk_member Private false "open" ["socket_address_family_t"; "socket_proto_family_t"]];
  c_data := []
|}.

(** [class TCPAsynch], TCPAsynch.h *)
Definition TCPAsynch_decl : class_decl := {|
  c_base := Some CSocket;
  c_types := [];
  c_ctors := [(Protected, ["socket_stack_t"])];
  c_members :=
    [mk_member Protected false "~" [];
     mk_member Public true "open" ["socket_address_family_t"];
     mk_member Private false "open" ["socket_address_family_t"; "socket_proto_family_t"]];
  c_data :=
    [(Protected, "static minar::callback_handle_t", "_tick_handle");
     (Protected, "static uintptr_t", "_TCPSockets")]
|}.

(** [class TCPStream], TCPStream.h *)
Definition TCPStream_decl : class_decl := {|
  c_base := Some CTCPAsynch;
  c_types := [("ConnectHandler_t", ["TCPStream *"]); ("DisconnectHandler_t", ["TCPStream *"])];
  c_ctors :=
    [(Public, ["socket_stack_t"]); (Public, ["const struct socket *"]);
     (Public, ["struct socket *"; "const struct socket *"; "socket_error_t &"])];
  c_members :=
    [mk_member Public false "~" [];
     mk_member Public true "connect" ["const SocketAddr &"; "uint16_t"; "const ConnectHandler_t &"];
     mk_member Public true "setOnDisconnect" ["const DisconnectHandler_t &"];
     mk_member Public true "setNagle" ["bool"];
     mk_member Protected false "_eventHandler" ["struct socket_event *"]];
  c_data :=
    [(Protected, "ConnectHandler_t", "_onConnect"); (Protected, "DisconnectHandler_t", "_onDisconnect")]
|}.

(** [class TCPListener], TCPListener.h *)
Definition TCPListener_decl : class_decl := {|
  c_base := Some CTCPAsynch;
  c_types := [("IncomingHandler_t", ["TCPListener *"; "void *"])];
  c_ctors := [(Public, ["socket_stack_t"])];
  c_members :=
    [mk_member Public false "~" [];
     mk_member Public false "start_listening" ["IncomingHandler_t"; "uint32_t"];
     mk_member Public false "stop_listening" [];
     mk_member Public true "accept" ["void *"];
     mk_member Public true "reject" ["void *"];
     mk_member Protected false "_eventHandler" ["struct socket_event *"]];
  c_data := [(Protected, "IncomingHandler_t", "_onIncoming")]
|}.

Definition decl (c : cls) : class_decl :=
  match c with
  | CSocket => Socket_decl
  | CUDPSocket => UDPSocket_decl
  | CTCPAsynch => TCPAsynch_decl
  | CTCPStream => TCPStream_decl
  | CTCPListener => TCPListener_decl
  end.

(** ** The rules of the language *)

(** A class and its bases, the nearest first; inheritance is single. *)
Fixpoint chain (fuel : nat) (c : cls) : list cls :=
  match fuel with
  | O => []
  | S fuel => c :: from_option (chain fuel) [] (c_base (decl c))
  end.
Definition bases (c : cls) : list cls := chain 3 c.

Definition overloads (n : string) (c : cls) : list member :=
  filter (λ m, m_name m = n) (c_members (decl c)).

(** Lookup of a name: the nearest class that declares it hides the others. *)
Fixpoint lookup_name (n : string) (cs : list cls) : list member :=
  match cs with
  | [] => []
  | c :: cs => match overloads n c with [] => lookup_name n cs | ms => ms end
  end.

(** A program may call the member with these parameter types on an object whose static
    type is [c]. *)
Definition callable (c : cls) (n : string) (ps : list string) : bool :=
  bool_decide (Exists (λ m, m_params m = ps ∧ m_access m = Public) (lookup_name n (bases c))).

(** A program may construct a complete object of class [c]. *)
Definition instantiable (c : cls) : bool :=
  bool_decide (Exists (λ k, k.1 = Public) (c_ctors (decl c))).

(** A class declares a function with this name and these parameters, and the same with
    the keyword. *)
Definition declares (n : string) (ps : list string) (c : cls) : bool :=
  bool_decide (Exists (λ m, m_params m = ps) (overloads n c)).
Definition declares_virtual (n : string) (ps : list string) (c : cls) : bool :=
  bool_decide (Exists (λ m, m_params m = ps ∧ m_virtual m = true) (overloads n c)).

(** The class whose function a call reaches, for a static type and a dynamic one: the
    nearest to the dynamic type if the function is virtual in the static type or one of
    its bases, and the nearest to the static type otherwise. *)
Definition reached (static dynamic : cls) (n : string) (ps : list string) : option cls :=
  head (filter (λ c, declares n ps c = true)
    (bases (if existsb (declares_virtual n ps) (bases static) then dynamic else static))).

(** ** The calls of programs *)

(** The member a call names; constructors and members of the struct are no members. *)
Definition member_of (c : call) : option (string * list string) :=
  match c with
  | NewUDPSocket _ _ | NewTCPStream _ _ | NewTCPStreamSock _ _ | NewTCPStreamAccept _ _ _
  | NewTCPListener _ _ => None
  | DeleteObject _ => Some ("~", [])
  | UdpOpen _ _ | TcpOpen _ _ => Some ("open", ["socket_address_family_t"])
  | Resolve _ _ _ => Some ("resolve", ["const char *"; "const DNSHandler_t &"])
  | Bind _ _ _ => Some ("bind", ["const SocketAddr *"; "uint16_t"])
  | BindStr _ _ _ _ => Some ("bind", ["const char *"; "uint16_t"])
  | SetOnError _ _ => Some ("setOnError", ["const ErrorHandler_t &"])
  | SetOnReadable _ _ => Some ("setOnReadable", ["const ReadableHandler_t &"])
  | SetOnSent _ _ => Some ("setOnSent", ["const SentHandler_t &"])
  | ErrorCheck _ _ => Some ("error_check", ["socket_error_t"])
  | Close _ => Some ("close", [])
  | Recv _ _ _ => Some ("recv", ["void *"; "size_t *"])
  | RecvFrom _ _ _ _ _ _ =>
    Some ("recv_from", ["void *"; "size_t *"; "SocketAddr *"; "uint16_t *"])
  | Send _ _ _ => Some ("send", ["const void *"; "size_t"])
  | SendTo _ _ _ _ _ =>
    Some ("send_to", ["const void *"; "size_t"; "const SocketAddr *"; "uint16_t"])
  | IsConnected _ => Some ("isConnected", [])
  | GetLocalAddr _ _ => Some ("getLocalAddr", ["SocketAddr *"])
  | GetLocalPort _ _ => Some ("getLocalPort", ["uint16_t *"])
  | GetRemoteAddr _ _ => Some ("getRemoteAddr", ["SocketAddr *"])
  | GetRemotePort _ _ => Some ("getRemotePort", ["uint16_t *"])
  | UdpConnect _ _ _ => Some ("connect", ["const SocketAddr *"; "uint16_t"])
  | TcpConnect _ _ _ _ =>
    Some ("connect", ["const SocketAddr &"; "uint16_t"; "const ConnectHandler_t &"])
  | SetOnDisconnect _ _ => Some ("setOnDisconnect", ["const DisconnectHandler_t &"])
  | SetNagle _ _ => Some ("setNagle", ["bool"])
  | StartListening _ _ _ => Some ("start_listening", ["IncomingHandler_t"; "uint32_t"])
  | StopListening _ => Some ("stop_listening", [])
  | Accept _ _ _ => Some ("accept", ["void *"])
  | Reject _ _ _ => Some ("reject", ["void *"])
  end.

(** The two calls that name the one-argument [open] differ in the function they reach. *)
Definition reaches (c : call) (k : cls) : bool :=
  match c with
  | UdpOpen _ _ => bool_decide (reached k k "open" ["socket_address_family_t"] = Some CUDPSocket)
  | TcpOpen _ _ => bool_decide (reached k k "open" ["socket_address_family_t"] = Some CTCPAsynch)
  | _ => true
  end.

(** ** Theorems *)

(** Three steps reach the root of the hierarchy from every class. *)
Lemma bases_end c n : chain (3 + n) c = bases c.
Proof. destruct c; by destruct n as [|[|[|n]]]. Qed.

Lemma instantiable_complete k : instantiable k = true ↔ is_complete k.
Proof.
  unfold is_complete, is_tcp. destruct k; vm_compute; split; intros H; destruct_or?; try done; auto.
Qed.

Section Classes.
Context {SA : SAL} {MN : Minar} {RT : Runtime} {IN : Inet}.

(** C17: a call of a program is one the declarations allow: the classes on which [System]
    accepts it are those that a program can construct and on which lookup of the member
    finds a public function with its parameters (for the one-argument [open], the
    function the call stands for).  The classes a program can construct are those of
    complete objects, and on none of them can it write [open] with a protocol family,
    which their private overrides hide. *)
Theorem calls_are_members c p ks n ps k :
  receiver c = Some (p, ks) → member_of c = Some (n, ps) →
  (k ∈ ks ↔ is_complete k ∧ callable k n ps = true ∧ reaches c k = true) ∧
  (is_complete k → callable k "open" ["socket_address_family_t"; "socket_proto_family_t"] = false).
Proof.
  rewrite <- !instantiable_complete. intros Hr Hm. split.
  - destruct c; simplify_eq/=; rewrite !elem_of_cons, elem_of_nil; destruct k; vm_compute;
      split; intros H; destruct_or?; destruct_and?; try done; auto.
  - destruct k; by vm_compute.
Qed.

(** The functions the classes define for the virtual members that are called from
    [Socket]. *)
Definition open_body (c : cls)
    : option (ptr → socket_address_family_t → socket_proto_family_t → M world socket_error_t) :=
  match c with
  | CSocket => Some Socket_open
  | CUDPSocket => Some UDPSocket_open_override
  | CTCPAsynch => Some TCPAsynch_open_override
  | _ => None
  end.
Definition eventHandler_body (c : cls) : option (ptr → socket_event → M world unit) :=
  match c with
  | CSocket => Some Socket_eventHandler
  | CTCPStream => Some TCPStream_eventHandler
  | CTCPListener => Some TCPListener_eventHandler
  | _ => None
  end.

End Classes.

Lemma calls_are_members_witness :
  CTCPStream ∈ [CTCPStream] ↔
  is_complete CTCPStream ∧ callable CTCPStream "setNagle" ["bool"] = true ∧
  reaches (SetNagle 64 true) CTCPStream = true.
Proof.
  apply (calls_are_members (SetNagle 64 true) 64 [CTCPStream] "setNagle" ["bool"] CTCPStream);
    reflexivity.
Defined.
