(* ===== verification/Alive.v ===== *)
(** * Programs that own one client

    What a program of [Harness] can rely on while its client object is alive: the client
    is the one client, the socket embedded in it is the one object of the library, and
    the library's state is that of a program that follows the rules.  [on_alive] says that
    a function of the program completes in such a state and leaves one; the lemmas are
    its rules, and calls of the library satisfy it because they are allowed. *)
From S2P Require Import Prelude Types Interfaces SocketAddr World Socket UDPSocket TCPAsynch.
From S2P Require Import TCPStream TCPListener Dispatch Shape System Lifetimes Events Safety Harness.
From stdpp Require Import base gmap list strings.
From Stdlib Require Import ZArith Lia Ascii.

(** The documented contract of [recv]: the buffer keeps its size, and the length is
    updated to the number of bytes copied, at most what was asked for. *)
Class RecvLaw (SA : SAL) : Prop :=
  recv_contract a f b l s S :
    api_recv (api_at a) = Some f → (0 ≤ l)%Z →
    ∃ err b' n s' S', f (Some b) (Some l) s S = ((err, Some b', Some n), s', S') ∧
                      length b' = length b ∧ (0 ≤ n ≤ l)%Z.

(** [inet_ntop] writes within a buffer of the size it is told. *)
Class NtopLength (IN : Inet) : Prop :=
  ntop_length af a buf size :
    (size ≤ Z.of_nat (length buf))%Z → length (inet_ntop af a buf size).2 = length buf.

(** How a client embeds its socket: the class of the socket, an invariant of the
    client's members, and the size of the global [buffer]. *)
Class Embedding (C : Type) := {
  socket_class : cls;
  member_ok : C → Prop;
  global_size : Z
}.

Section Alive.
Context {SA : SAL} {MN : Minar} {RT : Runtime} {IN : Inet} {HA : Harness}.
Context {C : Type} {EM : Embedding C}.

(** The client at [p] is alive: it is the one client, its socket is the one object. *)
Record alive (p : ptr) (e : echo C) : Prop := {
  al_client : client e = p;
  al_clients : dom (clients e) = {[p]};
  al_members : map_Forall (λ _, member_ok) (clients e);
  al_shape : shape (ew e) = {[p := socket_class]};
  al_proper : proper (ew e);
  al_buffer : Z.of_nat (length (buffer e)) = global_size
}.

(** The program is finished: nothing of it is left. *)
Record finished (e : echo C) : Prop := {
  fin_client : client e = NULL;
  fin_clients : clients e = ∅;
  fin_shape : shape (ew e) = ∅;
  fin_proper : proper (ew e)
}.

(** A function that completes on a client that is alive, and leaves it alive. *)
Definition on_alive {A} (p : ptr) (m : M (echo C) A) : Prop :=
  ∀ e, alive p e → wp m (λ _ e', alive p e') e.

Lemma on_alive_ret {A} p (a : A) : on_alive p (mret a).
Proof. by intros e He. Qed.

Lemma on_alive_gets {A} p (f : echo C → A) : on_alive p (gets f).
Proof. by intros e He. Qed.

Lemma on_alive_bind {A B} p (m : M (echo C) A) (k : A → M (echo C) B) :
  on_alive p m → (∀ a, on_alive p (k a)) → on_alive p (m ≫= k).
Proof.
  intros Hm Hk e He. apply wp_bind. eapply wp_mono; [by apply Hm|]. intros a e' He'. by apply Hk.
Qed.

Lemma on_alive_modify p (f : echo C → echo C) :
  (∀ e, ew (f e) = ew e ∧ clients (f e) = clients e ∧ client (f e) = client e ∧
        length (buffer (f e)) = length (buffer e)) → on_alive p (modify f).
Proof.
  intros Hf e [H1 H2 H3 H4 H5 H6]. destruct (Hf e) as (F1 & F2 & F3 & F4).
  unfold wp, modify. split; by rewrite ?F1, ?F2, ?F3, ?F4.
Qed.

Lemma on_alive_TEST_ASSERT p b m : on_alive p m → on_alive p (TEST_ASSERT b m).
Proof.
  intros Hm. unfold TEST_ASSERT. destruct b; [done|].
  apply on_alive_bind; [by apply on_alive_modify | intros _].
  destruct assert_continues; [done | apply on_alive_ret].
Qed.

Lemma alive_lookup p e : alive p e → ∃ c, clients e !! p = Some c ∧ member_ok c.
Proof.
  intros He. assert (is_Some (clients e !! p)) as [c Hc].
  { apply elem_of_dom. rewrite (al_clients p e He). set_solver. }
  exists c. split; [done|]. exact (al_members p e He p c Hc).
Qed.

Lemma alive_clients p e c :
  alive p e → member_ok c → alive p (set_clients (<[p := c]> (clients e)) e).
Proof.
  intros [H1 H2 H3 H4 H5 H6] Hc. split; simpl; try done.
  - rewrite dom_insert_L, H2. set_solver.
  - by apply map_Forall_insert_2.
Qed.

Lemma on_alive_get_client p : on_alive p (get_client p).
Proof.
  intros e He. destruct (alive_lookup p e He) as (c & Hc & _). unfold wp, get_client. by rewrite Hc.
Qed.

Lemma on_alive_client {A} p (k : C → M (echo C) A) :
  (∀ c, member_ok c → on_alive p (k c)) → on_alive p (get_client p ≫= k).
Proof.
  intros Hk e He. destruct (alive_lookup p e He) as (c & Hc & Hok). apply wp_bind.
  unfold wp at 1, get_client. rewrite Hc. by apply Hk.
Qed.

Lemma on_alive_upd_client p f :
  (∀ c, member_ok c → member_ok (f c)) → on_alive p (upd_client p f).
Proof.
  intros Hf. apply on_alive_client. intros c Hc e He. apply alive_clients; auto.
Qed.

Lemma on_alive_post_task p t : on_alive p (post_task t).
Proof. by apply on_alive_modify. Qed.

(** ** Calls of the library on the client's stream *)

Context `{ML : !MinarLaws MN} `{RL : !RuntimeLaws RT} `{SO : !SALOk SA}.

Lemma alive_well_typed p e c ks :
  alive p e → receiver c = Some (p, ks) → socket_class ∈ ks → well_typed c (ew e) = true.
Proof.
  intros He Hr Hk. unfold well_typed. rewrite Hr, (al_shape p e He), lookup_singleton_eq.
  by apply bool_decide_eq_true.
Qed.

Lemma lib_alive {A} p e c ks (f : A → ret) (m : M world A) (Q : A → echo C → Prop) :
  alive p e → receiver c = Some (p, ks) → socket_class ∈ ks → allowed c (ew e) = true →
  allocates c = false → exec c = returning f m → moves quiet m →
  (∀ a w', m (ew e) = Done (a, w') → alive p (set_ew w' e) → Q a (set_ew w' e)) →
  wp (lib m) Q e.
Proof.
  intros He Hr Hk Ha Hn Hx Hq HQ.
  destruct (call_completes c (ew e) (al_proper p e He)) as (r & w' & Hw & Hp);
    [by eapply alive_well_typed | done | done|].
  rewrite Hx in Hw. apply returning_Done in Hw as (a & Hm & _).
  unfold wp, lib. rewrite Hm. apply HQ; [done|]. destruct (Hq _ _ _ Hm) as [Hs _].
  destruct He as [H1 H2 H3 H4 H5 H6]. split; simpl; try done. by rewrite Hs.
Qed.

(** The calls the client makes are allowed whatever the state of its stream. *)
Lemma on_alive_lib {A} p c ks (f : A → ret) (m : M world A) :
  receiver c = Some (p, ks) → socket_class ∈ ks → (∀ w : world, allowed c w = true) →
  allocates c = false → exec c = returning f m → moves quiet m → on_alive p (lib m).
Proof. intros Hr Hk Ha Hn Hx Hq e He. by eapply lib_alive. Qed.


Lemma on_alive_buffer {A} p (k : list Z → M (echo C) A) :
  (∀ b, Z.of_nat (length b) = global_size → on_alive p (k b)) → on_alive p (gets buffer ≫= k).
Proof. intros Hk e He. apply wp_bind. exact (Hk (buffer e) (al_buffer p e He) e He). Qed.

Lemma on_alive_set_buffer p b : Z.of_nat (length b) = global_size → on_alive p (modify (set_buffer b)).
Proof. intros Hb e [H1 H2 H3 H4 H5 H6]. unfold wp, modify. by split. Qed.

Lemma alive_nonnull p e : alive p e → p ≠ NULL.
Proof.
  intros He. pose proof (reachable_inv _ (proper_reachable _ (al_proper p e He))) as Hi.
  pose proof (inv_addr _ Hi p socket_class) as H. rewrite (al_shape p e He), lookup_singleton_eq in H.
  specialize (H eq_refl). unfold NULL. lia.
Qed.

(** The library's state once a program constructed the socket of its client as the one
    object and gave it an error handler. *)
Lemma new_client_world c q h w0 w2 w3 :
  initial w0 → well_typed c w0 = true → allowed c w0 = true → exec c w0 = Done (RPtr q, w2) →
  shape w2 = <[q := socket_class]> (shape w0) → socket_class ∈ [CTCPStream; CTCPListener; CUDPSocket] →
  setOnError q h w2 = Done (tt, w3) → proper w3 ∧ shape w3 = {[q := socket_class]}.
Proof.
  intros Hi Hw Ha Hx Hs Hk He.
  assert (shape w0 = ∅) as Hse by (unfold shape; by rewrite (proj1 Hi), fmap_empty).
  rewrite Hse in Hs. fold (singletonM q socket_class : gmap Z cls) in Hs.
  assert (proper w2) as Hp by (eapply (proper_call c); [by apply proper_init | done | done | exact Hx]).
  split; [|by destruct (framed_setOnError quiet q _ _ _ _ He) as [-> _]].
  eapply (proper_call (SetOnError q h)); [exact Hp | | done | simpl; by eapply returning_run].
  unfold well_typed; simpl. rewrite Hs, lookup_insert_eq. by apply bool_decide_eq_true_2.
Qed.

(** Interrupts, progress of the stack and the scheduler leave a client alive. *)
Lemma alive_set_ew p e w' : alive p e → shape w' = shape (ew e) → proper w' → alive p (set_ew w' e).
Proof. intros [H1 H2 H3 H4 H5 H6] Hs Hp. split; simpl; try done. by rewrite Hs. Qed.

Lemma interrupt_shape p ev w w' : interrupt p ev w = Done (tt, w') → shape w' = shape w.
Proof.
  assert (moves quiet (interrupt p ev)) as Hq by (unfold interrupt; solve_moves).
  intros H. by destruct (Hq _ _ _ H).
Qed.
End Alive.

Create HintDb echo discriminated.

(** Solve the side conditions of a call of the library, named by the call [c]. *)
Ltac lib_call c :=
  eapply (on_alive_lib _ c); [reflexivity | unfold socket_class; simpl; set_solver | done | done | reflexivity |];
  eauto with moves typeclass_instances.

Section results.
Context {SA : SAL} {MN : Minar} {RT : Runtime} {IN : Inet}.
Context `{RE : !RecvLaw SA} `{NL : !NtopLength IN}.

Lemma fmtIPv6_length a b size :
  (size ≤ Z.of_nat (length b))%Z → length (from_option to_bytes b (fmtIPv6 a (Some (to_chars b)) size).2) = length b.
Proof.
  intros Hb. unfold fmtIPv6.
  pose proof (ntop_length SOCKET_AF_INET6 (ipv6be_from a 0) (to_chars b) size) as H.
  destruct (inet_ntop _ _ _ size) as [r b']. simpl in *. unfold to_bytes, to_chars in *.
  rewrite !length_fmap in *. by apply H.
Qed.

(** What a completed call through the table returned. *)
Lemma call_api_inv {R} this (fn : socket_api sal_state → option (api_call sal_state R)) w r w' :
  call_api this fn w = Done (r, w') →
  ∃ a f s S s' S', fn (api_at a) = Some f ∧ f s S = (r, s', S').
Proof.
  intros (s & w1 & _ & H)%bind_Done. apply bind_Done in H as (f & w2 & Hf & H).
  apply bind_Done in H as (S & w3 & _ & H).
  destruct (f s S) as [[r1 s'] S'] eqn:E. apply bind_Done in H as (? & w4 & _ & H).
  apply bind_Done in H as (? & w5 & _ & [-> _]%ret_Done). unfold load_api in Hf.
  case_decide; [done|]. destruct (fn (api_at (sk_api s))) as [g|] eqn:Eg; [|done].
  injection Hf as -> _. by exists (sk_api s), f, s, S, s', S'.
Qed.

(** The result of [recv] into a buffer: it keeps its size, and the length fits. *)
Lemma recv_result this b l w r w' :
  (0 ≤ l)%Z → recv this (Some b) (Some l) w = Done (r, w') →
  ∃ err b' n, r = (err, Some b', Some n) ∧ length b' = length b ∧ (0 ≤ n ≤ l)%Z.
Proof.
  intros Hl (s & w1 & _ & H)%bind_Done. case_decide.
  - apply ret_Done in H as [-> _]. exists SOCKET_ERROR_NULL_PTR, b, l. auto with lia.
  - apply call_api_inv in H as (a & f & k & S & s' & S' & Hf & Hr).
    unfold arg2 in Hf. apply fmap_Some in Hf as (g & Hg & ->).
    destruct (recv_contract a g b l k S Hg Hl) as (err & b' & n & ? & ? & Hc & Hb & Hn).
    rewrite Hc in Hr. injection Hr as <- _ _. eauto 10.
Qed.

End results.
