(* ===== verification/Owned.v ===== *)
(** * Programs that own one client, from start to end

    What a program of [Harness] does to its objects over its whole life: while the client
    is alive it is the only client and its socket the only object, and nothing is left
    after it terminated.  [Owner] is what the handlers and tasks of a program have to
    satisfy for that; [owned_run] is the conclusion for all its runs. *)
From S2P Require Import Prelude Types Interfaces SocketAddr World Socket UDPSocket TCPAsynch.
From S2P Require Import TCPStream TCPListener Dispatch Shape System Lifetimes Events Safety Harness Alive.
From stdpp Require Import base gmap list strings.
From Stdlib Require Import ZArith Lia Ascii.

Section Owned.
Context {SA : SAL} {MN : Minar} {RT : Runtime} {IN : Inet} {HA : Harness}.
Context `{ML : !MinarLaws MN} `{RL : !RuntimeLaws RT} `{SO : !SALOk SA}.
Context {C : Type} {EM : Embedding C}.

(** ** A client that is gone *)

(** [m] does nothing to the objects: it faults, or only assertions were counted. *)
Definition inert (m : M (echo C) unit) (e : echo C) : Prop :=
  ∀ e', m e = Done (tt, e') →
    ew e' = ew e ∧ clients e' = clients e ∧ client e' = client e ∧ buffer e' = buffer e.

Definition gone (q : ptr) (e : echo C) : Prop :=
  clients e !! q = None ∧ heap (ew e) !! q = None.

Lemma inert_fault m e f : m e = Fault f → inert m e.
Proof. intros H e'. by rewrite H. Qed.

Lemma upd_client_gone {A} q f (k : unit → M (echo C) A) e :
  gone q e → (upd_client q f ≫= k) e = Fault (DeadObject q).
Proof. intros [Hc _]. unfold upd_client, get_client, mbind, M_bind. by rewrite Hc. Qed.

(** ** The end of the client *)

(** No client and no object is left. *)
Definition left_nothing (e : echo C) : Prop :=
  clients e = ∅ ∧ shape (ew e) = ∅ ∧ proper (ew e).

Lemma deletes_socket p e :
  socket_class ∈ [CTCPStream; CTCPListener; CUDPSocket] →
  (∀ w w1, dtor_of socket_class p w = Done (tt, w1) → ∃ c, shape w1 = <[p := c]> (shape w)) →
  alive p e →
  ∃ w1 w2, dtor_of socket_class p (ew e) = Done (tt, w1) ∧ release p w1 = Done (tt, w2) ∧
           shape w2 = ∅ ∧ proper w2.
Proof.
  intros Hk Hdt He. pose proof (al_shape p e He) as Hsh.
  destruct (call_completes (DeleteObject p) (ew e) (al_proper p e He)) as (r & w2 & Hx & Hp);
    [eapply (alive_well_typed p e); [done | reflexivity | done] | done | done |].
  simpl in Hx. apply returning_Done in Hx as ([] & Hx & _).
  apply bind_Done in Hx as (o & w0 & Ho & Hx). unfold get_obj in Ho.
  assert (∃ o, heap (ew e) !! p = Some o ∧ vptr o = socket_class) as (o' & Ho' & Hv).
  { apply shape_lookup. by rewrite Hsh, lookup_singleton_eq. }
  rewrite Ho' in Ho. injection Ho as <- <-. rewrite Hv in Hx.
  apply bind_Done in Hx as ([] & w1 & Hd & Hr). exists w1, w2. split; [done|]. split; [done|].
  split; [|done]. apply release_shape in Hr as [Hr _]. destruct (Hdt _ _ Hd) as [c Hc].
  by rewrite Hr, Hc, Hsh, delete_insert_eq, delete_singleton_eq.
Qed.

(** [delete client], of a client whose destructor closes a connected socket. *)
Lemma delete_leaves_nothing (dtor : M world unit) p e :
  socket_class ∈ [CTCPStream; CTCPListener; CUDPSocket] → dtor = dtor_of socket_class p →
  (∀ w w1, dtor w = Done (tt, w1) → ∃ c, shape w1 = <[p := c]> (shape w)) →
  alive p e →
  wp (get_client p;;
      b ← lib (isConnected p);
      (if b : bool then lib (close p);; mret tt else mret tt);;
      lib dtor;;
      lib (release p);;
      modify (λ e, set_clients (delete p (clients e)) e)) (λ _ e', left_nothing e') e.
Proof.
  intros Hk -> Hdt He. apply wp_bind. eapply wp_mono; [by apply on_alive_get_client|]. intros c e1 H1.
  apply wp_bind. eapply wp_mono; [|intros b e2 H2; apply wp_bind; eapply wp_mono].
  - assert (on_alive p (lib (isConnected p))) as Hi; [|by apply Hi].
    eapply (on_alive_lib _ (IsConnected p)); [reflexivity | done | done | done | reflexivity |].
    eauto with moves typeclass_instances.
  - assert (on_alive p (if b : bool then lib (close p);; mret tt else mret tt)) as Hc; [|by apply Hc].
    destruct b; [|apply on_alive_ret]. apply on_alive_bind; [|intros ?; apply on_alive_ret].
    eapply (on_alive_lib _ (Close p)); [reflexivity | done | done | done | reflexivity |].
    eauto with moves typeclass_instances.
  - intros [] e3 H3. destruct (deletes_socket p e3 Hk Hdt H3) as (w1 & w2 & Hd & Hr & Hs & Hp).
    apply wp_bind. unfold wp at 1. rewrite (lib_run _ tt w1 e3 Hd).
    apply wp_bind. unfold wp at 1. rewrite (lib_run _ tt w2 (set_ew w1 e3) Hr).
    unfold wp, modify, left_nothing; simpl. split; [|done]. apply dom_empty_inv_L.
    rewrite dom_delete_L, (al_clients p e3 H3). set_solver.
Qed.

(** [terminate] *)
Lemma terminate_finishes (del : ptr → M (echo C) unit) p status e :
  wp (del p) (λ _ e', left_nothing e') e → alive p e →
  wp (p ← gets client;
      if decide (p = NULL) then mret tt
      else
        del p;;
        modify (set_client NULL);;
        TEST_ASSERT status (modify add_validation)) (λ _ e', finished e') e.
Proof.
  intros Hd He. apply wp_bind. unfold wp at 1, gets. rewrite (al_client p e He).
  rewrite decide_False by by eapply alive_nonnull. apply wp_bind. eapply wp_mono; [exact Hd|].
  intros [] e1 (H1 & H2 & H3). apply wp_bind. unfold wp at 1, modify.
  unfold TEST_ASSERT. destruct status; [by split|]. apply wp_bind. unfold wp at 1, modify.
  by destruct assert_continues.
Qed.

(** ** Runs *)

Context {CL : Client C}.

(** What the program's functions do to a client that is alive, and to one that is not. *)
Class Owner : Prop := {
  own_handler p c f e e' :
    cb_fun c = Some f → bound_this f = p → alive p e → on_callback c e = Done (tt, e') → alive p e';
  own_handler_gone c f e : cb_fun c = Some f → gone (bound_this f) e → inert (on_callback c) e;
  own_handler_null c e e' : cb_fun c = None → on_callback c e ≠ Done (tt, e');
  own_start p n e e' : alive p e → run_task (StartTest p n) e = Done (tt, e') → alive p e';
  own_start_gone p n e : gone p e → inert (run_task (StartTest p n)) e;
  own_terminate p b q e e' : alive p e → run_task (Terminate b q) e = Done (tt, e') → finished e';
  own_terminated b q e e' : client e = NULL → run_task (Terminate b q) e = Done (tt, e') → e' = e
}.

Context {OW : Owner}.

Definition owned (e : echo C) : Prop := (∃ p, alive p e) ∨ finished e.

Lemma owned_ew e w' :
  owned e → shape w' = shape (ew e) → proper w' → owned (set_ew w' e).
Proof.
  intros [[p [H1 H2 H2m H3 H4 H5]]|[H1 H2 H3 H4]] Hs Hp; [left; exists p | right]; split; simpl;
    try done; by rewrite Hs.
Qed.

Lemma owned_gone e q : owned e → ¬ alive q e → gone q e.
Proof.
  intros [[p [H1 H2 H2m H3 H4 H5]]|[H1 H2 H3 H4]] Hq.
  - assert (q ≠ p) as Hne by (intros ->; by apply Hq). split.
    + apply not_elem_of_dom. rewrite H2. set_solver.
    + apply not_elem_of_dom. rewrite <- shape_dom, H3, dom_singleton_L. set_solver.
  - split; [by rewrite H2|]. apply not_elem_of_dom. rewrite <- shape_dom, H3. set_solver.
Qed.

Lemma owned_inert m e e' : owned e → inert m e → m e = Done (tt, e') → owned e'.
Proof.
  intros Ho Hm H. destruct (Hm e' H) as (E1 & E2 & E3 & E4).
  destruct Ho as [[p [H1 H2 H2m H3 H4 H5]]|[H1 H2 H3 H4]]; [left; exists p | right]; split;
    rewrite ?E1, ?E2, ?E3, ?E4; done.
Qed.

Lemma finished_gone q e : finished e → gone q e.
Proof.
  intros Hn. apply owned_gone; [by right|]. intros [H1 H2 _ _ _]. rewrite (fin_clients e Hn) in H2. set_solver.
Qed.

(** A client other than the one that is alive is gone. *)
Lemma owned_other q e : owned e → q ≠ client e → gone q e.
Proof. intros Ho Hq. apply owned_gone; [done|]. intros He. by rewrite (al_client _ _ He) in Hq. Qed.

Lemma owned_handler c e e' : owned e → on_callback c e = Done (tt, e') → owned e'.
Proof.
  intros Ho H. destruct (cb_fun c) as [f|] eqn:Hf; [|by apply own_handler_null in H].
  destruct (decide (bound_this f = client e)) as [Hc|Hc].
  - destruct Ho as [[p He]|Hn].
    + left. exists p. rewrite (al_client p e He) in Hc. by eapply own_handler.
    + eapply owned_inert; [by right | | exact H]. eapply own_handler_gone; [done|]. by apply finished_gone.
  - eapply owned_inert; [done | | exact H]. eapply own_handler_gone; [done|]. by apply owned_other.
Qed.

Lemma owned_start_test q n e e' : owned e → run_task (StartTest q n) e = Done (tt, e') → owned e'.
Proof.
  intros Ho H. destruct (decide (q = client e)) as [Hc|Hc].
  - destruct Ho as [[p He]|Hn].
    + rewrite (al_client p e He) in Hc. subst q. left. exists p. by eapply own_start.
    + eapply owned_inert; [by right | | exact H]. by apply own_start_gone, finished_gone.
  - eapply owned_inert; [done | | exact H]. by apply own_start_gone, owned_other.
Qed.

Lemma owned_step e e' : owned e → echo_step e e' → owned e'.
Proof.
  intros Ho Hst. assert (proper (ew e)) as Hp.
  { destruct Ho as [[p []]|[]]; done. }
  destruct Hst as [p ev w' e Hi Hal Hev Hr|S' e|c s' e e' Hpe Hper H|t l1 l2 e e' Ht H].
  - apply owned_ew; [done | by eapply interrupt_shape | by eapply proper_interrupt].
  - apply owned_ew; [done | done | by apply proper_stack].
  - eapply owned_handler; [|exact H]. apply owned_ew; [done | done | by eapply proper_dispatch].
  - assert (owned (set_tasks (l1 ++ l2) e)) as Ho'.
    { destruct Ho as [[p []]|[]]; [left; exists p | right]; by split. }
    destruct t as [q n|b q]; [by eapply owned_start_test|].
    destruct Ho' as [[p He]|Hn]; right; [by eapply own_terminate|].
    by rewrite (own_terminated b q _ _ (fin_client _ Hn) H).
Qed.

Lemma owned_run e e' : owned e → rtc echo_step e e' → owned e'.
Proof. intros Ho Hr. induction Hr as [e|e e' e'' Hst _ IH]; eauto using owned_step. Qed.

Lemma finished_clean (e : echo C) :
  finished e → heap (ew e) = ∅ ∧ ticks (ew e) = (0%Z, NULL, ∅).
Proof.
  intros [_ _ Hs Hp]. pose proof (reachable_inv _ (proper_reachable _ Hp)) as [_ _ Hc Ht].
  rewrite Hs in Hc, Ht. split; [by apply fmap_empty_inv in Hs|].
  unfold ticks. rewrite Hc. destruct Ht as [[-> ->]|(_ & Hl & _)]; [done|]. by destruct Hl.
Qed.

End Owned.
Arguments Owner {SA MN RT IN} C {EM CL}.
