(* ===== verification/Delivery.v ===== *)
(** * A client that is online

    The socket of the client of a test program is open and its handlers are methods of
    the client: then the calls the client makes reach the stack, and an event reaches the
    method that is bound for it, through the interrupt, the posted callback and the
    scheduler. *)
From S2P Require Import Prelude Types Interfaces SocketAddr World Socket UDPSocket TCPAsynch.
From S2P Require Import TCPStream TCPListener Dispatch Shape System Lifetimes Events Safety Harness Alive.
From stdpp Require Import base gmap list strings.
From Stdlib Require Import ZArith Lia Ascii.

(** The handlers a client at an address has given to its socket. *)
Class Wiring (C : Type) := {
  wired : ptr → Socket → Prop;
  wired_socket p s f : wired p s → wired p (on_socket f s);
  wired_event p s e : wired p s → wired p (set_event e s)
}.

Section Delivery.
Context {SA : SAL} {MN : Minar} {RT : Runtime} {IN : Inet} {HA : Harness}.
Context `{ML : !MinarLaws MN} `{RL : !RuntimeLaws RT} `{SO : !SALOk SA}.
Context {C : Type} {EM : Embedding C} {CL : Client C} {WI : Wiring C}.

(** The socket of the client is open and has the handlers of the client. *)
Definition ready (p : ptr) (w : world) : Prop :=
  irq_enabled w = true ∧
  ∃ o, heap w !! p = Some o ∧ sk_impl (sock_of o) ≠ NULL ∧ wired p (o_Socket o).

Definition online (p : ptr) (e : echo C) : Prop := alive p e ∧ ready p (ew e).

Lemma online_lookup p e :
  online p e → ∃ o, heap (ew e) !! p = Some o ∧ vptr o = socket_class ∧ wired p (o_Socket o) ∧
                    sk_impl (sock_of o) ≠ NULL ∧ sk_api (sock_of o) ≠ NULL ∧
                    full_table (api_at (sk_api (sock_of o))).
Proof.
  intros [He (_ & o & Ho & Hi & Hw)]. exists o. split; [done|].
  assert (shape (ew e) !! p = Some (vptr o)) as Hv by (unfold shape; by rewrite lookup_fmap, Ho).
  rewrite (al_shape p e He), lookup_singleton_eq in Hv. injection Hv as <-.
  destruct (proper_safe _ (al_proper p e He) p o Ho) as [H1 H2].
  repeat (split; [by auto|]). rewrite (H1 (stack (ew e))). apply api_full. rewrite <- H1. auto.
Qed.

(** ** Calls *)

(** A call of the client that is one call through the stack's table. *)
Lemma online_call {R} p e o c ks (g : R → ret) (m : M world R)
    (fn : socket_api sal_state → option (api_call sal_state R)) f r s' S' :
  online p e → heap (ew e) !! p = Some o →
  receiver c = Some (p, ks) → socket_class ∈ ks → allowed c (ew e) = true →
  allocates c = false → exec c = returning g m → moves quiet m →
  m (ew e) = call_api p fn (ew e) →
  fn (api_at (sk_api (sock_of o))) = Some f → f (sock_of o) (stack (ew e)) = (r, s', S') →
  sk_impl s' = sk_impl (sock_of o) →
  wp (lib m) (λ a e', a = r ∧ online p e' ∧ stack (ew e') = S' ∧ ∃ w', e' = set_ew w' e) e.
Proof.
  intros Hon Ho Hr Hk Ha Hn Hx Hq Hm Hf Hc Hi.
  destruct (online_lookup p e Hon) as (o' & Ho' & _ & Hw & Hi' & Hapi & _).
  rewrite Ho in Ho'. injection Ho' as <-. destruct Hon as [He (Hirq & _)].
  eapply (lib_alive p e c); [done..|]. intros a w' H Hal.
  rewrite Hm, (call_api_run _ o _ f r s' S') in H by done. injection H as <- <-.
  split; [done|]. split; [|split; [done | by eexists]]. split; [done|]. split; [done|].
  eexists. split; [simpl; apply lookup_insert_eq|].
  split; [unfold sock_of; simpl; by rewrite Hi | by apply wired_socket].
Qed.

Lemma present_arg2 {A B R} (fn : socket_api sal_state → option (A → B → api_call sal_state R)) a b t :
  present keeps (arg2 fn a b t) → is_Some (fn t).
Proof. unfold arg2. destruct (fn t); [by eexists | done]. Qed.

Lemma present_arg4 {A B D F R} (fn : socket_api sal_state → option (A → B → D → F → api_call sal_state R))
    a b d f t :
  present keeps (arg4 fn a b d f t) → is_Some (fn t).
Proof. unfold arg4. destruct (fn t); [by eexists | done]. Qed.

(** Assignments to the program's own variables. *)
Lemma online_client p c e : online p e → member_ok c → online p (set_clients (<[p := c]> (clients e)) e).
Proof. intros [He Hr] Hc. split; [by apply alive_clients | done]. Qed.

Lemma online_buffer p b e :
  online p e → Z.of_nat (length b) = global_size → online p (set_buffer b e).
Proof. intros [[H1 H2 H3 H4 H5 H6] Hr] Hb. by split. Qed.

Lemma online_tasks p l e : online p e → online p (set_tasks l e).
Proof. intros [[H1 H2 H3 H4 H5 H6] Hr]. by split. Qed.

Lemma online_stack p S' e : online p e → online p (set_ew (set_stack S' (ew e)) e).
Proof.
  intros [He Hr]. split; [|done].
  apply alive_set_ew; [done | done | apply proper_stack, (al_proper _ _ He)].
Qed.

(** ** Events *)

(** An event for the client's socket: the interrupt posts a callback, the scheduler hands
    it over, and its handler completes. *)
Definition delivered (p : ptr) (ev : socket_event) (e e' : echo C) : Prop :=
  ∃ w1 c s', interrupt p ev (ew e) = Done (tt, w1) ∧
    pending (sched w1) ≡ₚ c :: pending s' ∧ pending s' ≡ₚ pending (sched (ew e)) ∧
    periodic s' = periodic (sched w1) ∧
    on_callback c (set_ew (set_sched s' w1) e) = Done (tt, e').

(** What the handler starts from. *)
Definition handing (p : ptr) (e e2 : echo C) : Prop :=
  online p e2 ∧ ∃ w2, e2 = set_ew w2 e ∧ stack w2 = stack (ew e).

Definition interrupted (p : ptr) (ev : socket_event) (o : object) (c : callback) (w : world) : world :=
  posted (Some c) (set_heap (<[p := after_event ev o]> (heap w)) w).

Lemma handing_interrupted p ev o c s' e :
  online p e → event_wf ev = true → heap (ew e) !! p = Some o → delivery o p ev = Some c →
  pending (sched (interrupted p ev o c (ew e))) ≡ₚ c :: pending s' →
  periodic s' = periodic (sched (interrupted p ev o c (ew e))) →
  handing p e (set_ew (set_sched s' (interrupted p ev o c (ew e))) e).
Proof.
  intros [He Hr] Hev Ho Hd Hp Hper. pose proof (interrupt_run p o ev (ew e) Ho Hev) as Hi.
  rewrite Hd in Hi. split; [|by eexists].
  destruct Hr as (Hq & o' & Ho' & H1 & H2). rewrite Ho in Ho'. injection Ho' as <-. split.
  - apply alive_set_ew; [done | exact (interrupt_shape p ev (ew e) _ Hi) |].
    eapply proper_dispatch; [|done|done].
    eapply proper_interrupt; [exact (al_proper p e He) | done | by exists o | exact Hev | exact Hi].
  - split; [done|]. eexists. split; [simpl; apply lookup_insert_eq|]. split; [done|].
    by apply wired_event, wired_socket.
Qed.

(** The callback that is handed over is the one the specification of delivery gives. *)
Lemma delivered_handler p ev o c e e' :
  online p e → event_wf ev = true → heap (ew e) !! p = Some o → delivery o p ev = Some c →
  delivered p ev e e' → ∃ e2, handing p e e2 ∧ on_callback c e2 = Done (tt, e').
Proof.
  intros Hon Hev Ho Hd (w1 & c' & s' & Hi & Hp & Hps & Hper & Hc).
  rewrite (interrupt_run p o) in Hi by done. rewrite Hd in Hi. injection Hi as <-.
  assert (c' = c) as ->.
  { simpl in Hp. rewrite pending_post, Hps in Hp. apply Permutation_singleton_inj.
    symmetry. by apply (Permutation_app_inv_r (pending (sched (ew e))) [c] [c']). }
  eexists. split; [by apply (handing_interrupted p ev o c s') | exact Hc].
Qed.

(** An event whose handler completes can be delivered. *)
Lemma deliver p ev o c e :
  online p e → event_wf ev = true → heap (ew e) !! p = Some o → delivery o p ev = Some c →
  (∀ e2, handing p e e2 → ∃ e', on_callback c e2 = Done (tt, e')) → ∃ e', delivered p ev e e'.
Proof.
  intros Hon Hev Ho Hd Hh.
  assert (pending (sched (interrupted p ev o c (ew e))) ≡ₚ c :: pending (sched (ew e))) as Hp
    by apply pending_post.
  assert (periodic (sched (ew e)) = periodic (sched (interrupted p ev o c (ew e)))) as Hper
    by (symmetry; apply periodic_post).
  destruct (Hh _ (handing_interrupted p ev o c _ e Hon Hev Ho Hd Hp Hper)) as [e' He'].
  exists e', (interrupted p ev o c (ew e)), c, (sched (ew e)). split; [|done].
  rewrite (interrupt_run p o) by done. by rewrite Hd.
Qed.
End Delivery.
