(* ===== verification/Counters.v ===== *)
(** * The counters of the test framework

    A test program counts failed assertions and reported completions.  Calls of the
    library change neither; the handlers of a client report nothing; and [terminate],
    when it is called with success, reports one completion. *)
From S2P Require Import Prelude Types Interfaces SocketAddr World Socket Harness Alive Owned Delivery.
From stdpp Require Import base gmap list strings.
From Stdlib Require Import ZArith Lia.

Section Counters.
Context {SA : SAL} {MN : Minar} {RT : Runtime} {IN : Inet} {HA : Harness} {C : Type}.

(** Steps that report no completion, and steps that fail no assertion either. *)
Definition unreported (e e' : echo C) : Prop := validations e' = validations e.
Definition uncounted (e e' : echo C) : Prop :=
  failures e' = failures e ∧ validations e' = validations e.

#[export] Instance unreported_pre : PreOrder unreported.
Proof. split; [done|]. unfold unreported. intros e1 e2 e3. congruence. Qed.
#[export] Instance uncounted_pre : PreOrder uncounted.
Proof. split; [done|]. unfold uncounted. intros e1 e2 e3 [] []. split; congruence. Qed.

Lemma lib_uncounted {A} (m : M world A) : moves uncounted (lib (C := C) m).
Proof. intros e a e' (w' & _ & ->)%lib_Done. done. Qed.
Lemma lib_unreported {A} (m : M world A) : moves unreported (lib (C := C) m).
Proof. intros e a e' (w' & _ & ->)%lib_Done. done. Qed.

Lemma get_client_uncounted p : moves uncounted (get_client (C := C) p).
Proof. intros e a e'. unfold get_client. by destruct (clients e !! p); intros [= _ ->]. Qed.
Lemma get_client_unreported p : moves unreported (get_client (C := C) p).
Proof. intros e a e'. unfold get_client. by destruct (clients e !! p); intros [= _ ->]. Qed.

Lemma upd_client_unreported p f : moves unreported (upd_client (C := C) p f).
Proof. unfold upd_client. apply moves_bind; [apply _ | apply get_client_unreported | intros c]. by apply moves_modify. Qed.

Lemma TEST_ASSERT_unreported b (m : M (echo C) unit) :
  moves unreported m → moves unreported (TEST_ASSERT b m).
Proof.
  intros Hm. unfold TEST_ASSERT. destruct b; [done|]. apply moves_bind; [apply _ | by apply moves_modify |].
  intros _. destruct assert_continues; [done|]. apply moves_ret, _.
Qed.
End Counters.

#[export] Hint Resolve lib_uncounted lib_unreported get_client_uncounted get_client_unreported
  upd_client_unreported TEST_ASSERT_unreported : moves.
#[export] Hint Extern 2 (moves unreported (modify _)) => by apply moves_modify : moves.
#[export] Hint Extern 2 (moves uncounted (modify _)) => by apply moves_modify : moves.

(** Go through the statements of a function of a test program. *)
Ltac solve_counters :=
  repeat first [ progress intros | apply TEST_ASSERT_unreported | solve [eauto with moves typeclass_instances]
               | apply moves_bind; [apply _ | |] | case_match ].

Section Passed.
Context {SA : SAL} {MN : Minar} {RT : Runtime} {IN : Inet} {HA : Harness} {C : Type} {EM : Embedding C}.
Context `{ML : !MinarLaws MN} `{RL : !RuntimeLaws RT}.

(** An event whose handler reports nothing. *)
Class Unreported {CL : Client C} : Prop := on_callback_unreported c : moves unreported (on_callback c).

Lemma delivered_unreported {CL : Client C} `{UR : !Unreported} p ev e e' :
  delivered p ev e e' → unreported e e'.
Proof. intros (w1 & c & s' & _ & _ & _ & _ & Hc). exact (on_callback_unreported _ _ _ _ Hc). Qed.

(** The test is passed: nothing is left, no assertion failed and one completion was
    reported since [e0]. *)
Definition passed_since (e0 e : echo C) : Prop :=
  finished e ∧ failures e = failures e0 ∧ validations e = S (validations e0).

(** [terminate(true, client)] *)
Lemma terminate_passed (del : ptr → M (echo C) unit) p e
    (terminate := (p ← gets client;
                   if decide (p = NULL) then mret tt
                   else del p;; modify (set_client NULL);; TEST_ASSERT true (modify add_validation)) : M (echo C) unit) :
  alive p e → moves uncounted (del p) → wp terminate (λ _ e', finished e') e →
  wp terminate (λ _ e', passed_since e e') e.
Proof.
  intros He Hd Hf. unfold wp in *. destruct (terminate e) as [[[] e']|] eqn:E; [|done]. split; [done|].
  apply bind_Done in E as (q & e1 & [= <- <-] & E). rewrite (al_client p e He) in E.
  rewrite decide_False in E by (by eapply alive_nonnull).
  apply bind_Done in E as ([] & e1 & [H1 H2]%Hd & E).
  apply bind_Done in E as ([] & e2 & [= <-] & [= <-]). simpl. auto.
Qed.
End Passed.
