(* ===== verification/DemoEcho.v ===== *)
(** * Concrete instances for the test programs

    The laws of [Alive] hold of the concrete stack and conversion functions, and a test
    framework whose failed assertions leave the function. *)
From S2P Require Import Prelude Types Interfaces SocketAddr DemoInet World Demo Socket.
From S2P Require Import DemoRuns Harness Alive.
From stdpp Require Import base gmap list strings.
From Stdlib Require Import ZArith Lia Ascii.

#[export] Instance demo_recv_law : RecvLaw demo_sal.
Proof.
  intros a f b l s S Hf Hl. injection Hf as <-. unfold demo_call. simpl.
  destruct (refusing S); eexists _, _, _, _, _; (split; [reflexivity|]); split; try done; lia.
Qed.

#[export] Instance demo_ntop_length m : NtopLength (demo_inet m).
Proof.
  intros af a buf size Hs. simpl. unfold demo_ntop.
  assert (∀ text, length (fill text buf size).2 = length buf) as Hf.
  { intros text. unfold fill. case_decide; [|done]. simpl.
    rewrite length_app. simpl. rewrite length_drop. lia. }
  destruct af; [apply Hf | apply Hf | done].
Qed.

#[export] Instance demo_harness : Harness := {|
  size_width := 32;
  assert_continues := false;
  equal_string_len a b n := bool_decide (take (Z.to_nat n) a = take (Z.to_nat n) b)
|}.

(** The scheduler when all pending callbacks were handed over. *)
Definition demo_idle (s : minar_state (Minar := demo_minar)) : minar_state (Minar := demo_minar) :=
  mk_demo_minar [] (Demo.tasks s).

Lemma demo_idle_periodic s : periodic (demo_idle s) = periodic s.
Proof. done. Qed.
