(* ===== verification/Network.v ===== *)
(** * The network between the program and a peer

    What a stream socket of the stack promises while it is connected, and what a datagram
    socket does, as laws on the stack, and concrete stacks that keep them. *)
From S2P Require Import Prelude Types Interfaces SocketAddr World Demo Socket Safety Alive.
From stdpp Require Import base gmap list strings.
From Stdlib Require Import ZArith Lia.

(** A stack with one connection: the bytes it has taken from the program and not yet
    handed to the peer, and the bytes that arrived and were not yet received. *)
Class Stream (SA : SAL) := {
  tx : sal_state → list Z;
  rx : sal_state → list Z
}.

(** [send] takes all it is given; [recv] fills the buffer with some of what arrived, when
    anything did, and stores the number of bytes; neither closes the socket.  What was
    taken can reach the peer, and something can come back. *)
Class StreamLaws (SA : SAL) {ST : Stream SA} : Prop := {
  send_takes a f b l s S :
    api_send (api_at a) = Some f → (0 ≤ l ≤ Z.of_nat (length b))%Z →
    ∃ s' S', f (Some b) l s S = (SOCKET_ERROR_NONE, s', S') ∧ sk_impl s' = sk_impl s ∧
             tx S' = tx S ++ take (Z.to_nat l) b ∧ rx S' = rx S;
  recv_gives a f b l s S :
    api_recv (api_at a) = Some f → (0 < l ≤ Z.of_nat (length b))%Z → rx S ≠ [] →
    ∃ d s' S', f (Some b) (Some l) s S =
                 ((SOCKET_ERROR_NONE, Some (d ++ drop (length d) b), Some (Z.of_nat (length d))), s', S') ∧
               sk_impl s' = sk_impl s ∧ d ≠ [] ∧ (Z.of_nat (length d) ≤ l)%Z ∧
               rx S = d ++ rx S' ∧ tx S' = tx S;
  carries S d T r : tx S = d ++ T → ∃ S', tx S' = T ∧ rx S' = rx S ++ r
}.

(** A stack with one socket: the datagrams it has taken, and those that arrived. *)
Class Datagrams (SA : SAL) := {
  outq : sal_state → list (list Z);
  inq : sal_state → list (list Z)
}.

(** [send_to] takes a datagram; [recv] copies the next one that arrived into a buffer it
    fits in and stores its length; neither closes the socket.  A datagram that was taken
    can reach the peer, and one can come back. *)
Class DatagramLaws (SA : SAL) {DG : Datagrams SA} : Prop := {
  send_to_takes a f b l x n s S :
    api_send_to (api_at a) = Some f → (0 ≤ l ≤ Z.of_nat (length b))%Z →
    ∃ s' S', f (Some b) l x n s S = (SOCKET_ERROR_NONE, s', S') ∧ sk_impl s' = sk_impl s ∧
             outq S' = outq S ++ [take (Z.to_nat l) b] ∧ inq S' = inq S;
  recv_datagram a f b l s S d q :
    api_recv (api_at a) = Some f → inq S = d :: q →
    (Z.of_nat (length d) ≤ l ≤ Z.of_nat (length b))%Z →
    ∃ s' S', f (Some b) (Some l) s S =
               ((SOCKET_ERROR_NONE, Some (d ++ drop (length d) b), Some (Z.of_nat (length d))), s', S') ∧
             sk_impl s' = sk_impl s ∧ inq S' = q ∧ outq S' = outq S;
  carries_datagram S d q r : outq S = d :: q → ∃ S', outq S' = q ∧ inq S' = inq S ++ [r]
}.

(** What a stack was last asked to resolve, and whom to connect to. *)
Class Resolver (SA : SAL) := asked : sal_state → cstring.
Class Dial (SA : SAL) := dialled : sal_state → option (socket_addr * Z).

(** The functions that set up a socket succeed and keep a property [Q] of the stack:
    [create] gives the socket an implementation and the handler; [resolve] leaves it open;
    the functions for the periodic task leave the struct alone. *)
Class OpeningLaws (SA : SAL) {RS : Resolver SA} (Q : sal_state → Prop) : Prop := {
  interval_leaves a f s S :
    api_periodic_interval (api_at a) = Some f → Q S → ∃ i S', f s S = (i, s, S') ∧ Q S';
  task_leaves a f s S :
    api_periodic_task (api_at a) = Some f → Q S → ∃ t S', f s S = (t, s, S') ∧ Q S';
  create_opens a f af pf h s S :
    api_create (api_at a) = Some f → Q S →
    ∃ s' S', f af pf h s S = (SOCKET_ERROR_NONE, s', S') ∧ sk_impl s' ≠ NULL ∧ sk_handler s' = h ∧ Q S';
  resolve_asks a f d s S :
    api_resolve (api_at a) = Some f → sk_impl s ≠ NULL → Q S →
    ∃ s' S', f d s S = (SOCKET_ERROR_NONE, s', S') ∧ sk_impl s' = sk_impl s ∧ Q S' ∧ asked S' = d
}.

(** So does [connect], which leaves the socket open. *)
Class ConnectLaw (SA : SAL) {DI : Dial SA} (Q : sal_state → Prop) : Prop :=
  connect_dials a f x n s S :
    api_connect (api_at a) = Some f → sk_impl s ≠ NULL → Q S →
    ∃ s' S', f x n s S = (SOCKET_ERROR_NONE, s', S') ∧ sk_impl s' = sk_impl s ∧ Q S' ∧
             dialled S' = Some (x, n).

(** ** Concrete stacks *)

(** A stack on which every function succeeds, but for what it transfers. *)
Section plain.
Context {S : Type}.
Context (frecv : option (list Z) → option Z → api_call S (socket_error_t * option (list Z) * option Z)).
Context (fsend : option (list Z) → Z → api_call S socket_error_t).
Context (fsend_to : option (list Z) → Z → socket_addr → Z → api_call S socket_error_t).
Context (fresolve : cstring → S → S) (fconnect : socket_addr → Z → S → S).

Definition ok_call : api_call S socket_error_t := λ s st, (SOCKET_ERROR_NONE, s, st).
Definition ok_with {A} (a : A) : api_call S A := λ s st, (a, s, st).

Definition plain_api : socket_api S := {|
  api_create := Some (λ af pf h s st,
    (SOCKET_ERROR_NONE, set_sk_handler h (set_sk_impl 100 s), st));
  api_destroy := Some ok_call;
  api_close := Some ok_call;
  api_periodic_interval := Some (ok_with 250%Z);
  api_periodic_task := Some (ok_with 9000%Z);
  api_resolve := Some (λ a s st, (SOCKET_ERROR_NONE, s, fresolve a st));
  api_str2addr := Some (λ d a, ok_with (SOCKET_ERROR_NONE, demo_loopback));
  api_bind := Some (λ a p, ok_call);
  api_connect := Some (λ a p s st, (SOCKET_ERROR_NONE, s, fconnect a p st));
  api_accept := Some (λ h, ok_call);
  api_start_listen := Some (λ n, ok_call);
  api_stop_listen := Some ok_call;
  api_recv := Some frecv;
  api_recv_from := Some (λ b l a p, ok_with (SOCKET_ERROR_NONE, b, l, a, p));
  api_send := Some fsend;
  api_send_to := Some fsend_to;
  api_is_connected := Some (λ s st, (true, st));
  api_get_local_addr := Some (λ a s st, ((SOCKET_ERROR_NONE, a), st));
  api_get_local_port := Some (λ p s st, ((SOCKET_ERROR_NONE, p), st));
  api_get_remote_addr := Some (λ a s st, ((SOCKET_ERROR_NONE, a), st));
  api_get_remote_port := Some (λ p s st, ((SOCKET_ERROR_NONE, p), st));
  api_set_option := Some (λ l o p n, ok_call)
|}.

Definition plain_sal : SAL := {|
  sal_state := S;
  socket_get_api id _ := if decide (id = 1%Z) then 4096%Z else NULL;
  api_at _ := plain_api;
  socket_accept l s h st := (SOCKET_ERROR_NONE, l, set_sk_handler h s, st)
|}.

Lemma plain_sal_ok :
  (∀ b l s st, (frecv b l s st).1.2 = s) → (∀ b l s st, (fsend b l s st).1.2 = s) →
  (∀ b l a n s st, (fsend_to b l a n s st).1.2 = s) → SALOk plain_sal.
Proof.
  intros H1 H2 H3. split; [|done|done].
  intros id st _. split; intros; try (by eexists); try done; intros s st'; simpl;
    by rewrite ?H1, ?H2, ?H3.
Qed.

(** It keeps whatever its own [resolve] and [connect] keep. *)
Lemma plain_opening (RS : Resolver plain_sal) (Q : S → Prop) :
  (∀ d st, Q st → Q (fresolve d st)) → (∀ d st, (RS : S → cstring) (fresolve d st) = d) →
  OpeningLaws plain_sal (Q : sal_state (SAL := plain_sal) → Prop).
Proof.
  intros H1 H2. split.
  - intros a f s st Hf HQ. injection Hf as <-. by eexists _, _.
  - intros a f s st Hf HQ. injection Hf as <-. by eexists _, _.
  - intros a f af pf h s st Hf HQ. injection Hf as <-. by eexists _, _.
  - intros a f d s st Hf Hi HQ. injection Hf as <-. eexists _, _. split; [reflexivity|]. auto.
Qed.

Lemma plain_connect (DI : Dial plain_sal) (Q : S → Prop) :
  (∀ a n st, Q st → Q (fconnect a n st)) →
  (∀ a n st, (DI : S → option (socket_addr * Z)) (fconnect a n st) = Some (a, n)) →
  ConnectLaw plain_sal (Q : sal_state (SAL := plain_sal) → Prop).
Proof.
  intros H1 H2 a f x n s st Hf Hi HQ. injection Hf as <-. eexists _, _. split; [reflexivity|]. auto.
Qed.
End plain.

(** A stack with one connection: two queues of bytes. *)
Record stream_state := mk_stream {
  st_tx : list Z;
  st_rx : list Z;
  st_asked : cstring;
  st_dialled : option (socket_addr * Z)
}.

Definition set_queues (T R : list Z) (S : stream_state) : stream_state :=
  mk_stream T R (st_asked S) (st_dialled S).

Definition stream_recv (b : option (list Z)) (l : option Z)
    : api_call stream_state (socket_error_t * option (list Z) * option Z) := λ s S,
  match b, l with
  | Some b, Some l =>
    let d := take (Z.to_nat l `min` length b) (st_rx S) in
    ((SOCKET_ERROR_NONE, Some (d ++ drop (length d) b), Some (Z.of_nat (length d))), s,
     set_queues (st_tx S) (drop (length d) (st_rx S)) S)
  | _, _ => ((SOCKET_ERROR_NULL_PTR, b, l), s, S)
  end.

Definition stream_send (b : option (list Z)) (l : Z) : api_call stream_state socket_error_t := λ s S,
  (SOCKET_ERROR_NONE, s, set_queues (st_tx S ++ take (Z.to_nat l) (default [] b)) (st_rx S) S).

Definition stream_sal : SAL := plain_sal stream_recv stream_send (λ _ _ _ _, ok_call)
  (λ d S, mk_stream (st_tx S) (st_rx S) d (st_dialled S))
  (λ a n S, mk_stream (st_tx S) (st_rx S) (st_asked S) (Some (a, n))).

Lemma stream_sal_ok : SALOk stream_sal.
Proof. apply plain_sal_ok; [|done|done]. intros b l s st. by destruct b, l. Qed.

Definition stream_queues : Stream stream_sal :=
  {| tx := (st_tx : sal_state (SAL := stream_sal) → list Z); rx := st_rx |}.

Definition stream_resolver : Resolver stream_sal := (st_asked : sal_state (SAL := stream_sal) → cstring).
Definition stream_dial : Dial stream_sal :=
  (st_dialled : sal_state (SAL := stream_sal) → option (socket_addr * Z)).

Lemma stream_recv_law : RecvLaw stream_sal.
Proof.
  intros a f b l s S Hf Hl. injection Hf as <-. unfold stream_recv. simpl.
  eexists _, _, _, _, _. split; [reflexivity|]. rewrite length_app, length_drop, length_take. lia.
Qed.

Lemma stream_laws : StreamLaws stream_sal (ST := stream_queues).
Proof.
  split.
  - intros a f b l s S Hf Hl. injection Hf as <-. by eexists _, _.
  - intros a f b l s S Hf Hl Hr. injection Hf as <-. unfold stream_recv. simpl in *.
    eexists _, _, _. split; [reflexivity|]. split; [done|]. split.
    { destruct (st_rx S) as [|x R]; [done|]. destruct (Z.to_nat l `min` length b) eqn:E; [lia | done]. }
    split; [rewrite length_take; lia|]. split; [|done]. simpl.
    rewrite length_take. generalize (Z.to_nat l `min` length b). intros m.
    destruct (decide (m ≤ length (st_rx S))).
    + rewrite Nat.min_l by lia. by rewrite take_drop.
    + rewrite Nat.min_r by lia. rewrite take_ge, drop_all by lia. by rewrite app_nil_r.
  - intros S d T r Ht. by exists (set_queues T (st_rx S ++ r) S).
Qed.

(** A stack with one datagram socket: two queues of datagrams. *)
Record dgram_state := mk_dgram {
  dg_out : list (list Z);
  dg_in : list (list Z);
  dg_asked : cstring
}.

Definition dgram_recv (b : option (list Z)) (l : option Z)
    : api_call dgram_state (socket_error_t * option (list Z) * option Z) := λ s S,
  match b, l with
  | Some b, Some l =>
    let d := take (Z.to_nat l `min` length b) (default [] (head (dg_in S))) in
    ((SOCKET_ERROR_NONE, Some (d ++ drop (length d) b), Some (Z.of_nat (length d))), s,
     mk_dgram (dg_out S) (tail (dg_in S)) (dg_asked S))
  | _, _ => ((SOCKET_ERROR_NULL_PTR, b, l), s, S)
  end.

Definition dgram_send_to (b : option (list Z)) (l : Z) (a : socket_addr) (n : Z)
    : api_call dgram_state socket_error_t := λ s S,
  (SOCKET_ERROR_NONE, s, mk_dgram (dg_out S ++ [take (Z.to_nat l) (default [] b)]) (dg_in S) (dg_asked S)).

Definition dgram_sal : SAL := plain_sal dgram_recv (λ _ _, ok_call) dgram_send_to
  (λ d S, mk_dgram (dg_out S) (dg_in S) d) (λ _ _ S, S).

Lemma dgram_sal_ok : SALOk dgram_sal.
Proof. apply plain_sal_ok; [|done|done]. intros b l s st. by destruct b, l. Qed.

Definition dgram_queues : Datagrams dgram_sal :=
  {| outq := (dg_out : sal_state (SAL := dgram_sal) → list (list Z)); inq := dg_in |}.

Definition dgram_resolver : Resolver dgram_sal := (dg_asked : sal_state (SAL := dgram_sal) → cstring).

Lemma dgram_recv_law : RecvLaw dgram_sal.
Proof.
  intros a f b l s S Hf Hl. injection Hf as <-. unfold dgram_recv. simpl.
  eexists _, _, _, _, _. split; [reflexivity|]. rewrite length_app, length_drop, length_take. lia.
Qed.

Lemma dgram_laws : DatagramLaws dgram_sal (DG := dgram_queues).
Proof.
  split.
  - intros a f b l x n s S Hf Hl. injection Hf as <-. by eexists _, _.
  - intros a f b l s S d q Hf Hq Hl. injection Hf as <-. unfold dgram_recv. simpl in *. rewrite Hq. simpl.
    rewrite take_ge by lia. eexists _, _. split; [reflexivity|]. by split.
  - intros S d q r Hd. by exists (mk_dgram q (dg_in S ++ [r]) (dg_asked S)).
Qed.
