(* ===== verification/Opening.v ===== *)
(** * From a closed socket to an answer of the resolver

    The client of a test program opens its socket and asks for the address of its host;
    what the library's calls on the way do on a stack where they succeed.  [Q] is a
    property of the stack that they keep, for instance that nothing is under way. *)
From S2P Require Import Prelude Types Interfaces SocketAddr World Demo Socket UDPSocket TCPAsynch.
From S2P Require Import TCPStream TCPListener Dispatch Shape System Lifetimes Events Safety Harness.
From S2P Require Import Alive Delivery Network.
From stdpp Require Import base gmap list strings.
From Stdlib Require Import ZArith Lia Ascii.

(** The thunk of an object is a function. *)
Class EntryLaw (RT : Runtime) : Prop :=
  entry_nonnull p : (0 < p)%Z → CThunk_entry p ≠ NULL.

Section Opening.
Context {SA : SAL} {MN : Minar} {RT : Runtime} {IN : Inet} {HA : Harness}.
Context `{ML : !MinarLaws MN} `{RL : !RuntimeLaws RT} `{SO : !SALOk SA} `{EN : !EntryLaw RT}.
Context {RS : Resolver SA} (Q : sal_state → Prop) `{OL : !OpeningLaws SA Q}.
Context {C : Type} {EM : Embedding C}.

(** A call of the library on the client's socket whose outcome is known. *)
Lemma lib_known {A} p (e : echo C) c ks (f : A → ret) (m : M world A) a w' :
  alive p e → receiver c = Some (p, ks) → socket_class ∈ ks → allowed c (ew e) = true →
  allocates c = false → exec c = returning f m → moves quiet m → m (ew e) = Done (a, w') →
  wp (lib m) (λ b e', b = a ∧ e' = set_ew w' e ∧ alive p e') e.
Proof.
  intros He Hr Hk Ha Hn Hx Hq Hm. eapply (lib_alive p e c); [done..|]. intros b w'' Hb Hal.
  rewrite Hm in Hb. by injection Hb as <- <-.
Qed.

(** The object of the client's socket, with what is true of it in every state. *)
Lemma alive_object p (e : echo C) :
  alive p e → ∃ o, heap (ew e) !! p = Some o ∧ vptr o = socket_class ∧
                   (sk_impl (sock_of o) ≠ NULL → sk_api (sock_of o) ≠ NULL) ∧
                   (sk_api (sock_of o) ≠ NULL → full_table (api_at (sk_api (sock_of o)))).
Proof.
  intros He.
  assert (∃ o, heap (ew e) !! p = Some o ∧ vptr o = socket_class) as (o & Ho & Hv).
  { apply shape_lookup. by rewrite (al_shape p e He), lookup_singleton_eq. }
  exists o. split; [done|]. split; [done|]. destruct (proper_safe _ (al_proper p e He) p o Ho) as [H1 H2].
  split; [done|]. intros Ha. rewrite (H1 (stack (ew e))) in *. by apply api_full.
Qed.

Lemma alive_positive p (e : echo C) : alive p e → (0 < p)%Z.
Proof.
  intros He. pose proof (reachable_inv _ (proper_reachable _ (al_proper p e He))) as Hi.
  pose proof (inv_addr _ Hi p socket_class) as H. rewrite (al_shape p e He), lookup_singleton_eq in H.
  specialize (H eq_refl). lia.
Qed.

(** What holds of the object of the client's socket, between calls. *)
Definition socket_is (P : object → Prop) (p : ptr) (w : world) : Prop :=
  irq_enabled w = true ∧ Q (stack w) ∧ ∃ o, heap w !! p = Some o ∧ P o.

Definition has_api (o : object) : Prop := sk_api (sock_of o) ≠ NULL.
Definition is_open (o : object) : Prop :=
  sk_impl (sock_of o) ≠ NULL ∧ sk_handler (sock_of o) ≠ NULL.

(** The state of a program after such a call. *)
Definition stands (P : object → Prop) (p : ptr) (e e' : echo C) : Prop :=
  alive p e' ∧ (∃ w', e' = set_ew w' e) ∧ socket_is P p (ew e').

Lemma lib_open p (e : echo C) c ks af pf :
  alive p e → socket_is has_api p (ew e) →
  receiver c = Some (p, ks) → socket_class ∈ ks → allowed c (ew e) = true → allocates c = false →
  exec c = returning RErr (Socket_open p af pf) →
  wp (lib (Socket_open p af pf)) (λ err e', err = SOCKET_ERROR_NONE ∧ stands is_open p e e') e.
Proof.
  intros He (Hirq & HQ & o & Ho & Ha) Hr Hk Hal Hn Hx. unfold has_api in Ha.
  destruct (alive_object p e He) as (o' & Ho' & _ & _ & Hf). rewrite Ho in Ho'. injection Ho' as <-.
  pose proof (ft_create _ (Hf Ha) af pf (CThunk_entry p)) as Hpr.
  destruct (api_create (api_at (sk_api (sock_of o)))) as [f|] eqn:Ef; [|unfold arg3 in Hpr; by rewrite Ef in Hpr].
  destruct (create_opens _ f af pf (CThunk_entry p) (sock_of o) (stack (ew e)) Ef HQ)
    as (s' & S' & Hc & Hi & Hh & HQ').
  assert (call_api p (arg3 api_create af pf (CThunk_entry p)) (ew e) =
    Done (SOCKET_ERROR_NONE, set_stack S' (set_heap (<[p := on_Socket (on_socket (λ _, s')) o]> (heap (ew e))) (ew e)))) as Hm.
  { eapply call_api_run; [done | done | | exact Hc]. unfold arg3. by rewrite Ef. }
  eapply wp_mono; [eapply (lib_known p e c); [done..| |]|].
  - eauto with moves typeclass_instances.
  - unfold Socket_open. rewrite (get_socket_bind _ o) by done. rewrite decide_False by done. exact Hm.
  - intros err e' (-> & -> & Hal'). split; [done|]. split; [done|]. split; [by eexists|].
    split; [done|]. split; [done|]. eexists. split; [simpl; apply lookup_insert_eq|].
    split; [done|]. unfold sock_of. simpl. rewrite Hh. by eapply entry_nonnull, alive_positive.
Qed.

Lemma lib_resolve p (e : echo C) d h :
  alive p e → socket_is is_open p (ew e) → socket_class ∈ [CTCPStream; CTCPListener; CUDPSocket] →
  wp (lib (resolve p d h))
     (λ err e', err = SOCKET_ERROR_NONE ∧ asked (stack (ew e')) = d ∧
                stands (λ o, sk_impl (sock_of o) ≠ NULL ∧ _onDNS (o_Socket o) = h) p e e') e.
Proof.
  intros He (Hirq & HQ & o & Ho & Hi & Hh) Hk.
  destruct (alive_object p e He) as (o' & Ho' & _ & Ha & Hf). rewrite Ho in Ho'. injection Ho' as <-.
  specialize (Ha Hi). pose proof (ft_resolve _ (Hf Ha) d) as Hpr.
  destruct (api_resolve (api_at (sk_api (sock_of o)))) as [f|] eqn:Ef; [|unfold arg1 in Hpr; by rewrite Ef in Hpr].
  destruct (resolve_asks _ f d (sock_of o) (stack (ew e)) Ef Hi HQ) as (s' & S' & Hc & Hi' & HQ' & Has).
  set (o1 := on_Socket (set_onDNS h) o). set (w1 := set_heap (<[p := o1]> (heap (ew e))) (ew e)).
  assert (call_api p (arg1 api_resolve d) w1 =
    Done (SOCKET_ERROR_NONE, set_stack S' (set_heap (<[p := on_Socket (on_socket (λ _, s')) o1]> (heap w1)) w1))) as Hm.
  { eapply call_api_run; [apply lookup_insert_eq | done | | exact Hc]. unfold arg1.
    change (sk_api (sock_of o1)) with (sk_api (sock_of o)). by rewrite Ef. }
  eapply wp_mono; [eapply (lib_known p e (Resolve p d h));
    [done | reflexivity | done | done | done | reflexivity | eauto with moves typeclass_instances |]|].
  - unfold resolve. rewrite (get_socket_bind _ o) by done. rewrite !decide_False by done.
    rewrite (upd_obj_bind _ o) by done. exact Hm.
  - intros err e' (-> & -> & Hal'). split; [done|]. split; [done|]. split; [done|]. split; [by eexists|].
    split; [done|]. split; [done|]. eexists. split; [simpl; apply lookup_insert_eq|].
    split; [|done]. unfold sock_of. simpl. by rewrite Hi'.
Qed.

(** A handler is set: [g] is the assignment. *)
Lemma lib_setter (P P' : object → Prop) p (e : echo C) c ks g (m : M world unit) :
  alive p e → socket_is P p (ew e) → (∀ o, P o → P' (g o)) →
  receiver c = Some (p, ks) → socket_class ∈ ks → allowed c (ew e) = true → allocates c = false →
  exec c = returning (λ _, RUnit) m → moves quiet m →
  (∀ o, heap (ew e) !! p = Some o → irq_enabled (ew e) = true → m (ew e) = Done (tt, handler_set p (g o) (ew e))) →
  wp (lib m) (λ _ e', stands P' p e e') e.
Proof.
  intros He (Hirq & HQ & o & Ho & HP) Hg Hr Hk Ha Hn Hx Hq Hm.
  eapply wp_mono; [eapply (lib_known p e c); [done..|]; by apply Hm|].
  intros [] e' (_ & -> & Hal). split; [done|]. split; [by eexists|]. split; [done|]. split; [done|].
  eexists. split; [simpl; apply lookup_insert_eq | auto].
Qed.

(** [setOnDisconnect] does not mask interrupts; they are enabled before and after. *)
Lemma setOnDisconnect_run p o h (w : world) :
  heap w !! p = Some o → irq_enabled w = true →
  setOnDisconnect p h w = Done (tt, handler_set p (on_TCPStream (set_onDisconnect h) o) w).
Proof.
  intros Ho Hq. unfold setOnDisconnect. rewrite (upd_obj_run _ o) by done.
  unfold handler_set, set_irq. simpl. do 2 f_equal. unfold set_heap. by rewrite Hq.
Qed.
End Opening.

(** Run a setter of a handler: [c] is the call, [g] the assignment, [P'] what holds of the
    object afterwards. *)
Ltac run_setter c g P' :=
  apply wp_bind; eapply wp_mono;
  [ eapply (lib_setter _ _ P' _ _ c _ g);
    [ done | eassumption | first [done | by intros ? []] | reflexivity | set_solver | done | done | reflexivity
    | eauto with moves typeclass_instances
    | intros ???; first [by apply setOnReadable_run | by apply setOnSent_run | by apply setOnDisconnect_run] ] |].

#[export] Instance demo_entry : EntryLaw demo_runtime.
Proof. intros p Hp. unfold NULL. simpl. lia. Qed.
