(* ===== verification/EchoTCP.v ===== *)
(** * The TCP echo client

    [src/test/echo-tcp-client/main.cpp].  The client resolves the address of the host,
    connects, sends a line, checks the echo, sends a success message, and terminates when
    the stack has acknowledged everything.  The [TCPStream] member [_stream] is the first
    member of the client, so it lives at the client's address.  What [printf] prints is
    not modelled. *)
From S2P Require Import Prelude Types Interfaces SocketAddr World Socket UDPSocket TCPAsynch.
From S2P Require Import TCPStream TCPListener Dispatch Shape System Lifetimes Events Safety Harness.
From S2P Require Import KeyExchange.
From stdpp Require Import base gmap list strings.
From Stdlib Require Import ZArith Lia Ascii.

(** The members of a [TCPEchoClient] other than [_stream]. *)
Record TCPEchoClient := mk_client {
  _resolvedAddr : SocketAddr;
  _port : Z;
  _done : bool;
  _disconnected : bool;
  _unacked : Z
}.

Definition set_resolved (a : SocketAddr) (c : TCPEchoClient) : TCPEchoClient :=
  mk_client a (_port c) (_done c) (_disconnected c) (_unacked c).
Definition set_port (n : Z) (c : TCPEchoClient) : TCPEchoClient :=
  mk_client (_resolvedAddr c) n (_done c) (_disconnected c) (_unacked c).
Definition set_done (b : bool) (c : TCPEchoClient) : TCPEchoClient :=
  mk_client (_resolvedAddr c) (_port c) b (_disconnected c) (_unacked c).
Definition set_disconnected (b : bool) (c : TCPEchoClient) : TCPEchoClient :=
  mk_client (_resolvedAddr c) (_port c) (_done c) b (_unacked c).
Definition set_unacked (n : Z) (c : TCPEchoClient) : TCPEchoClient :=
  mk_client (_resolvedAddr c) (_port c) (_done c) (_disconnected c) n.

(** [char out_buffer[]] and [char out_success[]], with their terminators. *)
Definition newline : string := String (ascii_of_nat 10) EmptyString.
Definition c_array (s : string) : list Z := to_bytes (String.list_ascii_of_string s) ++ [0%Z].
Definition out_buffer : list Z := c_array ("Hello World" ++ newline).
Definition out_success : list Z := c_array ("{{success}}" ++ newline ++ "{{end}}" ++ newline).
Definition sizeof (a : list Z) : Z := Z.of_nat (length a).

(** [sizeof(buffer)], of [char buffer[256]]. *)
Definition BUFFER_SIZE : Z := 256.

Section EchoTCP.
Context {SA : SAL} {MN : Minar} {RT : Runtime} {IN : Inet} {HA : Harness}.
Abbreviation E A := (M (echo TCPEchoClient) A).

(** The methods that are bound as handlers. *)
Definition M_onError : Z := 0.
Definition M_onDNS : Z := 1.
Definition M_onConnect : Z := 2.
Definition M_onRx : Z := 3.
Definition M_onSent : Z := 4.
Definition M_onDisconnect : Z := 5.

(** [_unacked += n] and [_unacked -= n], at the width of [size_t]. *)
Definition add_unacked (n : Z) (c : TCPEchoClient) : TCPEchoClient :=
  set_unacked (wrap size_width (_unacked c + n)) c.
Definition sub_unacked (n : Z) (c : TCPEchoClient) : TCPEchoClient :=
  set_unacked (wrap size_width (_unacked c - n)) c.

(** [new TCPEchoClient(stack)]; [raw] and [rawc] are what the storage contained. *)
Definition new_TCPEchoClient (stack_id : Z) (raw : object) (rawc : TCPEchoClient) : E ptr :=
  this ← lib (new_storage raw);
  modify (λ e, set_clients (<[this := rawc]> (clients e)) e);;
  lib (TCPStream_ctor this stack_id);;
  upd_client this (λ c, set_disconnected true (set_done false c));;
  lib (setOnError this (bound M_onError this));;
  mret this.

(** [delete client]: the destructor of [TCPEchoClient], that of its member, the storage *)
Definition delete_TCPEchoClient (this : ptr) : E unit :=
  get_client this;;
  b ← lib (isConnected this);
  (if b : bool then lib (close this);; mret tt else mret tt);;
  lib (TCPStream_dtor this);;
  lib (release this);;
  modify (λ e, set_clients (delete this (clients e)) e).

(** [TCPEchoClient::onError] *)
Definition onError (this : ptr) (err : socket_error_t) : E unit :=
  TEST_ASSERT (bool_decide (err ≠ SOCKET_ERROR_NONE))
  (upd_client this (set_done true);;
   post_task (Terminate false this)).

(** [TCPEchoClient::start_test] *)
Definition start_test (this : ptr) (host_addr : cstring) (port : Z) : E unit :=
  upd_client this (λ c, set_disconnected true (set_done false (set_port (u16 port) c)));;
  err ← lib (TCPAsynch_open this SOCKET_AF_INET4);
  TEST_ASSERT (bool_decide (err = SOCKET_ERROR_NONE))
  (err ← lib (resolve this host_addr (bound M_onDNS this));
   TEST_ASSERT (bool_decide (err = SOCKET_ERROR_NONE)) (mret tt)).

(** [TCPEchoClient::onDNS] *)
Definition onDNS (this : ptr) (sa : socket_addr) : E unit :=
  upd_client this (λ c, set_resolved (setAddr (_resolvedAddr c) sa) c);;
  c ← get_client this;
  b ← gets buffer;
  modify (set_buffer (from_option to_bytes b
    (fmtIPv6 (_resolvedAddr c) (Some (to_chars b)) BUFFER_SIZE).2));;
  lib (setOnReadable this (bound M_onRx this));;
  lib (setOnSent this (bound M_onSent this));;
  lib (setOnDisconnect this (bound M_onDisconnect this));;
  c ← get_client this;
  err ← lib (TCPStream_connect this (_resolvedAddr c) (_port c) (bound M_onConnect this));
  TEST_ASSERT (bool_decide (err = SOCKET_ERROR_NONE)) (mret tt).

(** [TCPEchoClient::onConnect] *)
Definition onConnect (this : ptr) : E unit :=
  upd_client this (λ c, set_unacked (sizeof out_buffer - 1) (set_disconnected false c));;
  err ← lib (send this (Some out_buffer) (sizeof out_buffer - 1));
  TEST_ASSERT (bool_decide (err = SOCKET_ERROR_NONE)) (mret tt).

(** [buffer[n] = 0] *)
Definition terminate_buffer (n : Z) : E unit :=
  b ← gets buffer;
  if decide (0 ≤ n < Z.of_nat (length b))%Z
  then modify (set_buffer (<[Z.to_nat n := 0%Z]> b)) else raise OutOfBounds.

(** The rest of [onRx] when [n] bytes have been received. *)
Definition received (this : ptr) (n : Z) : E unit :=
  terminate_buffer n;;
  b ← gets buffer;
  c ← get_client this;
  let finish :=
    c ← get_client this;
    if _done c then mret tt else post_task (Terminate false this) in
  if negb (_done c) && bool_decide (0 < n)%Z then
    TEST_ASSERT (equal_string_len out_buffer b n)
    (upd_client this (add_unacked (sizeof out_success - 1));;
     err ← lib (send this (Some out_success) (sizeof out_success - 1));
     upd_client this (set_done true);;
     TEST_ASSERT (bool_decide (err = SOCKET_ERROR_NONE)) finish)
  else finish.

(** [TCPEchoClient::onRx] *)
Definition onRx (this : ptr) : E unit :=
  b ← gets buffer;
  r ← lib (recv this (Some b) (Some (BUFFER_SIZE - 1)%Z));
  modify (set_buffer (default b r.1.2));;
  TEST_ASSERT (bool_decide (r.1.1 = SOCKET_ERROR_NONE))
    (received this (default (BUFFER_SIZE - 1)%Z r.2)).

(** [TCPEchoClient::onSent] *)
Definition onSent (this : ptr) (nbytes : Z) : E unit :=
  upd_client this (sub_unacked nbytes);;
  c ← get_client this;
  if _done c && bool_decide (_unacked c = 0%Z)
  then post_task (Terminate true this) else mret tt.

(** [TCPEchoClient::onDisconnect] *)
Definition onDisconnect (this : ptr) : E unit :=
  upd_client this (set_disconnected true).

(** [terminate], with the global [client]; [eth.disconnect()] is another package's *)
Definition terminate (status : bool) : E unit :=
  p ← gets client;
  if decide (p = NULL) then mret tt
  else
    delete_TCPEchoClient p;;
    modify (set_client NULL);;
    TEST_ASSERT status (modify add_validation).

(** The end of [test_echo_tcp_client]: [port] is what was read from the host, [buffer]
    holds its address. *)
Definition start_client (stack_id port : Z) (raw : object) (rawc : TCPEchoClient) : E unit :=
  this ← new_TCPEchoClient stack_id raw rawc;
  modify (set_client this);;
  post_task (StartTest this (u16 port)).

(** A callback of the library is the bound method called on the bound client; the
    arguments a method ignores are left out. *)
Definition call_handler (c : callback) : E unit :=
  match cb_fun c with
  | None => raise NullCall
  | Some f =>
    let this := bound_this f in
    match c with
    | CbError _ _ err => onError this err
    | CbDNS _ _ addr _ => onDNS this addr
    | CbReadable _ _ => onRx this
    | CbSent _ _ n => onSent this n
    | CbConnect _ _ => onConnect this
    | CbDisconnect _ _ => onDisconnect this
    | CbIncoming _ _ _ => raise NullCall     (* the client binds no such handler *)
    end
  end.

#[export] Instance tcp_client : Client TCPEchoClient := {|
  on_callback := call_handler;
  run_task t := match t with
                | StartTest this port =>
                  b ← gets buffer; start_test this (Some (c_str (to_chars b))) port
                | Terminate status _ => terminate status
                end
|}.

(** [test_echo_tcp_client] *)
Definition test_echo_tcp_client {GT : Greentea} {BO : Board SA} (raw : object) (rawc : TCPEchoClient)
    : M (bench TCPEchoClient) (option Z) :=
  test_echo_client (λ stack_id port, start_client stack_id port raw rawc) 15000.

(** [cases] and [greentea_setup] *)
Definition tcp_suite {GT : Greentea} {BO : Board SA} (raw : object) (rawc : TCPEchoClient) : suite TCPEchoClient :=
  mk_suite 20 "tcpecho_client_auto" "Test Echo TCP Client" (test_echo_tcp_client raw rawc).
End EchoTCP.
