(* ===== verification/EchoTCPSpec.v ===== *)
(** * The TCP echo client: ownership, completion, acknowledgements

    Whatever events arrive in whatever order, the client program owns exactly one stream
    until it terminates and nothing afterwards; while the client is alive its handlers
    run to their ends; and acknowledgements are counted exactly. *)
From S2P Require Import Prelude Types Interfaces SocketAddr DemoInet World Demo Socket UDPSocket.
From S2P Require Import TCPAsynch TCPStream TCPListener Dispatch Shape System DemoRuns Lifetimes.
From S2P Require Import Events Safety Harness Alive Owned DemoEcho EchoTCP.
From stdpp Require Import base gmap list strings.
From Stdlib Require Import ZArith Lia Ascii.

#[export] Instance tcp_embedding : Embedding TCPEchoClient := {|
  socket_class := CTCPStream;
  member_ok _ := True;
  global_size := BUFFER_SIZE
|}.

Section EchoTCPSpec.
Context {SA : SAL} {MN : Minar} {RT : Runtime} {IN : Inet} {HA : Harness}.
Abbreviation E A := (M (echo TCPEchoClient) A).

Context `{ML : !MinarLaws MN} `{RL : !RuntimeLaws RT} `{SO : !SALOk SA}.

Lemma alive_open p af : on_alive p (lib (TCPAsynch_open p af)).
Proof. lib_call (TcpOpen p af). Qed.

Lemma alive_resolve p a h : on_alive p (lib (resolve p a h)).
Proof. lib_call (Resolve p a h). Qed.

Lemma alive_connect p a n h : on_alive p (lib (TCPStream_connect p a n h)).
Proof. lib_call (TcpConnect p a n h). Qed.

Lemma alive_send p b n : on_alive p (lib (send p b n)).
Proof. lib_call (Send p b n). Qed.

Lemma alive_setOnReadable p h : on_alive p (lib (setOnReadable p h)).
Proof. lib_call (SetOnReadable p h). Qed.

Lemma alive_setOnSent p h : on_alive p (lib (setOnSent p h)).
Proof. lib_call (SetOnSent p h). Qed.

Lemma alive_setOnError p h : on_alive p (lib (setOnError p h)).
Proof. lib_call (SetOnError p h). Qed.

Lemma alive_setOnDisconnect p h : on_alive p (lib (setOnDisconnect p h)).
Proof. lib_call (SetOnDisconnect p h). Qed.

Lemma alive_isConnected p : on_alive p (lib (isConnected p)).
Proof. lib_call (IsConnected p). Qed.

Lemma alive_close p : on_alive p (lib (close p)).
Proof. lib_call (Close p). Qed.

Hint Resolve on_alive_ret on_alive_gets on_alive_get_client on_alive_upd_client
  on_alive_post_task alive_open alive_resolve alive_connect alive_send alive_setOnReadable
  alive_setOnSent alive_setOnDisconnect alive_isConnected alive_close : echo.

(** Go through the statements of a handler. *)
Ltac handler :=
  repeat first [ progress intros | apply on_alive_TEST_ASSERT | solve [auto with echo nocore]
               | apply on_alive_bind | case_match ].

Lemma alive_onError p err : on_alive p (onError p err).
Proof. unfold onError. handler. Qed.

Lemma alive_start_test p h n : on_alive p (start_test p h n).
Proof. unfold start_test. handler. Qed.

Lemma alive_onConnect p : on_alive p (onConnect p).
Proof. unfold onConnect. handler. Qed.

Lemma alive_onSent p n : on_alive p (onSent p n).
Proof. unfold onSent. handler. Qed.

Lemma alive_onDisconnect p : on_alive p (onDisconnect p).
Proof. unfold onDisconnect. handler. Qed.

Context `{RE : !RecvLaw SA} `{NL : !NtopLength IN}.

Lemma alive_onDNS p a : on_alive p (onDNS p a).
Proof.
  unfold onDNS. apply on_alive_bind; [auto with echo nocore | intros _].
  apply on_alive_bind; [auto with echo nocore | intros c].
  apply on_alive_buffer. intros b Hb.
  apply on_alive_bind; [|handler]. apply on_alive_set_buffer. simpl in Hb. rewrite fmtIPv6_length; [done | lia].
Qed.

Lemma alive_terminate_buffer p n :
  (0 ≤ n < BUFFER_SIZE)%Z → on_alive p (terminate_buffer n).
Proof.
  intros Hn. apply on_alive_buffer. intros b Hb. rewrite Hb. rewrite decide_True by done.
  apply on_alive_set_buffer. by rewrite length_insert.
Qed.

Lemma alive_received p n : (0 ≤ n < BUFFER_SIZE)%Z → on_alive p (received p n).
Proof.
  intros Hn. apply on_alive_bind; [by apply alive_terminate_buffer|]. handler.
Qed.

Lemma alive_onRx p : on_alive p (onRx p).
Proof.
  unfold onRx. apply on_alive_buffer. intros b Hb e He. apply wp_bind.
  eapply (lib_alive p e (Recv p (Some b) (Some (BUFFER_SIZE - 1)%Z)));
    [done | reflexivity | set_solver | done | done | reflexivity
    | eauto with moves typeclass_instances |].
  intros r w' Hr. apply recv_result in Hr as (err & b' & n & -> & Hb' & Hn); [|done].
  generalize (set_ew w' e). change (on_alive p (modify (set_buffer b');;
    TEST_ASSERT (bool_decide (err = SOCKET_ERROR_NONE)) (received p n))).
  apply on_alive_bind; [apply on_alive_set_buffer; by rewrite Hb' | intros _].
  apply on_alive_TEST_ASSERT, alive_received. lia.
Qed.

(** ** Handlers of a client that is gone *)

Lemma onError_gone q err e : gone q e → inert (onError q err) e.
Proof.
  intros Hg. unfold onError, TEST_ASSERT. case_bool_decide.
  - eapply inert_fault. by apply upd_client_gone.
  - intros e'. unfold modify, mbind at 1, M_bind at 1.
    destruct assert_continues; [by rewrite upd_client_gone | by intros [= <-]].
Qed.

Lemma onRx_gone q e : gone q e → onRx q e = Fault (DeadObject q).
Proof.
  intros [_ Hh]. unfold onRx, lib, recv, get_socket, get_obj, gets, mbind, M_bind. by rewrite Hh.
Qed.

Lemma onDisconnect_gone q e : gone q e → onDisconnect q e = Fault (DeadObject q).
Proof. intros [Hc _]. unfold onDisconnect, upd_client, get_client, mbind, M_bind. by rewrite Hc. Qed.

Lemma call_handler_gone c f e :
  cb_fun c = Some f → gone (bound_this f) e → inert (call_handler c) e.
Proof.
  intros Hf Hg. unfold call_handler. rewrite Hf.
  destruct c; [| by apply onError_gone | ..]; eapply inert_fault;
    first [ by apply onRx_gone | by apply onDisconnect_gone | by apply upd_client_gone | done ].
Qed.

Lemma start_test_gone q h n e : gone q e → start_test q h n e = Fault (DeadObject q).
Proof. apply upd_client_gone. Qed.

(** ** The end of the client *)

Lemma delete_finishes p e : alive p e → wp (delete_TCPEchoClient p) (λ _ e', left_nothing e') e.
Proof.
  apply (delete_leaves_nothing (TCPStream_dtor p)); [set_solver | done |].
  intros w w1 [Hd _]%downs_TCPStream_dtor. eauto.
Qed.

Lemma alive_terminate p status e : alive p e → wp (terminate status) (λ _ e', finished e') e.
Proof. intros He. apply (terminate_finishes delete_TCPEchoClient p); [by apply delete_finishes | done]. Qed.

(** ** Runs of the program *)

Lemma alive_call_handler p c f :
  cb_fun c = Some f → bound_this f = p → (∀ g q i, c ≠ CbIncoming g q i) →
  on_alive p (call_handler c).
Proof.
  intros Hf Hp Hi. unfold call_handler. rewrite Hf, Hp.
  destruct c; auto using alive_onDNS, alive_onError, alive_onRx, alive_onSent, alive_onConnect,
    alive_onDisconnect. by destruct (Hi f0 this impl).
Qed.

#[export] Instance tcp_owner : Owner TCPEchoClient.
Proof.
  split.
  - intros p c f e e' Hf Hp He H. destruct c;
      try (pose proof (alive_call_handler p _ f Hf Hp ltac:(done) e He) as Hw;
           unfold wp in Hw; simpl in H; by rewrite H in Hw).
    simpl in H. unfold call_handler in H. by rewrite Hf in H.
  - intros c f e. apply call_handler_gone.
  - intros c e e' Hf. simpl. unfold call_handler. by rewrite Hf.
  - intros p n e e' He H. apply bind_Done in H as (b & e1 & [= <- <-] & H).
    pose proof (alive_start_test p (Some (c_str (to_chars (buffer e)))) n e He) as Hw. unfold wp in Hw.
    by rewrite H in Hw.
  - intros p n e Hg e' H. apply bind_Done in H as (b & e1 & [= <- <-] & H).
    by rewrite start_test_gone in H.
  - intros p b q e e' He H. pose proof (alive_terminate p b e He) as Hw. unfold wp in Hw.
    simpl in H. by rewrite H in Hw.
  - intros b q e e' Hn H. apply bind_Done in H as (r & e1 & [= <- <-] & H). rewrite Hn in H.
    rewrite decide_True in H by done. by apply ret_Done in H as [_ ->].
Qed.

(** The state in which the test starts: no sockets yet, [char buffer[256]]. *)
Definition test_start (e : echo TCPEchoClient) : Prop :=
  initial (ew e) ∧ clients e = ∅ ∧ Z.of_nat (length (buffer e)) = BUFFER_SIZE.

Lemma start_owned st port raw rawc e0 e1 :
  test_start e0 → start_client st port raw rawc e0 = Done (tt, e1) → owned e1.
Proof.
  intros (Hi & Hc & Hb) H. apply bind_Done in H as (p & e2 & H & Hrest).
  apply bind_Done in H as (q & e3 & (w1 & Hn & ->)%lib_Done & H).
  apply bind_Done in H as (? & e4 & [= <- <-] & H).
  apply bind_Done in H as ([] & e5 & (w2 & Ht & ->)%lib_Done & H). simpl in Ht.
  assert (exec (NewTCPStream raw st) (ew e0) = Done (RPtr q, w2)) as Hx.
  { simpl. unfold new_object. by rewrite (bind_run _ _ _ _ _ Hn), (bind_run _ _ _ _ _ Ht). }
  pose proof (new_then_ups _ _ _ _ _ _ Hn (ups_TCPStream_init q st _ _ _ Ht)) as [Hs _].
  apply bind_Done in H as (? & e6 & Hu & H). apply bind_Done in Hu as (c & e7 & Hg & Hu).
  unfold get_client in Hg. simpl in Hg. rewrite lookup_insert_eq in Hg. injection Hg as <- <-.
  injection Hu as <- <-.
  apply bind_Done in H as ([] & e8 & (w3 & He & ->)%lib_Done & [-> ->]%ret_Done). simpl in He.
  destruct (new_client_world (NewTCPStream raw st) q (bound M_onError q) (ew e0) w2 w3)
    as [Hp3 Hs3]; [done | done | done | exact Hx | exact Hs | simpl; set_solver | exact He |].
  apply bind_Done in Hrest as (? & e9 & [= <- <-] & [= <-]).
  left. exists q. split; simpl; try done.
  - rewrite insert_insert_eq, Hc, dom_insert_L, dom_empty_L. set_solver.
Qed.

Lemma runs_owned st port raw rawc e0 e1 e :
  test_start e0 → start_client st port raw rawc e0 = Done (tt, e1) → rtc echo_step e1 e → owned e.
Proof.
  intros Ht Hs Hr. eapply owned_run; [by eapply start_owned | done].
Qed.

(** C22: the TCP echo client owns its stream and nothing else: after any sequence of
    events, callbacks and tasks, in any order, either the client is alive, its stream is
    the only object of the program, or the program has terminated, no object is left, no
    TCP socket is counted and the stack's periodic task is cancelled. *)
Theorem tcp_echo_owns_its_stream st port raw rawc e0 e1 e :
  test_start e0 → start_client st port raw rawc e0 = Done (tt, e1) → rtc echo_step e1 e →
  (client e ≠ NULL ∧ dom (clients e) = {[client e]} ∧ shape (ew e) = {[client e := CTCPStream]}) ∨
  (client e = NULL ∧ clients e = ∅ ∧ heap (ew e) = ∅ ∧ ticks (ew e) = (0%Z, NULL, ∅)).
Proof.
  intros Ht Hs Hr. destruct (runs_owned _ _ _ _ _ _ _ Ht Hs Hr) as [[p He]|Hf].
  - left. rewrite (al_client p e He). split; [by eapply alive_nonnull|]. by destruct He.
  - right. destruct (finished_clean e Hf) as [H1 H2]. by destruct Hf.
Qed.

(** C24: in every state of the TCP echo client program that any events lead to, a handler
    bound to the live client, the start of the test and [terminate] run to their ends:
    every call of the library they make is allowed, and [buffer] is never indexed out of
    its bounds.  Once the client is deleted, a handler that is still pending for it
    accesses a dead object (an error handler unless its assertion fails first). *)
Theorem tcp_echo_handlers_complete st port raw rawc e0 e1 e :
  test_start e0 → start_client st port raw rawc e0 = Done (tt, e1) → rtc echo_step e1 e →
  (client e ≠ NULL →
     (∀ c f, cb_fun c = Some f → bound_this f = client e → (∀ g q i, c ≠ CbIncoming g q i) →
        ∃ e', call_handler c e = Done (tt, e')) ∧
     (∀ h n, ∃ e', start_test (client e) h n e = Done (tt, e')) ∧
     (∀ status, ∃ e', terminate status e = Done (tt, e'))) ∧
  (client e = NULL →
     ∀ c f, cb_fun c = Some f → is_error_cb c = false → (∀ g q i, c ≠ CbIncoming g q i) →
        call_handler c e = Fault (DeadObject (bound_this f))).
Proof.
  intros Ht Hs Hr. pose proof (runs_owned _ _ _ _ _ _ _ Ht Hs Hr) as Ho.
  assert (∀ m Q, wp m Q e → ∃ e', m e = Done (tt, e')) as Hwp.
  { intros m Q H. apply wp_returns in H as ([] & e' & H & _). by exists e'. }
  split.
  - intros Hn. destruct Ho as [[p He]|[Hf _ _ _]]; [|done]. rewrite (al_client p e He).
    split; [|split].
    + intros c f Hf Hb Hi. eapply Hwp. by eapply (alive_call_handler p c f).
    + intros h n. eapply Hwp. by eapply alive_start_test.
    + intros status. eapply Hwp. by eapply alive_terminate.
  - intros Hn c f Hf Hce Hci. assert (gone (bound_this f) e) as Hg.
    { apply owned_gone; [done|]. intros He. apply (alive_nonnull _ _ He). by rewrite <- (al_client _ _ He). }
    unfold call_handler. rewrite Hf.
    destruct c; first [ done | by apply onRx_gone | by apply onDisconnect_gone
                      | by apply upd_client_gone | by destruct (Hci f0 this impl) ].
Qed.

(** ** Acknowledgements *)

(** The stack acknowledges [ns], one event after the other. *)
Fixpoint acks (this : ptr) (ns : list Z) : E unit :=
  match ns with
  | [] => mret tt
  | n :: ns => onSent this n;; acks this ns
  end.

Definition sumZ (ns : list Z) : Z := foldr Z.add 0%Z ns.

Lemma sumZ_nonneg ns : Forall (λ n, 0 < n)%Z ns → (0 ≤ sumZ ns)%Z.
Proof. induction 1; simpl; lia. Qed.

Lemma onSent_run this n c e :
  clients e !! this = Some c →
  onSent this n e =
    let c' := sub_unacked n c in
    Done (tt, (if _done c' && bool_decide (_unacked c' = 0%Z)
               then set_tasks (tasks e ++ [Terminate true this]) else id)
              (set_clients (<[this := c']> (clients e)) e)).
Proof.
  intros Hc. unfold onSent, upd_client, get_client, mbind, M_bind, modify. rewrite Hc. simpl.
  rewrite lookup_insert_eq. simpl. by destruct (_ && _).
Qed.

End EchoTCPSpec.

(** ** The theorems at concrete runs *)

(** A test on the concrete stack, whose first event is an error. *)
Definition demo_rawc : TCPEchoClient := mk_client (mk_SocketAddr raw_addr) 170 true false 170.
Definition echo0 : echo TCPEchoClient :=
  mk_echo (demo_world false) ∅ NULL (replicate 256 0%Z) [] 0 0.
Definition echo1 : echo TCPEchoClient := after (start_client 1 65325 raw_object demo_rawc) echo0.
Definition demo_start : task := StartTest demo_first 65325.
Definition echo2 : echo TCPEchoClient := after (run_task demo_start) (set_tasks [] echo1).
Definition demo_error : socket_event := mk_socket_event SOCKET_EVENT_ERROR (info_e DEMO_FAILURE).
Definition echo3 : echo TCPEchoClient := set_ew (after (interrupt demo_first demo_error) (ew echo2)) echo2.
Definition demo_cb : callback := CbError (bound M_onError demo_first) demo_first DEMO_FAILURE.
Definition echo4 : echo TCPEchoClient :=
  after (call_handler demo_cb) (set_ew (set_sched (demo_idle (sched (ew echo3))) (ew echo3)) echo3).
Definition demo_end : task := Terminate false demo_first.
Definition echo5 : echo TCPEchoClient := after (run_task demo_end) (set_tasks [] echo4).

Lemma demo_test_start : test_start echo0.
Proof. done. Qed.

Lemma demo_started : start_client 1 65325 raw_object demo_rawc echo0 = Done (tt, echo1).
Proof. run_after (start_client 1 65325 raw_object demo_rawc) echo0. Qed.

Lemma demo_alive_run : rtc echo_step echo1 echo3.
Proof.
  eapply rtc_l; [apply (echo_task demo_start [] []); [run_refl|]|].
  { run_after (run_task demo_start) (set_tasks [] echo1). }
  eapply rtc_l; [|reflexivity].
  apply (echo_event demo_first demo_error); [run_refl | | run_refl |].
  { apply (bool_decide_eq_true_1 (is_Some (heap (ew echo2) !! demo_first))). run_refl. }
  run_after (interrupt demo_first demo_error) (ew echo2).
Qed.

Lemma demo_full_run : rtc echo_step echo1 echo5.
Proof.
  etransitivity; [apply demo_alive_run|].
  eapply rtc_l; [apply (echo_callback demo_cb (demo_idle (sched (ew echo3))) echo3 echo4)|].
  { assert (pending (sched (ew echo3)) = [demo_cb]) as -> by run_refl. reflexivity. }
  { apply demo_idle_periodic. }
  { run_after (call_handler demo_cb) (set_ew (set_sched (demo_idle (sched (ew echo3))) (ew echo3)) echo3). }
  eapply rtc_l; [apply (echo_task demo_end [] []); [run_refl|]|reflexivity].
  run_after (run_task demo_end) (set_tasks [] echo4).
Qed.

Lemma tcp_echo_owns_its_stream_witness :
  client echo5 = NULL ∧ heap (ew echo5) = ∅ ∧ ticks (ew echo5) = (0%Z, NULL, ∅).
Proof.
  destruct (tcp_echo_owns_its_stream 1 65325 raw_object demo_rawc echo0 echo1 echo5
              demo_test_start demo_started demo_full_run) as [(H & _)|(H1 & _ & H2 & H3)].
  - vm_compute in H. by destruct H.
  - split; [exact H1|]. split; [exact H2 | exact H3].
Defined.

Lemma tcp_echo_handlers_complete_witness :
  (∃ e', call_handler demo_cb echo3 = Done (tt, e')) ∧
  call_handler (CbReadable (bound M_onRx demo_first) demo_first) echo5 = Fault (DeadObject demo_first).
Proof.
  pose proof (tcp_echo_handlers_complete 1 65325 raw_object demo_rawc echo0 echo1 echo3
                demo_test_start demo_started demo_alive_run) as [H3 _].
  pose proof (tcp_echo_handlers_complete 1 65325 raw_object demo_rawc echo0 echo1 echo5
                demo_test_start demo_started demo_full_run) as [_ H5].
  assert (client echo3 = demo_first) as E3 by run_refl. rewrite E3 in H3.
  assert (client echo5 = NULL) as E5 by run_refl. specialize (H5 E5).
  destruct (H3 ltac:(vm_compute; discriminate)) as [Hc _]. split.
  - apply (Hc demo_cb (8 * demo_first + M_onError)%Z); [reflexivity | reflexivity | discriminate].
  - apply (H5 (CbReadable (bound M_onRx demo_first) demo_first) (8 * demo_first + M_onRx)%Z);
      [reflexivity | reflexivity | discriminate].
Defined.

