(* ===== verification/TCPDialogue.v ===== *)
(** * The TCP echo client and its host

    The client of [EchoTCP], the server of [Host], and between them a connection that
    keeps bytes in order: the stack takes what the client sends, the server receives it
    in chunks of any size and its replies come back, also in chunks; acknowledgements
    arrive in any portions.  Every event reaches the client the way the library delivers
    it: the interrupt, the posted callback, the scheduler, the bound handler. *)
From S2P Require Import Prelude Types Interfaces SocketAddr DemoInet World Demo Socket UDPSocket.
From S2P Require Import TCPAsynch TCPStream TCPListener Dispatch Shape System DemoRuns Lifetimes.
From S2P Require Import Events Safety Harness Host Alive Delivery DemoEcho Network EchoTCP EchoTCPSpec.
From stdpp Require Import base gmap list strings.
From Stdlib Require Import ZArith Lia Ascii.

(** The comparison of the test framework finds equal prefixes equal. *)
Class StringLenLaw (HA : Harness) : Prop :=
  equal_prefix a b n : take (Z.to_nat n) a = take (Z.to_nat n) b → equal_string_len a b n = true.

(** [size_t] has at least 16 bits. *)
Class SizeLaw (HA : Harness) : Prop := size_16 : (16 ≤ size_width)%Z.

(** An array without its terminator. *)
Definition message (a : list Z) : list Z := take (length a - 1) a.
Definition hello : list Z := message out_buffer.
Definition success : list Z := message out_success.

(** The handlers the client binds in [onDNS]. *)
#[export] Instance tcp_wiring : Wiring TCPEchoClient.
Proof.
  refine {| wired p s := _onReadable s = bound M_onRx p ∧ _onSent s = bound M_onSent p |}; by intros p s ?.
Defined.

Section TCPDialogue.
Context {SA : SAL} {MN : Minar} {RT : Runtime} {IN : Inet} {HA : Harness}.
Context `{ML : !MinarLaws MN} `{RL : !RuntimeLaws RT} `{SO : !SALOk SA}.
Context `{RE : !RecvLaw SA} `{NL : !NtopLength IN} `{EL : !StringLenLaw HA}.
Context {ST : Stream SA} `{SL : !StreamLaws SA}.
Context `{SZ : !SizeLaw HA}.
Abbreviation E A := (M (echo TCPEchoClient) A).

Abbreviation txs e := (tx (stack (ew e))).
Abbreviation rxs e := (rx (stack (ew e))).

(** ** The library calls of the client while it is online *)

(** What such a call leaves behind. *)
Definition called (p : ptr) (e : echo TCPEchoClient) (T R : list Z) (e' : echo TCPEchoClient) : Prop :=
  online p e' ∧ (∃ w', e' = set_ew w' e) ∧ txs e' = T ∧ rxs e' = R.

Lemma lib_send p e b l :
  online p e → (0 ≤ l ≤ Z.of_nat (length b))%Z →
  wp (lib (send p (Some b) l))
     (λ err e', err = SOCKET_ERROR_NONE ∧ called p e (txs e ++ take (Z.to_nat l) b) (rxs e) e') e.
Proof.
  intros Hon Hl. destruct (online_lookup p e Hon) as (o & Ho & _ & _ & Hi & Ha & Hf).
  destruct (present_arg2 _ _ _ _ (ft_send _ Hf (Some b) l)) as [f Hfn].
  destruct (send_takes _ f b l (sock_of o) (stack (ew e)) Hfn Hl) as (s' & S' & Hc & Hi' & Ht & Hx).
  eapply wp_mono; [eapply (online_call p e o (Send p (Some b) l));
    [done | done | reflexivity | set_solver | done | done | reflexivity
    | eauto with moves typeclass_instances | | | exact Hc | done]|].
  - unfold send. rewrite (get_socket_bind _ o) by done. by rewrite decide_False by done.
  - unfold arg2. by rewrite Hfn.
  - intros err e' (-> & Ho' & Hs & Hw). split; [done|]. split; [done|]. split; [done|]. by rewrite Hs.
Qed.

Lemma lib_recv p e b l :
  online p e → (0 < l ≤ Z.of_nat (length b))%Z → rxs e ≠ [] →
  wp (lib (recv p (Some b) (Some l)))
     (λ r e', ∃ d R, r = (SOCKET_ERROR_NONE, Some (d ++ drop (length d) b), Some (Z.of_nat (length d))) ∧
                     d ≠ [] ∧ (Z.of_nat (length d) ≤ l)%Z ∧ rxs e = d ++ R ∧ called p e (txs e) R e') e.
Proof.
  intros Hon Hl Hrx. destruct (online_lookup p e Hon) as (o & Ho & _ & _ & Hi & Ha & Hf).
  destruct (present_arg2 _ _ _ _ (ft_recv _ Hf (Some b) (Some l))) as [f Hfn].
  destruct (recv_gives _ f b l (sock_of o) (stack (ew e)) Hfn Hl Hrx)
    as (d & s' & S' & Hc & Hi' & Hd & Hdl & Hx & Ht).
  eapply wp_mono; [eapply (online_call p e o (Recv p (Some b) (Some l)));
    [done | done | reflexivity | set_solver | done | done | reflexivity
    | eauto with moves typeclass_instances | | | exact Hc | done]|].
  - unfold recv. rewrite (get_socket_bind _ o) by done. by rewrite decide_False by done.
  - unfold arg2. by rewrite Hfn.
  - intros r e' (-> & Ho' & Hs & Hw). exists d, (rx S'). repeat (split; [done|]). by rewrite Hs.
Qed.

(** ** The handlers while the client is online *)

(** The program after a handler: its client, the bytes under way, its tasks. *)
Record result (p : ptr) (e : echo TCPEchoClient) (c : TCPEchoClient) (T R : list Z) (l : list task)
    (e' : echo TCPEchoClient) : Prop := {
  res_online : online p e';
  res_client : clients e' !! p = Some c;
  res_tx : txs e' = T;
  res_rx : rxs e' = R;
  res_tasks : tasks e' = l;
  res_failures : failures e' = failures e
}.

Lemma online_member p c (e : echo TCPEchoClient) :
  online p e → online p (set_clients (<[p := c]> (clients e)) e).
Proof. intros Hon. by apply online_client. Qed.

Lemma onConnect_result p c e :
  online p e → clients e !! p = Some c →
  wp (onConnect p)
     (λ _ e', result p e (set_unacked 12 (set_disconnected false c)) (txs e ++ hello) (rxs e) (tasks e) e') e.
Proof.
  intros Hon Hc. apply wp_bind. eapply wp_upd_client; [done|]. apply wp_bind.
  eapply wp_mono; [apply lib_send; [by apply online_member | done]|].
  intros err e' (-> & Ho & [w' ->] & Ht & Hr). apply wp_TEST_ASSERT; [done|].
  unfold wp, mret, M_ret. split; try done. simpl. apply lookup_insert_eq.
Qed.

Lemma onSent_result p n c e :
  online p e → clients e !! p = Some c →
  let c' := sub_unacked n c in
  wp (onSent p n)
     (λ _ e', result p e c' (txs e) (rxs e)
                (tasks e ++ if _done c && bool_decide (_unacked c' = 0%Z) then [Terminate true p] else []) e') e.
Proof.
  intros Hon Hc c'. unfold wp. rewrite (onSent_run p n c e Hc). cbv zeta. fold c'.
  replace (_done c') with (_done c) by done. destruct (_ && _).
  - split; try done; [by apply online_tasks, online_member | simpl; apply lookup_insert_eq].
  - split; try done; [by apply online_member | simpl; apply lookup_insert_eq | by rewrite app_nil_r].
Qed.

(** [buffer[n] = 0] after [n] bytes were received leaves them in place. *)
Lemma wp_terminate_buffer n (Q : unit → echo TCPEchoClient → Prop) e :
  (n < length (buffer e)) → Q tt (set_buffer (<[n := 0%Z]> (buffer e)) e) →
  wp (terminate_buffer (Z.of_nat n)) Q e.
Proof.
  intros Hn HQ. unfold terminate_buffer. apply wp_bind. unfold wp, gets.
  rewrite decide_True by lia. unfold modify. by rewrite Nat2Z.id.
Qed.

(** The statements of [onRx] up to [received], on what arrived. *)
Lemma onRx_receives p e (Q : unit → echo TCPEchoClient → Prop) :
  online p e → rxs e ≠ [] →
  (∀ d b R e1, d ≠ [] → rxs e = d ++ R → length d < length b → take (length d) b = d →
     Z.of_nat (length b) = BUFFER_SIZE → called p e (txs e) R e1 →
     wp (received p (Z.of_nat (length d))) Q (set_buffer b e1)) →
  wp (onRx p) Q e.
Proof.
  intros Hon Hrx HQ. pose proof (al_buffer _ _ (proj1 Hon)) as Hb. simpl in Hb.
  unfold onRx. apply wp_bind. unfold wp at 1, gets. apply wp_bind.
  eapply wp_mono; [apply lib_recv; [done | unfold BUFFER_SIZE in *; lia | done]|].
  intros r e1 (d & R & -> & Hd & Hdl & HR & Hc). apply wp_bind. unfold wp at 1, modify.
  simpl default. apply wp_TEST_ASSERT; [done|]. unfold BUFFER_SIZE in *.
  apply (HQ _ _ R); [done | done | | by rewrite take_app_length | | done];
    rewrite length_app, length_drop; lia.
Qed.

Lemma hello_prefix d R k : d ++ R = take k hello → take (length d) out_buffer = d.
Proof.
  unfold hello, message. rewrite take_take. intros H.
  rewrite <- (take_drop (k `min` (length out_buffer - 1)) out_buffer), <- H, <- app_assoc.
  apply take_app_length.
Qed.

(** The first echo is compared with what was sent, and the success message follows. *)
Lemma onRx_waiting p c k e :
  online p e → clients e !! p = Some c → _done c = false → rxs e ≠ [] → rxs e = take k hello →
  wp (onRx p)
     (λ _ e', ∃ d R, d ≠ [] ∧ rxs e = d ++ R ∧
                result p e (set_done true (add_unacked 20 c)) (txs e ++ success) R (tasks e) e') e.
Proof.
  intros Hon Hc Hdn Hrx Hk. apply onRx_receives; [done..|].
  intros d b R e1 Hd HR Hdb Htk Hb (Hon1 & [w' ->] & Ht & Hr).
  unfold received. apply wp_bind, wp_terminate_buffer; [done|]. simpl buffer.
  apply wp_bind. unfold wp at 1, gets. simpl buffer. apply wp_bind.
  eapply wp_get_client; [done|]. rewrite Hdn.
  rewrite bool_decide_eq_true_2 by (destruct d; [done | simpl; lia]). simpl negb. simpl andb. cbv iota.
  apply wp_TEST_ASSERT.
  { apply equal_prefix. rewrite Nat2Z.id, take_insert_ge, Htk by done. rewrite HR in Hk.
    by apply (hello_prefix d R k). }
  apply wp_bind. eapply wp_upd_client; [done|]. apply wp_bind.
  eapply wp_mono; [apply lib_send; [apply online_member, (online_buffer p _ (set_ew w' e)); [done|] | done]|].
  { by rewrite length_insert. }
  intros err e2 (-> & Ho2 & [w2 ->] & Ht2 & Hr2). apply wp_bind.
  eapply wp_upd_client; [apply lookup_insert_eq|]. apply wp_TEST_ASSERT; [done|].
  apply wp_bind. eapply wp_get_client; [apply lookup_insert_eq|]. unfold wp, mret, M_ret. simpl.
  exists d, R. split; [done|]. split; [done|]. split; try done.
  - by apply online_member.
  - simpl. rewrite lookup_insert_eq. done.
  - simpl in *. rewrite Ht2. simpl. by rewrite Ht.
  - simpl in *. by rewrite Hr2.
Qed.

(** Later echoes are received and ignored. *)
Lemma onRx_done p c e :
  online p e → clients e !! p = Some c → _done c = true → rxs e ≠ [] →
  wp (onRx p)
     (λ _ e', ∃ d R, d ≠ [] ∧ rxs e = d ++ R ∧ result p e c (txs e) R (tasks e) e') e.
Proof.
  intros Hon Hc Hdn Hrx. apply onRx_receives; [done..|].
  intros d b R e1 Hd HR Hdb Htk Hb (Hon1 & [w' ->] & Ht & Hr).
  unfold received. apply wp_bind, wp_terminate_buffer; [done|]. simpl buffer.
  apply wp_bind. unfold wp at 1, gets. apply wp_bind. eapply wp_get_client; [done|]. rewrite Hdn.
  simpl andb. cbv iota. apply wp_bind. eapply wp_get_client; [done|]. rewrite Hdn.
  unfold wp, mret, M_ret. exists d, R. split; [done|]. split; [done|]. split; try done.
  apply (online_buffer p _ (set_ew w' e)); [done|]. by rewrite length_insert.
Qed.

(** ** The dialogue *)

Definition ev_connect : socket_event := mk_socket_event SOCKET_EVENT_CONNECT info_none.
Definition ev_rx : socket_event := mk_socket_event SOCKET_EVENT_RX_DONE info_none.
Definition ev_sent (n : Z) : socket_event := mk_socket_event SOCKET_EVENT_TX_DONE (info_t n).

(** The program; the chunks the host received; the bytes the client received; the number
    of bytes that were acknowledged. *)
Record talk := mk_talk {
  prog : echo TCPEchoClient;
  heard : list (list Z);
  got : list Z;
  acked : Z
}.

(** All the client has sent so far. *)
Definition sent (t : talk) : list Z := concat (heard t) ++ txs (prog t).

(** The host receives a chunk, at most the 1024 bytes it asks for, and its reply goes out;
    the stack acknowledges something the client has sent; or something that arrived is
    received by the client. *)
Inductive talk_step (p : ptr) : talk → talk → Prop :=
| talk_host t d S' :
    d ≠ [] → length d ≤ 1024 → txs (prog t) = d ++ tx S' →
    rx S' = rxs (prog t) ++ reply d →
    talk_step p t (mk_talk (set_ew (set_stack S' (ew (prog t))) (prog t)) (heard t ++ [d]) (got t) (acked t))
| talk_ack t n e' :
    (0 < n < 2 ^ 16)%Z → (acked t + n ≤ Z.of_nat (length (sent t)))%Z →
    delivered p (ev_sent n) (prog t) e' →
    talk_step p t (mk_talk e' (heard t) (got t) (acked t + n))
| talk_rx t d e' :
    d ≠ [] → delivered p ev_rx (prog t) e' → rxs (prog t) = d ++ rxs e' →
    talk_step p t (mk_talk e' (heard t) (got t ++ d) (acked t)).

(** The states of the dialogue: before the echo, or after it. *)
Inductive phase (p : ptr) (t : talk) (c : TCPEchoClient) : Prop :=
| phase_waiting :
    _done c = false → sent t = hello → got t = [] → tasks (prog t) = [] → phase p t c
| phase_done :
    _done c = true → sent t = hello ++ success →
    tasks (prog t) = (if decide (acked t = 32%Z) then [Terminate true p] else []) → phase p t c.

Record talking (p : ptr) (f : nat) (t : talk) : Prop := {
  tk_online : online p (prog t);
  tk_failures : failures (prog t) = f;
  tk_chunks : Forall (λ d, d ≠ []) (heard t);
  tk_replies : got t ++ rxs (prog t) = concat (reply <$> heard t);
  tk_acked : (0 ≤ acked t ≤ Z.of_nat (length (sent t)))%Z;
  tk_client : ∃ c, clients (prog t) !! p = Some c ∧
                _unacked c = (Z.of_nat (length (sent t)) - acked t)%Z ∧ phase p t c
}.

Lemma call_sent p q n : on_callback (CbSent (bound M_onSent p) q n) = onSent p n.
Proof. simpl. unfold call_handler, bound. simpl. by rewrite bound_this_bound. Qed.

Lemma call_rx p q : on_callback (CbReadable (bound M_onRx p) q) = onRx p.
Proof. simpl. unfold call_handler, bound. simpl. by rewrite bound_this_bound. Qed.

Lemma call_connect p q : on_callback (CbConnect (bound M_onConnect p) q) = onConnect p.
Proof. simpl. unfold call_handler, bound. simpl. by rewrite bound_this_bound. Qed.

(** The callbacks of the two events. *)
Lemma delivery_sent p n e :
  online p e → (0 < n < 2 ^ 16)%Z →
  ∃ o, heap (ew e) !! p = Some o ∧ delivery o p (ev_sent n) = Some (CbSent (bound M_onSent p) p n).
Proof.
  intros (o & Ho & Hv & [_ Hs] & _)%online_lookup Hn. exists o. split; [done|].
  unfold delivery, meaning. rewrite Hv. simpl. rewrite Hs. simpl. unfold u16. by rewrite wrap_small by lia.
Qed.

Lemma delivery_rx p e :
  online p e →
  ∃ o, heap (ew e) !! p = Some o ∧ delivery o p ev_rx = Some (CbReadable (bound M_onRx p) p).
Proof.
  intros (o & Ho & Hv & [Hr _] & _)%online_lookup. exists o. split; [done|].
  unfold delivery, meaning. rewrite Hv. simpl. by rewrite Hr.
Qed.

Lemma wrap_size n : (0 ≤ n < 2 ^ 16)%Z → wrap size_width n = n.
Proof.
  intros Hn. apply wrap_small. pose proof size_16. pose proof (Z.pow_le_mono_r 2 16 size_width). lia.
Qed.

Lemma talking_host p f t d S' :
  talking p f t → d ≠ [] → txs (prog t) = d ++ tx S' → rx S' = rxs (prog t) ++ reply d →
  talking p f (mk_talk (set_ew (set_stack S' (ew (prog t))) (prog t)) (heard t ++ [d]) (got t) (acked t)).
Proof.
  intros [H1 H2 H3 H4 H5 (c & H6 & H7 & H8)] Hd Ht Hr.
  set (t' := mk_talk _ _ _ _).
  assert (sent t' = sent t) as Hs.
  { unfold sent, t'. simpl. by rewrite concat_app, Ht, <- app_assoc; simpl; rewrite app_nil_r. }
  split; simpl; rewrite ?Hs; try done.
  - by apply online_stack.
  - apply Forall_app. split; [done | by apply Forall_singleton].
  - rewrite Hr, app_assoc, H4, fmap_app, concat_app. simpl. by rewrite app_nil_r.
  - exists c. split; [done|]. split; [done|].
    destruct H8; [apply phase_waiting | apply phase_done]; by rewrite ?Hs.
Qed.

Lemma result_stack p e c T R l e' : result p e c T R l e' → txs e' = T ∧ rxs e' = R.
Proof. by intros []. Qed.

(** A handler that leaves the bytes under way as they are. *)
Lemma sent_same t e' n : txs e' = txs (prog t) → sent (mk_talk e' (heard t) (got t) n) = sent t.
Proof. unfold sent. simpl. by intros ->. Qed.

Lemma talking_ack p f t n e' :
  talking p f t → (0 < n < 2 ^ 16)%Z → (acked t + n ≤ Z.of_nat (length (sent t)))%Z →
  delivered p (ev_sent n) (prog t) e' →
  talking p f (mk_talk e' (heard t) (got t) (acked t + n)).
Proof.
  intros [H1 H2 H3 H4 H5 (c & H6 & H7 & H8)] Hn Hle Hd.
  destruct (delivery_sent p n _ H1 Hn) as (o & Ho & Hdl).
  destruct (delivered_handler p (ev_sent n) o _ _ _ H1 eq_refl Ho Hdl Hd) as (e2 & [Hon2 (w2 & -> & Hst)] & Hc).
  rewrite call_sent in Hc. pose proof (onSent_result p n c _ Hon2 H6) as Hw.
  unfold wp in Hw. rewrite Hc in Hw. destruct Hw as [R1 R2 R3 R4 R5 R6]. simpl in *. rewrite Hst in *.
  assert (length (sent t) ≤ 32) as Hlen by (destruct H8 as [_ -> _ _|_ -> _]; vm_compute; lia).
  assert (wrap size_width (_unacked c - n) = Z.of_nat (length (sent t)) - acked t - n)%Z as Hu
    by (rewrite H7; apply wrap_size; lia).
  rewrite Hu in *. pose proof (sent_same t e' (acked t + n) R3) as Hs. set (t' := mk_talk _ _ _ _) in *.
  split; rewrite ?Hs; simpl; rewrite ?R4; try done; try congruence; [lia|].
  eexists. split; [exact R2|]. simpl. rewrite Hu. split; [lia|].
  destruct H8 as [D1 D2 D3 D4|D1 D2 D3]; [apply phase_waiting | apply phase_done];
    rewrite ?Hs; simpl; try done.
  - by rewrite R5, D4, D1.
  - assert (length (sent t) = 32) as H32 by by rewrite D2.
    rewrite R5, D3, D1, H32, decide_False by lia.
    destruct (decide (acked t + n = 32)%Z);
      [rewrite bool_decide_eq_true_2 by lia | rewrite bool_decide_eq_false_2 by lia]; done.
Qed.

(** While the client waits, what arrives is what the host heard of its line. *)
Lemma replies_hello ds T : concat ds ++ T = hello → concat (reply <$> ds) = concat ds.
Proof.
  intros H. assert (123%Z ∉ concat ds) as Hx.
  { intros Hin. assert (123%Z ∈ hello) as Hh by (rewrite <- H; apply elem_of_app; by left).
    revert Hh. by apply (bool_decide_eq_true_1 (123%Z ∉ hello)). }
  clear H. induction ds as [|d ds IH]; [done|]. rewrite fmap_cons. cbn [concat] in *.
  rewrite elem_of_app in Hx. rewrite reply_echo, IH by tauto. done.
Qed.

Lemma talking_rx p f t d e' :
  talking p f t → d ≠ [] → delivered p ev_rx (prog t) e' → rxs (prog t) = d ++ rxs e' →
  talking p f (mk_talk e' (heard t) (got t ++ d) (acked t)).
Proof.
  intros [H1 H2 H3 H4 H5 (c & H6 & H7 & H8)] Hdne Hd Hr.
  assert (rxs (prog t) ≠ []) as Hrx by (rewrite Hr; by destruct d).
  destruct (delivery_rx p _ H1) as (o & Ho & Hdl).
  destruct (delivered_handler p ev_rx o _ _ _ H1 eq_refl Ho Hdl Hd) as (e2 & [Hon2 (w2 & -> & Hst)] & Hc).
  rewrite call_rx in Hc. set (t' := mk_talk _ _ _ _).
  assert (got t' ++ rxs (prog t') = concat (reply <$> heard t')) as Hrep
    by (simpl; by rewrite <- app_assoc, <- Hr).
  destruct H8 as [D1 D2 D3 D4|D1 D2 D3].
  - pose proof (replies_hello _ _ D2) as Hh. rewrite D3, Hh in H4. simpl in H4.
    assert (rxs (set_ew w2 (prog t)) = take (length (rxs (prog t))) hello) as Hk.
    { simpl. rewrite Hst, <- D2, H4. unfold sent. by rewrite take_app_length. }
    simpl in Hk. pose proof (onRx_waiting p c (length (rxs (prog t))) _ Hon2 H6 D1) as Hw.
    simpl in Hw. rewrite Hst in Hw, Hk. specialize (Hw Hrx Hk). unfold wp in Hw. rewrite Hc in Hw. destruct Hw as (d' & R & _ & _ & [R1 R2 R3 R4 R5 R6]).
    simpl in R5, R6. assert (sent t' = hello ++ success) as Hs.
    { change (concat (heard t) ++ txs e' = hello ++ success). rewrite R3, app_assoc.
      change (sent t ++ success = hello ++ success). by rewrite D2. }
    assert (length (sent t) = 12) as H12 by by rewrite D2.
    split; rewrite ?Hs; simpl; try done; try congruence; [lia|].
    eexists. split; [exact R2|]. simpl. rewrite H7, H12, wrap_size by lia. split; [lia|].
    apply phase_done; [done | by rewrite Hs |]. simpl. rewrite decide_False by lia. by rewrite R5.
  - pose proof (onRx_done p c _ Hon2 H6 D1) as Hw. simpl in Hw. rewrite Hst in Hw.
    specialize (Hw Hrx). unfold wp in Hw. rewrite Hc in Hw. destruct Hw as (d' & R & _ & _ & [R1 R2 R3 R4 R5 R6]).
    simpl in R5, R6. assert (sent t' = sent t) as Hs by (unfold sent, t'; simpl; by rewrite R3).
    split; rewrite ?Hs; simpl; try done; try congruence.
    exists c. split; [exact R2|]. split; [exact H7|]. apply phase_done; rewrite ?Hs; try done.
    simpl. by rewrite R5.
Qed.

Lemma talking_step p f t t' : talking p f t → talk_step p t t' → talking p f t'.
Proof. intros Ht Hs. destruct Hs; [by apply talking_host | by apply talking_ack | by apply talking_rx]. Qed.

Lemma talking_run p f n t t' : talking p f t → nsteps (talk_step p) n t t' → talking p f t'.
Proof. intros Ht Hs. revert Ht. induction Hs as [|n t1 t2 t3 H1 _ IH]; eauto using talking_step. Qed.

(** The client waits for its connection: it is online, nothing is under way or posted. *)
Definition awaiting (p : ptr) (e : echo TCPEchoClient) : Prop :=
  online p e ∧ txs e = [] ∧ rxs e = [] ∧ tasks e = [] ∧
  (_done <$> clients e !! p) = Some false ∧
  (_onConnect ∘ o_TCPStream <$> heap (ew e) !! p) = Some (bound M_onConnect p).

Lemma delivery_connect p e :
  awaiting p e →
  ∃ o, heap (ew e) !! p = Some o ∧ delivery o p ev_connect = Some (CbConnect (bound M_onConnect p) p).
Proof.
  intros (H1 & _ & _ & _ & _ & (o & Ho & Hcn)%fmap_Some). exists o. split; [done|].
  destruct (online_lookup p e H1) as (o' & Ho' & Hv & _). rewrite Ho in Ho'. injection Ho' as <-.
  unfold delivery, meaning. rewrite Hv. simpl. simpl in Hcn. by rewrite <- Hcn.
Qed.

Lemma talking_start p e0 e1 :
  awaiting p e0 → delivered p ev_connect e0 e1 → talking p (failures e0) (mk_talk e1 [] [] 0).
Proof.
  intros Ha Hd. destruct (delivery_connect p e0 Ha) as (o & Ho & Hdl).
  destruct Ha as (H1 & H2 & H3 & H4 & (c & Hdn & Hcl)%fmap_Some & _).
  destruct (delivered_handler p ev_connect o _ _ _ H1 eq_refl Ho Hdl Hd) as (e2 & [Hon2 (w2 & -> & Hst)] & Hc).
  rewrite call_connect in Hc. pose proof (onConnect_result p c _ Hon2 Hdn) as Hw.
  unfold wp in Hw. rewrite Hc in Hw. destruct Hw as [R1 R2 R3 R4 R5 R6]. simpl in *. rewrite Hst in *.
  rewrite H2 in R3. rewrite H3 in R4. rewrite H4 in R5.
  assert (sent (mk_talk e1 [] [] 0) = hello) as Hs by exact R3.
  split; rewrite ?Hs; try done.
  eexists. split; [exact R2|]. split; [done|]. by apply phase_waiting.
Qed.

(** ** Every dialogue succeeds *)

(** Nothing is under way any more. *)
Definition settled (t : talk) : Prop :=
  txs (prog t) = [] ∧ rxs (prog t) = [] ∧ acked t = Z.of_nat (length (sent t)).

Lemma settled_done p f t : talking p f t → settled t → acked t = 32%Z.
Proof.
  intros [H1 H2 H3 H4 H5 (c & H6 & H7 & H8)] (S1 & S2 & S3).
  destruct H8 as [D1 D2 D3 D4|D1 D2 D3]; [|by rewrite S3, D2].
  exfalso. rewrite (replies_hello _ _ D2), D3, S2 in H4. unfold sent in D2. by rewrite <- H4, S1 in D2.
Qed.

Lemma talking_tasks p f t :
  talking p f t → tasks (prog t) = if decide (acked t = 32%Z) then [Terminate true p] else [].
Proof.
  intros [H1 H2 H3 H4 H5 (c & H6 & H7 & H8)]. destruct H8 as [D1 D2 D3 D4|D1 D2 D3]; [|done].
  assert (length (sent t) = 12) as H12 by by rewrite D2. rewrite decide_False by lia. done.
Qed.

(** Bytes moved so far: every step moves some, and there are not many. *)
Definition moved (t : talk) : nat := length (concat (heard t)) + length (got t) + Z.to_nat (acked t).

Lemma step_moves p f t t' : talking p f t → talk_step p t t' → moved t < moved t'.
Proof.
  intros Ht Hs. pose proof (tk_acked p f t Ht). unfold moved.
  destruct Hs as [t d S' Hd _ _ _|t n e' Hn _ _|t d e' Hd _ _]; simpl.
  - rewrite concat_app, length_app. simpl. rewrite app_nil_r. destruct d; [done|]. simpl. lia.
  - lia.
  - rewrite length_app. destruct d; [done|]. simpl. lia.
Qed.

Lemma concat_reply_length ds : length (concat (reply <$> ds)) ≤ length (concat ds).
Proof.
  induction ds as [|d ds IH]; [done|]. rewrite fmap_cons. cbn [concat]. rewrite !length_app.
  pose proof (reply_length d). lia.
Qed.

Lemma moved_bound p f t : talking p f t → moved t ≤ 96.
Proof.
  intros [H1 H2 H3 H4 H5 (c & H6 & H7 & H8)].
  assert (length (sent t) ≤ 32) as Hlen by (destruct H8 as [_ -> _ _|_ -> _]; vm_compute; lia).
  apply (f_equal length) in H4. rewrite length_app in H4. pose proof (concat_reply_length (heard t)).
  unfold sent in *. rewrite length_app in *. unfold moved. lia.
Qed.

Lemma run_moves p f n t t' :
  talking p f t → nsteps (talk_step p) n t t' → moved t + n ≤ moved t'.
Proof.
  intros Ht Hs. revert Ht. induction Hs as [|n t1 t2 t3 H1 _ IH]; intros Ht; [lia|].
  pose proof (step_moves p f _ _ Ht H1). specialize (IH (talking_step p f _ _ Ht H1)). lia.
Qed.

(** Whatever the phase, [onRx] takes something of what arrived. *)
Lemma onRx_takes p f t e2 :
  talking p f t → rxs (prog t) ≠ [] → handing p (prog t) e2 →
  ∃ e' d, onRx p e2 = Done (tt, e') ∧ d ≠ [] ∧ rxs (prog t) = d ++ rxs e'.
Proof.
  intros [H1 H2 H3 H4 H5 (c & H6 & H7 & H8)] Hrx [Hon2 (w2 & -> & Hst)].
  assert (wp (onRx p) (λ _ e', ∃ d R, d ≠ [] ∧ rxs (prog t) = d ++ R ∧ rxs e' = R) (set_ew w2 (prog t))) as Hw.
  { destruct H8 as [D1 D2 D3 D4|D1 D2 D3].
    - rewrite D3, (replies_hello _ _ D2) in H4. simpl in H4.
      eapply wp_mono; [apply (onRx_waiting p c (length (rxs (prog t)))); [done..| |]; simpl; rewrite Hst; [done|]|].
      { rewrite <- D2, H4. unfold sent. by rewrite take_app_length. }
      simpl. rewrite Hst. intros u e' (d & R & Hd & HR & Hres). exists d, R. by destruct Hres.
    - eapply wp_mono; [apply (onRx_done p c); [done..|]; simpl; by rewrite Hst|].
      simpl. rewrite Hst. intros u e' (d & R & Hd & HR & Hres). exists d, R. by destruct Hres. }
  unfold wp in Hw. destruct (onRx p _) as [[[] e']|]; [|done]. destruct Hw as (d & R & Hd & HR & He').
  exists e', d. split; [done|]. split; [done | by rewrite He'].
Qed.

(** Something that arrived can be received, what was sent can be acknowledged, and what
    the stack took can reach the host. *)
Lemma can_receive p f t : talking p f t → rxs (prog t) ≠ [] → ∃ t', talk_step p t t'.
Proof.
  intros Ht Hrx. pose proof (tk_online p f t Ht) as Hon.
  destruct (delivery_rx p _ Hon) as (o & Ho & Hdl).
  destruct (deliver p ev_rx o _ _ Hon eq_refl Ho Hdl) as [e' He'].
  { intros e2 H. rewrite call_rx. destruct (onRx_takes p f t e2 Ht Hrx H) as (e' & d & He' & _). eauto. }
  destruct (delivered_handler p ev_rx o _ _ _ Hon eq_refl Ho Hdl He') as (e2 & H & Hc).
  rewrite call_rx in Hc. destruct (onRx_takes p f t e2 Ht Hrx H) as (e'' & d & Hc' & Hd & Hr).
  rewrite Hc' in Hc. injection Hc as <-. eexists. by apply (talk_rx p t d).
Qed.

Lemma can_acknowledge p f t :
  talking p f t → acked t ≠ Z.of_nat (length (sent t)) → ∃ t', talk_step p t t'.
Proof.
  intros Ht Hne. pose proof Ht as [H1 H2 H3 H4 H5 (c & H6 & H7 & H8)].
  destruct (delivery_sent p 1 _ H1 ltac:(lia)) as (o & Ho & Hdl).
  destruct (deliver p (ev_sent 1) o _ _ H1 eq_refl Ho Hdl) as [e' He'].
  { intros e2 [Hon2 (w2 & -> & Hst)]. rewrite call_sent.
    pose proof (onSent_result p 1 c _ Hon2 H6) as Hw. unfold wp in Hw.
    destruct (onSent p 1 _) as [[[] e']|]; [eauto | done]. }
  eexists. apply (talk_ack p t 1 e'); [lia | lia | done].
Qed.

Lemma can_transmit p f t : talking p f t → txs (prog t) ≠ [] → ∃ t', talk_step p t t'.
Proof.
  intros Ht Hne. destruct (txs (prog t)) as [|x T] eqn:Hx; [done|].
  destruct (carries (stack (ew (prog t))) [x] T (reply [x]) Hx) as (S' & HT & HR).
  eexists. apply (talk_host p t [x] S'); [done | simpl; lia | by rewrite HT | done].
Qed.

(** As long as anything is under way, the dialogue can go on. *)
Lemma talk_goes_on p f t : talking p f t → settled t ∨ ∃ t', talk_step p t t'.
Proof.
  intros Ht.
  destruct (decide (txs (prog t) = [])) as [H1|H1]; [|right; by eapply can_transmit].
  destruct (decide (rxs (prog t) = [])) as [H2|H2]; [|right; by eapply can_receive].
  destruct (decide (acked t = Z.of_nat (length (sent t)))) as [H3|H3]; [|right; by eapply can_acknowledge].
  by left.
Qed.


(** The dialogue ends: it has at most 96 steps, and as long as anything is under way
    it can go on, each handler of the client running to its end.  So every dialogue that
    is carried on as long as possible ends with the client's request to terminate with
    success. *)
Theorem tcp_dialogue_ends p e0 e1 n t :
  awaiting p e0 → delivered p ev_connect e0 e1 →
  nsteps (talk_step p) n (mk_talk e1 [] [] 0) t →
  n ≤ 96 ∧ (settled t ∨ ∃ t', talk_step p t t') ∧
  ((∀ t', ¬ talk_step p t t') → tasks (prog t) = [Terminate true p]).
Proof.
  intros Ha Hd Hr. pose proof (talking_start _ _ _ Ha Hd) as H0.
  pose proof (talking_run _ _ _ _ _ H0 Hr) as Ht.
  pose proof (talk_goes_on _ _ _ Ht) as Hp.
  split; [|split; [done|]].
  - pose proof (run_moves _ _ _ _ _ H0 Hr). pose proof (moved_bound _ _ _ Ht). lia.
  - intros Hn. destruct Hp as [Hs|[t' Hs]]; [|by destruct (Hn t')].
    rewrite (talking_tasks _ _ _ Ht). by rewrite decide_True by (by eapply settled_done).
Qed.
End TCPDialogue.

(** ** The theorems at a concrete run *)

#[local] Existing Instances stream_sal stream_sal_ok stream_queues stream_recv_law stream_laws.

#[local] Instance demo_string_len : StringLenLaw demo_harness.
Proof. intros a b n H. simpl. by apply bool_decide_eq_true_2. Qed.

(** The client is created and started, the address of its host is resolved; then the
    connection is made and everything is delivered in one piece each. *)
Definition stream_world : world := mk_world ∅ 0 NULL true (mk_demo_minar [] ∅) (mk_stream [] [] None None).
Definition talk0 : echo TCPEchoClient := mk_echo stream_world ∅ NULL (replicate 256 0%Z) [] 0 0.
Definition talk1 : echo TCPEchoClient := after (start_client 1 65325 raw_object demo_rawc) talk0.
Definition talk2 : echo TCPEchoClient := after (run_task demo_start) (set_tasks [] talk1).
Definition demo_resolved : socket_event := mk_socket_event SOCKET_EVENT_DNS (info_d demo_loopback None).
Definition demo_dns : callback := CbDNS (bound M_onDNS demo_first) demo_first demo_loopback None.

(** The states after an event and after its handler. *)
Definition arrived (ev : socket_event) (e : echo TCPEchoClient) : echo TCPEchoClient :=
  set_ew (after (interrupt demo_first ev) (ew e)) e.
Definition calm (e : echo TCPEchoClient) : echo TCPEchoClient :=
  set_ew (set_sched (demo_idle (sched (ew e))) (ew e)) e.
Definition handled (ev : socket_event) (c : callback) (e : echo TCPEchoClient) : echo TCPEchoClient :=
  after (call_handler c) (calm (arrived ev e)).

Definition talk3 : echo TCPEchoClient := handled demo_resolved demo_dns talk2.
Definition demo_connected : callback := CbConnect (bound M_onConnect demo_first) demo_first.
Definition talk4 : echo TCPEchoClient := handled ev_connect demo_connected talk3.

Lemma stream_start : test_start talk0.
Proof. done. Qed.

Lemma stream_started : start_client 1 65325 raw_object demo_rawc talk0 = Done (tt, talk1).
Proof. run_after (start_client 1 65325 raw_object demo_rawc) talk0. Qed.

Lemma stream_runs : rtc echo_step talk1 talk3.
Proof.
  eapply rtc_l; [apply (echo_task demo_start [] []); [run_refl|]|].
  { run_after (run_task demo_start) (set_tasks [] talk1). }
  eapply rtc_l; [apply (echo_event demo_first demo_resolved); [run_refl | | run_refl |]|].
  { apply (bool_decide_eq_true_1 (is_Some (heap (ew talk2) !! demo_first))). run_refl. }
  { run_after (interrupt demo_first demo_resolved) (ew talk2). }
  fold talk2. eapply rtc_l; [|reflexivity].
  apply (echo_callback demo_dns (demo_idle (sched (ew (arrived demo_resolved talk2))))
           (arrived demo_resolved talk2) talk3).
  - assert (pending (sched (ew (arrived demo_resolved talk2))) = [demo_dns]) as Hp by run_refl.
    by rewrite Hp.
  - apply demo_idle_periodic.
  - run_after (call_handler demo_dns) (calm (arrived demo_resolved talk2)).
Qed.

Lemma stream_awaiting : awaiting demo_first talk3.
Proof.
  assert (alive demo_first talk3) as Ha.
  { destruct (runs_owned 1 65325 raw_object demo_rawc talk0 talk1 talk3 stream_start stream_started stream_runs)
      as [[p Hp]|Hf].
    - assert (client talk3 = demo_first) as E by run_refl. by rewrite (al_client p talk3 Hp) in E; subst.
    - exfalso. pose proof (fin_client talk3 Hf) as H. vm_compute in H. done. }
  set (o := default raw_object (heap (ew talk3) !! demo_first)).
  assert (heap (ew talk3) !! demo_first = Some o) as Ho by (apply default_there; run_refl).
  split; [split; [exact Ha|]|].
  { split; [run_refl|]. exists o. split; [exact Ho|].
    split; [vm_compute; discriminate|]. split; run_refl. }
  split; [run_refl|]. split; [run_refl|]. split; [run_refl|]. split; [run_refl|].
  rewrite Ho. run_refl.
Qed.

Lemma demo_delivered ev c e :
  pending (sched (ew e)) = [] → pending (sched (ew (arrived ev e))) = [c] →
  interrupt demo_first ev (ew e) = Done (tt, after (interrupt demo_first ev) (ew e)) →
  call_handler c (calm (arrived ev e)) = Done (tt, handled ev c e) →
  delivered demo_first ev e (handled ev c e).
Proof.
  intros H0 H1 Hi Hc. exists (after (interrupt demo_first ev) (ew e)), c,
    (demo_idle (sched (ew (arrived ev e)))).
  split; [exact Hi|]. split; [change (pending (sched (ew (arrived ev e))) ≡ₚ [c]); by rewrite H1|].
  split; [by rewrite H0|]. by split.
Qed.

Ltac demo_deliver ev c e :=
  apply (demo_delivered ev c e);
  [ run_refl | run_refl | run_after (interrupt demo_first ev) (ew e)
  | run_after (call_handler c) (calm (arrived ev e)) ].

Lemma stream_connected : delivered demo_first ev_connect talk3 talk4.
Proof. demo_deliver ev_connect demo_connected talk3. Qed.

(** The network hands the first [n] bytes to the host. *)
Definition passed (n : nat) (e : echo TCPEchoClient) : echo TCPEchoClient :=
  let S := stack (ew e) in
  set_ew (set_stack (set_queues (drop n (st_tx S)) (st_rx S ++ reply (take n (st_tx S))) S) (ew e)) e.
Definition demo_readable : callback := CbReadable (bound M_onRx demo_first) demo_first.
Definition demo_acked : callback := CbSent (bound M_onSent demo_first) demo_first 32.
Definition talk5 : echo TCPEchoClient := passed 12 talk4.
Definition talk6 : echo TCPEchoClient := handled ev_rx demo_readable talk5.
Definition talk7 : echo TCPEchoClient := passed 20 talk6.
Definition talk8 : echo TCPEchoClient := handled (ev_sent 32) demo_acked talk7.
Definition talk_end : talk := mk_talk talk8 [hello; success] hello 32.

Lemma stream_talk : nsteps (talk_step demo_first) 4 (mk_talk talk4 [] [] 0) talk_end.
Proof.
  eapply nsteps_l; [apply (talk_host demo_first (mk_talk talk4 [] [] 0) hello (stack (ew talk5)))|].
  { done. } { vm_compute; lia. } { run_refl. } { run_refl. }
  eapply nsteps_l; [apply (talk_rx demo_first (mk_talk talk5 [hello] [] 0) hello talk6)|].
  { done. } { demo_deliver ev_rx demo_readable talk5. } { run_refl. }
  eapply nsteps_l; [apply (talk_host demo_first (mk_talk talk6 [hello] hello 0) success (stack (ew talk7)))|].
  { done. } { vm_compute; lia. } { run_refl. } { run_refl. }
  eapply nsteps_l; [apply (talk_ack demo_first (mk_talk talk7 [hello; success] hello 0) 32 talk8)|].
  { lia. } { vm_compute. discriminate. } { demo_deliver (ev_sent 32) demo_acked talk7. }
  apply nsteps_O.
Qed.

#[local] Instance demo_size : SizeLaw demo_harness.
Proof. done. Qed.


Lemma tcp_dialogue_ends_witness :
  settled talk_end ∨ ∃ t', talk_step demo_first talk_end t'.
Proof.
  exact (proj1 (proj2 (tcp_dialogue_ends demo_first talk3 talk4 4 talk_end
    stream_awaiting stream_connected stream_talk))).
Defined.
