(* ===== verification/TCPSession.v ===== *)
(** * The TCP echo test from its start to its end

    The test function of the TCP echo client with its board and its host, and everything
    that follows: the client opens its stream and asks for the address of the host, the
    stack answers, the client connects to the port of the host's server, the connection is
    made, client and host exchange their messages ([TCPDialogue]), and the client
    terminates. *)
From S2P Require Import Prelude Types Interfaces SocketAddr DemoInet World Demo Socket UDPSocket.
From S2P Require Import TCPAsynch TCPStream TCPListener Dispatch Shape System DemoRuns Lifetimes.
From S2P Require Import Constructors Events Safety Text Harness Host KeyExchange Alive Owned Delivery.
From S2P Require Import Counters DemoEcho Network Opening EchoTCP EchoTCPSpec TCPDialogue.
From stdpp Require Import base gmap list strings.
From Stdlib Require Import ZArith Lia Ascii.

(** The handler the client gives to [resolve]. *)
Definition dns_wiring : Wiring TCPEchoClient.
Proof. refine {| wired p s := _onDNS s = bound M_onDNS p |}; by intros p s ?. Defined.

Section TCPSession.
Context {SA : SAL} {MN : Minar} {RT : Runtime} {IN : Inet} {HA : Harness}.
Context `{ML : !MinarLaws MN} `{RL : !RuntimeLaws RT} `{SO : !SALOk SA} `{EN : !EntryLaw RT}.
Context `{RE : !RecvLaw SA} `{NL : !NtopLength IN} `{EL : !StringLenLaw HA}.
Context {ST : Stream SA} `{SL : !StreamLaws SA}.
Context `{SZ : !SizeLaw HA}.

(** Nothing is under way on the stack. *)
Definition idle (S : sal_state) : Prop := tx S = [] ∧ rx S = [].

Context {RS : Resolver SA} {DI : Dial SA} `{OL : !OpeningLaws SA idle} `{CN : !ConnectLaw SA idle}.
Context {GT : Greentea} {BO : Board SA} {HO : HostOS} `{HL : !HostLaws HO} {LI : Link GT} `{LL : !LinkLaws GT}.
Context `{BL : !BoardLaws SA idle}.
Abbreviation E A := (M (echo TCPEchoClient) A).

(** ** The client is created *)

(** The constructor of the first stream on a registered stack. *)
Lemma first_stream_runs p st raw (w : world) :
  heap w !! p = Some raw → _TCPSockets w = 0%Z → idle (stack w) → socket_get_api st (stack w) ≠ NULL →
  ∃ w' o, TCPStream_ctor p st w = Done (tt, w') ∧ idle (stack w') ∧
          heap w' = <[p := o]> (heap w) ∧ has_api o.
Proof.
  intros Ho Hz HQ Ha. set (b := tcp_base p st raw w). set (a := socket_get_api st (stack w)) in *.
  pose proof (api_full st (stack w) Ha) as Hf. fold a in Hf.
  pose proof (ft_interval _ Hf) as Hi. pose proof (ft_task _ Hf) as Ht.
  destruct (api_periodic_interval (api_at a)) as [fi|] eqn:Ei; [|done].
  destruct (api_periodic_task (api_at a)) as [ft|] eqn:Et; [|done].
  destruct (interval_leaves (Q := idle) a fi (sock_of b) (stack w) Ei HQ) as (i & S1 & E1 & Q1).
  destruct (task_leaves (Q := idle) a ft (sock_of b) S1 Et Q1) as (t & S2 & E2 & Q2).
  pose proof (start_tick_run p b a fi ft i t S1 S2 (set_heap (<[p := b]> (heap w)) w)
    (lookup_insert_eq _ _ _) eq_refl Ha Ei Et E1 E2) as Hs.
  destruct (postPeriodic _ _ _ _) as [h s]. eexists _, _. split.
  { eapply (TCPStream_init_run p st raw w _ b); [done | rewrite decide_True by done; exact Hs |].
    simpl. apply lookup_insert_eq. }
  simpl. split; [done|]. split; [by rewrite insert_insert_eq|]. done.
Qed.

(** The state of the program when its client is created and its start is posted. *)
Record started (p : ptr) (n : Z) (e0 e : echo TCPEchoClient) : Prop := {
  sd_alive : alive p e;
  sd_socket : socket_is idle has_api p (ew e);
  sd_tasks : tasks e = tasks e0 ++ [StartTest p (u16 n)];
  sd_buffer : buffer e = buffer e0;
  sd_counts : uncounted e0 e
}.

Lemma start_client_runs st n raw rawc e0 :
  test_start e0 → idle (stack (ew e0)) → socket_get_api st (stack (ew e0)) ≠ NULL →
  match start_client st n raw rawc e0 with
  | Done (_, e1) => started (client e1) n e0 e1
  | Fault f => f = OutOfMemory
  end.
Proof.
  intros Ht HQ Ha. destruct Ht as [(Hh & Hz & Hrest) Ht'] eqn:Et. clear Et.
  destruct (operator_new (dom (heap (ew e0)))) as [p|] eqn:Hp.
  2:{ unfold start_client, new_TCPEchoClient, lib, new_storage, mbind, M_bind. by rewrite Hp. }
  set (w1 := set_heap (<[p := raw]> (heap (ew e0))) (ew e0)).
  assert (new_storage raw (ew e0) = Done (p, w1)) as Hns.
  { assert (heap (ew e0) !! p = None) as Hn by by rewrite Hh.
    unfold new_storage, place. rewrite Hp. unfold mbind, M_bind. by rewrite Hn. }
  destruct (first_stream_runs p st raw w1) as (w2 & o & Hct & HQ2 & Hh2 & Hst); [apply lookup_insert_eq | done..|].
  set (c := set_disconnected true (set_done false rawc)).
  set (e1 := set_ew (handler_set p (on_Socket (set_onError (bound M_onError p)) o) w2)
      (set_clients (<[p := c]> (<[p := rawc]> (clients e0))) e0)).
  assert (new_TCPEchoClient st raw rawc e0 = Done (p, e1)) as En.
  { unfold new_TCPEchoClient. erewrite bind_run by (apply lib_run, Hns). erewrite bind_run by reflexivity.
    erewrite bind_run by (apply lib_run; exact Hct).
    erewrite bind_run; [|unfold upd_client; erewrite bind_run; [reflexivity|]; unfold get_client; simpl;
      by rewrite lookup_insert_eq].
    erewrite bind_run; [|apply lib_run; simpl; apply setOnError_run; rewrite Hh2; apply lookup_insert_eq].
    reflexivity. }
  assert (start_client st n raw rawc e0 =
    Done (tt, set_tasks (tasks e0 ++ [StartTest p (u16 n)]) (set_client p e1))) as E
    by (unfold start_client; by rewrite (bind_run _ _ _ _ _ En)).
  rewrite E. simpl. pose proof (start_owned _ _ _ _ _ _ (conj (conj Hh (conj Hz Hrest)) Ht') E) as [[q Hq]|Hf].
  - pose proof (al_client q _ Hq) as Hc. simpl in Hc. subst q. split; try done.
    split; [done|]. split; [done|]. eexists. split; [simpl; apply lookup_insert_eq | done].
  - pose proof (fin_client _ Hf) as Hc. simpl in Hc. pose proof (new_range _ _ Hp). unfold NULL in Hc. lia.
Qed.

(** ** The client asks for the address of its host *)

(** The client waits for the address of [h]; it will connect to port [n]. *)
Record resolving (p : ptr) (h : cstring) (n : Z) (e0 e : echo TCPEchoClient) : Prop := {
  rs_online : online (WI := dns_wiring) p e;
  rs_idle : idle (stack (ew e));
  rs_asked : asked (stack (ew e)) = h;
  rs_client : ∃ c, clients e !! p = Some c ∧ _done c = false ∧ _port c = n;
  rs_tasks : tasks e = tasks e0;
  rs_counts : uncounted e0 e
}.

Lemma start_test_asks p h n e :
  alive p e → socket_is idle has_api p (ew e) → wp (start_test p h n) (λ _ e', resolving p h (u16 n) e e') e.
Proof.
  intros He Hs. destruct (alive_lookup p e He) as (c & Hc & _).
  apply wp_bind. eapply wp_upd_client; [done|]. set (c' := set_disconnected true _).
  set (e1 := set_clients _ _). assert (alive p e1) as He1 by by apply alive_clients.
  apply wp_bind. eapply wp_mono.
  { eapply (lib_open idle p e1 (TcpOpen p SOCKET_AF_INET4)); [done | done | reflexivity | set_solver | done..]. }
  intros err e2 (-> & He2 & [w2 ->] & Hs2). apply wp_TEST_ASSERT; [done|].
  apply wp_bind. eapply wp_mono; [apply (lib_resolve idle p); [done | done | set_solver]|].
  intros err e3 (-> & Hq & He3 & [w3 ->] & Hirq & HQ & o & Ho & Hi & Hd). apply wp_TEST_ASSERT; [done|].
  apply wp_ret. split; try done.
  - split; [done|]. split; [done|]. by exists o.
  - exists c'. split; [simpl; apply lookup_insert_eq | done].
Qed.

(** ** The client connects *)

Lemma lib_connect (P : object → Prop) p e a n h :
  alive p e → socket_is idle P p (ew e) → (∀ o, P o → sk_impl (sock_of o) ≠ NULL) →
  (∀ o s', P o → sk_impl s' ≠ NULL →
     P (on_Socket (on_socket (λ _, s')) (on_TCPStream (set_onConnect h) o))) →
  wp (lib (TCPStream_connect p a n h))
     (λ err e', err = SOCKET_ERROR_NONE ∧ dialled (stack (ew e')) = Some (getAddr a, n) ∧
                stands idle (λ o, P o ∧ _onConnect (o_TCPStream o) = h) p e e') e.
Proof.
  intros He (Hirq & HQ & o & Ho & HP) Hi HP'.
  destruct (alive_object p e He) as (o' & Ho' & _ & Ha & Hf). rewrite Ho in Ho'. injection Ho' as <-.
  specialize (Hi o HP). specialize (Ha Hi). pose proof (ft_connect _ (Hf Ha) (getAddr a) n) as Hpr.
  destruct (api_connect (api_at (sk_api (sock_of o)))) as [f|] eqn:Ef; [|unfold arg2 in Hpr; by rewrite Ef in Hpr].
  destruct (connect_dials (Q := idle) _ f (getAddr a) n (sock_of o) (stack (ew e)) Ef Hi HQ)
    as (s' & S' & Hc & Hi' & HQ' & Hd).
  set (o1 := on_TCPStream (set_onConnect h) o). set (w1 := set_heap (<[p := o1]> (heap (ew e))) (ew e)).
  assert (call_api p (arg2 api_connect (getAddr a) n) w1 =
    Done (SOCKET_ERROR_NONE, set_stack S' (set_heap (<[p := on_Socket (on_socket (λ _, s')) o1]> (heap w1)) w1))) as Hm.
  { eapply call_api_run; [apply lookup_insert_eq | done | | exact Hc]. unfold arg2.
    change (sk_api (sock_of o1)) with (sk_api (sock_of o)). by rewrite Ef. }
  eapply wp_mono; [eapply (lib_known p e (TcpConnect p a n h));
    [done | reflexivity | set_solver | done | done | reflexivity | eauto with moves typeclass_instances |]|].
  - unfold TCPStream_connect. rewrite (get_socket_bind _ o) by done. rewrite decide_False by done.
    rewrite (upd_obj_bind _ o) by done. exact Hm.
  - intros err e' (-> & -> & Hal'). split; [done|]. split; [done|]. split; [done|]. split; [by eexists|].
    split; [done|]. split; [done|]. eexists. split; [simpl; apply lookup_insert_eq|].
    split; [apply HP'; [done | by rewrite Hi'] | done].
Qed.

(** The client waits for its connection to [a] at port [n]. *)
Record connecting (p : ptr) (a : socket_addr) (n : Z) (e0 e : echo TCPEchoClient) : Prop := {
  cn_awaiting : awaiting p e;
  cn_dialled : dialled (stack (ew e)) = Some (a, n);
  cn_counts : uncounted e0 e
}.

(** The stream has an implementation, and the handlers that [onDNS] sets. *)
Definition stream_set (p : ptr) (o : object) : Prop :=
  sk_impl (sock_of o) ≠ NULL ∧ wired p (o_Socket o).

Lemma onDNS_connects `{AL : !AddrLaws IN} p c a e :
  online (WI := dns_wiring) p e → idle (stack (ew e)) → tasks e = [] →
  clients e !! p = Some c → _done c = false →
  wp (onDNS p a) (λ _ e', connecting p a (_port c) e e') e.
Proof.
  intros [He (Hirq & o & Ho & Hi & _)] HQ Ht Hc Hdn.
  apply wp_bind. eapply wp_upd_client; [done|]. apply wp_bind. eapply wp_get_client; [simpl; apply lookup_insert_eq|].
  apply wp_bind. unfold wp at 1, gets. apply wp_bind. unfold wp at 1, modify.
  set (c1 := set_resolved _ c). set (b := from_option _ _ _). set (e1 := set_buffer b _).
  assert (alive p e1) as He1.
  { apply (on_alive_set_buffer p b); [|by apply alive_clients].
    pose proof (al_buffer p e He) as Hb. simpl in Hb. unfold b. rewrite fmtIPv6_length; simpl; [done | lia]. }
  set (P1 := λ o, sk_impl (sock_of o) ≠ NULL ∧ _onReadable (o_Socket o) = bound M_onRx p).
  assert (socket_is idle (λ o, sk_impl (sock_of o) ≠ NULL) p (ew e1)) as Hs1 by (split; [done|]; split; [done|]; by exists o).
  run_setter (SetOnReadable p (bound M_onRx p)) (on_Socket (set_onReadable (bound M_onRx p))) P1.
  intros [] e2 (He2 & [w2 ->] & Hs2).
  run_setter (SetOnSent p (bound M_onSent p)) (on_Socket (set_onSent (bound M_onSent p))) (stream_set p).
  intros [] e3 (He3 & [w3 ->] & Hs3).
  run_setter (SetOnDisconnect p (bound M_onDisconnect p))
    (on_TCPStream (set_onDisconnect (bound M_onDisconnect p))) (stream_set p).
  intros [] e4 (He4 & [w4 ->] & Hs4). apply wp_bind.
  eapply wp_get_client; [simpl; apply lookup_insert_eq|]. apply wp_bind. eapply wp_mono.
  { eapply (lib_connect (stream_set p)); [done | exact Hs4 | by intros ? [] |]. by intros o1 s' [H1 H2] Hs'. }
  intros err e5 (-> & Hd & He5 & [w5 ->] & Hq5 & HQ5 & o5 & Ho5 & [H5 H5'] & Hcn). apply wp_TEST_ASSERT; [done|].
  apply wp_ret. split; [|rewrite Hd; unfold getAddr, c1; simpl; by rewrite addr_copy_spec|done].
  split; [split; [done|]; split; [done|]; by exists o5|]. split; [apply HQ5|]. split; [apply HQ5|]. split; [done|].
  split; [simpl; by rewrite lookup_insert_eq; simpl; f_equal|]. rewrite Ho5. simpl. by f_equal.
Qed.

(** ** The end, and the counters *)

#[local] Instance handlers_unreported : Unreported (C := TCPEchoClient).
Proof.
  intros c. unfold on_callback. simpl. unfold call_handler, onError, onDNS, onRx, received, terminate_buffer, onSent, onConnect, onDisconnect, post_task.
  cbv zeta. solve_counters.
Qed.

Lemma talk_unreported p t t' : talk_step p t t' → unreported (prog t) (prog t').
Proof. intros []; [done | by eapply delivered_unreported..]. Qed.

Lemma delete_uncounted p : moves uncounted (delete_TCPEchoClient p).
Proof. unfold delete_TCPEchoClient. solve_counters. Qed.

Lemma terminate_passes p e : alive p e → wp (terminate true) (λ _ e', passed_since e e') e.
Proof.
  intros He. apply (terminate_passed delete_TCPEchoClient p); [done | apply delete_uncounted | by eapply alive_terminate].
Qed.

(** ** The session *)

Definition ev_dns (a : socket_addr) (d : cstring) : socket_event :=
  mk_socket_event SOCKET_EVENT_DNS (info_d a d).

(** Where the test stands. *)
Inductive stage :=
| Starting (e : echo TCPEchoClient)
| Resolving (e : echo TCPEchoClient)
| Connecting (e : echo TCPEchoClient)
| Talking (t : talk)
| Ended (e : echo TCPEchoClient).

(** The scheduler starts the client; the stack answers with an address; the connection is
    made; client and host talk; the scheduler runs the termination the client posted. *)
Inductive session_step (p : ptr) : stage → stage → Prop :=
| session_start e n e' :
    tasks e = [StartTest p n] → run_task (StartTest p n) (set_tasks [] e) = Done (tt, e') →
    session_step p (Starting e) (Resolving e')
| session_dns a d e e' :
    delivered p (ev_dns a d) e e' → session_step p (Resolving e) (Connecting e')
| session_connect e e' :
    delivered p ev_connect e e' → session_step p (Connecting e) (Talking (mk_talk e' [] [] 0))
| session_talk t t' :
    talk_step p t t' → session_step p (Talking t) (Talking t')
| session_end t s q l e' :
    tasks (prog t) = Terminate s q :: l →
    run_task (Terminate s q) (set_tasks l (prog t)) = Done (tt, e') →
    session_step p (Talking t) (Ended e').

(** The session is on its course after [k] steps, for a client of a program that was in
    state [e0]; the host's server is at [h] and [n]. *)
Definition on_course (p : ptr) (h : cstring) (n : Z) (e0 : echo TCPEchoClient) (k : nat) (s : stage) : Prop :=
  match s with
  | Starting e => k = 0 ∧ alive p e ∧ socket_is idle has_api p (ew e) ∧ uncounted e0 e ∧
                  tasks e = [StartTest p n] ∧ Some (c_str (to_chars (buffer e))) = h
  | Resolving e => k = 1 ∧ uncounted e0 e ∧ tasks e = [] ∧ ∃ e1, resolving p h n e1 e
  | Connecting e => k = 2 ∧ uncounted e0 e ∧ ∃ a e1, connecting p a n e1 e
  | Talking t => k ≤ 3 + moved t ∧ talking p (failures e0) t ∧ unreported e0 (prog t)
  | Ended e => k ≤ 100 ∧ passed_since e0 e
  end.

Lemma call_resolved p q a d : on_callback (CbDNS (bound M_onDNS p) q a d) = onDNS p a.
Proof. simpl. unfold call_handler, bound. simpl. by rewrite bound_this_bound. Qed.

Lemma delivery_dns p a d e :
  online (WI := dns_wiring) p e →
  ∃ o, heap (ew e) !! p = Some o ∧ delivery o p (ev_dns a d) = Some (CbDNS (bound M_onDNS p) p a d).
Proof.
  intros (o & Ho & Hv & Hw & _)%online_lookup. exists o. split; [done|].
  unfold delivery, meaning. rewrite Hv. simpl in *. by rewrite Hw.
Qed.


Context `{AL : !AddrLaws IN}.

(** The scheduler can start the client, and then the client waits for the address. *)
Lemma starts p h n e0 e :
  u16 n = n → on_course p h n e0 0 (Starting e) →
  wp (run_task (StartTest p n)) (λ _ e', on_course p h n e0 1 (Resolving e')) (set_tasks [] e).
Proof.
  intros Hn (_ & He & Hs & Hc & Ht & <-). apply wp_bind. unfold wp at 1, gets.
  assert (alive p (set_tasks [] e)) as He1 by (destruct He; by split).
  eapply wp_mono; [by apply start_test_asks|]. intros [] e' Hr. rewrite Hn in Hr.
  split; [done|]. split; [etrans; [exact Hc | exact (rs_counts _ _ _ _ _ Hr)]|].
  split; [exact (rs_tasks _ _ _ _ _ Hr) | by eexists].
Qed.

(** An answer of the resolver: it can be delivered, and then the client waits for the
    connection to the address it gives. *)
Lemma answered_handler p h n e1 e a d e2 :
  resolving p h n e1 e → tasks e = [] → handing (WI := dns_wiring) p e e2 →
  wp (on_callback (CbDNS (bound M_onDNS p) p a d)) (λ _ e', connecting p a n e e') e2.
Proof.
  intros [R1 R2 R3 (c & Hc & Hdn & <-) R5 R6] Ht [Hon2 (w2 & -> & Hst)]. rewrite call_resolved.
  eapply wp_mono; [apply (onDNS_connects p c a); try done; simpl; by rewrite Hst|].
  intros [] e' [C1 C2 C3]. by split.
Qed.

Lemma answered p h n e1 e a d e' :
  resolving p h n e1 e → tasks e = [] → delivered p (ev_dns a d) e e' → connecting p a n e e'.
Proof.
  intros Hr Ht Hd. destruct (delivery_dns p a d e (rs_online _ _ _ _ _ Hr)) as (o & Ho & Hdl).
  destruct (delivered_handler (WI := dns_wiring) p (ev_dns a d) o _ _ _ (rs_online _ _ _ _ _ Hr) eq_refl Ho Hdl Hd)
    as (e2 & Hh & Hc).
  pose proof (answered_handler p h n e1 e a d e2 Hr Ht Hh) as Hw. unfold wp in Hw. by rewrite Hc in Hw.
Qed.

Lemma can_answer p h n e1 e a d :
  resolving p h n e1 e → tasks e = [] → ∃ e', delivered p (ev_dns a d) e e'.
Proof.
  intros Hr Ht. destruct (delivery_dns p a d e (rs_online _ _ _ _ _ Hr)) as (o & Ho & Hdl).
  eapply (deliver (WI := dns_wiring) p (ev_dns a d) o); [exact (rs_online _ _ _ _ _ Hr) | done | done | done |].
  intros e2 Hh. pose proof (answered_handler p h n e1 e a d e2 Hr Ht Hh) as Hw. unfold wp in Hw.
  destruct (on_callback _ e2) as [[[] e']|]; [eauto | done].
Qed.

Lemma can_connect p e : awaiting p e → ∃ e', delivered p ev_connect e e'.
Proof.
  intros Ha. pose proof Ha as (H1 & _ & _ & _ & (c & Hdn & _)%fmap_Some & _).
  destruct (delivery_connect p e Ha) as (o & Ho & Hdl).
  apply (deliver p ev_connect o _ _ H1 eq_refl Ho Hdl). intros e2 [Hon2 (w2 & -> & Hst)]. rewrite call_connect.
  pose proof (onConnect_result p c _ Hon2 Hdn) as Hw. unfold wp in Hw.
  destruct (onConnect p _) as [[[] e']|]; [eauto | done].
Qed.

(** The client terminates when it asked to. *)
Lemma terminates p f t l s q :
  talking p f t → tasks (prog t) = Terminate s q :: l →
  wp (run_task (Terminate s q)) (λ _ e', passed_since (prog t) e') (set_tasks l (prog t)).
Proof.
  intros Ht Hl. rewrite (talking_tasks p f t Ht) in Hl. case_decide; [|done]. injection Hl as <- <- <-.
  apply (terminate_passes p (set_tasks [] (prog t))). destruct (tk_online p f t Ht) as [[] _]. by split.
Qed.

(** Every step keeps the session on its course. *)
Lemma course_step p h n e0 k s s' :
  u16 n = n → on_course p h n e0 k s → session_step p s s' → on_course p h n e0 (S k) s'.
Proof.
  intros Hn Hs Hst. destruct Hst as [e m e' Ht Hr|a d e e' Hd|e e' Hd|t t' Hst|t b q l e' Hl Hr].
  - pose proof Hs as (-> & _ & _ & _ & Ht' & _). rewrite Ht in Ht'. injection Ht' as ->.
    pose proof (starts p h n e0 e Hn Hs) as Hw. unfold wp in Hw. by rewrite Hr in Hw.
  - destruct Hs as (-> & Hc & Ht & e1 & Hr). pose proof (answered p h n e1 e a d e' Hr Ht Hd) as Hcn.
    split; [done|]. split; [etrans; [exact Hc | exact (cn_counts _ _ _ _ _ Hcn)] | by eexists _, _].
  - destruct Hs as (-> & [Hf Hv] & a & e1 & Hcn). pose proof (cn_awaiting _ _ _ _ _ Hcn) as Ha.
    split; [lia|]. split; [rewrite <- Hf; by apply talking_start|].
    etrans; [exact Hv | by eapply delivered_unreported].
  - destruct Hs as (Hk & Ht & Hv). pose proof (step_moves p _ t t' Ht Hst). split; [lia|].
    split; [by eapply talking_step | etrans; [exact Hv | by eapply talk_unreported]].
  - destruct Hs as (Hk & Ht & Hv). pose proof (moved_bound p _ t Ht). split; [lia|].
    pose proof (terminates p _ t l b q Ht Hl) as Hw. unfold wp in Hw. rewrite Hr in Hw.
    destruct Hw as (H1 & H2 & H3). split; [done|]. rewrite H2, H3. split; [exact (tk_failures _ _ _ Ht) | by rewrite Hv].
Qed.

(** And it can go on until the test has ended. *)
Lemma course_goes_on p h n e0 k s :
  u16 n = n → on_course p h n e0 k s →
  match s with Ended _ => True | _ => ∃ s', session_step p s s' end.
Proof.
  intros Hn Hs. destruct s as [e|e|e|t|e]; [| | | |done].
  - pose proof Hs as (-> & _ & _ & _ & Ht & _). pose proof (starts p h n e0 e Hn Hs) as Hw. unfold wp in Hw.
    destruct (run_task _ _) as [[[] e']|] eqn:E; [|done]. eexists. by eapply session_start.
  - destruct Hs as (-> & _ & Ht & e1 & Hr). destruct (can_answer p h n e1 e (mk_socket_addr []) None Hr Ht) as [e' He'].
    eexists. by eapply session_dns.
  - destruct Hs as (-> & _ & a & e1 & [Ha _ _]). destruct (can_connect p e Ha) as [e' He']. eexists. by apply session_connect.
  - destruct Hs as (_ & Ht & _). destruct (talk_goes_on p _ t Ht) as [Hse|[t' Hst]]; [|eexists; by apply session_talk].
    assert (tasks (prog t) = [Terminate true p]) as Hl.
    { rewrite (talking_tasks _ _ _ Ht). by rewrite decide_True by (by eapply settled_done). }
    pose proof (terminates p _ t [] true p Ht Hl) as Hw. unfold wp in Hw.
    destruct (run_task _ _) as [[[] e']|] eqn:E; [|done]. eexists. by eapply session_end.
Qed.

Lemma course_run p h n e0 j k s s' :
  u16 n = n → on_course p h n e0 j s → nsteps (session_step p) k s s' → on_course p h n e0 (j + k) s'.
Proof.
  intros Hn Hs Hr. revert j Hs. induction Hr as [s|k s1 s2 s3 H1 _ IH]; intros j Hs.
  - by rewrite Nat.add_0_r.
  - rewrite Nat.add_succ_r, <- Nat.add_succ_l. apply IH. by eapply course_step.
Qed.

Lemma course_bound p h n e0 k s : on_course p h n e0 k s → k ≤ 100.
Proof.
  destruct s as [e|e|e|t|e]; intros (Hk & Hs); [lia..| |done].
  destruct Hs as [Ht _]. pose proof (moved_bound _ _ _ Ht). lia.
Qed.

(** ** The test *)

(** The test starts: no sockets, no tasks, nothing under way; the host test is new and has
    sent nothing. *)
Definition bench_start (b : bench TCPEchoClient) : Prop :=
  test_start (program b) ∧ tasks (program b) = [] ∧ idle (stack (ew (program b))) ∧
  host (line b) = host_init ∧ inbox (line b) = [].

(** The test function leaves a session on its course. *)
Lemma test_starts_course raw rawc b0 :
  bench_start b0 →
  match test_echo_tcp_client raw rawc b0 with
  | Done (r, b1) =>
    r = Some 15000%Z ∧ ∃ ip n, server (host (line b1)) = Some (ip, n) ∧ u16 n = n ∧
      on_course (client (program b1)) (Some (c_str (to_chars ip))) n (program b0) 0 (Starting (program b1))
  | Fault f => f = OutOfMemory
  end.
Proof.
  intros (Ht & Htk & HQ & Hh & Hi). pose proof Ht as (H1 & H2 & Hb).
  destruct (test_reaches_start idle (λ st n, start_client st n raw rawc) 15000 b0 HQ Hh Hi)
    as (S' & ip & n & l & HQ' & Hsv & Hn & Hip & E); [unfold BUFFER_SIZE in Hb; lia|].
  unfold test_echo_tcp_client. rewrite E. set (e := set_buffer _ _).
  assert (test_start e) as Hte.
  { split; [done|]. split; [done|]. simpl. rewrite in_zeros_length by (unfold BUFFER_SIZE in Hb; lia). done. }
  pose proof (start_client_runs SOCKET_STACK_LWIP_IPV4 n raw rawc e Hte HQ' (stack_registered _)) as Hs.
  unfold on_program, mbind, M_bind. simpl.
  destruct (start_client _ _ _ _ _) as [[[] e1]|f]; [|done]. simpl. split; [done|]. exists ip, n.
  assert (u16 n = n) as Hu by by apply wrap_small. destruct Hs as [S1 S2 S3 S4 S5].
  split; [done|]. split; [done|]. split; [done|]. split; [done|]. split; [done|]. split; [done|].
  rewrite S3, S4, Hu. simpl. rewrite Htk. split; [done|]. by rewrite in_zeros_c_str.
Qed.


(** C3: the TCP echo client reaches its host.  The text it asks the stack to resolve is the
    address that the host test's server is bound to, as the host sent it over the console;
    and whatever address the stack answers with, that address is what the client asks the
    stack to connect to, at the port of the server. *)
Theorem tcp_test_dials_host raw rawc b0 r b1 k e :
  bench_start b0 → test_echo_tcp_client raw rawc b0 = Done (r, b1) →
  nsteps (session_step (client (program b1))) k (Starting (program b1)) (Resolving e) →
  ∃ ip n, server (host (line b1)) = Some (ip, n) ∧
    asked (stack (ew e)) = Some (c_str (to_chars ip)) ∧
    ∀ a d e', delivered (client (program b1)) (ev_dns a d) e e' → dialled (stack (ew e')) = Some (a, n).
Proof.
  intros Hb Ht Hs. pose proof (test_starts_course raw rawc b0 Hb) as H. rewrite Ht in H.
  destruct H as (_ & ip & n & Hsv & Hn & Hc). exists ip, n. split; [done|].
  destruct (course_run _ _ _ _ _ _ _ _ Hn Hc Hs) as (_ & _ & Htk & e1 & Hr).
  split; [exact (rs_asked _ _ _ _ _ Hr)|]. intros a d e' Hd.
  exact (cn_dialled _ _ _ _ _ (answered _ _ _ _ _ _ _ _ Hr Htk Hd)).
Qed.
End TCPSession.

(** ** The theorems at a concrete test *)

#[local] Existing Instances stream_sal stream_sal_ok stream_queues stream_recv_law stream_laws.
#[local] Existing Instances stream_resolver stream_dial demo_os demo_os_laws direct_line direct_link.
#[local] Existing Instances direct_link_laws demo_string_len demo_size.

#[local] Instance stream_opening : OpeningLaws stream_sal idle.
Proof. by apply plain_opening. Qed.
#[local] Instance stream_connecting : ConnectLaw stream_sal idle.
Proof. by apply plain_connect. Qed.

(** Drivers that succeed at once. *)
#[local] Instance stream_board : Board stream_sal := {|
  SOCKET_STACK_LWIP_IPV4 := 1;
  lwipv4_socket_init S := (SOCKET_ERROR_NONE, S);
  eth_init S := (0%Z, S);
  eth_connect S := (0%Z, S);
  getIPAddress _ := text "10.0.0.2"
|}.
#[local] Instance stream_board_laws : BoardLaws stream_sal idle.
Proof. by split; simpl; try by eexists. Qed.

Definition bench0 : bench TCPEchoClient := mk_bench talk0 (host_init, []) 0.
Definition bench1 : bench TCPEchoClient := after (test_echo_tcp_client raw_object demo_rawc) bench0.
Definition bench2 : echo TCPEchoClient :=
  after (run_task (StartTest demo_first 50007)) (set_tasks [] (program bench1)).

Lemma bench_starts : bench_start bench0.
Proof. by repeat split. Qed.

Lemma bench_runs : test_echo_tcp_client raw_object demo_rawc bench0 = Done (Some 15000%Z, bench1).
Proof. run_after (test_echo_tcp_client raw_object demo_rawc) bench0. Qed.


Lemma tcp_test_dials_host_witness :
  asked (stack (ew bench2)) = Some (c_str (to_chars (text "10.0.0.1"))).
Proof.
  assert (nsteps (session_step demo_first) 1 (Starting (program bench1)) (Resolving bench2)) as Hs.
  { eapply nsteps_l; [|apply nsteps_O]. apply (session_start demo_first (program bench1) 50007 bench2); [run_refl|].
    run_after (run_task (StartTest demo_first 50007)) (set_tasks [] (program bench1)). }
  destruct (tcp_test_dials_host raw_object demo_rawc bench0 _ bench1 1 bench2 bench_starts bench_runs Hs)
    as (ip & n & Hsv & Ha & _).
  assert (server (host (line bench1)) = Some (text "10.0.0.1", 50007%Z)) as E by run_refl.
  rewrite E in Hsv. injection Hsv as <- <-. exact Ha.
Defined.
