(* ===== verification/EchoUDP.v ===== *)
(** * The UDP echo client

    [src/test/echo-udp-client/main.cpp].  The client resolves the address of the host,
    sends it random characters, compares each echo, and terminates after a hundred
    rounds.  The [UDPSocket] member [_usock] is the first member of the client.  The
    client has a member [buffer] of its own, which hides the global one in its methods.
    What [printf] prints is not modelled. *)
From S2P Require Import Prelude Types Interfaces SocketAddr World Socket UDPSocket TCPAsynch.
From S2P Require Import TCPStream TCPListener Dispatch Shape System Lifetimes Events Safety Harness.
From S2P Require Import KeyExchange.
From stdpp Require Import base gmap list strings.
From Stdlib Require Import ZArith Lia Ascii.

Definition BUFFER_SIZE : Z := 64.
Definition MAX_ECHO_LOOPS : Z := 100.

(** [sizeof(BUFFER_SIZE)]: the size of an [int], not of a buffer. *)
Definition sizeof_BUFFER_SIZE : Z := 4.

(** ['~' - ' '] *)
Definition ASCII_MAX : Z := 126 - 32.

(** The members of a [UDPEchoClient] other than [_usock] (and [done], which is never
    used); [rand_state] is the state of the C library's generator. *)
Record UDPEchoClient := mk_client {
  _resolvedAddr : SocketAddr;
  _port : Z;
  out_buffer : list Z;
  in_buffer : list Z;         (* the member buffer *)
  loop_ctr : Z;
  rand_state : Z
}.

Definition set_resolved (a : SocketAddr) (c : UDPEchoClient) : UDPEchoClient :=
  mk_client a (_port c) (out_buffer c) (in_buffer c) (loop_ctr c) (rand_state c).
Definition set_port (n : Z) (c : UDPEchoClient) : UDPEchoClient :=
  mk_client (_resolvedAddr c) n (out_buffer c) (in_buffer c) (loop_ctr c) (rand_state c).
Definition set_out (b : list Z) (c : UDPEchoClient) : UDPEchoClient :=
  mk_client (_resolvedAddr c) (_port c) b (in_buffer c) (loop_ctr c) (rand_state c).
Definition set_in (b : list Z) (c : UDPEchoClient) : UDPEchoClient :=
  mk_client (_resolvedAddr c) (_port c) (out_buffer c) b (loop_ctr c) (rand_state c).
Definition set_loop (n : Z) (c : UDPEchoClient) : UDPEchoClient :=
  mk_client (_resolvedAddr c) (_port c) (out_buffer c) (in_buffer c) n (rand_state c).
Definition set_rand (r : Z) (c : UDPEchoClient) : UDPEchoClient :=
  mk_client (_resolvedAddr c) (_port c) (out_buffer c) (in_buffer c) (loop_ctr c) r.

(** [rand()] of the C library: a value and the next state. *)
Class Rand := rand : Z → Z * Z.

(** [char_rand] *)
Definition char_rand {RA : Rand} (r : Z) : Z * Z :=
  let '(v, r') := rand r in (Z.rem v ASCII_MAX + 32, r')%Z.

(** [std::generate] over [n] characters *)
Fixpoint generate {RA : Rand} (n : nat) (r : Z) : list Z * Z :=
  match n with
  | O => ([], r)
  | S n => let '(c, r1) := char_rand r in
           let '(l, r2) := generate n r1 in (c :: l, r2)
  end.

(** [memcmp(a, b, n) == 0] *)
Definition memcmp0 (a b : list Z) (n : Z) : bool :=
  bool_decide (take (Z.to_nat n) a = take (Z.to_nat n) b).

(** [strlen] of an array, if there is a terminator in it *)
Fixpoint strlen (b : list Z) : option Z :=
  match b with
  | [] => None
  | c :: b => if decide (c = 0%Z) then Some 0%Z else (λ n, n + 1)%Z <$> strlen b
  end.

Section EchoUDP.
Context {SA : SAL} {MN : Minar} {RT : Runtime} {IN : Inet} {HA : Harness} {RA : Rand}.
Abbreviation E A := (M (echo UDPEchoClient) A).

Definition M_onError : Z := 0.
Definition M_onDNS : Z := 1.
Definition M_onRx : Z := 3.

(** [new UDPEchoClient(stack)]; [raw] and [rawc] are what the storage contained. *)
Definition new_UDPEchoClient (stack_id : Z) (raw : object) (rawc : UDPEchoClient) : E ptr :=
  this ← lib (new_storage raw);
  modify (λ e, set_clients (<[this := rawc]> (clients e)) e);;
  lib (UDPSocket_ctor this stack_id);;
  lib (setOnError this (bound M_onError this));;
  mret this.

(** [delete client] *)
Definition delete_UDPEchoClient (this : ptr) : E unit :=
  get_client this;;
  b ← lib (isConnected this);
  (if b : bool then lib (close this);; mret tt else mret tt);;
  lib (UDPSocket_dtor this);;
  lib (release this);;
  modify (λ e, set_clients (delete this (clients e)) e).

(** [UDPEchoClient::start_test] *)
Definition start_test (this : ptr) (host_addr : cstring) (port : Z) : E unit :=
  upd_client this (λ c, set_port (u16 port) (set_loop 0 c));;
  err ← lib (UDPSocket_open this SOCKET_AF_INET4);
  TEST_ASSERT (bool_decide (err = SOCKET_ERROR_NONE))
  (err ← lib (resolve this host_addr (bound M_onDNS this));
   TEST_ASSERT (bool_decide (err = SOCKET_ERROR_NONE)) (mret tt)).

(** [UDPEchoClient::onError] *)
Definition onError (this : ptr) (err : socket_error_t) : E unit :=
  TEST_ASSERT (bool_decide (err ≠ SOCKET_ERROR_NONE)) (post_task (Terminate false this)).

(** [UDPEchoClient::send_test] *)
Definition send_test (this : ptr) : E unit :=
  upd_client this (λ c, let '(l, r) := generate (Z.to_nat BUFFER_SIZE) (rand_state c) in
                        set_rand r (set_out l c));;
  c ← get_client this;
  err ← lib (send_to this (Some (out_buffer c)) sizeof_BUFFER_SIZE (Some (_resolvedAddr c)) (_port c));
  TEST_ASSERT (bool_decide (err = SOCKET_ERROR_NONE)) (mret tt).

(** [UDPEchoClient::onDNS] *)
Definition onDNS (this : ptr) (sa : socket_addr) : E unit :=
  upd_client this (λ c, set_resolved (setAddr (_resolvedAddr c) sa) c);;
  upd_client this (λ c, set_out (from_option to_bytes (out_buffer c)
    (fmtIPv6 (_resolvedAddr c) (Some (to_chars (out_buffer c))) BUFFER_SIZE).2) c);;
  err ← lib (UDPSocket_open this SOCKET_AF_INET4);
  TEST_ASSERT (bool_decide (err = SOCKET_ERROR_NONE))
  (lib (setOnReadable this (bound M_onRx this));;
   send_test this).

(** The second [if] of [onRx] *)
Definition finish (this : ptr) : E unit :=
  c ← get_client this;
  if decide (MAX_ECHO_LOOPS ≤ loop_ctr c)%Z then
    match strlen (in_buffer c) with
    | Some n =>
      lib (send_to this (Some (in_buffer c)) n (Some (_resolvedAddr c)) (_port c));;
      post_task (Terminate true this)
    | None => raise OutOfBounds
    end
  else mret tt.

(** The end of [onRx], once an echo was found to be right *)
Definition next_round (this : ptr) : E unit :=
  upd_client this (λ c, set_loop (u32 (loop_ctr c + 1)) c);;
  c ← get_client this;
  (if decide (loop_ctr c < MAX_ECHO_LOOPS)%Z then send_test this else mret tt);;
  finish this.

(** [UDPEchoClient::onRx]; [unsigned int n] is compared with the [int] [BUFFER_SIZE] as
    unsigned *)
Definition onRx (this : ptr) : E unit :=
  c ← get_client this;
  r ← lib (recv this (Some (in_buffer c)) (Some BUFFER_SIZE));
  let n := default BUFFER_SIZE r.2 in
  upd_client this (set_in (default (in_buffer c) r.1.2));;
  TEST_ASSERT (bool_decide (r.1.1 = SOCKET_ERROR_NONE))
  (c ← get_client this;
   TEST_ASSERT (memcmp0 (in_buffer c) (out_buffer c) (Z.min BUFFER_SIZE n))
     (next_round this)).

(** [terminate], with the global [client]; [eth.disconnect()] is another package's *)
Definition terminate (status : bool) : E unit :=
  p ← gets client;
  if decide (p = NULL) then mret tt
  else
    delete_UDPEchoClient p;;
    modify (set_client NULL);;
    TEST_ASSERT status (modify add_validation).

(** The end of [test_echo_udp_client] *)
Definition start_client (stack_id port : Z) (raw : object) (rawc : UDPEchoClient) : E unit :=
  this ← new_UDPEchoClient stack_id raw rawc;
  modify (set_client this);;
  post_task (StartTest this (u16 port)).

Definition call_handler (c : callback) : E unit :=
  match cb_fun c with
  | None => raise NullCall
  | Some f =>
    let this := bound_this f in
    match c with
    | CbError _ _ err => onError this err
    | CbDNS _ _ addr _ => onDNS this addr
    | CbReadable _ _ => onRx this
    | _ => raise NullCall                    (* the client binds no such handler *)
    end
  end.

#[export] Instance udp_client : Client UDPEchoClient := {|
  on_callback := call_handler;
  run_task t := match t with
                | StartTest this port =>
                  b ← gets buffer; start_test this (Some (c_str (to_chars b))) port
                | Terminate status _ => terminate status
                end
|}.

(** [test_echo_udp_client] *)
Definition test_echo_udp_client {GT : Greentea} {BO : Board SA} (raw : object) (rawc : UDPEchoClient)
    : M (bench UDPEchoClient) (option Z) :=
  test_echo_client (λ stack_id port, start_client stack_id port raw rawc) 25000.

(** [cases] and [greentea_setup] *)
Definition udp_suite {GT : Greentea} {BO : Board SA} (raw : object) (rawc : UDPEchoClient) : suite UDPEchoClient :=
  mk_suite 30 "udpecho_client_auto" "Test Echo UDP Client" (test_echo_udp_client raw rawc).
End EchoUDP.
