(* ===== verification/EchoUDPSpec.v ===== *)
(** * The UDP echo client: a hundred rounds *)
From S2P Require Import Prelude Types Interfaces SocketAddr DemoInet World Demo Socket UDPSocket.
From S2P Require Import TCPAsynch TCPStream TCPListener Dispatch Shape System DemoRuns Lifetimes.
From S2P Require Import Events Safety Harness Alive Owned DemoEcho EchoUDP.
From stdpp Require Import base gmap list strings.
From Stdlib Require Import ZArith Lia Ascii.

(** The arrays have their sizes, and the counter is a 32-bit value. *)
Definition udp_members (c : UDPEchoClient) : Prop :=
  Z.of_nat (length (out_buffer c)) = BUFFER_SIZE ∧ Z.of_nat (length (in_buffer c)) = BUFFER_SIZE ∧
  (0 ≤ loop_ctr c < 2 ^ 32)%Z.

#[export] Instance udp_embedding : Embedding UDPEchoClient := {|
  socket_class := CUDPSocket;
  member_ok := udp_members;
  global_size := BUFFER_SIZE
|}.

Lemma generate_length {RA : Rand} n r : length (generate n r).1 = n.
Proof.
  revert r. induction n as [|n IH]; intros r; [done|]. simpl. destruct (char_rand r) as [c r1].
  specialize (IH r1). destruct (generate n r1). simpl in *. by rewrite IH.
Qed.

Section EchoUDPSpec.
Context {SA : SAL} {MN : Minar} {RT : Runtime} {IN : Inet} {HA : Harness} {RA : Rand}.
Context `{ML : !MinarLaws MN} `{RL : !RuntimeLaws RT} `{SO : !SALOk SA}.
Context `{RE : !RecvLaw SA}.
Abbreviation E A := (M (echo UDPEchoClient) A).

(** The round the client at [p] is in. *)
Definition loops (p : ptr) (e : echo UDPEchoClient) : option Z := loop_ctr <$> clients e !! p.

(** Nothing was posted, no failed assertion forgotten, and the round is the same. *)
Definition same (p : ptr) (e e' : echo UDPEchoClient) : Prop :=
  tasks e' = tasks e ∧ failures e ≤ failures e' ∧ loops p e' = loops p e.

Definition calm {A} (p : ptr) (m : E A) : Prop :=
  ∀ e, alive p e → wp m (λ _ e', alive p e' ∧ same p e e') e.

Lemma same_trans p e1 e2 e3 : same p e1 e2 → same p e2 e3 → same p e1 e3.
Proof. intros (H1 & H2 & H3) (H4 & H5 & H6). split; [congruence|]. split; [lia | congruence]. Qed.

Lemma calm_ret {A} p (a : A) : calm p (mret a).
Proof. intros e He. by split. Qed.

Lemma calm_bind {A B} p (m : E A) (k : A → E B) :
  calm p m → (∀ a, calm p (k a)) → calm p (m ≫= k).
Proof.
  intros Hm Hk e He. apply wp_bind. eapply wp_mono; [by apply Hm|]. intros a e1 [H1 S1].
  eapply wp_mono; [by apply Hk|]. intros b e2 [H2 S2]. split; [done|]. by eapply same_trans.
Qed.

Lemma calm_client {A} p (k : UDPEchoClient → E A) :
  (∀ c, udp_members c → calm p (k c)) → calm p (get_client p ≫= k).
Proof.
  intros Hk e He. destruct (alive_lookup p e He) as (c & Hc & Hok). apply wp_bind.
  unfold wp at 1, get_client. rewrite Hc. by apply Hk.
Qed.

Lemma calm_upd_client p f :
  (∀ c, udp_members c → udp_members (f c)) → (∀ c, loop_ctr (f c) = loop_ctr c) →
  calm p (upd_client p f).
Proof.
  intros Hf Hl e He. destruct (alive_lookup p e He) as (c & Hc & Hok).
  unfold wp, upd_client, get_client, mbind, M_bind. rewrite Hc. simpl.
  split; [apply alive_clients; [done | by apply Hf, Hok]|]. split; [done|]. split; [done|].
  unfold loops. simpl. by rewrite lookup_insert_eq, Hc; simpl; rewrite Hl.
Qed.

Lemma calm_fail p : calm p (modify add_failure).
Proof. intros e [H1 H2 H3 H4 H5 H6]. split; [by split|]. split; [done|]. split; [simpl; lia | done]. Qed.

Lemma calm_TEST_ASSERT p b m : calm p m → calm p (TEST_ASSERT b m).
Proof.
  intros Hm. unfold TEST_ASSERT. destruct b; [done|]. apply calm_bind; [apply calm_fail | intros _].
  destruct assert_continues; [done | apply calm_ret].
Qed.

Lemma calm_lib {A} p c ks (f : A → ret) (m : M world A) :
  receiver c = Some (p, ks) → CUDPSocket ∈ ks → (∀ w : world, allowed c w = true) →
  allocates c = false → exec c = returning f m → moves quiet m → calm p (lib m).
Proof.
  intros Hr Hk Ha Hn Hx Hq e He. eapply lib_alive; [done..|]. intros a w' _ H. by split.
Qed.

Ltac calm_call c :=
  eapply (calm_lib _ c); [reflexivity | set_solver | done | done | reflexivity |];
  eauto with moves typeclass_instances.

Lemma calm_send_to p b n a q : calm p (lib (send_to p b n a q)).
Proof. calm_call (SendTo p b n a q). Qed.

Lemma calm_send_test p : calm p (send_test p).
Proof.
  apply calm_bind.
  - apply calm_upd_client; intros c.
    + intros (H1 & H2 & H3). pose proof (generate_length (Z.to_nat BUFFER_SIZE) (rand_state c)) as Hg.
      destruct (generate _ _) as [l r]. split; [|done]. simpl in *. rewrite Hg. done.
    + by destruct (generate _ _).
  - intros _. apply calm_client. intros c _. apply calm_bind; [apply calm_send_to|].
    intros err. apply calm_TEST_ASSERT, calm_ret.
Qed.

(** ** One round *)

(** [m] completes with [Q], or, where [F] allows it, reads past the end of an array. *)
Definition wpf {A} (F : Prop) (m : E A) (Q : A → echo UDPEchoClient → Prop)
    (e : echo UDPEchoClient) : Prop :=
  match m e with
  | Done (a, e') => Q a e'
  | Fault f => f = OutOfBounds ∧ F
  end.

Lemma wp_wpf {A} F (m : E A) Q e : wp m Q e → wpf F m Q e.
Proof. unfold wp, wpf. by destruct (m e) as [[]|]. Qed.

Lemma wpf_bind {A B} F (m : E A) (k : A → E B) Q e :
  wp m (λ a e', wpf F (k a) Q e') e → wpf F (m ≫= k) Q e.
Proof. unfold wp, wpf, mbind, M_bind. by destruct (m e) as [[]|]. Qed.

Lemma wpf_mono {A} F (m : E A) (P Q : A → echo UDPEchoClient → Prop) e :
  wpf F m P e → (∀ a e', P a e' → Q a e') → wpf F m Q e.
Proof. unfold wpf. destruct (m e) as [[]|]; eauto. Qed.

(** What the [n+1]st round does to the client, unless an assertion fails in it: it counts,
    and the hundredth and later ones post the termination. *)
Definition counted (p : ptr) (n : Z) (e e' : echo UDPEchoClient) : Prop :=
  alive p e' ∧ failures e ≤ failures e' ∧
  (failures e' = failures e →
   loops p e' = Some (u32 (n + 1)) ∧
   tasks e' = tasks e ++ if decide (MAX_ECHO_LOOPS ≤ u32 (n + 1))%Z then [Terminate true p] else []).

(** [m] is (the rest of) a round. *)
Definition a_round (p : ptr) (n : Z) (m : E unit) : Prop :=
  ∀ e, alive p e → loops p e = Some n →
       wpf (MAX_ECHO_LOOPS ≤ u32 (n + 1))%Z m (λ _ e', counted p n e e') e.

Lemma counted_same p n e e1 e' : same p e e1 → counted p n e1 e' → counted p n e e'.
Proof.
  intros (Ht & Hf & _) (H1 & H2 & H3). split; [done|]. split; [lia|]. intros Hff.
  rewrite <- Ht. apply H3. lia.
Qed.

Lemma round_bind {A} p n (m : E A) k :
  calm p m → (∀ a, a_round p n (k a)) → a_round p n (m ≫= k).
Proof.
  intros Hm Hk e He Hn. apply wpf_bind. eapply wp_mono; [by apply Hm|]. intros a e1 [H1 Hs].
  eapply wpf_mono; [apply Hk; [done | by rewrite (proj2 (proj2 Hs))]|].
  intros u e2. by apply counted_same.
Qed.

Lemma round_client p n k :
  (∀ c, udp_members c → loop_ctr c = n → a_round p n (k c)) → a_round p n (get_client p ≫= k).
Proof.
  intros Hk e He Hn. destruct (alive_lookup p e He) as (c & Hc & Hok). apply wpf_bind.
  unfold wp, get_client. rewrite Hc. apply Hk; [done | | done | done].
  unfold loops in Hn. rewrite Hc in Hn. by injection Hn.
Qed.

(** A failed assertion is counted, so nothing more is promised of the round. *)
Lemma round_TEST_ASSERT p n b m : a_round p n m → a_round p n (TEST_ASSERT b m).
Proof.
  intros Hm. unfold TEST_ASSERT. destruct b; [done|]. intros e He Hn. apply wpf_bind.
  unfold wp, modify. pose proof (calm_fail p e He) as [Ha _].
  assert (∀ e', alive p e' → S (failures e) ≤ failures e' → counted p n e e') as Hv.
  { intros e' Ha' Hf. split; [done|]. split; lia. }
  destruct assert_continues.
  - eapply wpf_mono; [by apply Hm|]. intros u e' (H1 & H2 & _). by apply Hv.
  - by apply wp_wpf, Hv.
Qed.

Lemma round_recv p n b k :
  Z.of_nat (length b) = BUFFER_SIZE →
  (∀ err b' l, Z.of_nat (length b') = BUFFER_SIZE → a_round p n (k (err, Some b', Some l))) →
  a_round p n (lib (recv p (Some b) (Some BUFFER_SIZE)) ≫= k).
Proof.
  intros Hb Hk e He Hn. apply wpf_bind.
  eapply (lib_alive p e (Recv p (Some b) (Some BUFFER_SIZE)));
    [done | reflexivity | set_solver | done | done | reflexivity
    | eauto with moves typeclass_instances |].
  intros r w' Hr Ha. apply recv_result in Hr as (err & b' & l & -> & Hb' & _); [|done].
  eapply wpf_mono; [apply Hk; [by rewrite Hb' | exact Ha | exact Hn]|].
  intros u e'. by apply counted_same.
Qed.

(** What a round ends with, when the counter is already [n]. *)
Definition ends (p : ptr) (n : Z) (e e' : echo UDPEchoClient) : Prop :=
  alive p e' ∧ failures e ≤ failures e' ∧ loops p e' = Some n ∧
  tasks e' = tasks e ++ if decide (MAX_ECHO_LOOPS ≤ n)%Z then [Terminate true p] else [].

Lemma finish_round p n e :
  alive p e → loops p e = Some n →
  wpf (MAX_ECHO_LOOPS ≤ n)%Z (finish p) (λ _ e', ends p n e e') e.
Proof.
  intros He Hn. destruct (alive_lookup p e He) as (c & Hc & _). apply wpf_bind.
  unfold wp, get_client. rewrite Hc. unfold loops in Hn. rewrite Hc in Hn. injection Hn as Hn.
  rewrite Hn. unfold ends. destruct (decide (MAX_ECHO_LOOPS ≤ n)%Z) as [Hm|Hm].
  - destruct (strlen (in_buffer c)) as [l|]; [|by split].
    apply wpf_bind. eapply wp_mono; [by apply calm_send_to|]. intros r e1 [H1 (T1 & F1 & L1)].
    unfold wpf, post_task, modify. simpl. rewrite T1. unfold loops in *. simpl. rewrite L1, Hc. simpl.
    split; [|by rewrite Hn]. destruct H1 as [A1 A2 A3 A4 A5 A6]. by split.
  - unfold wpf, mret, M_ret. split; [done|]. split; [done|]. unfold loops. rewrite Hc, app_nil_r. simpl.
    by rewrite Hn.
Qed.

Lemma round_next p n : a_round p n (next_round p).
Proof.
  intros e He Hn. destruct (alive_lookup p e He) as (c & Hc & Hok). apply wpf_bind.
  unfold wp, upd_client, get_client, mbind, M_bind. rewrite Hc. simpl.
  set (c1 := set_loop (u32 (loop_ctr c + 1)) c).
  assert (loop_ctr c = n) as Hcn by (unfold loops in Hn; rewrite Hc in Hn; by injection Hn).
  assert (loop_ctr c1 = u32 (n + 1)) as Hc1 by (simpl; by rewrite Hcn).
  set (e1 := set_clients (<[p := c1]> (clients e)) e).
  assert (alive p e1) as He1.
  { apply alive_clients; [done|]. destruct Hok as (M1 & M2 & M3). split; [done|]. split; [done|].
    rewrite Hc1. by apply wrap_range. }
  assert (clients e1 !! p = Some c1) as Hc1' by apply lookup_insert_eq.
  assert (loops p e1 = Some (u32 (n + 1))) as Hl1 by (unfold loops; rewrite Hc1'; simpl; by f_equal).
  change (wpf (MAX_ECHO_LOOPS ≤ u32 (n + 1))%Z
    (c ← get_client p;
     (if decide (loop_ctr c < MAX_ECHO_LOOPS)%Z then send_test p else mret tt);;
     finish p) (λ _ e', counted p n e e') e1).
  apply wpf_bind. unfold wp at 1, get_client at 1. rewrite Hc1'. apply wpf_bind.
  eapply wp_mono; [assert (calm p (if decide (loop_ctr c1 < MAX_ECHO_LOOPS)%Z then send_test p else mret tt))
    as Hs by (case_decide; [apply calm_send_test | apply calm_ret]); by apply Hs|].
  intros u e2 [H2 (T2 & F2 & L2)]. rewrite Hl1 in L2.
  eapply wpf_mono; [by apply finish_round|].
  intros v e3 (H3 & F3 & L3 & T3). split; [done|]. change (failures e1) with (failures e) in F2.
  split; [lia|]. intros _. split; [done|]. rewrite T3, T2. done.
Qed.

Lemma round_onRx p n : a_round p n (onRx p).
Proof.
  apply round_client. intros c (M1 & M2 & _) _. apply round_recv; [done|].
  intros err b' l Hb'. simpl. apply round_bind.
  { apply calm_upd_client; [|done]. intros d (D1 & D2 & D3). by split. }
  intros _. apply round_TEST_ASSERT, round_client. intros d _ _.
  by apply round_TEST_ASSERT, round_next.
Qed.

(** ** The other handlers *)

Context `{NL : !NtopLength IN}.

Lemma calm_open p af : calm p (lib (UDPSocket_open p af)).
Proof. calm_call (UdpOpen p af). Qed.

Lemma calm_resolve p a h : calm p (lib (resolve p a h)).
Proof. calm_call (Resolve p a h). Qed.

Lemma calm_setOnReadable p h : calm p (lib (setOnReadable p h)).
Proof. calm_call (SetOnReadable p h). Qed.

Lemma calm_onDNS p a : calm p (onDNS p a).
Proof.
  unfold onDNS. apply calm_bind; [by apply calm_upd_client | intros _].
  apply calm_bind; [|intros _].
  { apply calm_upd_client; [|done]. intros c (H1 & H2 & H3). split; [|done].
    cbn [out_buffer set_out]. rewrite fmtIPv6_length; [done | lia]. }
  apply calm_bind; [apply calm_open | intros err]. apply calm_TEST_ASSERT.
  apply calm_bind; [apply calm_setOnReadable | intros _]. apply calm_send_test.
Qed.

(** [start_test] resets the counter. *)
Lemma start_test_resets p h n e :
  alive p e →
  wp (start_test p h n)
    (λ _ e', alive p e' ∧ tasks e' = tasks e ∧ failures e ≤ failures e' ∧ loops p e' = Some 0%Z) e.
Proof.
  intros He. destruct (alive_lookup p e He) as (c & Hc & (H1 & H2 & H3)). apply wp_bind.
  unfold wp at 1, upd_client, get_client, mbind, M_bind. rewrite Hc. simpl.
  set (c1 := set_port (u16 n) (set_loop 0 c)).
  assert (alive p (set_clients (<[p := c1]> (clients e)) e)) as Ha.
  { apply alive_clients; [done|]. split; [done|]. by split. }
  match goal with |- wp ?m _ _ => assert (calm p m) as Hm end.
  { apply calm_bind; [apply calm_open | intros err]. apply calm_TEST_ASSERT.
    apply calm_bind; [apply calm_resolve | intros err']. apply calm_TEST_ASSERT, calm_ret. }
  eapply wp_mono; [by apply Hm|]. intros u e' [Ha' (S1 & S2 & S3)].
  split; [done|]. split; [done|]. split; [done|]. rewrite S3. unfold loops. simpl.
  by rewrite lookup_insert_eq.
Qed.

(** ** Sessions *)

(** The scheduler hands the pending callback [c] over, and its handler completes. *)
Definition handed (c : callback) (e e' : echo UDPEchoClient) : Prop :=
  ∃ s', pending (sched (ew e)) ≡ₚ c :: pending s' ∧ periodic s' = periodic (sched (ew e)) ∧
        call_handler c (set_ew (set_sched s' (ew e)) e) = Done (tt, e').

(** A run of the program from [e1] on: the test starts; events arrive and the stack makes
    progress; the host's address is resolved; and [k] times the socket was readable. *)
Inductive session (p : ptr) (e1 : echo UDPEchoClient) : nat → echo UDPEchoClient → Prop :=
| session_start port l1 l2 e :
    tasks e1 = l1 ++ StartTest p port :: l2 →
    run_task (StartTest p port) (set_tasks (l1 ++ l2) e1) = Done (tt, e) → session p e1 0 e
| session_event k e q ev w' :
    session p e1 k e → irq_enabled (ew e) = true → is_Some (heap (ew e) !! q) →
    event_wf ev = true → interrupt q ev (ew e) = Done (tt, w') → session p e1 k (set_ew w' e)
| session_stack k e S' : session p e1 k e → session p e1 k (set_ew (set_stack S' (ew e)) e)
| session_dns k e q a d e' :
    session p e1 k e → handed (CbDNS (bound M_onDNS p) q a d) e e' → session p e1 k e'
| session_round k e q e' :
    session p e1 k e → handed (CbReadable (bound M_onRx p) q) e e' → session p e1 (S k) e'.

Lemma call_readable p q : call_handler (CbReadable (bound M_onRx p) q) = onRx p.
Proof. unfold call_handler, bound. simpl. by rewrite bound_this_bound. Qed.

Lemma call_dns p q a d : call_handler (CbDNS (bound M_onDNS p) q a d) = onDNS p a.
Proof. unfold call_handler, bound. simpl. by rewrite bound_this_bound. Qed.

(** Whatever was handed over, the client is alive when the handler starts. *)
Lemma handed_alive p c e e' :
  alive p e → handed c e e' →
  ∃ e2, alive p e2 ∧ same p e e2 ∧ call_handler c e2 = Done (tt, e').
Proof.
  intros He (s' & Hp & Ht & Hc). eexists. split; [|by split; [|exact Hc]].
  apply alive_set_ew; [done | done |]. eapply proper_dispatch; [exact (al_proper p e He) | done | done].
Qed.

(** The state after [k] rounds, as long as no assertion failed since [e1]. *)
Definition in_round (p : ptr) (e1 : echo UDPEchoClient) (k : nat) (e : echo UDPEchoClient) : Prop :=
  alive p e ∧ failures e1 ≤ failures e ∧
  (failures e = failures e1 → (Z.of_nat k < 2 ^ 32)%Z →
   loops p e = Some (Z.of_nat k) ∧ tasks e = replicate (k - 99) (Terminate true p)).

Lemma in_round_same p e1 k e e' :
  in_round p e1 k e → alive p e' → same p e e' → in_round p e1 k e'.
Proof.
  intros (H1 & H2 & H3) Ha (S1 & S2 & S3). split; [done|]. split; [lia|]. intros Hf Hk.
  rewrite S1, S3. apply H3; lia.
Qed.

Lemma in_round_next p e1 k e e' :
  in_round p e1 k e → onRx p e = Done (tt, e') → in_round p e1 (S k) e'.
Proof.
  intros (H1 & H2 & H3) Hr. destruct (alive_lookup p e H1) as (c & Hc & _).
  assert (loops p e = Some (loop_ctr c)) as Hl by (unfold loops; by rewrite Hc).
  pose proof (round_onRx p _ e H1 Hl) as Hw. unfold wpf in Hw. rewrite Hr in Hw.
  destruct Hw as (C1 & C2 & C3). split; [done|]. split; [lia|]. intros Hf Hk.
  destruct H3 as [L T]; [lia..|]. destruct C3 as [L' T']; [lia|].
  rewrite Hl in L. injection L as L. rewrite L in L', T'.
  assert (u32 (Z.of_nat k + 1) = Z.of_nat (S k)) as Hu by (unfold u32; rewrite wrap_small; lia).
  rewrite Hu in *. split; [done|]. rewrite T', T. case_decide as Hd; unfold MAX_ECHO_LOOPS in Hd.
  - replace (S k - 99) with (S (k - 99)) by lia. by rewrite replicate_S_end.
  - replace (S k - 99) with 0 by lia. replace (k - 99) with 0 by lia. done.
Qed.

Lemma session_in_round p e1 k e :
  alive p e1 → (∃ port, tasks e1 = [StartTest p port]) → session p e1 k e → in_round p e1 k e.
Proof.
  intros He1 [port Hp] Hs.
  induction Hs as [port' l1 l2 e Hl Hr|k e q ev w' Hs IH Hi Hq Hev Hr|k e S' Hs IH
                  |k e q a d e' Hs IH Hh|k e q e' Hs IH Hh].
  - rewrite Hp in Hl. destruct l1 as [|t [|]]; [|done..]. injection Hl as -> <-. simpl in Hr.
    assert (alive p (set_tasks [] e1)) as Ha by (destruct He1; by split).
    pose proof (start_test_resets p (Some (c_str (to_chars (buffer (set_tasks [] e1))))) port' _ Ha) as Hw.
    unfold wp in Hw. unfold gets, mbind, M_bind in Hr. simpl in Hr, Hw. rewrite Hr in Hw.
    destruct Hw as (W1 & W2 & W3 & W4). split; [done|]. by split.
  - eapply in_round_same; [done | | done]. destruct IH as [Ha _].
    apply alive_set_ew; [done | by eapply interrupt_shape|].
    eapply proper_interrupt; [exact (al_proper p e Ha) | done | exact Hq | done | done].
  - eapply in_round_same; [done | | done]. destruct IH as [Ha _].
    apply alive_set_ew; [done | done |]. apply proper_stack, (al_proper _ _ Ha).
  - destruct (handed_alive p _ _ _ (proj1 IH) Hh) as (e2 & Ha & Hsm & Hc).
    rewrite call_dns in Hc. pose proof (calm_onDNS p a e2 Ha) as Hw. unfold wp in Hw. rewrite Hc in Hw.
    destruct Hw as [Ha' Hsm']. eapply in_round_same; [done | done | by eapply same_trans].
  - destruct (handed_alive p _ _ _ (proj1 IH) Hh) as (e2 & Ha & Hsm & Hc).
    rewrite call_readable in Hc. eapply in_round_next; [|exact Hc]. by eapply in_round_same.
Qed.

(** The state in which the test starts: no sockets yet, nothing posted,
    [char buffer[BUFFER_SIZE]]. *)
Definition test_start (e : echo UDPEchoClient) : Prop :=
  initial (ew e) ∧ clients e = ∅ ∧ tasks e = [] ∧ Z.of_nat (length (buffer e)) = BUFFER_SIZE.

Lemma start_alive st port raw rawc e0 e1 :
  test_start e0 → udp_members rawc → start_client st port raw rawc e0 = Done (tt, e1) →
  alive (client e1) e1 ∧ tasks e1 = [StartTest (client e1) (u16 port)].
Proof.
  intros (Hi & Hc & Ht & Hb) Hraw H. apply bind_Done in H as (p & e2 & H & Hrest).
  apply bind_Done in H as (q & e3 & (w1 & Hn & ->)%lib_Done & H).
  apply bind_Done in H as (? & e4 & [= <- <-] & H).
  apply bind_Done in H as ([] & e5 & (w2 & Hu & ->)%lib_Done & H). simpl in Hu.
  assert (exec (NewUDPSocket raw st) (ew e0) = Done (RPtr q, w2)) as Hx.
  { simpl. unfold new_object. by rewrite (bind_run _ _ _ _ _ Hn), (bind_run _ _ _ _ _ Hu). }
  pose proof (new_then_retags _ _ _ _ _ _ Hn (retags_UDPSocket_ctor q st _ _ _ Hu)) as [Hs _].
  apply bind_Done in H as ([] & e8 & (w3 & He & ->)%lib_Done & [-> ->]%ret_Done). simpl in He.
  destruct (new_client_world (NewUDPSocket raw st) q (bound M_onError q) (ew e0) w2 w3)
    as [Hp3 Hs3]; [done | done | done | exact Hx | exact Hs | simpl; set_solver | exact He |].
  apply bind_Done in Hrest as (? & e9 & [= <- <-] & [= <-]). simpl. split; [|by rewrite Ht].
  split; simpl; try done.
  - rewrite Hc, dom_insert_L, dom_empty_L. set_solver.
  - rewrite Hc. by apply map_Forall_insert_2; [|apply map_Forall_empty].
Qed.

(** ** Ownership *)

Lemma udp_alive_onError p err : on_alive p (onError p err).
Proof. apply on_alive_TEST_ASSERT, on_alive_post_task. Qed.

(** A handler that completes on a live client leaves it alive. *)
Lemma handler_alive p c f e e' :
  cb_fun c = Some f → bound_this f = p → alive p e → call_handler c e = Done (tt, e') → alive p e'.
Proof.
  intros Hf Hp He H. unfold call_handler in H. rewrite Hf, Hp in H. destruct c; try done.
  - pose proof (calm_onDNS p addr e He) as Hw. unfold wp in Hw. rewrite H in Hw. by destruct Hw.
  - pose proof (udp_alive_onError p err e He) as Hw. unfold wp in Hw. by rewrite H in Hw.
  - destruct (alive_lookup p e He) as (c & Hc & _).
    pose proof (round_onRx p (loop_ctr c) e He) as Hw. unfold loops, wpf in Hw. rewrite Hc, H in Hw.
    by destruct (Hw eq_refl).
Qed.

Lemma handler_gone c f e : cb_fun c = Some f → gone (bound_this f) e → inert (call_handler c) e.
Proof.
  intros Hf Hg. unfold call_handler. rewrite Hf. destruct c; try (by eapply inert_fault).
  - eapply inert_fault. by apply upd_client_gone.
  - unfold onError, TEST_ASSERT. intros e'. case_bool_decide; [by intros [= <-]|].
    unfold modify, mbind, M_bind. by destruct assert_continues; intros [= <-].
  - destruct Hg as [Hc _]. eapply inert_fault. unfold onRx, get_client, mbind, M_bind. by rewrite Hc.
Qed.

Lemma udp_delete_finishes p e : alive p e → wp (delete_UDPEchoClient p) (λ _ e', left_nothing e') e.
Proof.
  apply (delete_leaves_nothing (UDPSocket_dtor p)); [set_solver | done |].
  intros w w1 [Hd _]%retags_UDPSocket_dtor. eauto.
Qed.

#[export] Instance udp_owner : Owner UDPEchoClient.
Proof.
  split.
  - intros p c f e e'. apply handler_alive.
  - intros c f e. apply handler_gone.
  - intros c e e' Hf. simpl. unfold call_handler. by rewrite Hf.
  - intros p n e e' He H. apply bind_Done in H as (b & e1 & [= <- <-] & H).
    pose proof (start_test_resets p (Some (c_str (to_chars (buffer e)))) n e He) as Hw. unfold wp in Hw.
    rewrite H in Hw. by destruct Hw.
  - intros p n e Hg e' H. apply bind_Done in H as (b & e1 & [= <- <-] & H).
    unfold start_test in H. by rewrite upd_client_gone in H.
  - intros p b q e e' He H.
    pose proof (terminate_finishes delete_UDPEchoClient p b e (udp_delete_finishes p e He) He) as Hw.
    unfold wp in Hw. simpl in H. unfold terminate in H. by rewrite H in Hw.
  - intros b q e e' Hn H. apply bind_Done in H as (r & e1 & [= <- <-] & H). rewrite Hn in H.
    rewrite decide_True in H by done. by apply ret_Done in H as [_ ->].
Qed.

(** C25: the UDP echo client owns its socket and nothing else: after any sequence of
    events, callbacks and tasks, in any order, either the client is alive and its socket
    is the only object of the program, or the program has terminated and no object is
    left. *)
Theorem udp_echo_owns_its_socket st port raw rawc e0 e1 e :
  test_start e0 → udp_members rawc → start_client st port raw rawc e0 = Done (tt, e1) →
  rtc echo_step e1 e →
  (client e ≠ NULL ∧ dom (clients e) = {[client e]} ∧ shape (ew e) = {[client e := CUDPSocket]}) ∨
  (client e = NULL ∧ clients e = ∅ ∧ heap (ew e) = ∅ ∧ ticks (ew e) = (0%Z, NULL, ∅)).
Proof.
  intros Ht Hraw Hs Hr. destruct (start_alive _ _ _ _ _ _ Ht Hraw Hs) as [Ha _].
  destruct (owned_run e1 e (or_introl (ex_intro _ _ Ha)) Hr) as [[p He]|Hf].
  - left. rewrite (al_client p e He). split; [by eapply alive_nonnull|]. by destruct He.
  - right. destruct (finished_clean e Hf) as [H1 H2]. by destruct Hf.
Qed.

End EchoUDPSpec.

(** ** The theorem at a concrete run *)

(** A generator that counts. *)
#[export] Instance demo_rand : Rand := λ r, (r, r + 1)%Z.

Definition demo_rawc : UDPEchoClient :=
  mk_client (mk_SocketAddr raw_addr) 170 (replicate 64 170%Z) (replicate 64 170%Z) 170 7.
Definition echo0 : echo UDPEchoClient := mk_echo (demo_world false) ∅ NULL (replicate 64 0%Z) [] 0 0.
Definition echo1 : echo UDPEchoClient := after (start_client 1 65325 raw_object demo_rawc) echo0.
Definition demo_start : task := StartTest demo_first 65325.
Definition echo2 : echo UDPEchoClient := after (run_task demo_start) (set_tasks [] echo1).
Definition demo_resolved : socket_event :=
  mk_socket_event SOCKET_EVENT_DNS (info_d demo_loopback None).
Definition echo3 : echo UDPEchoClient :=
  set_ew (after (interrupt demo_first demo_resolved) (ew echo2)) echo2.
Definition demo_dns : callback := CbDNS (bound M_onDNS demo_first) demo_first demo_loopback None.
Definition idle (e : echo UDPEchoClient) : echo UDPEchoClient :=
  set_ew (set_sched (demo_idle (sched (ew e))) (ew e)) e.
Definition echo4 : echo UDPEchoClient := after (call_handler demo_dns) (idle echo3).
Definition demo_arrived : socket_event := mk_socket_event SOCKET_EVENT_RX_DONE info_none.
Definition echo5 : echo UDPEchoClient :=
  set_ew (after (interrupt demo_first demo_arrived) (ew echo4)) echo4.
Definition demo_rx : callback := CbReadable (bound M_onRx demo_first) demo_first.
Definition echo6 : echo UDPEchoClient := after (call_handler demo_rx) (idle echo5).

Lemma demo_handed c e : pending (sched (ew e)) = [c] →
  call_handler c (idle e) = Done (tt, after (call_handler c) (idle e)) →
  handed c e (after (call_handler c) (idle e)).
Proof. intros Hp Hc. exists (demo_idle (sched (ew e))). by rewrite Hp. Qed.

Lemma demo_session : session demo_first echo1 1 echo6.
Proof.
  apply (session_round _ _ 0 echo5 demo_first);
    [|apply demo_handed; [run_refl | run_after (call_handler demo_rx) (idle echo5)]].
  apply (session_event _ _ 0 echo4 demo_first demo_arrived); [| run_refl | | run_refl |].
  2:{ apply (bool_decide_eq_true_1 (is_Some (heap (ew echo4) !! demo_first))). run_refl. }
  2:{ run_after (interrupt demo_first demo_arrived) (ew echo4). }
  apply (session_dns _ _ 0 echo3 demo_first demo_loopback None);
    [|apply demo_handed; [run_refl | run_after (call_handler demo_dns) (idle echo3)]].
  apply (session_event _ _ 0 echo2 demo_first demo_resolved); [| run_refl | | run_refl |].
  2:{ apply (bool_decide_eq_true_1 (is_Some (heap (ew echo2) !! demo_first))). run_refl. }
  2:{ run_after (interrupt demo_first demo_resolved) (ew echo2). }
  apply (session_start _ _ 65325 [] []); [run_refl | run_after (run_task demo_start) (set_tasks [] echo1)].
Qed.

Lemma udp_demo_started : start_client 1 65325 raw_object demo_rawc echo0 = Done (tt, echo1).
Proof. run_after (start_client 1 65325 raw_object demo_rawc) echo0. Qed.


(** A run that an error event ends. *)
Definition demo_error : socket_event := mk_socket_event SOCKET_EVENT_ERROR (info_e DEMO_FAILURE).
Definition demo_failed : callback := CbError (bound M_onError demo_first) demo_first DEMO_FAILURE.
Definition echo7 : echo UDPEchoClient :=
  set_ew (after (interrupt demo_first demo_error) (ew echo2)) echo2.
Definition echo8 : echo UDPEchoClient := after (call_handler demo_failed) (idle echo7).
Definition echo9 : echo UDPEchoClient :=
  after (run_task (Terminate false demo_first)) (set_tasks [] echo8).

Lemma udp_demo_run : rtc echo_step echo1 echo9.
Proof.
  eapply rtc_l; [apply (echo_task demo_start [] []); [run_refl|]|].
  { run_after (run_task demo_start) (set_tasks [] echo1). }
  eapply rtc_l; [apply (echo_event demo_first demo_error); [run_refl | | run_refl |]|].
  { apply (bool_decide_eq_true_1 (is_Some (heap (ew echo2) !! demo_first))). run_refl. }
  { run_after (interrupt demo_first demo_error) (ew echo2). }
  eapply rtc_l; [apply (echo_callback demo_failed (demo_idle (sched (ew echo7))) echo7 echo8)|].
  { assert (pending (sched (ew echo7)) = [demo_failed]) as Hp by run_refl. by rewrite Hp. }
  { apply demo_idle_periodic. }
  { run_after (call_handler demo_failed) (idle echo7). }
  eapply rtc_l; [apply (echo_task (Terminate false demo_first) [] []); [run_refl|]|reflexivity].
  run_after (run_task (Terminate false demo_first)) (set_tasks [] echo8).
Qed.

Lemma udp_echo_owns_its_socket_witness : client echo9 = NULL ∧ heap (ew echo9) = ∅.
Proof.
  destruct (udp_echo_owns_its_socket 1 65325 raw_object demo_rawc echo0 echo1 echo9)
    as [(H & _)|(H1 & _ & H2 & _)].
  - done.
  - by split.
  - exact udp_demo_started.
  - exact udp_demo_run.
  - vm_compute in H. by destruct H.
  - split; [exact H1 | exact H2].
Defined.
