(* ===== verification/UDPDialogue.v ===== *)
(** * The UDP echo client and its host

    The client of [EchoUDP], the server of [Host], and a network that loses nothing:
    every datagram the client sends reaches the host, whose reply arrives. *)
From S2P Require Import Prelude Types Interfaces SocketAddr DemoInet World Demo Socket UDPSocket.
From S2P Require Import TCPAsynch TCPStream TCPListener Dispatch Shape System DemoRuns Lifetimes.
From S2P Require Import Events Safety Harness Host Alive Owned Delivery DemoEcho Network EchoUDP EchoUDPSpec.
From stdpp Require Import base gmap list strings.
From Stdlib Require Import ZArith Lia Ascii.

(** [rand] returns a value from 0 on. *)
Class RandLaw (RA : Rand) : Prop := rand_nonneg r : (0 ≤ (rand r).1)%Z.

(** The handler the client binds in [onDNS]. *)
#[export] Instance udp_wiring : Wiring UDPEchoClient.
Proof. refine {| wired p s := _onReadable s = bound M_onRx p |}; by intros p s ?. Defined.

(** Generated characters are printable. *)
Definition printable (x : Z) : Prop := (32 ≤ x < 126)%Z.

#[export] Instance printable_dec x : Decision (printable x).
Proof. unfold printable. apply _. Defined.

Lemma generate_printable {RA : Rand} `{RN : !RandLaw RA} n r : Forall printable (generate n r).1.
Proof.
  revert r. induction n as [|n IH]; intros r; [constructor|]. simpl.
  pose proof (rand_nonneg r) as Hr. unfold char_rand. destruct (rand r) as [v r1]. simpl in Hr.
  specialize (IH r1). destruct (generate n r1) as [l r2]. constructor; [|done].
  unfold printable, ASCII_MAX. pose proof (Z.rem_bound_pos v (126 - 32)). lia.
Qed.

(** [strlen] finds a terminator if there is one. *)
Lemma strlen_spec b :
  match strlen b with
  | Some n => (0 ≤ n < Z.of_nat (length b))%Z
  | None => 0%Z ∉ b
  end.
Proof.
  induction b as [|x b IH]; simpl; [set_solver|]. case_decide; [lia|].
  destruct (strlen b) as [n|]; simpl; [lia|]. set_solver.
Qed.

Section UDPDialogue.
Context {SA : SAL} {MN : Minar} {RT : Runtime} {IN : Inet} {HA : Harness} {RA : Rand}.
Context `{ML : !MinarLaws MN} `{RL : !RuntimeLaws RT} `{SO : !SALOk SA}.
Context `{RE : !RecvLaw SA} `{NL : !NtopLength IN} `{RN : !RandLaw RA}.
Context {DG : Datagrams SA} `{DL : !DatagramLaws SA}.
Abbreviation E A := (M (echo UDPEchoClient) A).

Abbreviation outs e := (outq (stack (ew e))).
Abbreviation ins e := (inq (stack (ew e))).

(** ** The library calls of the client while it is online *)

Lemma lib_send_to p (e : echo UDPEchoClient) b l a n :
  online p e → (0 ≤ l ≤ Z.of_nat (length b))%Z →
  wp (lib (send_to p (Some b) l (Some a) n))
     (λ err e', err = SOCKET_ERROR_NONE ∧ online p e' ∧ (∃ w', e' = set_ew w' e) ∧
                outs e' = outs e ++ [take (Z.to_nat l) b] ∧ ins e' = ins e) e.
Proof.
  intros Hon Hl. destruct (online_lookup p e Hon) as (o & Ho & _ & _ & Hi & Ha & Hf).
  destruct (present_arg4 _ _ _ _ _ _ (ft_send_to _ Hf (Some b) l (getAddr a) n)) as [f Hfn].
  destruct (send_to_takes _ f b l (getAddr a) n (sock_of o) (stack (ew e)) Hfn Hl)
    as (s' & S' & Hc & Hi' & Ht & Hx).
  eapply wp_mono; [eapply (online_call p e o (SendTo p (Some b) l (Some a) n));
    [done | done | reflexivity | set_solver | done | done | reflexivity
    | eauto with moves typeclass_instances | | | exact Hc | done]|].
  - unfold send_to. rewrite (get_socket_bind _ o) by done. by rewrite decide_False by done.
  - unfold arg4. by rewrite Hfn.
  - intros err e' (-> & Ho' & Hs & Hw). rewrite Hs. repeat (split; [done|]). done.
Qed.

Lemma lib_recv_datagram p (e : echo UDPEchoClient) b l d q :
  online p e → ins e = d :: q → (Z.of_nat (length d) ≤ l ≤ Z.of_nat (length b))%Z →
  wp (lib (recv p (Some b) (Some l)))
     (λ r e', r = (SOCKET_ERROR_NONE, Some (d ++ drop (length d) b), Some (Z.of_nat (length d))) ∧
              online p e' ∧ (∃ w', e' = set_ew w' e) ∧ outs e' = outs e ∧ ins e' = q) e.
Proof.
  intros Hon Hq Hl. destruct (online_lookup p e Hon) as (o & Ho & _ & _ & Hi & Ha & Hf).
  destruct (present_arg2 _ _ _ _ (ft_recv _ Hf (Some b) (Some l))) as [f Hfn].
  destruct (recv_datagram _ f b l (sock_of o) (stack (ew e)) d q Hfn Hq Hl)
    as (s' & S' & Hc & Hi' & Hx & Ht).
  eapply wp_mono; [eapply (online_call p e o (Recv p (Some b) (Some l)));
    [done | done | reflexivity | set_solver | done | done | reflexivity
    | eauto with moves typeclass_instances | | | exact Hc | done]|].
  - unfold recv. rewrite (get_socket_bind _ o) by done. by rewrite decide_False by done.
  - unfold arg2. by rewrite Hfn.
  - intros r e' (-> & Ho' & Hs & Hw). rewrite Hs. repeat (split; [done|]). done.
Qed.

(** ** The handlers while the client is online *)

(** The program after some statements: its client, the datagrams under way, its tasks. *)
Record told (p : ptr) (e : echo UDPEchoClient) (c : UDPEchoClient) (O I : list (list Z))
    (l : list task) (e' : echo UDPEchoClient) : Prop := {
  td_online : online p e';
  td_client : clients e' !! p = Some c;
  td_out : outs e' = O;
  td_in : ins e' = I;
  td_tasks : tasks e' = l;
  td_failures : failures e' = failures e
}.

Lemma online_members p c (e : echo UDPEchoClient) :
  online p e → clients e !! p = Some c → udp_members c.
Proof.
  intros [He _] Hc. destruct (alive_lookup p e He) as (c' & Hc' & Hok). rewrite Hc in Hc'.
  by injection Hc' as <-.
Qed.

Lemma send_test_result p c e :
  online p e → clients e !! p = Some c →
  wp (send_test p)
     (λ _ e', ∃ b r, Z.of_nat (length b) = BUFFER_SIZE ∧ Forall printable b ∧
                told p e (set_rand r (set_out b c)) (outs e ++ [take 4 b]) (ins e) (tasks e) e') e.
Proof.
  intros Hon Hc. destruct (online_members p c e Hon Hc) as (M1 & M2 & M3).
  apply wp_bind. eapply wp_upd_client; [done|].
  pose proof (generate_length (Z.to_nat BUFFER_SIZE) (rand_state c)) as Hl.
  pose proof (generate_printable (Z.to_nat BUFFER_SIZE) (rand_state c)) as Hp.
  destruct (generate _ _) as [b r]. cbn [fst] in Hl, Hp. apply wp_bind.
  eapply wp_get_client; [simpl; apply lookup_insert_eq|]. apply wp_bind.
  eapply wp_mono; [apply lib_send_to; [apply online_client; [done|] |]|].
  - split; [simpl; by rewrite Hl | done].
  - simpl. rewrite Hl. unfold sizeof_BUFFER_SIZE, BUFFER_SIZE. lia.
  - intros err e' (-> & Ho & [w' ->] & Hq & Hi). apply wp_TEST_ASSERT; [done|].
    exists b, r. split; [by rewrite Hl|]. split; [done|]. split; try done. simpl. apply lookup_insert_eq.
Qed.

(** Up to the assertion on its contents, [onRx] puts an echo into the buffer. *)
Lemma onRx_compares p c q e :
  online p e → clients e !! p = Some c → ins e = take 4 (out_buffer c) :: q →
  ∃ e1, onRx p e = next_round p e1 ∧
        told p e (set_in (take 4 (out_buffer c) ++ drop 4 (in_buffer c)) c) (outs e) q (tasks e) e1.
Proof.
  intros Hon Hc Hq. destruct (online_members p c e Hon Hc) as (M1 & M2 & M3).
  unfold BUFFER_SIZE in M1, M2. set (d := take 4 (out_buffer c)) in *.
  assert (length d = 4) as Hd by (unfold d; rewrite length_take; lia).
  unfold onRx. erewrite bind_run; [|unfold get_client; by rewrite Hc].
  pose proof (lib_recv_datagram p e (in_buffer c) BUFFER_SIZE d q Hon Hq) as Hw.
  unfold wp in Hw. destruct (lib (recv _ _ _) e) as [[r e1]|] eqn:E.
  2:{ exfalso. apply Hw. unfold BUFFER_SIZE. lia. }
  destruct Hw as (-> & Ho & [w' ->] & Hout & Hin); [unfold BUFFER_SIZE; lia|].
  rewrite (bind_run _ _ _ _ _ E). rewrite Hd. cbn [fst snd default].
  erewrite bind_run; [|unfold upd_client; erewrite bind_run; [done|]; unfold get_client; simpl; by rewrite Hc].
  set (e1 := set_clients _ _). assert (clients e1 !! p = Some (set_in (d ++ drop 4 (in_buffer c)) c)) as Hc1
    by (simpl; apply lookup_insert_eq).
  exists e1. split.
  - unfold TEST_ASSERT at 1. rewrite bool_decide_eq_true_2 by done.
    erewrite bind_run; [|unfold get_client; by rewrite Hc1]. unfold TEST_ASSERT, memcmp0.
    rewrite bool_decide_eq_true_2; [done|]. simpl in_buffer. simpl out_buffer.
    change (Z.to_nat (Z.min BUFFER_SIZE (Z.of_nat 4))) with 4. fold d.
    by apply take_app_length'.
  - split; try done. apply online_client; [done|]. split; [done|]. split; [|done].
    simpl. rewrite length_app, length_drop. unfold BUFFER_SIZE. lia.
Qed.

(** The state [next_round] continues from once it has counted the round. *)
Definition counting (p : ptr) (c : UDPEchoClient) (e : echo UDPEchoClient) : echo UDPEchoClient :=
  set_clients (<[p := set_loop (u32 (loop_ctr c + 1)) c]> (clients e)) e.

Lemma online_counting p c e : online p e → clients e !! p = Some c → online p (counting p c e).
Proof.
  intros Hon Hc. destruct (online_members p c e Hon Hc) as (M1 & M2 & M3). apply online_client; [done|].
  split; [done|]. split; [done|]. by apply wrap_range.
Qed.

(** Before the hundredth round, the next characters are sent. *)
Lemma next_round_sends p c e :
  online p e → clients e !! p = Some c → (0 ≤ loop_ctr c)%Z → (loop_ctr c + 1 < MAX_ECHO_LOOPS)%Z →
  wp (next_round p)
     (λ _ e', ∃ b r, Z.of_nat (length b) = BUFFER_SIZE ∧ Forall printable b ∧
                told p e (set_rand r (set_out b (set_loop (loop_ctr c + 1) c)))
                     (outs e ++ [take 4 b]) (ins e) (tasks e) e') e.
Proof.
  intros Hon Hc H0 Hlt. unfold MAX_ECHO_LOOPS in Hlt.
  assert (u32 (loop_ctr c + 1) = loop_ctr c + 1)%Z as Hu by (apply wrap_small; lia).
  apply wp_bind. eapply wp_upd_client; [done|]. pose proof (online_counting p c e Hon Hc) as Hon1.
  unfold counting in Hon1. rewrite Hu in *. apply wp_bind.
  eapply wp_get_client; [apply lookup_insert_eq|]. rewrite decide_True by (simpl; unfold MAX_ECHO_LOOPS; lia).
  apply wp_bind. eapply wp_mono; [eapply (send_test_result p); [exact Hon1 | apply lookup_insert_eq]|].
  intros [] e' (b & r & Hl & Hp & [T1 T2 T3 T4 T5 T6]). unfold finish. apply wp_bind.
  eapply wp_get_client; [done|]. rewrite decide_False by (simpl; unfold MAX_ECHO_LOOPS; lia).
  exists b, r. split; [done|]. split; [done|]. by split.
Qed.

(** The hundredth round sends what is in the buffer and terminates, or runs off it. *)
Lemma next_round_ends p c e :
  online p e → clients e !! p = Some c → (loop_ctr c + 1 = MAX_ECHO_LOOPS)%Z →
  match strlen (in_buffer c) with
  | Some n =>
    wp (next_round p)
       (λ _ e', told p e (set_loop MAX_ECHO_LOOPS c) (outs e ++ [take (Z.to_nat n) (in_buffer c)])
                  (ins e) (tasks e ++ [Terminate true p]) e') e
  | None => next_round p e = Fault OutOfBounds
  end.
Proof.
  intros Hon Hc Hlt. pose proof (online_counting p c e Hon Hc) as Hon1. unfold counting in Hon1.
  destruct (online_members p c e Hon Hc) as (M1 & M2 & M3).
  assert (u32 (loop_ctr c + 1) = MAX_ECHO_LOOPS) as Hu by (rewrite Hlt; done). rewrite Hu in Hon1.
  pose proof (strlen_spec (in_buffer c)) as Hs.
  set (e1 := set_clients (<[p := set_loop MAX_ECHO_LOOPS c]> (clients e)) e) in *.
  assert (clients e1 !! p = Some (set_loop MAX_ECHO_LOOPS c)) as Hc1 by apply lookup_insert_eq.
  assert (next_round p e = finish p e1) as Hnr.
  { unfold next_round. erewrite bind_run; [|unfold upd_client; erewrite bind_run; [done|]; unfold get_client; by rewrite Hc].
    rewrite Hu. fold e1. erewrite bind_run; [|unfold get_client; by rewrite Hc1].
    rewrite decide_False by done. done. }
  destruct (strlen (in_buffer c)) as [n|] eqn:E.
  - unfold wp. rewrite Hnr. unfold finish. erewrite bind_run; [|unfold get_client; by rewrite Hc1].
    rewrite decide_True by done. cbn [in_buffer _resolvedAddr _port set_loop]. rewrite E.
    pose proof (lib_send_to p e1 (in_buffer c) n (_resolvedAddr c) (_port c) Hon1) as Hw.
    unfold wp in Hw. unfold mbind, M_bind.
    destruct (lib _ e1) as [[err e2]|]; [|apply Hw; lia].
    destruct Hw as (-> & Ho & [w' ->] & Hq & Hi); [lia|].
    split; [by apply online_tasks | | done | done | done | done]. exact Hc1.
  - rewrite Hnr. unfold finish. erewrite bind_run; [|unfold get_client; by rewrite Hc1].
    rewrite decide_True by done. cbn [in_buffer set_loop]. by rewrite E.
Qed.

(** ** The dialogue *)

Definition ev_datagram : socket_event := mk_socket_event SOCKET_EVENT_RX_DONE info_none.

(** The number of echoes the client has received, and the program: the host receives a
    datagram and its reply arrives, or the client is told that something arrived. *)
Inductive udp_step (p : ptr) : nat * echo UDPEchoClient → nat * echo UDPEchoClient → Prop :=
| udp_host n e d q S' :
    outs e = d :: q → outq S' = q → inq S' = ins e ++ [udp_handle d] →
    udp_step p (n, e) (n, set_ew (set_stack S' (ew e)) e)
| udp_round n e e' :
    ins e ≠ [] → delivered p ev_datagram e e' → udp_step p (n, e) (S n, e').

(** [n] rounds have passed: one datagram is under way, the first four characters of what
    the client generated; what the storage of the client contained is still in the rest
    of its receive buffer. *)
Record chatting (p : ptr) (raw : list Z) (f : nat) (n : nat) (e : echo UDPEchoClient)
    (c : UDPEchoClient) : Prop := {
  ch_online : online p e;
  ch_client : clients e !! p = Some c;
  ch_loop : loop_ctr c = Z.of_nat n;
  ch_failures : failures e = f;
  ch_rest : drop 4 (in_buffer c) = drop 4 raw;
  ch_going : n < 100 → tasks e = [] ∧ Forall printable (out_buffer c) ∧
                       ins e ++ outs e = [take 4 (out_buffer c)];
  ch_over : n = 100 → tasks e = [Terminate true p]
}.

Lemma call_onRx p q : on_callback (CbReadable (bound M_onRx p) q) = onRx p.
Proof. exact (call_readable p q). Qed.

Lemma delivery_datagram p (e : echo UDPEchoClient) :
  online p e →
  ∃ o, heap (ew e) !! p = Some o ∧ delivery o p ev_datagram = Some (CbReadable (bound M_onRx p) p).
Proof.
  intros (o & Ho & Hv & Hr & _)%online_lookup. exists o. split; [done|].
  unfold delivery, meaning. rewrite Hv. simpl. simpl in Hr. by rewrite Hr.
Qed.

(** The buffer of the last round has a terminator exactly if the storage had one. *)
Lemma strlen_last out raw rest :
  Z.of_nat (length out) = BUFFER_SIZE → Forall printable out → drop 4 rest = drop 4 raw →
  (is_Some (strlen (take 4 out ++ drop 4 rest)) ↔ 0%Z ∈ drop 4 raw).
Proof.
  intros Hl Hp Hr. rewrite Hr.
  assert (∀ x, Forall printable x → is_Some (strlen (x ++ drop 4 raw)) ↔ 0%Z ∈ drop 4 raw) as H.
  { intros x Hx. induction Hx as [|a x Ha _ IH].
    - simpl. generalize (drop 4 raw). intros l. pose proof (strlen_spec l) as Hs. split.
      + intros [n Hn]. destruct (decide (0%Z ∈ l)) as [|Hn0]; [done|]. exfalso. clear Hs.
        revert n Hn. induction l as [|y l IHl]; simpl; intros n; [done|]. case_decide; [set_solver|].
        intros (m & Hm & _)%fmap_Some. eapply IHl; [set_solver | done].
      + intros Hin. destruct (strlen l); [by eexists | done].
    - simpl. rewrite decide_False by (unfold printable in Ha; lia). by rewrite fmap_is_Some. }
  apply H. by apply Forall_take.
Qed.

(** One round, on every outcome. *)
Lemma chatting_round p raw f n e c e2 :
  chatting p raw f n e c → ins e ≠ [] → n < 100 → handing p e e2 →
  match onRx p e2 with
  | Done (_, e') => (n = 99 → 0%Z ∈ drop 4 raw) ∧ ∃ c', chatting p raw f (S n) e' c'
  | Fault x => x = OutOfBounds ∧ n = 99 ∧ 0%Z ∉ drop 4 raw
  end.
Proof.
  intros [H1 H2 H3 H4 H5 H6 H7] Hin Hn [Hon2 (w2 & -> & Hst)].
  destruct (H6 Hn) as (Ht & Hp & Hfl). destruct (online_members p c e H1 H2) as (M1 & M2 & M3).
  destruct (ins e) as [|d [|]] eqn:Hi; [done | | by destruct (outs e)].
  simpl in Hfl. injection Hfl as -> Hout.
  destruct (onRx_compares p c [] (set_ew w2 e)) as (e1 & Heq & [T1 T2 T3 T4 T5 T6]);
    [done | done | simpl; by rewrite Hst |]. rewrite Heq.
  simpl in T3, T5, T6. rewrite Hst, Hout in T3. set (c1 := set_in _ c) in *.
  assert (drop 4 (in_buffer c1) = drop 4 raw) as Hd1.
  { unfold c1. simpl. rewrite drop_app_length'; [done|]. rewrite length_take. unfold BUFFER_SIZE in M1. lia. }
  destruct (decide (n = 99)) as [->|Hne].
  - pose proof (next_round_ends p c1 e1 T1 T2) as Hw. simpl in Hw. rewrite H3 in Hw. specialize (Hw eq_refl).
    pose proof (strlen_last (out_buffer c) raw (in_buffer c) M1 Hp H5) as Hsl.
    destruct (strlen _) as [m|].
    + unfold wp in Hw. destruct (next_round p e1) as [[[] e']|]; [|done]. destruct Hw as [U1 U2 U3 U4 U5 U6].
      split; [intros _; apply Hsl; by eexists|]. exists (set_loop MAX_ECHO_LOOPS c1). split; try done; try congruence; [lia|].
      intros _. by rewrite U5, T5, Ht.
    + rewrite Hw. split; [done|]. split; [done|]. intros Hz. apply Hsl in Hz. by destruct Hz.
  - pose proof (next_round_sends p c1 e1 T1 T2) as Hw. simpl in Hw. rewrite H3 in Hw.
    specialize (Hw ltac:(lia) ltac:(unfold MAX_ECHO_LOOPS; lia)). unfold wp in Hw.
    destruct (next_round p e1) as [[[] e']|]; [|done]. destruct Hw as (b & r & Hb & Hbp & [U1 U2 U3 U4 U5 U6]).
    split; [lia|]. eexists. split; [done | exact U2 | simpl; lia | congruence | done | | lia].
    intros _. split; [by rewrite U5, T5|]. split; [done|]. simpl. by rewrite U3, U4, T3, T4.
Qed.

Lemma chatting_host p raw f n e c d q S' :
  chatting p raw f n e c → outs e = d :: q → outq S' = q → inq S' = ins e ++ [udp_handle d] →
  chatting p raw f n (set_ew (set_stack S' (ew e)) e) c.
Proof.
  intros [H1 H2 H3 H4 H5 H6 H7] Hd Hq Hi. split; try done; [by apply online_stack|].
  intros Hn. destruct (H6 Hn) as (Ht & Hp & Hfl). split; [done|]. split; [done|]. simpl.
  rewrite Hi, Hq, <- Hfl, Hd, <- app_assoc. done.
Qed.

(** The client has sent its first characters. *)
Definition launched (p : ptr) (c : UDPEchoClient) (e : echo UDPEchoClient) : Prop :=
  online p e ∧ clients e !! p = Some c ∧ loop_ctr c = 0%Z ∧ tasks e = [] ∧
  Forall printable (out_buffer c) ∧ ins e = [] ∧ outs e = [take 4 (out_buffer c)].

Lemma chatting_run p c1 e1 k e :
  launched p c1 e1 → rtc (udp_step p) (0, e1) (k, e) → k ≤ 100 →
  ∃ c, chatting p (in_buffer c1) (failures e1) k e c.
Proof.
  intros (L1 & L2 & L3 & L4 & L5 & L6 & L7) Hr Hk.
  enough (∀ x, rtc (udp_step p) (0, e1) x → x.1 ≤ 100 →
    ∃ c, chatting p (in_buffer c1) (failures e1) x.1 x.2 c) as H by exact (H (k, e) Hr Hk).
  clear Hr Hk k e. apply (rtc_ind_r (λ x, x.1 ≤ 100 →
    ∃ c, chatting p (in_buffer c1) (failures e1) x.1 x.2 c)); [|intros x y _ Hs IH].
  - intros _. exists c1. split; try done. intros _. cbn [snd]. by rewrite L6, L7.
  - intros Hy. destruct Hs as [n e d q S' Hd Hq Hi|n e e' Hin Hd]; simpl in *.
    + destruct (IH Hy) as [c Hc]. exists c. by eapply chatting_host.
    + destruct (IH ltac:(lia)) as [c Hc]. pose proof (ch_online _ _ _ _ _ _ Hc) as Hon.
      destruct (delivery_datagram p e Hon) as (o & Ho & Hdl).
      destruct (delivered_handler p ev_datagram o _ _ _ Hon eq_refl Ho Hdl Hd) as (e2 & Hh & Hcb).
      rewrite call_onRx in Hcb. pose proof (chatting_round p _ _ n e c e2 Hc Hin ltac:(lia) Hh) as Hw.
      rewrite Hcb in Hw. by destruct Hw.
Qed.

(** The UDP echo client and its host agree, and the end depends on what the storage of
    the client contained.  Until the hundredth echo no assertion fails, exactly one
    datagram is under way, the counter is the number of echoes and each can be handled to
    the end.  The hundredth echo is handled to the end, with the client's request to
    terminate with success, exactly if one of the last sixty bytes of the storage of its
    receive buffer, which the program never writes, happened to be zero; otherwise
    [strlen] reads past the array. *)
Theorem udp_dialogue_depends p c1 e1 k e :
  launched p c1 e1 → rtc (udp_step p) (0, e1) (k, e) → k ≤ 100 →
  failures e = failures e1 ∧ loop_ctr <$> clients e !! p = Some (Z.of_nat k) ∧
  (k < 100 → tasks e = [] ∧ length (inq (stack (ew e)) ++ outq (stack (ew e))) = 1) ∧
  (k = 100 → tasks e = [Terminate true p]) ∧
  (inq (stack (ew e)) ≠ [] → k < 99 → ∃ e', delivered p ev_datagram e e') ∧
  (inq (stack (ew e)) ≠ [] → k = 99 →
     if decide (0%Z ∈ drop 4 (in_buffer c1)) then ∃ e', delivered p ev_datagram e e'
     else ∀ e2, handing p e e2 → onRx p e2 = Fault OutOfBounds).
Proof.
  intros Hl Hr Hk. destruct (chatting_run p c1 e1 k e Hl Hr Hk) as [c Hc].
  pose proof Hc as [H1 H2 H3 H4 H5 H6 H7]. split; [done|]. split; [rewrite H2; simpl; by f_equal|].
  assert (ins e ≠ [] → k < 100 → (k = 99 → 0%Z ∈ drop 4 (in_buffer c1)) →
          ∃ e', delivered p ev_datagram e e') as Hdel.
  { intros Hin Hlt Hz. destruct (delivery_datagram p e H1) as (o & Ho & Hdl).
    apply (deliver p ev_datagram o _ _ H1 eq_refl Ho Hdl). intros e2 Hh. rewrite call_onRx.
    pose proof (chatting_round p _ _ k e c e2 Hc Hin Hlt Hh) as Hw.
    destruct (onRx p e2) as [[[] e']|]; [eauto|]. destruct Hw as (_ & -> & Hn). by destruct Hn; auto. }
  split; [intros Hn; destruct (H6 Hn) as (? & _ & ->); by split|]. split; [done|].
  split; [intros Hin Hn; apply Hdel; [done | lia | lia]|].
  intros Hin Hn. case_decide as Hz; [apply Hdel; [done | lia | done]|]. intros e2 Hh.
  pose proof (chatting_round p _ _ k e c e2 Hc Hin ltac:(lia) Hh) as Hw.
  destruct (onRx p e2) as [[[] e']|x]; [by destruct Hw as [Hw _]; specialize (Hw Hn) |]. by destruct Hw as (-> & _).
Qed.
End UDPDialogue.

(** ** The theorem at a concrete run *)

#[local] Existing Instances dgram_sal dgram_sal_ok dgram_queues dgram_recv_law dgram_laws.

(** A generator that returns its non-negative state. *)
#[local] Instance abs_rand : Rand := λ r, (Z.abs r, r + 1)%Z.
#[local] Instance abs_rand_law : RandLaw abs_rand.
Proof. intros r. simpl. lia. Qed.

(** The client is created and started, and the address of its host is resolved. *)
Definition dgram_world : world := mk_world ∅ 0 NULL true (mk_demo_minar [] ∅) (mk_dgram [] [] None).
Definition chat0 : echo UDPEchoClient := mk_echo dgram_world ∅ NULL (replicate 64 0%Z) [] 0 0.
Definition chat1 : echo UDPEchoClient := after (start_client 1 65325 raw_object demo_rawc) chat0.
Definition chat2 : echo UDPEchoClient := after (run_task demo_start) (set_tasks [] chat1).
Definition chat3 : echo UDPEchoClient :=
  set_ew (after (interrupt demo_first demo_resolved) (ew chat2)) chat2.
Definition chat_idle (e : echo UDPEchoClient) : echo UDPEchoClient :=
  set_ew (set_sched (demo_idle (sched (ew e))) (ew e)) e.
Definition chat4 : echo UDPEchoClient := after (call_handler demo_dns) (chat_idle chat3).
Definition chat5 : echo UDPEchoClient :=
  let S := stack (ew chat4) in
  set_ew (set_stack (mk_dgram (tail (dg_out S)) (dg_in S ++ [udp_handle (default [] (head (dg_out S)))]) (dg_asked S)) (ew chat4)) chat4.
Definition chat_client : UDPEchoClient := default demo_rawc (clients chat4 !! demo_first).

Lemma dgram_runs : rtc echo_step chat1 chat4.
Proof.
  eapply rtc_l; [apply (echo_task demo_start [] []); [run_refl|]|].
  { run_after (run_task demo_start) (set_tasks [] chat1). }
  eapply rtc_l; [apply (echo_event demo_first demo_resolved); [run_refl | | run_refl |]|].
  { apply (bool_decide_eq_true_1 (is_Some (heap (ew chat2) !! demo_first))). run_refl. }
  { run_after (interrupt demo_first demo_resolved) (ew chat2). }
  fold chat2. eapply rtc_l; [|reflexivity].
  apply (echo_callback demo_dns (demo_idle (sched (ew chat3))) chat3 chat4).
  - assert (pending (sched (ew chat3)) = [demo_dns]) as Hp by run_refl. by rewrite Hp.
  - apply demo_idle_periodic.
  - run_after (call_handler demo_dns) (chat_idle chat3).
Qed.

Lemma dgram_started : start_client 1 65325 raw_object demo_rawc chat0 = Done (tt, chat1).
Proof. run_after (start_client 1 65325 raw_object demo_rawc) chat0. Qed.

Lemma dgram_alive : alive demo_first chat4.
Proof.
  destruct (start_alive 1 65325 raw_object demo_rawc chat0 chat1) as [Ha _];
    [done | by split | exact dgram_started |].
  destruct (owned_run chat1 chat4 (or_introl (ex_intro _ _ Ha)) dgram_runs) as [[p Hp]|Hf].
  - assert (client chat4 = demo_first) as E by run_refl. by rewrite (al_client p chat4 Hp) in E; subst.
  - exfalso. pose proof (fin_client chat4 Hf) as H. vm_compute in H. done.
Qed.

Lemma dgram_launched : launched demo_first chat_client chat4.
Proof.
  set (o := default raw_object (heap (ew chat4) !! demo_first)).
  assert (heap (ew chat4) !! demo_first = Some o) as Ho by (apply default_there; run_refl).
  split; [split; [exact dgram_alive|]|].
  { split; [run_refl|]. exists o. split; [exact Ho|]. split; [vm_compute; discriminate|].
    change (_onReadable (o_Socket o) = bound M_onRx demo_first). run_refl. }
  split; [apply default_there; run_refl|]. split; [run_refl|]. split; [run_refl|].
  split; [apply (bool_decide_eq_true_1 (Forall printable (out_buffer chat_client))); run_refl|].
  split; run_refl.
Qed.

Lemma udp_dialogue_depends_witness : ∃ e', delivered demo_first ev_datagram chat5 e'.
Proof.
  assert (rtc (udp_step demo_first) (0, chat4) (0, chat5)) as Hr.
  { eapply rtc_l; [|reflexivity].
    apply (udp_host demo_first 0 chat4 (take 4 (out_buffer chat_client)) [] (stack (ew chat5))); run_refl. }
  destruct (udp_dialogue_depends demo_first chat_client chat4 0 chat5 dgram_launched Hr ltac:(lia))
    as (_ & _ & _ & _ & H & _).
  apply H; [|lia]. intros Hn. vm_compute in Hn. discriminate.
Defined.
