(* ===== verification/UDPSession.v ===== *)
(** * The UDP echo test from its start to its end

    The test function of the UDP echo client with its board and its host, and everything
    that follows, as [TCPSession] has it for the TCP client: the client opens its socket
    and asks for the address of the host, the stack answers, client and host exchange
    datagrams ([UDPDialogue]), and the client terminates, if it comes to that. *)
From S2P Require Import Prelude Types Interfaces SocketAddr DemoInet World Demo Socket UDPSocket.
From S2P Require Import TCPAsynch TCPStream TCPListener Dispatch Shape System DemoRuns Lifetimes.
From S2P Require Import Constructors Events Safety Text Harness Host KeyExchange Alive Owned Delivery.
From S2P Require Import Counters DemoEcho Network Opening EchoUDP EchoUDPSpec UDPDialogue.
From stdpp Require Import base gmap list strings.
From Stdlib Require Import ZArith Lia Ascii.

(** The handler the client gives to [resolve]. *)
Definition dns_wiring : Wiring UDPEchoClient.
Proof. refine {| wired p s := _onDNS s = bound M_onDNS p |}; by intros p s ?. Defined.

Section UDPSession.
Context {SA : SAL} {MN : Minar} {RT : Runtime} {IN : Inet} {HA : Harness} {RA : Rand}.
Context `{ML : !MinarLaws MN} `{RL : !RuntimeLaws RT} `{SO : !SALOk SA} `{EN : !EntryLaw RT}.
Context `{RE : !RecvLaw SA} `{NL : !NtopLength IN} `{RN : !RandLaw RA}.
Context {DG : Datagrams SA} `{DL : !DatagramLaws SA}.

(** Nothing is under way on the stack. *)
Definition silent (S : sal_state) : Prop := outq S = [] ∧ inq S = [].

Context {RS : Resolver SA} `{OL : !OpeningLaws SA silent}.
Context {GT : Greentea} {BO : Board SA} {HO : HostOS} `{HL : !HostLaws HO} {LI : Link GT} `{LL : !LinkLaws GT}.
Context `{BL : !BoardLaws SA silent}.
Abbreviation E A := (M (echo UDPEchoClient) A).

(** ** The client is created *)

Lemma UDPSocket_ctor_runs p st raw (w : world) :
  heap w !! p = Some raw →
  ∃ o, UDPSocket_ctor p st w = Done (tt, set_heap (<[p := o]> (heap w)) w) ∧
       sk_api (sock_of o) = socket_get_api st (stack w).
Proof.
  intros Ho. eexists. split.
  - unfold UDPSocket_ctor. erewrite bind_run by by apply Socket_ctor_run.
    erewrite upd_obj_bind by (simpl; apply lookup_insert_eq).
    erewrite upd_obj_run by (simpl; apply lookup_insert_eq).
    unfold set_heap; simpl. by rewrite !insert_insert_eq.
  - done.
Qed.

(** The state of the program when its client is created and its start is posted. *)
Record udp_started (p : ptr) (n : Z) (rawc : UDPEchoClient) (e0 e : echo UDPEchoClient) : Prop := {
  us_alive : alive p e;
  us_socket : socket_is silent has_api p (ew e);
  us_client : clients e !! p = Some rawc;
  us_tasks : tasks e = [StartTest p (u16 n)];
  us_buffer : buffer e = buffer e0;
  us_counts : uncounted e0 e
}.

Lemma udp_start_client_runs st n raw rawc e0 :
  test_start e0 → udp_members rawc → silent (stack (ew e0)) → socket_get_api st (stack (ew e0)) ≠ NULL →
  match start_client st n raw rawc e0 with
  | Done (_, e1) => udp_started (client e1) n rawc e0 e1
  | Fault f => f = OutOfMemory
  end.
Proof.
  intros Ht Hraw HQ Ha. destruct (operator_new (dom (heap (ew e0)))) as [p|] eqn:Hp.
  2:{ unfold start_client, new_UDPEchoClient, lib, new_storage, mbind, M_bind. by rewrite Hp. }
  set (w1 := set_heap (<[p := raw]> (heap (ew e0))) (ew e0)).
  assert (new_storage raw (ew e0) = Done (p, w1)) as Hns.
  { assert (heap (ew e0) !! p = None) as Hn by by rewrite (proj1 (proj1 Ht)).
    unfold new_storage, place. rewrite Hp. unfold mbind, M_bind. by rewrite Hn. }
  destruct (UDPSocket_ctor_runs p st raw w1) as (o & Hct & Hst); [apply lookup_insert_eq|].
  set (w2 := set_heap (<[p := o]> (heap w1)) w1) in *.
  set (e1 := set_ew (handler_set p (on_Socket (set_onError (bound M_onError p)) o) w2)
      (set_clients (<[p := rawc]> (clients e0)) e0)).
  assert (new_UDPEchoClient st raw rawc e0 = Done (p, e1)) as En.
  { unfold new_UDPEchoClient. erewrite bind_run by (apply lib_run, Hns). erewrite bind_run by reflexivity.
    erewrite bind_run by (apply lib_run; exact Hct).
    erewrite bind_run; [|apply lib_run; apply setOnError_run; apply lookup_insert_eq].
    reflexivity. }
  assert (start_client st n raw rawc e0 =
    Done (tt, set_tasks (tasks e0 ++ [StartTest p (u16 n)]) (set_client p e1))) as E
    by (unfold start_client; by rewrite (bind_run _ _ _ _ _ En)).
  rewrite E. destruct (start_alive _ _ _ _ _ _ Ht Hraw E) as [Hal Htk]. split; try done.
  - split; [done|]. split; [done|]. eexists. split; [simpl; apply lookup_insert_eq|].
    unfold has_api. change (sk_api (sock_of o) ≠ NULL). by rewrite Hst.
  - simpl. apply lookup_insert_eq.
Qed.

(** ** The client asks for the address of its host *)

Record udp_resolving (p : ptr) (h : cstring) (n : Z) (raw : list Z) (e0 e : echo UDPEchoClient) : Prop := {
  ur_online : online (WI := dns_wiring) p e;
  ur_silent : silent (stack (ew e));
  ur_asked : asked (stack (ew e)) = h;
  ur_client : ∃ c, clients e !! p = Some c ∧ loop_ctr c = 0%Z ∧ _port c = n ∧ in_buffer c = raw;
  ur_tasks : tasks e = tasks e0;
  ur_counts : uncounted e0 e
}.

Lemma udp_start_test_asks p h n c e :
  alive p e → socket_is silent has_api p (ew e) → clients e !! p = Some c →
  wp (start_test p h n) (λ _ e', udp_resolving p h (u16 n) (in_buffer c) e e') e.
Proof.
  intros He Hs Hc. pose proof (al_members p e He p c Hc) as (M1 & M2 & M3).
  apply wp_bind. eapply wp_upd_client; [done|]. set (c' := EchoUDP.set_port _ _).
  set (e1 := set_clients _ _). assert (alive p e1) as He1 by by apply alive_clients.
  apply wp_bind. eapply wp_mono.
  { eapply (lib_open silent p e1 (UdpOpen p SOCKET_AF_INET4)); [done | done | reflexivity | set_solver | done..]. }
  intros err e2 (-> & He2 & [w2 ->] & Hs2). apply wp_TEST_ASSERT; [done|].
  apply wp_bind. eapply wp_mono; [apply (lib_resolve silent p); [done | done | set_solver]|].
  intros err e3 (-> & Hq & He3 & [w3 ->] & Hirq & HQ & o & Ho & Hi & Hd). apply wp_TEST_ASSERT; [done|].
  apply wp_ret. split; try done.
  - split; [done|]. split; [done|]. by exists o.
  - exists c'. split; [simpl; apply lookup_insert_eq | done].
Qed.

(** ** The client sends its first characters *)

Lemma udp_onDNS_launches p c a e :
  online (WI := dns_wiring) p e → silent (stack (ew e)) → tasks e = [] →
  clients e !! p = Some c → loop_ctr c = 0%Z →
  wp (onDNS p a)
     (λ _ e', failures e' = failures e ∧ ∃ c', launched p c' e' ∧ in_buffer c' = in_buffer c) e.
Proof.
  intros [He (Hirq & o & Ho & Hi & _)] HQ Ht Hc Hl. pose proof (al_members p e He p c Hc) as (M1 & M2 & M3).
  apply wp_bind. eapply wp_upd_client; [done|].
  apply wp_bind. eapply wp_upd_client; [simpl; apply lookup_insert_eq|]. set (c2 := set_out _ _).
  assert (udp_members c2) as Hm2.
  { split; [|done]. unfold c2. cbn [out_buffer set_out]. rewrite fmtIPv6_length; simpl; [done | lia]. }
  set (e1 := set_clients (<[p := c2]> _) _).
  assert (alive p e1) as He1 by (apply alive_clients; [by apply alive_clients | done]).
  assert (clients e1 !! p = Some c2) as Hc2 by (simpl; apply lookup_insert_eq).
  assert (socket_is silent has_api p (ew e1)) as Hs1.
  { split; [done|]. split; [done|]. exists o. split; [done|].
    destruct (alive_object p e He) as (o' & Ho' & _ & Ha & _). rewrite Ho in Ho'. injection Ho' as <-. by apply Ha. }
  apply wp_bind. eapply wp_mono.
  { eapply (lib_open silent p e1 (UdpOpen p SOCKET_AF_INET4)); [done | done | reflexivity | set_solver | done..]. }
  intros err e2 (-> & He2 & [w2 ->] & Hs2). apply wp_TEST_ASSERT; [done|].
  run_setter (SetOnReadable p (bound M_onRx p)) (on_Socket (set_onReadable (bound M_onRx p)))
    (λ o, sk_impl (sock_of o) ≠ NULL ∧ wired p (o_Socket o)).
  intros [] e3 (He3 & [w3 ->] & Hq3 & [HQ3 HQ3'] & o3 & Ho3 & Hi3 & Hw3).
  eapply wp_mono; [apply (send_test_result p c2); [|exact Hc2]|].
  { split; [done|]. split; [done|]. by exists o3. }
  intros [] e4 (b & r & Hb & Hbp & [T1 T2 T3 T4 T5 T6]). split; [exact T6|].
  eexists. split; [|shelve]. split; [done|]. split; [exact T2|]. split; [done|]. split; [by rewrite T5|].
  split; [done|]. split; [by rewrite T4|]. rewrite T3. simpl. simpl in HQ3. by rewrite HQ3.
  Unshelve. done.
Qed.

(** ** The end, and the counters *)

#[local] Instance udp_handlers_unreported : Unreported (C := UDPEchoClient).
Proof.
  intros c. unfold on_callback. simpl.
  unfold call_handler, onError, onDNS, onRx, next_round, finish, send_test, post_task. solve_counters.
Qed.

Lemma udp_delete_uncounted p : moves uncounted (delete_UDPEchoClient p).
Proof. unfold delete_UDPEchoClient. solve_counters. Qed.

Lemma udp_terminate_passes p e : alive p e → wp (terminate true) (λ _ e', passed_since e e') e.
Proof.
  intros He. apply (terminate_passed delete_UDPEchoClient p); [done | apply udp_delete_uncounted |].
  eapply (terminate_finishes delete_UDPEchoClient p); [by apply udp_delete_finishes | done].
Qed.

(** ** The session *)

Definition ev_dns (a : socket_addr) (d : cstring) : socket_event :=
  mk_socket_event SOCKET_EVENT_DNS (info_d a d).

(** Where the test stands; [UTalking k] after [k] echoes. *)
Inductive udp_stage :=
| UStarting (e : echo UDPEchoClient)
| UResolving (e : echo UDPEchoClient)
| UTalking (k : nat) (e : echo UDPEchoClient)
| UEnded (e : echo UDPEchoClient).

(** The scheduler starts the client; the stack answers with an address; client and host
    exchange datagrams; a termination that the client posted is run before anything that
    arrives later is dispatched. *)
Inductive udp_session_step (p : ptr) : udp_stage → udp_stage → Prop :=
| udp_session_start e n e' :
    tasks e = [StartTest p n] → run_task (StartTest p n) (set_tasks [] e) = Done (tt, e') →
    udp_session_step p (UStarting e) (UResolving e')
| udp_session_dns a d e e' :
    delivered p (ev_dns a d) e e' → udp_session_step p (UResolving e) (UTalking 0 e')
| udp_session_talk k e k' e' :
    tasks e = [] → udp_step p (k, e) (k', e') → udp_session_step p (UTalking k e) (UTalking k' e')
| udp_session_end k e s q l e' :
    tasks e = Terminate s q :: l → run_task (Terminate s q) (set_tasks l e) = Done (tt, e') →
    udp_session_step p (UTalking k e) (UEnded e').

(** The session is on its course after [j] steps, for a client whose receive buffer was
    [raw] in storage; the host's server is at [h] and [n]. *)
Definition udp_course (p : ptr) (h : cstring) (n : Z) (raw : list Z) (e0 : echo UDPEchoClient)
    (j : nat) (s : udp_stage) : Prop :=
  match s with
  | UStarting e => j = 0 ∧ alive p e ∧ socket_is silent has_api p (ew e) ∧ uncounted e0 e ∧
                   tasks e = [StartTest p n] ∧ Some (c_str (to_chars (buffer e))) = h ∧
                   in_buffer <$> clients e !! p = Some raw
  | UResolving e => j = 1 ∧ uncounted e0 e ∧ tasks e = [] ∧ ∃ e1, udp_resolving p h n raw e1 e
  | UTalking k e => k ≤ 100 ∧ j ≤ 2 + 2 * k + (if decide (k = 100) then 0 else length (inq (stack (ew e)))) ∧
                    (k = 100 → 0%Z ∈ drop 4 raw) ∧ unreported e0 e ∧
                    ∃ c, chatting p raw (failures e0) k e c
  | UEnded e => j ≤ 203 ∧ 0%Z ∈ drop 4 raw ∧ passed_since e0 e
  end.

Lemma call_onDNS p q a d : on_callback (CbDNS (bound M_onDNS p) q a d) = onDNS p a.
Proof. exact (call_dns p q a d). Qed.

Lemma udp_delivery_dns p a d e :
  online (WI := dns_wiring) p e →
  ∃ o, heap (ew e) !! p = Some o ∧ delivery o p (ev_dns a d) = Some (CbDNS (bound M_onDNS p) p a d).
Proof.
  intros (o & Ho & Hv & Hw & _)%online_lookup. exists o. split; [done|].
  unfold delivery, meaning. rewrite Hv. simpl in *. by rewrite Hw.
Qed.

Lemma udp_starts p h n raw e0 e :
  u16 n = n → udp_course p h n raw e0 0 (UStarting e) →
  wp (run_task (StartTest p n)) (λ _ e', udp_course p h n raw e0 1 (UResolving e')) (set_tasks [] e).
Proof.
  intros Hn (_ & He & Hs & Hc & Ht & <- & (c & Hcl & ->)%fmap_Some). apply wp_bind. unfold wp at 1, gets.
  assert (alive p (set_tasks [] e)) as He1 by (destruct He; by split).
  eapply wp_mono; [by apply (udp_start_test_asks p _ n c)|]. intros [] e' Hr. rewrite Hn in Hr.
  split; [done|]. split; [etrans; [exact Hc | exact (ur_counts _ _ _ _ _ _ Hr)]|].
  split; [exact (ur_tasks _ _ _ _ _ _ Hr) | by eexists].
Qed.

(** An answer of the resolver: it can be delivered, and then the first datagram is under
    way. *)
Lemma udp_answered_handler p h n raw e1 e a d e2 :
  udp_resolving p h n raw e1 e → tasks e = [] → handing (WI := dns_wiring) p e e2 →
  wp (on_callback (CbDNS (bound M_onDNS p) p a d))
     (λ _ e', failures e' = failures e ∧ ∃ c, launched p c e' ∧ in_buffer c = raw) e2.
Proof.
  intros [R1 R2 R3 (c & Hc & Hl & _ & <-) R5 R6] Ht [Hon2 (w2 & -> & Hst)]. rewrite call_onDNS.
  apply (udp_onDNS_launches p c a (set_ew w2 e)); try done. simpl. by rewrite Hst.
Qed.

Lemma udp_answered p h n raw e1 e a d e' :
  udp_resolving p h n raw e1 e → tasks e = [] → delivered p (ev_dns a d) e e' →
  failures e' = failures e ∧ ∃ c, launched p c e' ∧ in_buffer c = raw.
Proof.
  intros Hr Ht Hd. pose proof (ur_online _ _ _ _ _ _ Hr) as Hon.
  destruct (udp_delivery_dns p a d e Hon) as (o & Ho & Hdl).
  destruct (delivered_handler (WI := dns_wiring) p (ev_dns a d) o _ _ _ Hon eq_refl Ho Hdl Hd) as (e2 & Hh & Hc).
  pose proof (udp_answered_handler p h n raw e1 e a d e2 Hr Ht Hh) as Hw. unfold wp in Hw. by rewrite Hc in Hw.
Qed.

Lemma udp_can_answer p h n raw e1 e a d :
  udp_resolving p h n raw e1 e → tasks e = [] → ∃ e', delivered p (ev_dns a d) e e'.
Proof.
  intros Hr Ht. pose proof (ur_online _ _ _ _ _ _ Hr) as Hon.
  destruct (udp_delivery_dns p a d e Hon) as (o & Ho & Hdl).
  apply (deliver (WI := dns_wiring) p (ev_dns a d) o _ _ Hon eq_refl Ho Hdl).
  intros e2 Hh. pose proof (udp_answered_handler p h n raw e1 e a d e2 Hr Ht Hh) as Hw. unfold wp in Hw.
  destruct (on_callback _ e2) as [[[] e']|]; [eauto | done].
Qed.

Lemma launched_chatting p c e :
  launched p c e → chatting p (in_buffer c) (failures e) 0 e c.
Proof.
  intros (L1 & L2 & L3 & L4 & L5 & L6 & L7). split; try done. intros _. by rewrite L6, L7.
Qed.

Lemma udp_terminates p raw f k e c l s q :
  chatting p raw f k e c → k ≤ 100 → tasks e = Terminate s q :: l →
  k = 100 ∧ wp (run_task (Terminate s q)) (λ _ e', passed_since e e') (set_tasks l e).
Proof.
  intros [H1 H2 H3 H4 H5 H6 H7] Hk Hl. destruct (decide (k = 100)) as [->|Hne].
  - split; [done|]. rewrite (H7 eq_refl) in Hl. injection Hl as <- <- <-.
    apply (udp_terminate_passes p (set_tasks [] e)). destruct H1 as [[] _]. by split.
  - destruct (H6 ltac:(lia)) as [Ht _]. by rewrite Ht in Hl.
Qed.

(** The datagram under way is at one of the two sides. *)
Lemma under_way p raw f k e c :
  chatting p raw f k e c → k < 100 →
  length (inq (stack (ew e))) + length (outq (stack (ew e))) = 1.
Proof. intros Hc Hk. destruct (ch_going _ _ _ _ _ _ Hc Hk) as (_ & _ & H). by rewrite <- length_app, H. Qed.

(** An echo the client is told of: the round is over, or the last one faults. *)
Lemma round_delivered p raw f k e c e' :
  chatting p raw f k e c → k < 100 → inq (stack (ew e)) ≠ [] → delivered p ev_datagram e e' →
  (k = 99 → 0%Z ∈ drop 4 raw) ∧ ∃ c', chatting p raw f (S k) e' c'.
Proof.
  intros Hc Hk Hin Hd. pose proof (ch_online _ _ _ _ _ _ Hc) as Hon.
  destruct (delivery_datagram p e Hon) as (o & Ho & Hdl).
  destruct (delivered_handler p ev_datagram o _ _ _ Hon eq_refl Ho Hdl Hd) as (e2 & Hh & Hcb).
  rewrite call_onRx in Hcb. pose proof (chatting_round p _ _ k e c e2 Hc Hin Hk Hh) as Hw. by rewrite Hcb in Hw.
Qed.

Lemma talk_course p h n raw e0 j k e k' e' :
  udp_course p h n raw e0 j (UTalking k e) → tasks e = [] → udp_step p (k, e) (k', e') →
  udp_course p h n raw e0 (S j) (UTalking k' e').
Proof.
  intros (Hk & Hj & Hz & Hv & c & Hc) Ht Hst.
  assert (k < 100) as Hlt.
  { destruct (decide (k = 100)) as [->|]; [|lia]. by rewrite (ch_over _ _ _ _ _ _ Hc eq_refl) in Ht. }
  pose proof (under_way _ _ _ _ _ _ Hc Hlt) as Hu. rewrite decide_False in Hj by lia.
  inversion Hst as [? ? d q S' Hd Hq Hi|? ? ? Hin Hd]; subst.
  - split; [lia|]. rewrite decide_False by lia. simpl. rewrite Hd in Hu. simpl in Hu.
    rewrite Hi, length_app. simpl. split; [lia|]. split; [lia|]. split; [done|]. exists c. by eapply chatting_host.
  - destruct (round_delivered _ _ _ _ _ _ _ Hc Hlt Hin Hd) as [H99 Hc'].
    split; [lia|]. split; [case_decide; lia|]. split; [intros ?; apply H99; lia|].
    split; [etrans; [exact Hv | by eapply delivered_unreported] | done].
Qed.

Lemma udp_course_step p h n raw e0 j s s' :
  u16 n = n → udp_course p h n raw e0 j s → udp_session_step p s s' → udp_course p h n raw e0 (S j) s'.
Proof.
  intros Hn Hs Hst. destruct Hst as [e m e' Ht Hr|a d e e' Hd|k e k' e' Ht Hst|k e b q l e' Hl Hr].
  - pose proof Hs as (-> & _ & _ & _ & Ht' & _). rewrite Ht in Ht'. injection Ht' as ->.
    pose proof (udp_starts p h n raw e0 e Hn Hs) as Hw. unfold wp in Hw. by rewrite Hr in Hw.
  - destruct Hs as (-> & [Hf Hv] & Ht & e1 & Hr).
    destruct (udp_answered p h n raw e1 e a d e' Hr Ht Hd) as (Hf' & c & Hl & <-).
    split; [lia|]. split; [simpl; lia|]. split; [done|].
    split; [etrans; [exact Hv | by eapply delivered_unreported]|].
    exists c. rewrite <- Hf, <- Hf'. by apply launched_chatting.
  - by eapply talk_course.
  - destruct Hs as (Hk & Hj & Hz & Hv & c & Hc).
    destruct (udp_terminates _ _ _ _ _ _ _ _ _ Hc Hk Hl) as [-> Hw]. unfold wp in Hw. rewrite Hr in Hw.
    rewrite decide_True in Hj by done. split; [lia|]. split; [by apply Hz|]. destruct Hw as (H1 & H2 & H3).
    split; [done|]. rewrite H2, H3. split; [exact (ch_failures _ _ _ _ _ _ Hc) | by rewrite Hv].
Qed.

(** The last echo arrived and its handler reads past the client's buffer. *)
Definition overruns (p : ptr) (k : nat) (e : echo UDPEchoClient) : Prop :=
  k = 99 ∧ inq (stack (ew e)) ≠ [] ∧ ∀ e2, handing p e e2 → onRx p e2 = Fault OutOfBounds.

Lemma udp_talk_goes_on p raw f k e c :
  chatting p raw f k e c → k < 100 →
  (∃ s', udp_session_step p (UTalking k e) s') ∨ 0%Z ∉ drop 4 raw ∧ overruns p k e.
Proof.
  intros Hc Hk. destruct (ch_going _ _ _ _ _ _ Hc Hk) as [Ht _]. pose proof (under_way _ _ _ _ _ _ Hc Hk) as Hu.
  destruct (decide (inq (stack (ew e)) = [])) as [Hin|Hin].
  { destruct (outq (stack (ew e))) as [|d q] eqn:Ho; [by rewrite Hin in Hu|].
    destruct (carries_datagram _ d q (udp_handle d) Ho) as (S' & H1 & H2).
    left. eexists. eapply udp_session_talk; [done|]. by eapply udp_host. }
  destruct (decide (k = 99 ∧ 0%Z ∉ drop 4 raw)) as [[-> Hz]|Hz].
  { right. split; [done|]. split; [done|]. split; [done|]. intros e2 Hh.
    pose proof (chatting_round p _ _ 99 e c e2 Hc Hin Hk Hh) as Hw.
    destruct (onRx p e2) as [[[] e']|x]; [by destruct Hw as [Hw _]; specialize (Hw eq_refl) | by destruct Hw as [-> _]]. }
  left. pose proof (ch_online _ _ _ _ _ _ Hc) as Hon. destruct (delivery_datagram p e Hon) as (o & Ho & Hdl).
  destruct (deliver p ev_datagram o _ _ Hon eq_refl Ho Hdl) as [e' He'].
  { intros e2 Hh. rewrite call_onRx. pose proof (chatting_round p _ _ k e c e2 Hc Hin Hk Hh) as Hw.
    destruct (onRx p e2) as [[[] e']|]; [eauto|]. destruct Hw as (_ & -> & Hn'). by destruct Hz. }
  eexists. eapply udp_session_talk; [done|]. by apply udp_round.
Qed.

Lemma udp_course_goes_on p h n raw e0 j s :
  u16 n = n → udp_course p h n raw e0 j s →
  match s with
  | UEnded _ => True
  | UTalking k e => (∃ s', udp_session_step p s s') ∨ 0%Z ∉ drop 4 raw ∧ overruns p k e
  | _ => ∃ s', udp_session_step p s s'
  end.
Proof.
  intros Hn Hs. destruct s as [e|e|k e|e]; [| | |done].
  - pose proof Hs as (-> & _ & _ & _ & Ht & _). pose proof (udp_starts p h n raw e0 e Hn Hs) as Hw. unfold wp in Hw.
    destruct (run_task _ _) as [[[] e']|] eqn:E; [|done]. eexists. by eapply udp_session_start.
  - destruct Hs as (-> & _ & Ht & e1 & Hr).
    destruct (udp_can_answer p h n raw e1 e (mk_socket_addr []) None Hr Ht) as [e' He']. eexists. by eapply udp_session_dns.
  - destruct Hs as (Hk & _ & _ & _ & c & Hc).
    destruct (decide (k = 100)) as [->|Hne]; [|by eapply udp_talk_goes_on; [|lia]].
    pose proof (ch_over _ _ _ _ _ _ Hc eq_refl) as Hl.
    destruct (udp_terminates _ _ _ _ _ _ _ _ _ Hc Hk Hl) as [_ Hw]. unfold wp in Hw.
    destruct (run_task _ _) as [[[] e']|] eqn:E; [|done]. left. eexists. by eapply udp_session_end.
Qed.

Lemma udp_course_run p h n raw e0 i j s s' :
  u16 n = n → udp_course p h n raw e0 i s → nsteps (udp_session_step p) j s s' →
  udp_course p h n raw e0 (i + j) s'.
Proof.
  intros Hn Hs Hr. revert i Hs. induction Hr as [s|j s1 s2 s3 H1 _ IH]; intros i Hs.
  - by rewrite Nat.add_0_r.
  - rewrite Nat.add_succ_r, <- Nat.add_succ_l. apply IH. by eapply udp_course_step.
Qed.

Lemma udp_course_bound p h n raw e0 j s : udp_course p h n raw e0 j s → j ≤ 203.
Proof.
  destruct s as [e|e|k e|e]; [by intros [-> _]; lia | by intros [-> _]; lia | | by intros [? _]].
  intros (Hk & Hj & _ & _ & c & Hc). case_decide; [lia|].
  pose proof (under_way _ _ _ _ _ _ Hc ltac:(lia)). lia.
Qed.

(** ** The test *)

Definition udp_bench_start (b : bench UDPEchoClient) : Prop :=
  test_start (program b) ∧ silent (stack (ew (program b))) ∧
  host (line b) = host_init ∧ inbox (line b) = [].

Lemma udp_test_starts_course raw rawc b0 :
  udp_bench_start b0 → udp_members rawc →
  match test_echo_udp_client raw rawc b0 with
  | Done (r, b1) =>
    r = Some 25000%Z ∧ ∃ h n, u16 n = n ∧
      udp_course (client (program b1)) h n (in_buffer rawc) (program b0) 0 (UStarting (program b1))
  | Fault f => f = OutOfMemory
  end.
Proof.
  intros (Ht & HQ & Hh & Hi) Hraw. pose proof Ht as (H1 & H2 & H3 & Hb).
  destruct (test_reaches_start silent (λ st n, start_client st n raw rawc) 25000 b0 HQ Hh Hi)
    as (S' & ip & n & l & HQ' & Hsv & Hn & Hip & E); [unfold BUFFER_SIZE in Hb; lia|].
  unfold test_echo_udp_client. rewrite E. set (e := set_buffer _ _).
  assert (test_start e) as Hte.
  { split; [done|]. split; [done|]. split; [done|]. simpl.
    rewrite in_zeros_length by (unfold BUFFER_SIZE in Hb; lia). done. }
  pose proof (udp_start_client_runs SOCKET_STACK_LWIP_IPV4 n raw rawc e Hte Hraw HQ' (stack_registered _)) as Hs.
  unfold on_program, mbind, M_bind. simpl.
  destruct (start_client _ _ _ _ _) as [[[] e1]|f]; [|done]. simpl. split; [done|].
  assert (u16 n = n) as Hu by by apply wrap_small. destruct Hs as [S1 S2 S3 S4 S5 S6].
  exists (Some (c_str (to_chars ip))), n. split; [done|]. split; [done|]. split; [done|]. split; [done|].
  split; [done|]. rewrite S4, S5, Hu, S3. split; [done|]. split; [by simpl; rewrite in_zeros_c_str | done].
Qed.

(** C4: the UDP echo test passes by luck.  On a board whose drivers and network stack do
    what they are asked to, with the host test at the other end of the console and a
    network that loses nothing, the test function returns its timeout, which is shorter
    than the host's, unless there is no memory for the client.  What follows takes at most
    203 steps and can always go on until the test has passed, if one of the last sixty
    bytes of the storage of the client's receive buffer happened to be zero; otherwise it
    never ends: the handler of the hundredth echo reads past the buffer. *)
Theorem udp_test_depends raw rawc b0 :
  udp_bench_start b0 → udp_members rawc →
  match case_run (udp_suite raw rawc) b0 with
  | Done (r, b1) =>
    r = Some 25000%Z ∧ (25000 < 1000 * host_timeout (udp_suite raw rawc))%Z ∧
    ∀ j s, nsteps (udp_session_step (client (program b1))) j (UStarting (program b1)) s →
      j ≤ 203 ∧
      match s with
      | UEnded e => passed_since (program b0) e ∧ 0%Z ∈ drop 4 (in_buffer rawc)
      | UTalking k e => (∃ s', udp_session_step (client (program b1)) s s') ∨
                        0%Z ∉ drop 4 (in_buffer rawc) ∧ overruns (client (program b1)) k e
      | _ => ∃ s', udp_session_step (client (program b1)) s s'
      end
  | Fault f => f = OutOfMemory
  end.
Proof.
  intros Hb Hraw. pose proof (udp_test_starts_course raw rawc b0 Hb Hraw) as H.
  change (case_run (udp_suite raw rawc)) with (test_echo_udp_client raw rawc).
  destruct (test_echo_udp_client raw rawc b0) as [[r b1]|f]; [|done].
  destruct H as (Hr & h & n & Hn & Hc). split; [done|]. split; [done|]. intros j s Hs.
  pose proof (udp_course_run _ _ _ _ _ _ _ _ _ Hn Hc Hs) as Hk. split; [exact (udp_course_bound _ _ _ _ _ _ _ Hk)|].
  pose proof (udp_course_goes_on _ _ _ _ _ _ _ Hn Hk) as Hg. destruct s; try done. by destruct Hk as (_ & ? & ?).
Qed.
End UDPSession.

(** ** The theorem at a concrete test *)

#[local] Existing Instances dgram_sal dgram_sal_ok dgram_queues dgram_recv_law dgram_laws dgram_resolver.
#[local] Existing Instances abs_rand abs_rand_law demo_os demo_os_laws direct_line direct_link direct_link_laws.

#[local] Instance dgram_opening : OpeningLaws dgram_sal silent.
Proof. by apply plain_opening. Qed.

(** Drivers that succeed at once. *)
#[local] Instance dgram_board : Board dgram_sal := {|
  SOCKET_STACK_LWIP_IPV4 := 1;
  lwipv4_socket_init S := (SOCKET_ERROR_NONE, S);
  eth_init S := (0%Z, S);
  eth_connect S := (0%Z, S);
  getIPAddress _ := text "10.0.0.2"
|}.
#[local] Instance dgram_board_laws : BoardLaws dgram_sal silent.
Proof. by split; simpl; try by eexists. Qed.

Definition ubench0 : bench UDPEchoClient := mk_bench chat0 (host_init, []) 0.
Definition ubench1 : bench UDPEchoClient := after (test_echo_udp_client raw_object demo_rawc) ubench0.

Lemma ubench_runs : test_echo_udp_client raw_object demo_rawc ubench0 = Done (Some 25000%Z, ubench1).
Proof. run_after (test_echo_udp_client raw_object demo_rawc) ubench0. Qed.

Lemma udp_test_depends_witness : ∃ s', udp_session_step demo_first (UStarting (program ubench1)) s'.
Proof.
  assert (udp_bench_start ubench0) as H0 by by repeat split.
  assert (udp_members demo_rawc) as H1 by by split.
  pose proof (udp_test_depends raw_object demo_rawc ubench0 H0 H1) as H.
  change (case_run (udp_suite raw_object demo_rawc)) with (test_echo_udp_client raw_object demo_rawc) in H.
  rewrite ubench_runs in H.
  exact (proj2 (proj2 (proj2 H) 0 _ (nsteps_O _ _))).
Defined.
